(* ===== verification/_CoqProject ===== *)
-Q . S2P
Prelude.v
Words.v
Text.v
Semaphores.v
Units.v
Schema.v
Limiter.v
Classifier.v
Admission.v
Orders.v
CacheKey.v
CachePolicy.v
Store.v
StoreFacts.v
StoreSafety.v
StoreTheorems.v
StoreLimits.v
Net.v
Forwarded.v
Otlp.v
Validation.v
ValidationTheorems.v
Ceilings.v
Policy.v
PolicyTheorems.v
Window.v
Retries.v
Breakers.v
Upstream.v
UpstreamTheorems.v
PoolFacts.v
BodySpool.v
Json.v
Cli.v
CheckCommand.v
AccessLog.v
Trace.v
Spans.v
Export.v
Collector.v
Metrics.v
Drain.v
AdminEndpoint.v
AdminTheorems.v
StatusTheorems.v
Filters.v
FilterTheorems.v
Proxy.v
ProxyTheorems.v
Published.v
Names.v
Labels.v
Effects.v
Lifecycle.v
Service.v
Observed.v
Gauges.v
Balance.v
Attempts.v
Boot.v
FuzzTargets.v
Sha1.v
SlowOrigin.v
SpikeStore.v
