(* ===== verification/Prelude.v ===== *)
(** * Harmost, verified

    Harmost is a reverse proxy that protects one origin: it bounds how much work
    the origin is given, decides which responses may be shared between users,
    keeps those in a bounded store, and refuses configurations that would leak
    or stall.  This development models the parts of its Rust source
    ([src/src/...]) that decide, and proves what each promises the others.

    ** The parts, and the files that model them

    - [Prelude]: Rust's [Result] and [?], guards, sums over lists and maps, the
      tactics and hint databases the other files use.
    - [Words], [Text], [Orders], [Net]: what the source uses of Rust's standard
      library: machine integers, [str] (split, trim, parse, print), sorting, IP
      and socket addresses with their recursive-descent parser.
    - [Units] ([config/units.rs]): durations and byte sizes.
    - [Schema] ([config/schema.rs]): the configuration, one module per struct.
    - [Otlp] ([telemetry/otlp.rs], the endpoint), [Validation] and
      [ValidationTheorems] ([config/validation.rs]): every check of [validate],
      in order, with one error constructor per message.
    - [Classifier] ([classifier/]): requests, classes, the two framework
      adapters behind one type class.
    - [CacheKey] ([cache/key.rs]): the structural key and its rendering.
    - [CachePolicy] ([cache/policy.rs]): may this request be reused, may this
      response be shared, and for how long.
    - [Semaphores]: what is relied on of tokio's semaphore, a fair one: who waits,
      in which order, and what each has gathered.  [Limiter]
      ([admission/limiter.rs]): one such semaphore, resizable, with a bounded
      queue.  [Admission] ([admission/mod.rs]): route, tier and global limiters
      held by reference.  [Ceilings]: what a reload of them leaves in force.
    - [Store], [StoreFacts], [StoreSafety], [StoreTheorems], [StoreLimits]
      ([cache/store.rs]): the bounded store with its eviction queue, tag index and fills that other
      requests follow while they are written.
    - [Forwarded] ([net/forwarded.rs]): whom to believe about the client.
    - [Policy], [PolicyTheorems] ([policy/], [config/mod.rs]): the compiled
      routes, loading a file and reloading a running server.
    - [Window], [Breakers], [Retries] ([upstream/window.rs], [breaker.rs],
      [retry.rs]): outcomes counted in a ring of time slices, the circuit breaker
      of a backend and the origin-wide retry budget.
    - [Upstream], [UpstreamTheorems], [PoolFacts] ([upstream/mod.rs], [health.rs],
      [resolver.rs]): the pool, the strategies, the layers of [select], the
      in-flight guards, health streaks and re-resolution.
    - [BodySpool] ([proxy/spool.rs]): the buffer between origin and client, and the
      budget all of them share.
    - [Json], [AccessLog] ([telemetry/json.rs], [logging.rs]), [Trace]
      ([trace.rs]), [Spans], [Export], [Collector] ([otlp.rs]): the one escaper with
      a reference reader, the access line, trace context, the encoding of spans,
      the exporter's queue, batches and shutdown, and the post to the collector.
    - [Drain], [AdminEndpoint], [AdminTheorems], [StatusTheorems] ([admin/]): draining,
      the operator's documents and purges over the live state.
    - [Cli], [CheckCommand] ([main.rs]): arguments, the file [init] writes,
      Pingora's settings; the commands [init] and [check].
    - [Filters], [FilterTheorems] ([proxy/mod.rs]): the filters that only decide,
      and what they promise when put together.
    - [Proxy], [ProxyTheorems] ([proxy/mod.rs]): the filters that take and give
      back what a request holds, over the live state ([AdminEndpoint.Live]).
    - [Lifecycle] ([main.rs], [proxy/mod.rs]): how the process starts, and the
      step relation of everything that happens to it afterwards.  [Attempts]: the
      filters around one attempt on the origin, in sequence.
    - [Metrics] ([telemetry/metrics.rs]): the families, their names, labels and
      buckets, their first use, and what publishing does to the registry.
      [Published]: what each filter, service and endpoint publishes, call by
      call.  [Names], [Labels], [Effects]: which labels these carry, and what
      each filter leaves of the values that are published.
    - [Service]: the process with everything [main.rs] starts beside it (cache
      handlers, health checker, exporter, reloader); an event is a step with the
      list of what it publishes.  [Observed], [Gauges], [Balance]: the registry
      such a run leaves.  [Boot] ([main.rs]): [main] and [run], from the
      arguments to the serving service or the exit code.
    - Beside the crate: [FuzzTargets] ([src/fuzz/fuzz_targets/]), each target as
      the bool it asserts; [Sha1] and [SlowOrigin] ([src/bench/slow-origin/]), the
      benchmarks' origin, its accept key and its counters; [SpikeStore]
      ([src/spike/pingora-cache/]), the store the real one grew out of.

    A request meets them in this order: [Forwarded] and [Trace] (client, scheme,
    trace), [Policy] (its route), [Classifier], [CachePolicy] (may it be reused),
    [CacheKey] and [Store] (is it there), and on a miss [Admission] before
    [Upstream] is asked for a backend; [Breakers] and [Retries] hear how the
    attempt went; [CachePolicy] again and [Store] on the way back, [BodySpool] towards
    the client, and [AccessLog] and [Spans] when all is given back.  A reload
    goes through [Validation], then [Policy], which resizes [Admission] and may
    empty [Store].

    ** How state and operations correspond

    A struct is a record with the source's field names; a method is a function
    from the old state to its result and the new state; [Result] is
    [Prelude.result].  An [async fn] is cut at its awaits: the first part either
    decides or returns the suspended request as a value ([Limiter.Parked],
    [Admission.Await]), and a second function continues it with what the await
    gave; dropping the future is a third.  Limiters are shared by reference
    ([Arc<Limiter>]) and outlive the registry that names them, so they live in
    a heap ([Admission.Heap]).  The steps of all requests, wake-ups, timeouts,
    abandonments, completions, purges and reloads interleave in step relations
    ([Limiter.step], [Admission.sys_step], [Store.steps], and [Lifecycle.step]
    for the whole process, whose state is the live state, the requests in the
    filters and those parked for admission); each method runs
    between two awaits or under the store's lock, which is what makes it one
    step.  Integers are [N] with the source's saturating, checked or wrapping
    operation written out; a statement about [usize] takes 64 bits.

    ** What the theorems show

    - Capacity: requests are admitted exactly when their weight fits under every
      ceiling beside what is held and what the queue has gathered; units are
      conserved in every interleaving; reloads are exact; a limiter refines "a
      ceiling, the units there are, the work in flight, a first-come queue".  Units
      held above a lowered ceiling settle its debt as they come back, but a queued
      request that gives up returns what it had gathered past that debt
      ([Limiter.queued_waiter_escapes_debt]): the statements hold all the same.
    - Sharing: a key identifies what the response may depend on; nothing with a
      cookie, an unkeyed [Vary] or an uncacheable status is shared under any
      configuration; what exactly is shareable, and for how long; what a route's
      overrides of the origin reach, and that one of them reaches further than
      its documentation ([CachePolicy.coalesce_override_persists]).
    - The store: every byte is accounted once within the budget; eviction always
      ends and is exact; what is purged does not come back through a fill that
      was running; a follower reads the leader's body.
    - Trust: headers play no part unless the peer is trusted, a client cannot
      choose the address it is known by, and the origin is told only what was
      concluded (of the trace, unless inbound traces are always trusted).
    - Configuration: what [validate] accepts bounds the fleet, isolates the
      admin listener, bounds every override and starves no route; a reload is
      all or nothing; [check] names every hazard and accepts what [init] writes.
    - The origin: selection honours health and breakers; a breaker trips exactly
      at its threshold and hears each attempt once; an ejected backend comes
      back when its probe succeeds, whatever the pool does meanwhile; retries are safe, counted and bounded.
    - The process: in every reachable state the permits, backend slots, spooled
      bytes and upgrades that are out are those live requests hold or have
      gathered while they wait, and when none is left nothing is; observe mode
      leaves traffic and state alone.  The events of the service are simulated by
      that process ([Service.event_simulated]), which carries its invariants over.
    - Starting: a file that loads is refused only for what validation cannot
      know, and otherwise exactly the listeners it asks for are bound as it asks.
    - Metrics: publishing never panics (each call names a family of the right
      type with the right number of labels) and carries only labels the
      configuration or the source lists; the gauges of upgrades, spooled bytes,
      limits, configuration and backends show the state they are named after
      between events; every request counted in is
      counted out once, with its route's label.
    - Bodies: a spool delivers what it was given, within the shared budget.
    - What operators see: purges need the token and reach the store; the status
      documents, the access line and exported batches are one JSON value that
      reads back, and a post is one request that does; spans are each sent once or counted; draining precedes the stop.
    - Round trips of the textual forms (durations, sizes, addresses, endpoints,
      trace headers, options).
    - Beside the crate: the fuzz targets' assertions hold of every input, but for
      one of [vary.rs] that is not so; the counters the benchmarks trust are right
      in every interleaving, and the peak is the one since the last reset but for
      renders that overlap it ([SlowOrigin.reset_loses_a_render]); the WebSocket
      accept key is the one text the standards give; by how
      much the spike's byte count is off ([SpikeStore.books_drift]).

    ** Parameters and assumptions

    Code outside the repository is a parameter, with its documented behaviour as
    named hypotheses where a theorem needs any: tokio's [Semaphore]
    ([Semaphores.Semaphore], [SemaphoreLaws]) and what its channel hands over at a
    time, Pingora's [CacheMeta] ([Store]), the phase of its cache, whether it
    would retry an error ([decide_reuse]) and which signal is the graceful
    termination, header maps (a function from names to values), the file system,
    TLS library and header-name parser ([Validation.Platform]), the YAML
    deserialiser ([Policy.Files]), the glob library and method parser
    ([Policy.Matching]), the name service ([Upstream.Lookup]), percent-decoding,
    the crate's version and features ([AdminEndpoint]), the prometheus crate's
    registry with its documented laws ([Metrics]), Pingora's server ([Boot.Pingora]:
    the platform, what [bootstrap] does, loading a certificate), clocks and random
    bytes, which header values, header names and methods [http] takes and the
    hash of the log fingerprint ([FuzzTargets]), and whether memory for a body is
    to be had ([SlowOrigin]).
    The semaphore is fair: [acquire_many] takes what is available into its place
    in the queue and the rest in order as units come back, nobody passes it, and
    when it is dropped what it had goes to those behind it; each of its calls is
    one step.  Fewer than 2^64 fills are started, and fewer than 2^32
    requests are served at once.  Pingora calls [proxy_upstream_filter] once per
    request, and ends every request with [logging].  Header bytes are read
    as they are, without the replacement of invalid UTF-8.  Methods on atomics
    and locks are one step each.  Recursions are structural or, for the eviction
    loop and the trimming and parsing loops, run on fuel that is proved to
    suffice or is the length of the input.

    ** Not modelled

    The wording of messages, writing logs, the exposition of metrics over HTTP,
    installing signal handlers, sockets and TLS, the timing of the background
    loops (when a tick comes is the environment's choice), the shell scripts and
    client programs of the benchmarks, and test code.  An event and what it publishes are
    one step, so the moment between a change on one thread and its publication
    while another thread publishes too is not shown. *)

From Stdlib Require Export Ascii String NArith ZArith Lia.
From stdpp Require Export base tactics option list strings gmap pretty.

#[export] Set Default Goal Selector "!".

(** ** Fallible code

    Rust's [Result<T, E>]; the error type comes first so that [result E] is a
    functor and stdpp's bind notation ([x ← m; k]) reads as Rust's [?]. *)

Inductive result (E T : Type) : Type :=
| Ok (t : T)
| Err (e : E).
Arguments Ok {E T} t.
Arguments Err {E T} e.

#[export] Instance result_ret E : MRet (result E) := fun T t => Ok t.
#[export] Instance result_bind E : MBind (result E) := fun T U k m =>
  match m with Ok t => k t | Err e => Err e end.
#[export] Instance result_fmap E : FMap (result E) := fun T U f m =>
  match m with Ok t => Ok (f t) | Err e => Err e end.

#[export] Instance result_eq_dec E T `{EqDecision E, EqDecision T} :
  EqDecision (result E T).
Proof. solve_decision. Defined.

(** [if cond { return Err(e) }]: the guard at the head of a handler. *)
Definition refuse_if {E} (cond : bool) (e : E) : result E unit :=
  if cond then Err e else Ok tt.

(** [Option::ok_or] and [Result::map_err]. *)
Definition ok_or {E T} (o : option T) (e : E) : result E T :=
  match o with Some t => Ok t | None => Err e end.

Definition map_err {E F T} (f : E → F) (m : result E T) : result F T :=
  match m with Ok t => Ok t | Err e => Err (f e) end.

Definition is_ok {E T} (m : result E T) : bool :=
  match m with Ok _ => true | Err _ => false end.

(** [iter().map(f).collect::<Result<Vec<_>, _>>()]: the first error wins. *)
Fixpoint try_map {E A B} (f : A → result E B) (l : list A) : result E (list B) :=
  match l with
  | [] => Ok []
  | a :: l' => b ← f a; bs ← try_map f l'; Ok (b :: bs)
  end.

(** [for x in l { f(x)?; }]. *)
Fixpoint try_each {E A} (f : A → result E unit) (l : list A) : result E unit :=
  match l with
  | [] => Ok tt
  | a :: l' => f a;; try_each f l'
  end.

Lemma bind_ok {E A B} (m : result E A) (k : A → result E B) b :
  m ≫= k = Ok b ↔ ∃ a, m = Ok a ∧ k a = Ok b.
Proof.
  destruct m as [a|e]; simpl; split.
  - intros H; by exists a.
  - by intros (? & [= ->] & ?).
  - done.
  - by intros (? & [=] & _).
Qed.

Lemma bind_err {E A B} (m : result E A) (k : A → result E B) e :
  m ≫= k = Err e ↔ m = Err e ∨ ∃ a, m = Ok a ∧ k a = Err e.
Proof.
  destruct m as [a|e']; simpl; split.
  - intros H; right; by exists a.
  - by intros [[=]|(? & [= ->] & ?)].
  - by intros [= ->]; left.
  - by intros [[= ->]|(? & [=] & _)].
Qed.

Lemma refuse_if_ok {E} (c : bool) (e : E) u : refuse_if c e = Ok u ↔ c = false.
Proof. by destruct c, u. Qed.

Lemma refuse_if_err {E} (c : bool) (e e' : E) :
  refuse_if c e = Err e' ↔ c = true ∧ e = e'.
Proof. destruct c; simpl; split; [by intros [= ->]|by intros [_ ->]|done|by intros [? _]]. Qed.

Lemma ok_or_ok {E A} (o : option A) (e : E) a : ok_or o e = Ok a ↔ o = Some a.
Proof. destruct o; simpl; split; congruence. Qed.

Lemma map_err_ok {E F A} (f : E → F) (m : result E A) a :
  map_err f m = Ok a ↔ m = Ok a.
Proof. destruct m; simpl; split; congruence. Qed.

Lemma try_map_ok {E A B} (f : A → result E B) l bs :
  try_map f l = Ok bs ↔ Forall2 (λ a b, f a = Ok b) l bs.
Proof.
  revert bs; induction l as [|a l IH]; intros bs; simpl.
  - split; [intros [= <-]; constructor | by inversion 1].
  - rewrite bind_ok. setoid_rewrite bind_ok. split.
    + intros (b & Hb & bs' & Hbs & [= <-]). constructor; [done|by apply IH].
    + inversion 1 as [|? b ? bs' Hb Hbs]; subst.
      exists b. split; [done|]. exists bs'. split; [by apply IH|done].
Qed.

Lemma try_each_ok {E A} (f : A → result E unit) l :
  try_each f l = Ok tt ↔ Forall (λ a, f a = Ok tt) l.
Proof.
  induction l as [|a l IH]; simpl; [by split|].
  rewrite Forall_cons, <-IH, bind_ok. split.
  - by intros ([] & ? & ?).
  - intros [? ?]; by exists tt.
Qed.

(** ** Automation

    [harmost] collects the facts that close the routine goals of the
    components; [harmost_rw] the rewrites that normalise guards. *)

Create HintDb harmost.
Create Rewrite HintDb harmost_rw.

#[export] Hint Rewrite @bind_ok @refuse_if_ok @ok_or_ok @map_err_ok : harmost_rw.

(** Case analysis on the scrutinee of some [match] or [if] of the goal or of a
    hypothesis, keeping the equation. *)
Ltac case_of x := let E := fresh "E" in destruct x eqn:E.

Ltac case_goal :=
  match goal with
  | |- context [match ?x with _ => _ end] => case_of x
  end.

Ltac case_in H :=
  match type of H with
  | context [match ?x with _ => _ end] => case_of x
  end.

(** Peel the guards off a handler known to have succeeded. *)
Ltac ok_inv H :=
  repeat
    match type of H with
    | _ ≫= _ = Ok _ =>
        let a := fresh "u" in let Ha := fresh "G" in
        apply bind_ok in H as (a & Ha & H)
    | (if ?c then Err _ else _) = Ok _ =>
        let G := fresh "G" in destruct c eqn:G; [discriminate H|]
    | match ?c with _ => _ end = Ok _ => case_of c; try discriminate H
    end.

(** Turn boolean guards into propositions. *)
Ltac to_prop :=
  repeat
    match goal with
    | H : refuse_if _ _ = Ok _ |- _ => apply refuse_if_ok in H
    | H : bool_decide _ = true |- _ => apply bool_decide_eq_true in H
    | H : bool_decide _ = false |- _ => apply bool_decide_eq_false in H
    | H : (_ && _)%bool = true |- _ => apply andb_true_iff in H as [? ?]
    | H : (_ || _)%bool = false |- _ => apply orb_false_iff in H as [? ?]
    | H : negb _ = true |- _ => apply negb_true_iff in H
    | H : negb _ = false |- _ => apply negb_false_iff in H
    | H : N.eqb _ _ = true |- _ => apply N.eqb_eq in H
    | H : N.eqb _ _ = false |- _ => apply N.eqb_neq in H
    | H : N.leb _ _ = true |- _ => apply N.leb_le in H
    | H : N.leb _ _ = false |- _ => apply N.leb_gt in H
    | H : N.ltb _ _ = true |- _ => apply N.ltb_lt in H
    | H : N.ltb _ _ = false |- _ => apply N.ltb_ge in H
    end.

(** ** Lists of counters *)

Definition sum_N (l : list N) : N := foldr N.add 0%N l.

Lemma sum_N_app l1 l2 : sum_N (l1 ++ l2) = (sum_N l1 + sum_N l2)%N.
Proof. induction l1 as [|x l1 IH]; simpl; [done|]. rewrite IH; lia. Qed.

#[export] Instance sum_N_perm : Proper (Permutation ==> eq) sum_N.
Proof. induction 1; simpl; lia. Qed.

Lemma sum_N_elem x l : x ∈ l → (x <= sum_N l)%N.
Proof. induction 1; simpl; lia. Qed.

Lemma sum_N_delete l (i : nat) x : l !! i = Some x → sum_N l = (x + sum_N (delete i l))%N.
Proof. intros H. by rewrite (sum_N_perm _ _ (delete_Permutation l i x H)). Qed.

Lemma filter_all {A} (P : A → Prop) `{!∀ x, Decision (P x)} l :
  Forall P l → filter P l = l.
Proof. induction 1; [done|]. by rewrite filter_cons_True, IHForall. Qed.

(** ** Maps of counters *)

Definition map_sum {K A} `{Countable K} (f : A → N) (m : gmap K A) : N :=
  map_fold (λ _ a acc, f a + acc)%N 0%N m.

Section MapSum.
Context {K A : Type} `{Countable K} (f : A → N).
Implicit Types m : gmap K A.

Lemma map_sum_empty : map_sum f (∅ : gmap K A) = 0%N.
Proof. apply map_fold_empty. Qed.

Lemma map_sum_insert m k a : m !! k = None → map_sum f (<[k:=a]> m) = (f a + map_sum f m)%N.
Proof. intros Hk. unfold map_sum. rewrite map_fold_insert_L; [done|lia|done]. Qed.

Lemma map_sum_delete m k a :
  m !! k = Some a → map_sum f m = (f a + map_sum f (delete k m))%N.
Proof. intros Hk. unfold map_sum. rewrite (map_fold_delete_L _ _ k a); [done|lia|done]. Qed.

(** Overwriting a key swaps its contribution. *)
Lemma map_sum_update m k a b :
  m !! k = Some a → (map_sum f (<[k:=b]> m) + f a = f b + map_sum f m)%N.
Proof.
  intros Hk. rewrite (map_sum_delete m k a Hk), <-insert_delete_eq.
  rewrite map_sum_insert by apply lookup_delete_eq. lia.
Qed.

Lemma map_sum_elem m k a : m !! k = Some a → (f a <= map_sum f m)%N.
Proof. intros Hk. rewrite (map_sum_delete m k a Hk). lia. Qed.
End MapSum.
