(* ===== verification/Words.v ===== *)
(** * Machine integers

    Rust's unsigned integers as [N], with their width written out.  [usize] is
    64 bits wide: Harmost is built for 64-bit targets, and the two places where
    the source distinguishes the widths ([Bytes::as_usize], [try_from]) are
    modelled through [to_usize].  Operators that wrap ([fetch_add],
    [wrapping_mul], and plain [+] in a release build) are the [wrapping_*]
    functions; [saturating_*] and [checked_*] are as in the standard library. *)

From S2P Require Import Prelude.
Local Open Scope N_scope.

Definition two64 : N := 18446744073709551616.
Definition U64_MAX : N := 18446744073709551615.
Definition U32_MAX : N := 4294967295.
Definition U16_MAX : N := 65535.
Definition U8_MAX : N := 255.
Abbreviation USIZE_MAX := U64_MAX (only parsing).

Definition wrapping_add (a b : N) : N := (a + b) mod two64.
Definition wrapping_sub (a b : N) : N := (a + (two64 - b mod two64)) mod two64.
Definition wrapping_mul (a b : N) : N := (a * b) mod two64.

Definition saturating_add (a b : N) : N := N.min (a + b) U64_MAX.
Definition saturating_sub (a b : N) : N := a - b.
Definition saturating_mul (a b : N) : N := N.min (a * b) U64_MAX.

Definition checked_add (a b : N) : option N :=
  if a + b <=? U64_MAX then Some (a + b) else None.
Definition checked_mul (a b : N) : option N :=
  if a * b <=? U64_MAX then Some (a * b) else None.

(** [u64::try_from(x).unwrap_or(u64::MAX)], [usize::try_from(..)] likewise. *)
Definition clamp (max x : N) : N := N.min x max.
Definition to_usize (x : N) : N := clamp USIZE_MAX x.

(** [AtomicU32] counters wrap at their own width. *)
Definition wrapping_add32 (a b : N) : N := (a + b) mod 4294967296.

(** [usize::div_ceil]. *)
Definition div_ceil (a b : N) : N := (a + (b - 1)) / b.

Lemma two64_eq : two64 = U64_MAX + 1.
Proof. reflexivity. Qed.

Lemma wrapping_add_small a b : a + b <= U64_MAX → wrapping_add a b = a + b.
Proof. intros H. apply N.mod_small. rewrite two64_eq. lia. Qed.

Lemma wrapping_sub_small a b : b <= a → a <= U64_MAX → wrapping_sub a b = a - b.
Proof.
  intros Hba Ha. unfold wrapping_sub.
  assert (Hb : b mod two64 = b) by (apply N.mod_small; rewrite two64_eq; lia).
  rewrite Hb.
  replace (a + (two64 - b)) with ((a - b) + 1 * two64)
    by (pose proof two64_eq; lia).
  rewrite N.Div0.mod_add. apply N.mod_small. rewrite two64_eq; lia.
Qed.

Lemma wrapping_add_bound a b : wrapping_add a b <= U64_MAX.
Proof.
  unfold wrapping_add. pose proof (N.mod_lt (a + b) two64) as H.
  rewrite two64_eq in *. lia.
Qed.

Lemma wrapping_sub_bound a b : wrapping_sub a b <= U64_MAX.
Proof.
  unfold wrapping_sub. pose proof (N.mod_lt (a + (two64 - b mod two64)) two64) as H.
  rewrite two64_eq in *. lia.
Qed.

(** Giving back what was just added, overflow included. *)
Lemma wrapping_sub_add a b : a <= U64_MAX → b <= U64_MAX → wrapping_sub (wrapping_add a b) b = a.
Proof.
  intros Ha Hb. pose proof two64_eq as H64.
  assert (0 < two64) as Hpos by lia.
  unfold wrapping_sub, wrapping_add. rewrite (N.mod_small b) by lia.
  destruct (N.lt_ge_cases (a + b) two64) as [Hs|Hw].
  - rewrite (N.mod_small (a + b)) by lia.
    replace (a + b + (two64 - b)) with (a + 1 * two64) by lia.
    rewrite N.Div0.mod_add. apply N.mod_small. lia.
  - assert ((a + b) mod two64 = a + b - two64) as ->.
    { symmetry. apply N.mod_unique with 1; lia. }
    replace (a + b - two64 + (two64 - b)) with a by lia. apply N.mod_small. lia.
Qed.

Lemma saturating_add_le a b m :
  m <= U64_MAX → saturating_add a b <= m → a + b <= m ∨ m = U64_MAX.
Proof. unfold saturating_add. lia. Qed.

Lemma saturating_add_gt a b m :
  m <= U64_MAX → m < saturating_add a b → m < a + b.
Proof. unfold saturating_add. lia. Qed.

Lemma checked_mul_some a b c :
  checked_mul a b = Some c ↔ c = a * b ∧ a * b <= U64_MAX.
Proof.
  unfold checked_mul. destruct (N.leb_spec (a * b) U64_MAX); split.
  - by intros [= <-].
  - by intros [-> _].
  - done.
  - intros [_ ?]; lia.
Qed.

Lemma checked_add_some a b c :
  checked_add a b = Some c ↔ c = a + b ∧ a + b <= U64_MAX.
Proof.
  unfold checked_add. destruct (N.leb_spec (a + b) U64_MAX); split.
  - by intros [= <-].
  - by intros [-> _].
  - done.
  - intros [_ ?]; lia.
Qed.

#[export] Hint Rewrite checked_mul_some checked_add_some : harmost_rw.
#[export] Hint Resolve wrapping_add_bound wrapping_sub_bound : harmost.

