(* ===== verification/Text.v ===== *)
(** * Text: Rust's [str] and [[u8]] operations

    A Rust string or byte slice is a Rocq [string]: the sequence of its bytes.
    All the patterns Harmost searches for are ASCII, and an ASCII byte never
    occurs inside a multi-byte UTF-8 sequence, so working on bytes gives the
    same result as Rust's [char]-based methods.  [trim] removes Unicode
    white space, whose multi-byte members are listed by their encodings. *)

From S2P Require Import Prelude Words.
Local Open Scope string_scope.

#[global] Arguments String.append !_ _ / : simpl nomatch.

(** ** Characters *)

Definition chr (n : N) : ascii := ascii_of_N n.
Definition code (a : ascii) : N := N_of_ascii a.
Definition str1 (a : ascii) : string := String a EmptyString.

Definition is_upper (a : ascii) : bool := ((65 <=? code a) && (code a <=? 90))%N.
Definition is_lower (a : ascii) : bool := ((97 <=? code a) && (code a <=? 122))%N.
Definition is_ascii_alphabetic (a : ascii) : bool := is_upper a || is_lower a.
Definition is_ascii_graphic (a : ascii) : bool := ((33 <=? code a) && (code a <=? 126))%N.
Definition lower_char (a : ascii) : ascii :=
  if is_upper a then chr (code a + 32) else a.
Definition upper_char (a : ascii) : ascii :=
  if is_lower a then chr (code a - 32) else a.

(** [char::to_digit(radix)], for the two radices in use. *)
Definition to_digit (radix : N) (a : ascii) : option N :=
  let c := code a in
  let v := (if (48 <=? c) && (c <=? 57) then Some (c - 48)
            else if (97 <=? c) && (c <=? 102) then Some (c - 87)
            else if (65 <=? c) && (c <=? 70) then Some (c - 55)
            else None)%N in
  match v with Some d => if (d <? radix)%N then Some d else None | None => None end.

(** ** Whole strings *)

Fixpoint map_chars (f : ascii → ascii) (s : string) : string :=
  match s with EmptyString => EmptyString | String a s' => String (f a) (map_chars f s') end.

Fixpoint all_chars (p : ascii → bool) (s : string) : bool :=
  match s with EmptyString => true | String a s' => p a && all_chars p s' end.

Definition contains_char (c : ascii) (s : string) : bool :=
  negb (all_chars (λ a, negb (bool_decide (a = c))) s).

Definition len (s : string) : N := N.of_nat (String.length s).
Definition is_empty (s : string) : bool := match s with EmptyString => true | _ => false end.

Definition to_ascii_lowercase : string → string := map_chars lower_char.
Definition to_ascii_uppercase : string → string := map_chars upper_char.
Definition eq_ignore_ascii_case (a b : string) : bool :=
  bool_decide (to_ascii_lowercase a = to_ascii_lowercase b).

(** [strip_prefix] and [strip_suffix] with a string pattern. *)
Fixpoint strip_prefix (p s : string) : option string :=
  match p, s with
  | EmptyString, _ => Some s
  | String a p', String b s' => if decide (a = b) then strip_prefix p' s' else None
  | String _ _, EmptyString => None
  end.

Definition strip_suffix (p s : string) : option string :=
  String.rev <$> strip_prefix (String.rev p) (String.rev s).

Definition starts_with (p s : string) : bool :=
  match strip_prefix p s with Some _ => true | None => false end.

Definition ends_with (p s : string) : bool :=
  match strip_suffix p s with Some _ => true | None => false end.

(** [str::split(char)]: always at least one piece. *)
Fixpoint split_on (c : ascii) (s : string) : list string :=
  match s with
  | EmptyString => [EmptyString]
  | String a s' =>
      if decide (a = c) then EmptyString :: split_on c s'
      else match split_on c s' with
           | [] => [str1 a]
           | w :: ws => String a w :: ws
           end
  end.

(** [slice::join]. *)
Fixpoint join (sep : string) (l : list string) : string :=
  match l with
  | [] => EmptyString
  | [w] => w
  | w :: ws => w +:+ sep +:+ join sep ws
  end.

(** [split_once(char)] and [rsplit_once(char)]. *)
Fixpoint split_once (c : ascii) (s : string) : option (string * string) :=
  match s with
  | EmptyString => None
  | String a s' =>
      if decide (a = c) then Some (EmptyString, s')
      else match split_once c s' with
           | Some (k, v) => Some (String a k, v)
           | None => None
           end
  end.

Fixpoint rsplit_once (c : ascii) (s : string) : option (string * string) :=
  match s with
  | EmptyString => None
  | String a s' =>
      match rsplit_once c s' with
      | Some (k, v) => Some (String a k, v)
      | None => if decide (a = c) then Some (EmptyString, s') else None
      end
  end.

(** ** Trimming *)

(** The first pattern that is a prefix, removed. *)
Fixpoint strip_one (pats : list string) (s : string) : option string :=
  match pats with
  | [] => None
  | p :: ps => match strip_prefix p s with Some s' => Some s' | None => strip_one ps s end
  end.

Fixpoint trim_go (fuel : nat) (pats : list string) (s : string) : string :=
  match fuel with
  | O => s
  | S n => match strip_one pats s with Some s' => trim_go n pats s' | None => s end
  end.

(** Every strip removes at least one byte, so the length is enough fuel. *)
Definition trim_front (pats : list string) (s : string) : string :=
  trim_go (String.length s) pats s.

Definition trim_back (pats : list string) (s : string) : string :=
  String.rev (trim_front (String.rev <$> pats) (String.rev s)).

Definition trim_pats (pats : list string) (s : string) : string :=
  trim_back pats (trim_front pats s).

Definition utf8 (l : list N) : string := fold_right (λ n s, String (chr n) s) EmptyString l.

(** The encodings of the code points with property [White_Space]. *)
Definition white_space : list string :=
  utf8 <$>
  ([[9]; [10]; [11]; [12]; [13]; [32]; [194;133]; [194;160]; [225;154;128];
    [226;128;128]; [226;128;129]; [226;128;130]; [226;128;131]; [226;128;132];
    [226;128;133]; [226;128;134]; [226;128;135]; [226;128;136]; [226;128;137];
    [226;128;138]; [226;128;168]; [226;128;169]; [226;128;175]; [226;129;159];
    [227;128;128]])%N.

(** [u8::is_ascii_whitespace]: no vertical tab. *)
Definition ascii_white_space : list string := utf8 <$> ([[9]; [10]; [12]; [13]; [32]])%N.

Definition trim : string → string := trim_pats white_space.
Definition trim_ascii : string → string := trim_pats ascii_white_space.
Definition trim_matches (c : ascii) : string → string := trim_pats [str1 c].

(** ** Numbers *)

(** The digit loop of [from_str_radix]: fails on a non-digit and as soon as the
    value leaves the type. *)
Fixpoint digits_go (radix max acc : N) (s : string) : option N :=
  match s with
  | EmptyString => Some acc
  | String a s' =>
      match to_digit radix a with
      | Some d =>
          let acc' := (acc * radix + d)%N in
          if (acc' <=? max)%N then digits_go radix max acc' s' else None
      | None => None
      end
  end.

Definition plus_sign : ascii := "+"%char.

(** [str::parse] for the unsigned types: one leading [+] is allowed. *)
Definition parse_uint (max : N) (s : string) : option N :=
  match s with
  | EmptyString => None
  | String a s' =>
      if decide (a = plus_sign)
      then (if is_empty s' then None else digits_go 10 max 0 s')
      else digits_go 10 max 0 s
  end.

Definition parse_u64 : string → option N := parse_uint U64_MAX.
Definition parse_u16 : string → option N := parse_uint U16_MAX.
Definition parse_u8 : string → option N := parse_uint U8_MAX.

(** [to_string] of an unsigned integer. *)
Definition print_uint (n : N) : string := pretty n.

(** ** Lemmas *)

Lemma str_app_assoc (a b c : string) : a +:+ (b +:+ c) = (a +:+ b) +:+ c.
Proof. induction a as [|x a IH]; simpl; congruence. Qed.

Lemma str_app_nil_r (a : string) : a +:+ EmptyString = a.
Proof. induction a as [|x a IH]; simpl; congruence. Qed.

Lemma str_app_inj_l (a b c : string) : a +:+ b = a +:+ c → b = c.
Proof. induction a as [|x a IH]; simpl; [done|]. intros [= H]; auto. Qed.

Lemma str_length_app (a b : string) :
  String.length (a +:+ b) = (String.length a + String.length b)%nat.
Proof. induction a; simpl; congruence. Qed.

Lemma len_app a b : len (a +:+ b) = (len a + len b)%N.
Proof. unfold len. rewrite str_length_app. lia. Qed.

Lemma str_app_split a b c d :
  String.length a = String.length c → a +:+ b = c +:+ d → a = c ∧ b = d.
Proof.
  revert c. induction a as [|x a IH]; intros [|y c]; simpl; try done.
  intros [= Hl] [= -> H]. by destruct (IH c Hl H) as [-> ->].
Qed.

Lemma rev_app_eq s acc : String.rev_app s acc = String.rev s +:+ acc.
Proof.
  revert acc. induction s as [|a s IH]; intros acc; [done|].
  unfold String.rev; simpl. rewrite IH, (IH (String a EmptyString)).
  by rewrite <-str_app_assoc.
Qed.

Lemma rev_cons a s : String.rev (String a s) = String.rev s +:+ str1 a.
Proof. unfold String.rev at 1; simpl. apply rev_app_eq. Qed.

Lemma rev_str_app s t : String.rev (s +:+ t) = String.rev t +:+ String.rev s.
Proof.
  induction s as [|a s IH]; simpl; [by rewrite str_app_nil_r|].
  rewrite !rev_cons, IH. by rewrite str_app_assoc.
Qed.

Lemma rev_rev s : String.rev (String.rev s) = s.
Proof. induction s as [|a s IH]; [done|]. by rewrite rev_cons, rev_str_app, IH. Qed.

(** *** Characters *)

Lemma all_chars_app p a b : all_chars p (a +:+ b) = all_chars p a && all_chars p b.
Proof. induction a as [|x a IH]; simpl; [done|]. by rewrite IH, andb_assoc. Qed.

Lemma all_chars_impl (p q : ascii → bool) s :
  (∀ a, p a = true → q a = true) → all_chars p s = true → all_chars q s = true.
Proof.
  intros Hpq. induction s as [|a s IH]; simpl; [done|].
  intros [Ha Hs]%andb_true_iff. apply andb_true_iff. auto.
Qed.

Lemma contains_char_app c a b :
  contains_char c (a +:+ b) = contains_char c a || contains_char c b.
Proof. unfold contains_char. by rewrite all_chars_app, negb_andb. Qed.

Lemma contains_char_cons c a s :
  contains_char c (String a s) = bool_decide (a = c) || contains_char c s.
Proof. unfold contains_char; simpl. by rewrite negb_andb, negb_involutive. Qed.

(** A property of all the bytes that excludes [c] excludes [c]. *)
Lemma all_chars_not_contains p c s :
  p c = false → all_chars p s = true → contains_char c s = false.
Proof.
  intros Hc. induction s as [|a s IH]; [done|]. simpl.
  intros [Ha Hs]%andb_true_iff. rewrite contains_char_cons, IH by done.
  rewrite bool_decide_eq_false_2; [done|]. intros ->; congruence.
Qed.

Lemma lower_char_idem a : lower_char (lower_char a) = lower_char a.
Proof. destruct a as [[] [] [] [] [] [] [] []]; reflexivity. Qed.

Lemma map_chars_idem f s : (∀ a, f (f a) = f a) → map_chars f (map_chars f s) = map_chars f s.
Proof. intros Hf. induction s as [|a s IH]; simpl; [done|]. by rewrite Hf, IH. Qed.

Lemma to_ascii_lowercase_idem s :
  to_ascii_lowercase (to_ascii_lowercase s) = to_ascii_lowercase s.
Proof. apply map_chars_idem, lower_char_idem. Qed.

Lemma eq_ignore_ascii_case_refl s : eq_ignore_ascii_case s s = true.
Proof. by apply bool_decide_eq_true. Qed.

(** *** Prefixes *)

Lemma strip_prefix_some p s r : strip_prefix p s = Some r ↔ s = p +:+ r.
Proof.
  revert s. induction p as [|a p IH]; intros s; simpl.
  - split; [by intros [= ->]|by intros ->].
  - destruct s as [|b s]; [by split|]. case_decide as Hab; subst.
    + rewrite IH. split; [by intros ->|by intros [= ->]].
    + split; [done|]. intros [= ? ?]; congruence.
Qed.

Lemma strip_prefix_app p r : strip_prefix p (p +:+ r) = Some r.
Proof. by apply strip_prefix_some. Qed.

Lemma strip_suffix_some p s r : strip_suffix p s = Some r ↔ s = r +:+ p.
Proof.
  unfold strip_suffix. rewrite fmap_Some. setoid_rewrite strip_prefix_some. split.
  - intros (t & Hs & ->). apply (f_equal String.rev) in Hs.
    by rewrite rev_rev, rev_str_app, rev_rev in Hs.
  - intros ->. exists (String.rev r). by rewrite rev_str_app, rev_rev.
Qed.

Lemma starts_with_spec p s : starts_with p s = true ↔ ∃ r, s = p +:+ r.
Proof.
  unfold starts_with. destruct (strip_prefix p s) as [r|] eqn:E.
  - apply strip_prefix_some in E. split; [by exists r|done].
  - split; [done|]. intros [r ->]. by rewrite strip_prefix_app in E.
Qed.

(** *** Splitting and joining *)

Lemma split_on_nonempty c s : split_on c s ≠ [].
Proof. destruct s; simpl; [done|]. case_decide; [done|]. by destruct (split_on c s). Qed.

Lemma join_cons sep w ws :
  ws ≠ [] → join sep (w :: ws) = w +:+ sep +:+ join sep ws.
Proof. by destruct ws. Qed.

Lemma join_split c s : join (str1 c) (split_on c s) = s.
Proof.
  induction s as [|a s IH]; [done|]. simpl. case_decide as Hac; subst.
  - rewrite join_cons by apply split_on_nonempty. simpl. by rewrite IH.
  - destruct (split_on c s) as [|w ws] eqn:E; [by apply split_on_nonempty in E|].
    rewrite <-IH. by destruct ws.
Qed.

Lemma split_on_app c w s :
  contains_char c w = false →
  split_on c (w +:+ str1 c +:+ s) = w :: split_on c s.
Proof.
  induction w as [|a w IH]; simpl.
  - intros _. by rewrite decide_True.
  - rewrite contains_char_cons. intros [Ha Hw]%orb_false_iff.
    apply bool_decide_eq_false in Ha. rewrite decide_False by done.
    simpl in IH. by rewrite IH.
Qed.

Lemma split_on_clean c w : contains_char c w = false → split_on c w = [w].
Proof.
  induction w as [|a w IH]; simpl; [done|].
  rewrite contains_char_cons. intros [Ha Hw]%orb_false_iff.
  apply bool_decide_eq_false in Ha. by rewrite decide_False, IH.
Qed.

Lemma split_join c l :
  l ≠ [] → Forall (λ w, contains_char c w = false) l →
  split_on c (join (str1 c) l) = l.
Proof.
  intros Hl H. induction H as [|w ws Hw Hws IH]; [done|].
  destruct ws as [|v vs]; [by apply split_on_clean|].
  rewrite join_cons by done. rewrite split_on_app by done. by rewrite IH.
Qed.

(** [join] with a separator byte that occurs in no piece loses nothing. *)
Lemma join_inj c l1 l2 :
  Forall (λ w, contains_char c w = false) l1 →
  Forall (λ w, contains_char c w = false) l2 →
  l1 ≠ [] → l2 ≠ [] →
  join (str1 c) l1 = join (str1 c) l2 → l1 = l2.
Proof.
  intros H1 H2 N1 N2 E. rewrite <-(split_join c l1), <-(split_join c l2) by done.
  by rewrite E.
Qed.

Lemma split_once_some c s k v :
  split_once c s = Some (k, v) ↔ s = k +:+ str1 c +:+ v ∧ contains_char c k = false.
Proof.
  revert k. induction s as [|a s IH]; intros k; simpl.
  { split; [done|]. by destruct k; intros [? _]. }
  case_decide as Hac; subst.
  - split; [by intros [= <- <-]|]. destruct k as [|b k]; simpl.
    + by intros [[= ->] _].
    + rewrite contains_char_cons. intros [[= <- _] [Hb _]%orb_false_iff].
      by apply bool_decide_eq_false in Hb.
  - destruct (split_once c s) as [[k' v']|] eqn:E.
    + split.
      * intros [= <- <-]. destruct (proj1 (IH k') eq_refl) as [-> Hk].
        split; [done|]. rewrite contains_char_cons, Hk, orb_false_r.
        by apply bool_decide_eq_false.
      * destruct k as [|b k]; simpl; [by intros [[= ? ?] _]|].
        rewrite contains_char_cons. intros [[= <- Hs] [_ Hk]%orb_false_iff].
        by injection (proj2 (IH k) (conj Hs Hk)) as -> ->.
    + split; [done|]. destruct k as [|b k]; simpl; [by intros [[= ? ?] _]|].
      rewrite contains_char_cons. intros [[= <- Hs] [_ Hk]%orb_false_iff].
      by pose proof (proj2 (IH k) (conj Hs Hk)).
Qed.

Lemma split_once_none c s : split_once c s = None ↔ contains_char c s = false.
Proof.
  induction s as [|a s IH]; simpl; [done|]. rewrite contains_char_cons.
  case_decide as Hac; subst.
  - by rewrite bool_decide_eq_true_2.
  - rewrite bool_decide_eq_false_2 by done. simpl. rewrite <-IH.
    by destruct (split_once c s) as [[]|].
Qed.

Lemma rsplit_once_clean c s : contains_char c s = false → rsplit_once c s = None.
Proof.
  induction s as [|a s IH]; [done|]. rewrite contains_char_cons. simpl.
  intros [Ha Hs]%orb_false_iff. apply bool_decide_eq_false in Ha.
  by rewrite IH, decide_False.
Qed.

Lemma rsplit_once_last c a b :
  contains_char c b = false → rsplit_once c (a +:+ str1 c +:+ b) = Some (a, b).
Proof.
  intros Hb. induction a as [|x a IH]; simpl in *.
  - by rewrite rsplit_once_clean, decide_True.
  - by rewrite IH.
Qed.

(** *** Trimming *)

Lemma trim_go_fixed fuel pats s : strip_one pats s = None → trim_go fuel pats s = s.
Proof. destruct fuel; simpl; [done|]. by intros ->. Qed.

(** Nothing to strip at either end: [trim] is the identity. *)
Lemma trim_pats_id pats s :
  strip_one pats s = None → strip_one (String.rev <$> pats) (String.rev s) = None →
  trim_pats pats s = s.
Proof.
  intros H1 H2. unfold trim_pats, trim_back, trim_front.
  rewrite (trim_go_fixed _ _ _ H1), trim_go_fixed by done. apply rev_rev.
Qed.

Lemma strip_one_length pats s s' :
  Forall (λ p, p ≠ EmptyString) pats → strip_one pats s = Some s' →
  (String.length s' < String.length s)%nat.
Proof.
  induction 1 as [|p ps Hp Hps IH]; simpl; [done|].
  destruct (strip_prefix p s) as [t|] eqn:E; [|done]. intros [= <-].
  apply strip_prefix_some in E as ->. rewrite str_length_app.
  destruct p; simpl in *; [done|lia].
Qed.

(** The fuel is enough: what is left has nothing more to strip. *)
Lemma trim_front_done pats s :
  Forall (λ p, p ≠ EmptyString) pats → strip_one pats (trim_front pats s) = None.
Proof.
  intros Hp. unfold trim_front.
  assert (H : ∀ n s, (String.length s ≤ n)%nat → strip_one pats (trim_go n pats s) = None).
  { clear s. induction n as [|n IH]; intros s Hn; simpl.
    - destruct s; simpl in Hn; [|lia].
      destruct (strip_one pats EmptyString) eqn:E; [|done].
      apply strip_one_length in E; [simpl in E; lia|done].
    - destruct (strip_one pats s) as [s'|] eqn:E; [|done].
      apply IH. apply strip_one_length in E; [lia|done]. }
  by apply H.
Qed.

(** No pattern starts with a byte satisfying [p]: a string that does is safe. *)
Lemma strip_one_head (p : ascii → bool) pats s :
  forallb (λ q, match q with String c _ => negb (p c) | EmptyString => false end) pats = true →
  all_chars p s = true → strip_one pats s = None.
Proof.
  intros Hpats Hs. induction pats as [|q ps IH]; simpl in *; [done|].
  apply andb_true_iff in Hpats as [Hq Hps]. rewrite IH by done.
  destruct q as [|c q]; [done|]. destruct s as [|a s]; [done|]. simpl in *.
  rewrite decide_False; [done|]. intros <-.
  apply andb_true_iff in Hs as [Ha _]. by rewrite Ha in Hq.
Qed.

Lemma all_chars_rev p s : all_chars p (String.rev s) = all_chars p s.
Proof.
  induction s as [|a s IH]; [done|].
  rewrite rev_cons, all_chars_app, IH. simpl. rewrite andb_true_r. apply andb_comm.
Qed.

(** Printable ASCII without spaces is never trimmed. *)
Lemma trim_graphic s : all_chars is_ascii_graphic s = true → trim s = s.
Proof.
  intros Hs. apply trim_pats_id.
  - by apply (strip_one_head is_ascii_graphic).
  - apply (strip_one_head is_ascii_graphic); [done|]. by rewrite all_chars_rev.
Qed.

(** *** Numbers *)

Lemma digits_go_bound radix max acc s n :
  (acc <= max)%N → digits_go radix max acc s = Some n → (n <= max)%N.
Proof.
  revert acc. induction s as [|a s IH]; intros acc Hacc; simpl.
  - by intros [= <-].
  - destruct (to_digit radix a) as [d|]; [|done].
    destruct (N.leb_spec (acc * radix + d) max); [|done]. by apply IH.
Qed.

Lemma parse_uint_bound max s n : parse_uint max s = Some n → (n <= max)%N.
Proof.
  destruct s as [|a s]; simpl; [done|]. case_decide.
  - destruct (is_empty s); [done|]. apply digits_go_bound; lia.
  - destruct (to_digit 10 a) as [d|]; [|done].
    match goal with |- context [N.leb ?x ?y] => destruct (N.leb_spec x y) end; [|done].
    by apply digits_go_bound.
Qed.

Definition is_digit (a : ascii) : bool := ((48 <=? code a) && (code a <=? 57))%N.

Lemma pretty_N_char_digit n :
  (n < 10)%N → to_digit 10 (pretty_N_char n) = Some n ∧ is_digit (pretty_N_char n) = true
  ∧ pretty_N_char n ≠ plus_sign.
Proof.
  intros H.
  assert (n = 0 ∨ n = 1 ∨ n = 2 ∨ n = 3 ∨ n = 4 ∨ n = 5 ∨ n = 6 ∨ n = 7 ∨ n = 8 ∨ n = 9)%N
    as Hn by lia.
  repeat destruct Hn as [->|Hn]; [..|subst]; by split_and!.
Qed.

Lemma digits_pretty_go x : ∀ s max,
  (x <= max)%N → digits_go 10 max 0 (pretty_N_go x s) = digits_go 10 max x s.
Proof.
  induction (N.lt_wf_0 x) as [x _ IH]; intros s max Hx.
  destruct (decide (x = 0)%N) as [->|Hx0]; [by rewrite pretty_N_go_0|].
  rewrite pretty_N_go_step by lia.
  pose proof (N.div_mod x 10 ltac:(done)) as Hdm.
  pose proof (N.mod_lt x 10 ltac:(done)) as Hm.
  assert (x `div` 10 < x)%N as Hlt by (apply N.div_lt; lia).
  assert (x `div` 10 <= max)%N as Hle by lia.
  rewrite IH by done. simpl.
  destruct (pretty_N_char_digit _ Hm) as (-> & _ & _).
  replace (x `div` 10 * 10 + x `mod` 10)%N with x by lia.
  by rewrite (proj2 (N.leb_le _ _) Hx).
Qed.

Lemma pretty_go_all p x : ∀ s,
  (∀ n, (n < 10)%N → p (pretty_N_char n) = true) →
  all_chars p s = true → all_chars p (pretty_N_go x s) = true.
Proof.
  induction (N.lt_wf_0 x) as [x _ IH]; intros s Hp Hs.
  destruct (decide (x = 0)%N) as [->|Hx0]; [by rewrite pretty_N_go_0|].
  rewrite pretty_N_go_step by lia. apply IH; [apply N.div_lt; lia|done|].
  simpl. rewrite Hp by (by apply N.mod_lt). done.
Qed.

Lemma print_uint_digits n : all_chars is_digit (print_uint n) = true.
Proof.
  unfold print_uint, pretty, pretty_N. case_decide; [done|].
  apply pretty_go_all; [|done]. intros m Hm. by apply pretty_N_char_digit.
Qed.

Lemma print_uint_inj n m : print_uint n = print_uint m → n = m.
Proof. apply pretty_N_inj. Qed.

Lemma digits_not_plus s : all_chars is_digit s = true → ∀ a s', s = String a s' → a ≠ plus_sign.
Proof. by intros Hs a s' -> ->. Qed.

Lemma pretty_go_nonempty x s : s ≠ EmptyString → pretty_N_go x s ≠ EmptyString.
Proof.
  revert s. induction (N.lt_wf_0 x) as [x _ IH]; intros s Hs.
  destruct (decide (x = 0)%N) as [->|Hx0]; [by rewrite pretty_N_go_0|].
  rewrite pretty_N_go_step by lia. apply IH; [apply N.div_lt; lia|done].
Qed.

Lemma print_uint_nonempty n : print_uint n ≠ EmptyString.
Proof.
  unfold print_uint, pretty, pretty_N. case_decide as Hn; [done|].
  rewrite pretty_N_go_step by lia. by apply pretty_go_nonempty.
Qed.

(** Printing then parsing an integer that fits gives it back. *)
Lemma parse_print_uint max n : (n <= max)%N → parse_uint max (print_uint n) = Some n.
Proof.
  intros Hn. pose proof (print_uint_digits n) as Hd. pose proof (print_uint_nonempty n) as Hne.
  unfold parse_uint. destruct (print_uint n) as [|a s] eqn:E; [done|].
  rewrite decide_False by (by apply (digits_not_plus _ Hd a s)). rewrite <-E.
  unfold print_uint, pretty, pretty_N. case_decide as H0.
  - subst. destruct max; reflexivity.
  - by rewrite digits_pretty_go.
Qed.

Lemma print_uint_graphic n : all_chars is_ascii_graphic (print_uint n) = true.
Proof.
  apply (all_chars_impl is_digit); [|apply print_uint_digits].
  intros a [H1 H2]%andb_true_iff. unfold is_ascii_graphic.
  apply N.leb_le in H1, H2. apply andb_true_iff; split; apply N.leb_le; lia.
Qed.

#[export] Hint Rewrite strip_prefix_app : harmost_rw.
#[export] Hint Resolve split_on_nonempty print_uint_nonempty print_uint_digits
  print_uint_graphic : harmost.
