(* ===== verification/Semaphores.v ===== *)
(** * Tokio's semaphore, as the limiter uses it

    The semaphore is code outside the repository: the [Semaphore] class lists
    the operations [src/src/admission/limiter.rs] calls, [SemaphoreLaws] the
    behaviour it has.  It is fair: a request for many permits takes what is there
    into its place in the queue, returned permits go to the queue before anyone
    else, and a request that is dropped while it waits gives what it had gathered
    back to the others. *)

From S2P Require Import Prelude Words.
Local Open Scope N_scope.

(** ** The queue *)

(** A waiting [acquire_many]: its place, what it asks for and what it has. *)
Record Waiter := mkWaiter { ticket : N; wants : N; has : N }.

Definition ready (w : Waiter) : bool := wants w <=? has w.
(** Somebody in the queue is still short. *)
Definition hungry (q : list Waiter) : bool := existsb (λ w, negb (ready w)) q.
Definition gathered (q : list Waiter) : N := sum_N (has <$> q).
(** Who waits, and for how much. *)
Definition places (q : list Waiter) : list (N * N) := (λ w, (ticket w, wants w)) <$> q.

(** Permits go to the queue first, from its head; the rest is available. *)
Fixpoint hand_out (n : N) (q : list Waiter) : N * list Waiter :=
  match q with
  | [] => (n, [])
  | w :: q =>
      let k := N.min n (wants w - has w) in
      let '(rest, q') := hand_out (n - k) q in
      (rest, mkWaiter (ticket w) (wants w) (has w + k) :: q')
  end.

(** The waiter with this ticket, and the queue without it. *)
Fixpoint leave (t : N) (q : list Waiter) : option (Waiter * list Waiter) :=
  match q with
  | [] => None
  | w :: q =>
      if ticket w =? t then Some (w, q)
      else '(x, q') ← leave t q; Some (x, w :: q')
  end.

(** ** The operations *)

Class Semaphore (Sem : Type) := {
  max_permits : N;
  sem_new : N → Sem;
  available_permits : Sem → N;
  queue : Sem → list Waiter;
  add_permits : N → Sem → Sem;
  forget_permits : N → Sem → N * Sem;
  try_acquire_many : N → Sem → option Sem;
  acquire_many : N → Sem → N * Sem;
  poll : N → Sem → option Sem;
  cancel : N → Sem → Sem;
  permit_split : N → N → option (N * N) }.
#[global] Arguments max_permits Sem {_}.
#[global] Arguments permit_split Sem {_} _ _.

(** [add_permits], as dropping a permit, serves the queue and then makes the
    rest available; [forget_permits] takes at most what is available and says
    how many it took; [try_acquire_many] succeeds exactly when enough are
    available.  The future of [acquire_many], once polled, is in the queue under
    its ticket with what was available; a later [poll] is done exactly when it
    has all it asked for; [cancel] is dropping it.  Splitting a permit divides
    its units. *)
Class SemaphoreLaws (Sem : Type) (S : Semaphore Sem) : Prop := {
  max_permits_usize : max_permits Sem <= USIZE_MAX;
  sem_new_spec (n : N) (s : Sem) :
    n <= max_permits Sem → s = sem_new n → available_permits s = n ∧ queue s = [];
  add_permits_spec (n : N) (s : Sem) :
    available_permits s + n <= max_permits Sem →
    let '(rest, q) := hand_out n (queue s) in
    available_permits (add_permits n s) = available_permits s + rest ∧ queue (add_permits n s) = q;
  forget_permits_spec (n : N) (s : Sem) (k : N) (s' : Sem) :
    forget_permits n s = (k, s') →
    k = N.min n (available_permits s) ∧ available_permits s' = available_permits s - k ∧ queue s' = queue s;
  try_acquire_some (n : N) (s s' : Sem) :
    try_acquire_many n s = Some s' →
    n <= available_permits s ∧ available_permits s' = available_permits s - n ∧ queue s' = queue s;
  try_acquire_none (n : N) (s : Sem) :
    try_acquire_many n s = None → available_permits s < n;
  acquire_many_spec (n : N) (s : Sem) (t : N) (s' : Sem) :
    acquire_many n s = (t, s') →
    let k := N.min n (available_permits s) in
    t ∉ ticket <$> queue s ∧ queue s' = queue s ++ [mkWaiter t n k]
    ∧ available_permits s' = available_permits s - k;
  poll_some (t : N) (s s' : Sem) :
    poll t s = Some s' →
    ∃ w, leave t (queue s) = Some (w, queue s') ∧ ready w = true ∧ available_permits s' = available_permits s;
  poll_none (t : N) (s : Sem) (w : Waiter) (q : list Waiter) :
    poll t s = None → leave t (queue s) = Some (w, q) → ready w = false;
  cancel_spec (t : N) (s : Sem) (w : Waiter) (q : list Waiter) :
    leave t (queue s) = Some (w, q) → available_permits s + has w <= max_permits Sem →
    let '(rest, q') := hand_out (has w) q in
    available_permits (cancel t s) = available_permits s + rest ∧ queue (cancel t s) = q';
  permit_split_spec (n u : N) : n <= u → permit_split Sem n u = Some (n, u - n) }.

(** ** Facts about the queue *)

Lemma gathered_cons w q : gathered (w :: q) = has w + gathered q.
Proof. done. Qed.

Lemma hand_out_sum n q : (hand_out n q).1 + gathered (hand_out n q).2 = n + gathered q.
Proof.
  revert n. induction q as [|w q IH]; intros n; [by vm_compute|]. cbn [hand_out].
  specialize (IH (n - N.min n (wants w - has w))). destruct (hand_out _ q) as [rest q'].
  cbn [fst snd] in *. rewrite !gathered_cons. cbn [has]. lia.
Qed.

Lemma hand_out_places n q : places (hand_out n q).2 = places q.
Proof.
  revert n. induction q as [|w q IH]; intros n; [done|]. cbn [hand_out].
  specialize (IH (n - N.min n (wants w - has w))). destruct (hand_out _ q) as [rest q']. cbn in *. by rewrite IH.
Qed.

Lemma hand_out_0 q : hand_out 0 q = (0, q).
Proof.
  induction q as [|w q IH]; [done|]. cbn [hand_out]. rewrite N.min_0_l, N.sub_diag, IH, N.add_0_r. by destruct w.
Qed.

(** Nothing is left over while somebody is short. *)
Lemma hand_out_rest n q : 0 < (hand_out n q).1 → hungry (hand_out n q).2 = false.
Proof.
  revert n. induction q as [|w q IH]; intros n; [done|]. cbn [hand_out].
  specialize (IH (n - N.min n (wants w - has w))). pose proof (hand_out_sum (n - N.min n (wants w - has w)) q) as Hs.
  destruct (hand_out _ q) as [rest q'] eqn:E. cbn in *. intros Hr. unfold hungry in *. cbn [existsb]. rewrite IH by done.
  unfold ready; cbn. destruct (N.leb_spec (wants w) (has w + N.min n (wants w - has w))); [done|].
  replace (n - N.min n (wants w - has w)) with 0 in E by lia. rewrite hand_out_0 in E. simplify_eq. lia.
Qed.

Lemma hand_out_sated n q : hungry q = false → Forall (λ w, has w <= wants w) q → hand_out n q = (n, q).
Proof.
  intros Hh Hq. induction Hq as [|w q Hw Hq IH]; [done|]. unfold hungry in Hh. cbn [existsb] in Hh.
  apply orb_false_iff in Hh as [Hr Hh]. cbn [hand_out]. unfold ready in Hr. to_prop.
  replace (N.min n (wants w - has w)) with 0 by lia. rewrite N.sub_0_r, IH, N.add_0_r by done. by destruct w.
Qed.

(** No waiter is given more than it asked for, and each asked for something. *)
Definition fed (q : list Waiter) : Prop := Forall (λ w, has w <= wants w ∧ 1 <= wants w) q.

Lemma hand_out_fed n q : fed q → fed (hand_out n q).2.
Proof.
  intros H. revert n. induction H as [|w q [Hw H1] Hq IH]; intros n; [constructor|]. cbn [hand_out].
  specialize (IH (n - N.min n (wants w - has w))). destruct (hand_out _ q) as [rest q']. constructor; [|done]. cbn. lia.
Qed.

Lemma leave_perm t q w q' : leave t q = Some (w, q') → q ≡ₚ w :: q' ∧ ticket w = t.
Proof.
  revert q'. induction q as [|x q IH]; intros q'; [done|]. cbn [leave]. destruct (N.eqb_spec (ticket x) t) as [He|He].
  { by intros [= -> ->]. }
  destruct (leave t q) as [[y r]|] eqn:E; [|done]. cbn. intros [= -> <-]. destruct (IH r eq_refl) as [Hp Ht].
  split; [rewrite Hp; constructor|done].
Qed.

Lemma leave_some t q : t ∈ ticket <$> q → ∃ w q', leave t q = Some (w, q').
Proof.
  induction q as [|x q IH]; [by intros ?%elem_of_nil|]. cbn [leave fmap list_fmap]. destruct (N.eqb_spec (ticket x) t) as [He|He].
  - intros _. by eexists _, _.
  - intros [->|Hin]%elem_of_cons; [done|]. destruct (IH Hin) as (w & q' & ->). by eexists _, _.
Qed.

Lemma leave_none t q : leave t q = None → t ∉ ticket <$> q.
Proof. intros H Hin. apply leave_some in Hin as (w & q' & E). congruence. Qed.

#[export] Instance gathered_perm : Proper (Permutation ==> eq) gathered.
Proof. intros q r H. unfold gathered. by rewrite H. Qed.
#[export] Instance places_perm : Proper (Permutation ==> Permutation) places.
Proof. intros q r H. unfold places. by rewrite H. Qed.
#[export] Instance fed_perm : Proper (Permutation ==> iff) fed.
Proof. intros q r H. unfold fed. by rewrite H. Qed.

Lemma hungry_spec q : hungry q = true ↔ ∃ w, w ∈ q ∧ ready w = false.
Proof.
  unfold hungry. rewrite existsb_exists. split; intros (w & Hw & Hr); exists w; split; try by apply list_elem_of_In.
  - by apply negb_true_iff.
  - by rewrite Hr.
Qed.

Lemma hungry_cons w q : hungry (w :: q) = negb (ready w) || hungry q.
Proof. done. Qed.
Lemma hungry_app q r : hungry (q ++ r) = hungry q || hungry r.
Proof. apply existsb_app. Qed.

#[export] Instance hungry_perm : Proper (Permutation ==> eq) hungry.
Proof.
  intros q r H. apply eq_true_iff_eq. rewrite !hungry_spec. split; intros (w & Hw & Hr); exists w; by rewrite H in Hw || rewrite <-H in Hw.
Qed.

Lemma places_tickets q : (places q).*1 = ticket <$> q.
Proof. unfold places. rewrite <-list_fmap_compose. by apply list_fmap_ext. Qed.

Lemma gathered_app q r : gathered (q ++ r) = gathered q + gathered r.
Proof. unfold gathered. by rewrite fmap_app, sum_N_app. Qed.

(** ** A concrete semaphore, to evaluate the definitions with *)

Module CountingSemaphore.
Record counter := mkCounter { spare : N; lineup : list Waiter }.

(** A ticket nobody in the queue has. *)
Definition fresh (q : list Waiter) : N := sum_N (ticket <$> q) + 1.

#[global] Instance counter_semaphore : Semaphore counter := {
  max_permits := 2305843009213693951;
  sem_new n := mkCounter n [];
  available_permits := spare;
  queue := lineup;
  add_permits n s := let '(rest, q) := hand_out n (lineup s) in mkCounter (spare s + rest) q;
  forget_permits n s := (N.min n (spare s), mkCounter (spare s - N.min n (spare s)) (lineup s));
  try_acquire_many n s := if n <=? spare s then Some (mkCounter (spare s - n) (lineup s)) else None;
  acquire_many n s :=
    let k := N.min n (spare s) in
    (fresh (lineup s), mkCounter (spare s - k) (lineup s ++ [mkWaiter (fresh (lineup s)) n k]));
  poll t s := '(w, q) ← leave t (lineup s); if ready w then Some (mkCounter (spare s) q) else None;
  cancel t s :=
    match leave t (lineup s) with
    | Some (w, q) => let '(rest, q') := hand_out (has w) q in mkCounter (spare s + rest) q'
    | None => s
    end;
  permit_split n u := if n <=? u then Some (n, u - n) else None }.

Lemma fresh_new q : fresh q ∉ ticket <$> q.
Proof. intros H%sum_N_elem. unfold fresh in H. lia. Qed.

#[global] Instance counter_laws : SemaphoreLaws counter _.
Proof.
  split; simpl; try done.
  - by intros n s _ ->.
  - intros n s _. by destruct (hand_out n (lineup s)).
  - intros n s k s' [= <- <-]. done.
  - intros n s s'. destruct (N.leb_spec n (spare s)); [|done]. intros [= <-]. done.
  - intros n s. by destruct (N.leb_spec n (spare s)).
  - intros n s t s' [= <- <-]. split; [apply fresh_new|done].
  - intros t s s' H. apply bind_Some in H as ([w q] & E & H). destruct (ready w) eqn:Er; [|done]. injection H as <-.
    exists w. done.
  - intros t s w q H E. rewrite E in H. cbn in H. by destruct (ready w).
  - intros t s w q E _. rewrite E. by destruct (hand_out (has w) q).
  - intros n u Hn. by rewrite (proj2 (N.leb_le _ _) Hn).
Qed.
End CountingSemaphore.
