(* ===== verification/Units.v ===== *)
(** * Duration and byte-size scalars ([src/src/config/units.rs])

    A [std::time::Duration] is its exact length in nanoseconds.  [Dur] and
    [Bytes] are the two scalar types of the configuration file, with the
    hand-written parsers and every error they distinguish. *)

From S2P Require Import Prelude Words Text.
Local Open Scope string_scope.
Local Open Scope N_scope.

(** ** [std::time::Duration] *)

Abbreviation Duration := N (only parsing).

Definition from_millis (n : N) : Duration := n * 1000000.
Definition from_secs (n : N) : Duration := n * 1000000000.
Definition as_millis (d : Duration) : N := d / 1000000.
Definition as_secs (d : Duration) : N := d / 1000000000.
Definition as_micros (d : Duration) : N := d / 1000.
Definition is_zero (d : Duration) : bool := d =? 0.

(** Seconds are a [u64] and nanoseconds stay below a second. *)
Definition DURATION_MAX : Duration := U64_MAX * 1000000000 + 999999999.

(** ** [Dur] *)

Record Dur : Set := MkDur { as_duration : Duration }.
#[export] Instance Dur_eq_dec : EqDecision Dur.
Proof. solve_decision. Defined.

Definition ZERO : Dur := MkDur 0.

Inductive UnitError : Set :=
| Empty
| NoUnit (s : string)
| NonInteger (s : string)
| Overflows (s : string)
| UnknownUnit (s other : string).

#[export] Instance UnitError_eq_dec : EqDecision UnitError.
Proof. solve_decision. Defined.

(** [s.find(|c| c.is_ascii_alphabetic())] followed by [split_at]. *)
Fixpoint split_alpha (s : string) : option (string * string) :=
  match s with
  | EmptyString => None
  | String a s' =>
      if is_ascii_alphabetic a then Some (EmptyString, s)
      else match split_alpha s' with
           | Some (k, v) => Some (String a k, v)
           | None => None
           end
  end.

Definition parse_Dur (raw : string) : result UnitError Dur :=
  let s := trim raw in
  if is_empty s then Err Empty else
  '(num, unit) ← ok_or (split_alpha s) (NoUnit s);
  num ← ok_or (parse_u64 (trim num)) (NonInteger s);
  d ← (if bool_decide (unit = "ms") then Ok (from_millis num)
       else if bool_decide (unit = "s") then Ok (from_secs num)
       else if bool_decide (unit = "m") then
         from_secs <$> ok_or (checked_mul num 60) (Overflows s)
       else if bool_decide (unit = "h") then
         from_secs <$> ok_or (checked_mul num 3600) (Overflows s)
       else Err (UnknownUnit s unit));
  Ok (MkDur d).

(** ** [Bytes] *)

Record Bytes : Set := MkBytes { get : N }.
#[export] Instance Bytes_eq_dec : EqDecision Bytes.
Proof. solve_decision. Defined.

Definition as_usize (b : Bytes) : N := to_usize (get b).

Definition parse_Bytes (raw : string) : result UnitError Bytes :=
  let s := trim raw in
  if is_empty s then Err Empty else
  let '(num, unit) := default (s, EmptyString) (split_alpha s) in
  num ← ok_or (parse_u64 (trim num)) (NonInteger s);
  let unit := trim unit in
  mult ← (if bool_decide (unit = EmptyString) || bool_decide (unit = "B") then Ok 1
          else if bool_decide (unit = "KiB") then Ok 1024
          else if bool_decide (unit = "MiB") then Ok (1024 * 1024)
          else if bool_decide (unit = "GiB") then Ok (1024 * 1024 * 1024)
          else Err (UnknownUnit s unit));
  MkBytes <$> ok_or (checked_mul num mult) (Overflows s).

(** ** Properties *)

Lemma split_alpha_app num unit :
  all_chars is_digit num = true →
  match unit with String a _ => is_ascii_alphabetic a = true | EmptyString => False end →
  split_alpha (num +:+ unit) = Some (num, unit).
Proof.
  intros Hn Hu. induction num as [|a num IH]; simpl in *.
  - destruct unit as [|b u]; [done|]. simpl. by rewrite Hu.
  - apply andb_true_iff in Hn as [Ha Hn].
    assert (is_ascii_alphabetic a = false) as ->.
    { unfold is_digit, is_ascii_alphabetic, is_upper, is_lower in *.
      apply andb_true_iff in Ha as [?%N.leb_le ?%N.leb_le].
      apply orb_false_iff; split; apply andb_false_iff; rewrite !N.leb_gt; lia. }
    by rewrite IH.
Qed.

Lemma split_alpha_digits num : all_chars is_digit num = true → split_alpha num = None.
Proof.
  induction num as [|a num IH]; simpl; [done|]. intros [Ha Hn]%andb_true_iff.
  assert (is_ascii_alphabetic a = false) as ->; [|by rewrite IH].
  unfold is_digit, is_ascii_alphabetic, is_upper, is_lower in *.
  apply andb_true_iff in Ha as [?%N.leb_le ?%N.leb_le].
  apply orb_false_iff; split; apply andb_false_iff; rewrite !N.leb_gt; lia.
Qed.

(** The units a duration may carry, with their length, as a specification. *)
Definition dur_unit (unit : string) : option Duration :=
  if bool_decide (unit = "ms") then Some 1000000
  else if bool_decide (unit = "s") then Some 1000000000
  else if bool_decide (unit = "m") then Some 60000000000
  else if bool_decide (unit = "h") then Some 3600000000000
  else None.

Lemma alphabetic_graphic s :
  all_chars is_ascii_alphabetic s = true → all_chars is_ascii_graphic s = true.
Proof.
  apply all_chars_impl. intros a. unfold is_ascii_alphabetic, is_upper, is_lower, is_ascii_graphic.
  rewrite orb_true_iff, !andb_true_iff, !N.leb_le. lia.
Qed.

Lemma trim_number_unit n unit :
  all_chars is_ascii_alphabetic unit = true →
  trim (print_uint n +:+ unit) = print_uint n +:+ unit.
Proof.
  intros Hu. apply trim_graphic. rewrite all_chars_app, print_uint_graphic.
  by apply alphabetic_graphic.
Qed.

Lemma number_unit_nonempty n unit : is_empty (print_uint n +:+ unit) = false.
Proof. pose proof (print_uint_nonempty n). by destruct (print_uint n). Qed.

Lemma split_number_unit n unit :
  all_chars is_ascii_alphabetic unit = true → unit ≠ EmptyString →
  split_alpha (print_uint n +:+ unit) = Some (print_uint n, unit).
Proof.
  intros Hu Hne. apply split_alpha_app; [apply print_uint_digits|].
  destruct unit; [done|]. by apply andb_true_iff in Hu as [? _].
Qed.

Lemma parse_number n : n <= U64_MAX → parse_u64 (trim (print_uint n)) = Some n.
Proof. intros Hn. rewrite trim_graphic by apply print_uint_graphic. by apply parse_print_uint. Qed.

(** What [Dur::parse] answers on a written duration: the value in nanoseconds
    when the unit is known and the number of seconds fits [u64], the matching
    error otherwise. *)
Theorem parse_Dur_print n unit :
  n <= U64_MAX → all_chars is_ascii_alphabetic unit = true → unit ≠ EmptyString →
  parse_Dur (print_uint n +:+ unit) =
    match dur_unit unit with
    | None => Err (UnknownUnit (print_uint n +:+ unit) unit)
    | Some k => if n * (k / 1000000000) <=? U64_MAX then Ok (MkDur (n * k))
                else Err (Overflows (print_uint n +:+ unit))
    end.
Proof.
  intros Hn Hu Hne. unfold parse_Dur.
  rewrite trim_number_unit, number_unit_nonempty, split_number_unit by done. simpl.
  rewrite parse_number by done. simpl. unfold dur_unit.
  repeat case_bool_decide; simpl; unfold checked_mul, from_millis, from_secs.
  - change (1000000 / 1000000000) with 0. by rewrite N.mul_0_r.
  - change (1000000000 / 1000000000) with 1.
    rewrite N.mul_1_r. by rewrite (proj2 (N.leb_le _ _) Hn).
  - change (60000000000 / 1000000000) with 60.
    destruct (N.leb_spec (n * 60) U64_MAX); [|done].
    simpl. do 2 f_equal. lia.
  - change (3600000000000 / 1000000000) with 3600.
    destruct (N.leb_spec (n * 3600) U64_MAX); [|done].
    simpl. do 2 f_equal. lia.
  - done.
Qed.

(** A bare integer is refused: the configuration has both scales in it. *)
Lemma parse_Dur_unitless n : parse_Dur (print_uint n) = Err (NoUnit (print_uint n)).
Proof.
  unfold parse_Dur. rewrite trim_graphic by apply print_uint_graphic.
  pose proof (number_unit_nonempty n EmptyString) as Hne. rewrite str_app_nil_r in Hne.
  rewrite Hne, split_alpha_digits by apply print_uint_digits. done.
Qed.

(** Every parsed duration is one [Duration] can hold. *)
Lemma parse_Dur_bound s d : parse_Dur s = Ok d → as_duration d <= DURATION_MAX.
Proof.
  unfold parse_Dur, DURATION_MAX. destruct (is_empty (trim s)); [done|].
  rewrite bind_ok. intros ([num unit] & _ & H).
  rewrite bind_ok in H. destruct H as (n & Hn & H).
  apply ok_or_ok, parse_uint_bound in Hn.
  apply bind_ok in H as (d' & Hd & [= <-]). simpl.
  assert (Hsec : ∀ m e, from_secs <$> ok_or (checked_mul n m) e = @Ok UnitError N d' →
    d' <= U64_MAX * 1000000000 + 999999999).
  { intros m e. destruct (checked_mul n m) as [v|] eqn:E; [|done].
    apply checked_mul_some in E as [-> E]. intros [= <-]. unfold from_secs. lia. }
  repeat case_bool_decide; try done; [..|by eapply Hsec|by eapply Hsec];
    injection Hd as <-; unfold from_millis, from_secs; lia.
Qed.

(** The multipliers a byte size may carry, as a specification. *)
Definition size_unit (unit : string) : option N :=
  if bool_decide (unit = EmptyString) || bool_decide (unit = "B") then Some 1
  else if bool_decide (unit = "KiB") then Some 1024
  else if bool_decide (unit = "MiB") then Some 1048576
  else if bool_decide (unit = "GiB") then Some 1073741824
  else None.

(** What [Bytes::parse] answers on a written size: the number of bytes when
    the unit is known and the product fits [u64], the matching error
    otherwise. *)
Theorem parse_Bytes_print n unit :
  n <= U64_MAX → all_chars is_ascii_alphabetic unit = true →
  parse_Bytes (print_uint n +:+ unit) =
    match size_unit unit with
    | None => Err (UnknownUnit (print_uint n +:+ unit) unit)
    | Some k => if n * k <=? U64_MAX then Ok (MkBytes (n * k))
                else Err (Overflows (print_uint n +:+ unit))
    end.
Proof.
  intros Hn Hu. unfold parse_Bytes.
  rewrite trim_number_unit, number_unit_nonempty by done.
  assert (default (print_uint n +:+ unit, EmptyString) (split_alpha (print_uint n +:+ unit))
          = (print_uint n, unit)) as ->.
  { destruct (decide (unit = EmptyString)) as [->|Hne].
    - by rewrite str_app_nil_r, split_alpha_digits by apply print_uint_digits.
    - by rewrite split_number_unit. }
  rewrite parse_number by done. simpl.
  rewrite (trim_graphic unit) by by apply alphabetic_graphic.
  unfold size_unit, checked_mul.
  change (1024 * 1024 * 1024) with 1073741824. change (1024 * 1024) with 1048576.
  repeat case_bool_decide; simpl; try done; by destruct (n * _ <=? U64_MAX).
Qed.

(** ** Witnesses *)

Lemma parse_Dur_print_witness : parse_Dur "90m" = Ok (MkDur 5400000000000).
Proof. apply (parse_Dur_print 90 "m"); [done|reflexivity|done]. Defined.

Lemma parse_Bytes_print_witness : parse_Bytes "512MiB" = Ok (MkBytes 536870912).
Proof. apply (parse_Bytes_print 512 "MiB"); [done|reflexivity]. Defined.
