(* ===== verification/Schema.v ===== *)
(** * The configuration schema ([src/src/config/schema.rs])

    One module per struct, its record named as in the source, its fields with
    the source's names; enums are inductive types.  [default] is the struct's
    [Default] instance (or what serde fills in for a missing block).  Reading
    the YAML file is serde's work and is not modelled: the development starts
    from a [Config] value. *)

From S2P Require Import Prelude Words Text Units.
Local Open Scope string_scope.
Local Open Scope N_scope.

(** ** Named defaults *)

Definition d_500ms : Dur := MkDur (from_millis 500).
Definition d_1s : Dur := MkDur (from_secs 1).
Definition d_2s : Dur := MkDur (from_secs 2).
Definition d_5s : Dur := MkDur (from_secs 5).
Definition d_10s : Dur := MkDur (from_secs 10).
Definition d_30s : Dur := MkDur (from_secs 30).
Definition twenty : N := 20.
Definition fifty : N := 50.
Definition ten : N := 10.
Definition two : N := 2.
Definition three_usize : N := 3.
Definition hundred : N := 100.
Definition one : N := 1.
Definition three : N := 3.
Definition status_503 : N := 503.
Definition default_listen : string := "0.0.0.0:8080".
Definition default_pid_file : string := "/tmp/harmost.pid".
Definition default_upgrade_socket : string := "/tmp/harmost-upgrade.sock".
Definition default_tag_header : string := "x-harmost-cache-tags".
Definition default_max_memory : Bytes := MkBytes (512 * 1024 * 1024).
Definition default_max_body : Bytes := MkBytes (4 * 1024 * 1024).
Definition default_spool_body : Bytes := MkBytes (2 * 1024 * 1024).
Definition default_spool_memory : Bytes := MkBytes (256 * 1024 * 1024).
Definition default_upgrade_max : N := 100.
Definition default_span_queue : N := 2048.
Definition default_span_batch : N := 256.

(** ** Enumerations *)

Inductive Mode := Observe | Protect.
Inductive ForwardedSource := XForwarded | Forwarded | NoForwarded.
Inductive Priority := High | Normal | Low.
Inductive OriginHttpVersion := Http1 | Http2 | Auto.
Inductive LoadBalancing := RoundRobin | HashByPath | LeastLoaded.
Inductive Eviction := Clock | Fifo.
Inductive StoreKind := Memory.
Inductive OnCoalesceTimeout := StaleOrShed | Requeue.
Inductive ClassOverride :=
| CoStatic | CoPublicSsr | CoPublicDynamic | CoPrivateDynamic | CoStreaming.
Inductive QueryMode := Include | Exclude.
Inductive SampleMode := ParentOrRatio | Ratio | Always | Never.
Inductive TrustIncoming := FromTrustedProxies | TrustAlways | TrustNever.
Inductive LogFormat := Json | LogText.

#[export] Instance Mode_eq_dec : EqDecision Mode. Proof. solve_decision. Defined.
#[export] Instance ForwardedSource_eq_dec : EqDecision ForwardedSource.
Proof. solve_decision. Defined.
#[export] Instance Priority_eq_dec : EqDecision Priority. Proof. solve_decision. Defined.
#[export] Instance OriginHttpVersion_eq_dec : EqDecision OriginHttpVersion.
Proof. solve_decision. Defined.
#[export] Instance LoadBalancing_eq_dec : EqDecision LoadBalancing.
Proof. solve_decision. Defined.
#[export] Instance Eviction_eq_dec : EqDecision Eviction. Proof. solve_decision. Defined.
#[export] Instance StoreKind_eq_dec : EqDecision StoreKind. Proof. solve_decision. Defined.
#[export] Instance OnCoalesceTimeout_eq_dec : EqDecision OnCoalesceTimeout.
Proof. solve_decision. Defined.
#[export] Instance ClassOverride_eq_dec : EqDecision ClassOverride.
Proof. solve_decision. Defined.
#[export] Instance QueryMode_eq_dec : EqDecision QueryMode. Proof. solve_decision. Defined.
#[export] Instance SampleMode_eq_dec : EqDecision SampleMode. Proof. solve_decision. Defined.
#[export] Instance TrustIncoming_eq_dec : EqDecision TrustIncoming.
Proof. solve_decision. Defined.
#[export] Instance LogFormat_eq_dec : EqDecision LogFormat. Proof. solve_decision. Defined.

(** ** The server block *)

Module CapacityGroup.
Record CapacityGroup := mk { global_max : N; replicas : N }.
End CapacityGroup.

Module Graceful.
Record Graceful := mk {
  pid_file : string;
  upgrade_socket : string;
  drain_period : Dur;
  shutdown_timeout : Dur }.
#[global] Instance eq_dec : EqDecision Graceful.
Proof. solve_decision. Defined.
Definition default_Graceful : Graceful :=
  mk default_pid_file default_upgrade_socket d_5s d_10s.
End Graceful.

Module ServerTls.
Record ServerTls := mk { listen : string; cert : string; key : string; h2 : bool }.
#[global] Instance eq_dec : EqDecision ServerTls.
Proof. solve_decision. Defined.
End ServerTls.

Module TrustedProxies.
Record TrustedProxies := mk {
  from : list string;
  client_ip : ForwardedSource;
  scheme : ForwardedSource }.
#[global] Instance eq_dec : EqDecision TrustedProxies.
Proof. solve_decision. Defined.
Definition default_TrustedProxies : TrustedProxies := mk [] XForwarded XForwarded.
End TrustedProxies.

Module Server.
Record Server := mk {
  listen : string;
  h2c : bool;
  tls : option ServerTls.ServerTls;
  trusted_proxies : TrustedProxies.TrustedProxies;
  graceful : Graceful.Graceful }.
Definition default_Server : Server :=
  mk default_listen false None TrustedProxies.default_TrustedProxies Graceful.default_Graceful.
End Server.

(** ** The origin block *)

Module Priorities.
Record Priorities := mk { high : N; normal : N; low : N }.
#[global] Instance eq_dec : EqDecision Priorities.
Proof. solve_decision. Defined.
Definition default_Priorities : Priorities := mk hundred hundred hundred.

Definition is_uniform (p : Priorities) : bool :=
  (high p =? 100) && (normal p =? 100) && (low p =? 100).

Definition percent_for (p : Priorities) (priority : Priority) : N :=
  match priority with High => high p | Normal => normal p | Low => low p end.
End Priorities.

Definition limiter_name (p : Priority) : string :=
  match p with High => "tier:high" | Normal => "tier:normal" | Low => "tier:low" end.

(** [Priority::ALL]. *)
Definition all_priorities : list Priority := [High; Normal; Low].

Module Breaker.
Record Breaker := mk {
  enabled : bool;
  window : Dur;
  min_requests : N;
  failure_percent : N;
  open_for : Dur;
  max_ejected_percent : N }.
#[global] Instance eq_dec : EqDecision Breaker.
Proof. solve_decision. Defined.
Definition default_Breaker : Breaker := mk false d_10s twenty fifty d_30s fifty.
End Breaker.

Module Retry.
Record Retry := mk {
  enabled : bool;
  max_attempts : N;
  window : Dur;
  budget_percent : N;
  budget_min : N }.
#[global] Instance eq_dec : EqDecision Retry.
Proof. solve_decision. Defined.
Definition default_Retry : Retry := mk false two d_10s ten three_usize.
End Retry.

Module OriginTls.
Record OriginTls := mk {
  sni : string;
  verify_cert : bool;
  verify_hostname : bool;
  ca : option string }.
#[global] Instance eq_dec : EqDecision OriginTls.
Proof. solve_decision. Defined.
End OriginTls.

Module Queue.
Record Queue := mk { max : N; timeout : Dur }.
Definition default_Queue : Queue := mk 0 ZERO.
End Queue.

Module Concurrency.
Record Concurrency := mk { max : N; queue : Queue.Queue }.
Definition default_Concurrency : Concurrency := mk 500 Queue.default_Queue.
End Concurrency.

Module Origin.
Record Origin := mk {
  upstreams : list string;
  resolve_interval : Dur;
  load_balancing : LoadBalancing;
  concurrency : Concurrency.Concurrency;
  tls : option OriginTls.OriginTls;
  http_version : OriginHttpVersion;
  breaker : Breaker.Breaker;
  retry : Retry.Retry;
  priorities : Priorities.Priorities }.
End Origin.

Module Health.
Record Health := mk {
  path : string;
  interval : Dur;
  timeout : Dur;
  healthy_after : N;
  unhealthy_after : N }.
#[global] Instance eq_dec : EqDecision Health.
Proof. solve_decision. Defined.
End Health.

(** ** Cache, coalescing and the other top-level blocks *)

Module Purge.
Record Purge := mk { token : option string }.
#[global] Instance eq_dec : EqDecision Purge.
Proof. solve_decision. Defined.
End Purge.

Module CacheDefaults.
Record CacheDefaults := mk {
  enabled : bool;
  store : StoreKind;
  max_memory : Bytes;
  max_body_size : Bytes;
  respect_origin : bool;
  eviction : Eviction;
  tag_header : string;
  purge : Purge.Purge }.
Definition default_CacheDefaults : CacheDefaults :=
  mk true Memory default_max_memory default_max_body true Clock default_tag_header
     (Purge.mk None).
End CacheDefaults.

Module CoalesceDefaults.
Record CoalesceDefaults := mk {
  enabled : bool;
  wait_timeout : option Dur;
  on_timeout : OnCoalesceTimeout }.
Definition default_CoalesceDefaults : CoalesceDefaults := mk true None StaleOrShed.
End CoalesceDefaults.

Module Timeouts.
Record Timeouts := mk {
  connect : Dur;
  first_byte : Dur;
  idle : Dur;
  origin : Dur;
  downstream_write : Dur }.
Definition default_Timeouts : Timeouts := mk d_500ms d_5s d_30s d_30s d_30s.
End Timeouts.

Module Spool.
Record Spool := mk { enabled : bool; max_body : Bytes; max_memory : Bytes }.
Definition default_Spool : Spool := mk false default_spool_body default_spool_memory.
End Spool.

Module RouteSpool.
Record RouteSpool := mk { enabled : option bool }.
End RouteSpool.

Module Upgrade.
Record Upgrade := mk { enabled : bool; max_concurrent : N }.
Definition default_Upgrade : Upgrade := mk false default_upgrade_max.
End Upgrade.

Module Overload.
Record Overload := mk { status : N; retry_after : Dur }.
Definition default_Overload : Overload := mk status_503 d_1s.
End Overload.

Module Deployment.
Record Deployment := mk { id : option string; id_header : option string }.
Definition default_Deployment : Deployment := mk None None.
End Deployment.

(** ** Routes *)

Module DetailedMatcher.
Record DetailedMatcher := mk {
  host : option string;
  path : string;
  methods : option (list string) }.
End DetailedMatcher.

Inductive Matcher :=
| Path (p : string)
| Detailed (d : DetailedMatcher.DetailedMatcher).

Module Ttl.
Record Ttl := mk { max : option Dur }.
End Ttl.

Module QueryPolicy.
Record QueryPolicy := mk { mode : QueryMode; keys : list string }.
End QueryPolicy.

Module VaryPolicy.
Record VaryPolicy := mk { headers : list string }.
End VaryPolicy.

Module RouteCache.
Record RouteCache := mk {
  enabled : option bool;
  ttl : option Ttl.Ttl;
  stale_while_revalidate : option Dur;
  stale_if_error : option Dur;
  query : option QueryPolicy.QueryPolicy;
  vary : option VaryPolicy.VaryPolicy;
  override_origin : bool }.
Definition default_RouteCache : RouteCache := mk None None None None None None false.
End RouteCache.

Module RouteCoalesce.
Record RouteCoalesce := mk { enabled : option bool; override_origin : bool }.
End RouteCoalesce.

Module Route.
Record Route := mk {
  id : string;
  matcher : Matcher;
  class : option ClassOverride;
  priority : Priority;
  weight : N;
  cache : option RouteCache.RouteCache;
  coalesce : option RouteCoalesce.RouteCoalesce;
  concurrency : option Concurrency.Concurrency;
  spool : option RouteSpool.RouteSpool }.
End Route.

(** ** Telemetry *)

Module Prometheus.
Record Prometheus := mk { listen : string }.
#[global] Instance eq_dec : EqDecision Prometheus.
Proof. solve_decision. Defined.
End Prometheus.

Module Admin.
Record Admin := mk { listen : string; require_healthy_upstream : bool }.
#[global] Instance eq_dec : EqDecision Admin.
Proof. solve_decision. Defined.
End Admin.

Module Otlp.
Record Otlp := mk {
  endpoint : string;
  timeout : Dur;
  max_queue : N;
  max_batch : N;
  interval : Dur }.
#[global] Instance eq_dec : EqDecision Otlp.
Proof. solve_decision. Defined.
End Otlp.

Module Sample.
Record Sample := mk { mode : SampleMode; one_in : N }.
#[global] Instance eq_dec : EqDecision Sample.
Proof. solve_decision. Defined.
Definition default_Sample : Sample := mk ParentOrRatio 1.
End Sample.

Module Tracing.
Record Tracing := mk {
  service_name : option string;
  otlp : option Otlp.Otlp;
  sample : Sample.Sample;
  trust_incoming : TrustIncoming }.
#[global] Instance eq_dec : EqDecision Tracing.
Proof. solve_decision. Defined.
Definition default_Tracing : Tracing := mk None None Sample.default_Sample TrustNever.
End Tracing.

Module Logging.
Record Logging := mk { format : LogFormat }.
Definition default_Logging : Logging := mk Json.
End Logging.

Module Telemetry.
Record Telemetry := mk {
  prometheus : option Prometheus.Prometheus;
  admin : option Admin.Admin;
  tracing : Tracing.Tracing;
  logging : Logging.Logging }.
Definition default_Telemetry : Telemetry :=
  mk None None Tracing.default_Tracing Logging.default_Logging.
End Telemetry.

(** ** The whole file *)

Module Config.
Record Config := mk {
  version : N;
  mode : Mode;
  server : Server.Server;
  origin : Origin.Origin;
  capacity : option CapacityGroup.CapacityGroup;
  health : option Health.Health;
  cache : CacheDefaults.CacheDefaults;
  coalesce : CoalesceDefaults.CoalesceDefaults;
  timeouts : Timeouts.Timeouts;
  overload : Overload.Overload;
  spool : Spool.Spool;
  upgrade : Upgrade.Upgrade;
  deployment : Deployment.Deployment;
  routes : list Route.Route;
  telemetry : Telemetry.Telemetry;
  debug_headers : bool }.
End Config.

(** The version this build understands ([src/src/config/mod.rs]). *)
Definition SCHEMA_VERSION : N := 1.
