(* ===== verification/Limiter.v ===== *)
(** * The concurrency limiter ([src/src/admission/limiter.rs])

    A limiter is a counting semaphore whose ceiling can move while permits are
    out.  The semaphore is tokio's ([Semaphores]): a request that waits holds its
    place in a first-come queue, with the permits it has gathered so far.  Every
    method of the source is one function on the limiter's state; the
    [parking_lot] guard that serialises resizing with permit returns makes
    [resize] and [release] atomic, and [acquire] is split at its only await into
    [acquire_start] and [acquire_finish].  [step] interleaves the methods of any
    number of requests over one limiter. *)

From S2P Require Import Prelude Words Text Units Semaphores.
Local Open Scope N_scope.

(** ** State *)

Inductive ShedReason := QueueFull | QueueTimeout.
#[export] Instance ShedReason_eq_dec : EqDecision ShedReason.
Proof. solve_decision. Defined.

Definition ShedReason_as_str (r : ShedReason) : string :=
  match r with QueueFull => "queue_full" | QueueTimeout => "queue_timeout" end.

(** A timeout in whole milliseconds, saturating. *)
Definition millis (d : Duration) : N := clamp U64_MAX (as_millis d).

Section Limiter.
Context {Sem : Type} `{S : !Semaphore Sem}.

Record Limiter := mkLimiter {
  name : string;
  sem : Sem;
  limit : N;
  debt : N;
  queue_depth : N;
  queue_max : N;
  queue_timeout_ms : N;
  admitted : N;
  queued : N;
  shed : N }.

Definition new (name : string) (limit queue_max : N) (queue_timeout : Duration) : Limiter :=
  mkLimiter name (sem_new limit) limit 0 0 queue_max (millis queue_timeout) 0 0 0.

Definition available (l : Limiter) : N := available_permits (sem l).
Definition queue_timeout (l : Limiter) : Duration := from_millis (queue_timeout_ms l).

(** Field updates. *)
Definition with_sem (s : Sem) (l : Limiter) : Limiter :=
  mkLimiter (name l) s (limit l) (debt l) (queue_depth l) (queue_max l)
    (queue_timeout_ms l) (admitted l) (queued l) (shed l).
Definition with_limit (n : N) (l : Limiter) : Limiter :=
  mkLimiter (name l) (sem l) n (debt l) (queue_depth l) (queue_max l)
    (queue_timeout_ms l) (admitted l) (queued l) (shed l).
Definition with_debt (n : N) (l : Limiter) : Limiter :=
  mkLimiter (name l) (sem l) (limit l) n (queue_depth l) (queue_max l)
    (queue_timeout_ms l) (admitted l) (queued l) (shed l).
Definition with_queue_depth (n : N) (l : Limiter) : Limiter :=
  mkLimiter (name l) (sem l) (limit l) (debt l) n (queue_max l)
    (queue_timeout_ms l) (admitted l) (queued l) (shed l).
Definition count_admitted (l : Limiter) : Limiter :=
  mkLimiter (name l) (sem l) (limit l) (debt l) (queue_depth l) (queue_max l)
    (queue_timeout_ms l) (wrapping_add (admitted l) 1) (queued l) (shed l).
Definition count_queued (l : Limiter) : Limiter :=
  mkLimiter (name l) (sem l) (limit l) (debt l) (queue_depth l) (queue_max l)
    (queue_timeout_ms l) (admitted l) (wrapping_add (queued l) 1) (shed l).
Definition count_shed (l : Limiter) : Limiter :=
  mkLimiter (name l) (sem l) (limit l) (debt l) (queue_depth l) (queue_max l)
    (queue_timeout_ms l) (admitted l) (queued l) (wrapping_add (shed l) 1).

(** ** Operations *)

Definition set_queue (max : N) (timeout : Duration) (l : Limiter) : Limiter :=
  mkLimiter (name l) (sem l) (limit l) (debt l) (queue_depth l) max (millis timeout)
    (admitted l) (queued l) (shed l).

(** Move the ceiling without disturbing in-flight work: growing first cancels
    outstanding shrink debt, shrinking takes what is available and records the
    rest as debt. *)
Definition resize (new_limit : N) (l : Limiter) : Limiter :=
  let old := limit l in
  let l := with_limit new_limit l in
  if old <? new_limit then
    let grant := new_limit - old in
    let cancelled := N.min (debt l) grant in
    let l := with_debt (debt l - cancelled) l in
    let grant := grant - cancelled in
    if 0 <? grant then with_sem (add_permits grant (sem l)) l else l
  else if new_limit <? old then
    let owed := old - new_limit in
    let '(forgotten, s) := forget_permits owed (sem l) in
    let l := with_sem s l in
    if forgotten <? owed then with_debt (wrapping_add (debt l) (owed - forgotten)) l
    else l
  else l.

(** [Drop for Permit], for a permit worth [units]: shrink debt is settled
    before anything becomes available again. *)
Definition release (units : N) (l : Limiter) : Limiter :=
  let absorbed := N.min (debt l) units in
  let l := with_debt (debt l - absorbed) l in
  if absorbed =? units then l
  else if 0 <? absorbed then
    match permit_split Sem absorbed units with
    | Some (_, rest) => with_sem (add_permits rest (sem l)) l
    | None =>
        let l := with_debt (wrapping_add (debt l) absorbed) l in
        with_sem (add_permits units (sem l)) l
    end
  else with_sem (add_permits units (sem l)) l.

(** What [acquire] does up to its await. *)
Inductive Start :=
| Granted (units : N) (l : Limiter)
| Refused (reason : ShedReason) (l : Limiter)
| Parked (ticket units : N) (l : Limiter).

Definition acquire_start (weight : N) (l : Limiter) : Start :=
  let weight := N.max weight 1 in
  match try_acquire_many weight (sem l) with
  | Some s => Granted weight (count_admitted (with_sem s l))
  | None =>
      if queue_max l =? 0 then Refused QueueFull (count_shed l)
      else
        let depth := queue_depth l in
        let l := with_queue_depth (wrapping_add depth 1) l in
        if queue_max l <=? depth then
          Refused QueueFull (count_shed (with_queue_depth (wrapping_sub (queue_depth l) 1) l))
        else
          let '(t, s) := acquire_many weight (sem l) in
          Parked t weight (count_queued (with_sem s l))
  end.

(** The await: [timeout(wait, acquire_many)] ends with the permits ([poll]), with
    a closed semaphore, or with the deadline.  [wait_for] is the time it is
    given; a deadline bounds the total wait across several limiters. *)
Inductive Wait := Woken (s : Sem) | Closed | Elapsed.

Definition wait_for (deadline : option N) (now : N) (l : Limiter) : Duration :=
  match deadline with Some d => d - now | None => queue_timeout l end.

(** [Drop for QueueSlot]. *)
Definition drop_queue_slot (l : Limiter) : Limiter :=
  with_queue_depth (wrapping_sub (queue_depth l) 1) l.

(** The future of [acquire_many] is dropped before it is done, then the queue
    slot: what a wait that timed out does, and a caller that gives up. *)
Definition leave_line (ticket : N) (l : Limiter) : Limiter :=
  drop_queue_slot (with_sem (cancel ticket (sem l)) l).

(** And after the await: the queue slot is dropped on every path. *)
Definition acquire_finish (ticket units : N) (w : Wait) (l : Limiter) : result ShedReason N * Limiter :=
  match w with
  | Woken s =>
      let l := drop_queue_slot (with_sem s l) in
      (Ok units, count_admitted l)
  | Closed =>
      let l := leave_line ticket l in
      (Err QueueFull, count_shed l)
  | Elapsed =>
      let l := leave_line ticket l in
      (Err QueueTimeout, count_shed l)
  end.

(** ** Interleaving

    One limiter, the units of every live permit, and the place of every parked
    request: its ticket and what it asked for.  A parked request goes on when
    the semaphore has given it all of that; when it looks is up to the
    scheduler. *)

Record World := mkWorld { lim : Limiter; held : list N; parked : list (N * N) }.

Inductive event :=
| EvGrant (units : N)
| EvRefuse (reason : ShedReason)
| EvPark
| EvWake (units : N)
| EvCancel
| EvRelease (units : N)
| EvResize (limit : N)
| EvQueue.

Inductive step : World → event → World → Prop :=
| step_grant w weight units l' :
    acquire_start weight (lim w) = Granted units l' →
    step w (EvGrant units) (mkWorld l' (units :: held w) (parked w))
| step_refuse w weight reason l' :
    acquire_start weight (lim w) = Refused reason l' →
    step w (EvRefuse reason) (mkWorld l' (held w) (parked w))
| step_park w weight t units l' :
    acquire_start weight (lim w) = Parked t units l' →
    step w EvPark (mkWorld l' (held w) ((t, units) :: parked w))
| step_wake w i t units s l' :
    parked w !! i = Some (t, units) →
    poll t (sem (lim w)) = Some s →
    acquire_finish t units (Woken s) (lim w) = (Ok units, l') →
    step w (EvWake units) (mkWorld l' (units :: held w) (delete i (parked w)))
| step_timeout w i t units reason l' :
    parked w !! i = Some (t, units) →
    acquire_finish t units Elapsed (lim w) = (Err reason, l') →
    step w (EvRefuse reason) (mkWorld l' (held w) (delete i (parked w)))
| step_cancel w i t units :
    parked w !! i = Some (t, units) →
    step w EvCancel (mkWorld (leave_line t (lim w)) (held w) (delete i (parked w)))
| step_release w i units :
    held w !! i = Some units →
    step w (EvRelease units) (mkWorld (release units (lim w)) (delete i (held w)) (parked w))
| step_resize w n :
    n <= max_permits Sem →
    step w (EvResize n) (mkWorld (resize n (lim w)) (held w) (parked w))
| step_set_queue w max timeout :
    max <= USIZE_MAX →
    step w EvQueue (mkWorld (set_queue max timeout (lim w)) (held w) (parked w)).

Inductive reachable : World → Prop :=
| reach_new nm n qm qt :
    n <= max_permits Sem → qm <= USIZE_MAX →
    reachable (mkWorld (new nm n qm qt) [] [])
| reach_step w e w' : reachable w → step w e w' → reachable w'.

(** The units there are: the ceiling, and what a shrink has still to collect. *)
Definition units_of (l : Limiter) : N := limit l + debt l.
Definition line (l : Limiter) : list Waiter := queue (sem l).

(** The invariant: every unit there is is available, gathered by a waiter or
    held; and the queue is the parked requests, served in order. *)
Definition balanced (l : Limiter) (busy : N) : Prop :=
  available l + gathered (line l) + busy = units_of l ∧ units_of l <= max_permits Sem.

Definition orderly (l : Limiter) (ws : list (N * N)) : Prop :=
  places (line l) ≡ₚ ws ∧ NoDup (ticket <$> line l) ∧ fed (line l)
  ∧ (hungry (line l) = true → available l = 0).

Definition Inv (w : World) : Prop :=
  balanced (lim w) (sum_N (held w))
  ∧ orderly (lim w) (parked w)
  ∧ queue_depth (lim w) = N.of_nat (length (parked w))
  ∧ queue_depth (lim w) <= USIZE_MAX
  ∧ queue_max (lim w) <= USIZE_MAX.

End Limiter.
Arguments Limiter Sem : clear implicits.
Arguments World Sem : clear implicits.
Arguments Start Sem : clear implicits.
Arguments Wait Sem : clear implicits.

(** ** Proofs *)

Section LimiterFacts.
Context {Sem : Type} `{S : !Semaphore Sem} {laws : SemaphoreLaws Sem S}.
Implicit Types (l : Limiter Sem) (s : Sem).

(** What only [set_queue] and [resize] change. *)
Definition same_limits l l' : Prop :=
  limit l' = limit l ∧ debt l' = debt l ∧ queue_max l' = queue_max l.

Lemma balanced_new nm n qm qt :
  n <= max_permits Sem → balanced (new nm n qm qt : Limiter Sem) 0 ∧ line (new nm n qm qt : Limiter Sem) = [].
Proof.
  intros Hn. unfold balanced, available, units_of, line; simpl.
  destruct (sem_new_spec n (sem_new n : Sem) Hn eq_refl) as [-> ->]. split; [|done]. split; [cbn|]; lia.
Qed.

Lemma orderly_nil l : line l = [] → orderly l [].
Proof. unfold orderly. intros ->. split_and!; [done|constructor|constructor|done]. Qed.

Lemma orderly_empty l : orderly l [] → line l = [].
Proof. intros (Hp & _). by apply Permutation_nil_r, fmap_nil_inv in Hp. Qed.

#[export] Instance orderly_perm l : Proper (Permutation ==> iff) (orderly l).
Proof. intros ws ws' H. unfold orderly. by rewrite H. Qed.

(** Units that come back are served to the queue in order: while somebody is
    short nothing is available. *)
Lemma serve_orderly (a n : N) q :
  fed q → (hungry q = true → a = 0) → hungry (hand_out n q).2 = true → a + (hand_out n q).1 = 0.
Proof.
  intros Hf Ha Hh. destruct (hungry q) eqn:E.
  - rewrite Ha by done. destruct (N.eq_0_gt_0_cases (hand_out n q).1) as [->|Hr]; [done|].
    apply hand_out_rest in Hr. congruence.
  - rewrite hand_out_sated in Hh; [simpl in Hh; congruence|done|]. eapply Forall_impl; [exact Hf|]. by intros ? [? _].
Qed.

Lemma give_spec u l busy ws :
  balanced l (busy + u) → orderly l ws →
  let l' := with_sem (add_permits u (sem l)) l in
  balanced l' busy ∧ orderly l' ws ∧ line l' = (hand_out u (line l)).2.
Proof.
  unfold balanced, orderly, available, line. intros [Hc Hm] (Hp & Hn & Hf & Hh). simpl.
  pose proof (add_permits_spec u (sem l) ltac:(lia)) as Ha.
  pose proof (hand_out_sum u (queue (sem l))) as Hs. pose proof (hand_out_places u (queue (sem l))) as Hpl.
  pose proof (hand_out_fed u _ Hf) as Hf'. pose proof (serve_orderly _ u _ Hf Hh) as Hr.
  destruct (hand_out u (queue (sem l))) as [rest q]. destruct Ha as [-> ->]. simpl in *.
  change (units_of (with_sem _ l)) with (units_of l). split; [split; lia|]. split; [|done].
  split_and!; [by rewrite Hpl| |done|done]. by rewrite <-places_tickets, Hpl, places_tickets.
Qed.

Lemma acquire_start_cases weight l busy ws :
  balanced l busy → orderly l ws → queue_depth l <= USIZE_MAX →
  match acquire_start weight l with
  | Granted units l' =>
      units = N.max weight 1 ∧ hungry (line l) = false ∧ units <= available l
      ∧ balanced l' (busy + units) ∧ orderly l' ws ∧ same_limits l l' ∧ line l' = line l
      ∧ queue_depth l' = queue_depth l
  | Refused reason l' =>
      reason = QueueFull ∧ available l < N.max weight 1 ∧ queue_max l <= queue_depth l
      ∧ balanced l' busy ∧ orderly l' ws ∧ same_limits l l' ∧ line l' = line l
      ∧ queue_depth l' = queue_depth l
  | Parked t units l' =>
      units = N.max weight 1 ∧ available l < units ∧ queue_depth l < queue_max l
      ∧ balanced l' busy ∧ orderly l' ((t, units) :: ws) ∧ same_limits l l'
      ∧ line l' = line l ++ [mkWaiter t units (available l)]
      ∧ queue_depth l' = wrapping_add (queue_depth l) 1
  end.
Proof.
  intros [Hc Hm] (Hp & Hn & Hf & Hh) Hdepth. unfold acquire_start.
  destruct (try_acquire_many (N.max weight 1) (sem l)) as [s|] eqn:Ht.
  { apply try_acquire_some in Ht as (Hle & Ha & Hq). unfold balanced, orderly, line, available in *. simpl.
    rewrite Ha, Hq. change (units_of (count_admitted _)) with (units_of l).
    assert (hungry (queue (sem l)) = false) as E; [|rewrite E].
    { apply not_true_iff_false. intros E. specialize (Hh E). lia. }
    split_and!; try done; lia. }
  apply try_acquire_none in Ht. fold (available l) in Ht.
  destruct (N.eqb_spec (queue_max l) 0) as [Hz|Hnz].
  { split_and!; done || lia. }
  simpl. destruct (N.leb_spec (queue_max l) (queue_depth l)) as [Hfull|Hroom].
  { split_and!; try done. simpl. by apply wrapping_sub_add. }
  destruct (acquire_many _ (sem l)) as [t s] eqn:Ea. apply acquire_many_spec in Ea as (Hfresh & Hq & Hav).
  unfold available in *. rewrite N.min_r in Hq, Hav by lia.
  unfold balanced, orderly, line, available in *. simpl. rewrite Hq, Hav, N.sub_diag.
  change (units_of (count_queued _)) with (units_of l). rewrite gathered_app, gathered_cons.
  change (gathered []) with 0. split_and!; try done; try lia.
  - cbn [has]. lia.
  - rewrite Permutation_app_comm. cbn. by rewrite Hp.
  - rewrite fmap_app. apply NoDup_app. split; [done|]. split; [|repeat constructor; by intros ?%elem_of_nil].
    intros x Hx ->%list_elem_of_singleton. done.
  - apply Forall_app. split; [done|]. repeat constructor; cbn; lia.
Qed.

(** The place of a parked request. *)
Lemma place_of l ws i t u :
  orderly l ws → ws !! i = Some (t, u) →
  ∃ w q, leave t (line l) = Some (w, q) ∧ wants w = u ∧ line l ≡ₚ w :: q
         ∧ places q ≡ₚ delete i ws ∧ NoDup (ticket <$> q) ∧ fed q ∧ (hungry q = true → available l = 0).
Proof.
  intros (Hp & Hn & Hf & Hh) Hi. pose proof (delete_Permutation _ _ _ Hi) as Hd.
  assert ((t, u) ∈ places (line l)) as Hin by (rewrite Hp, Hd; left).
  assert (t ∈ ticket <$> line l) as Ht by (rewrite <-places_tickets; by apply (list_elem_of_fmap_2 fst _ (t, u))).
  apply leave_some in Ht as (w & q & E). apply leave_perm in E as HP. destruct HP as [HP <-]. exists w, q.
  rewrite HP in Hn, Hf, Hp. cbn [fmap list_fmap] in Hn. apply NoDup_cons in Hn as [Hni Hnd]. apply Forall_cons in Hf as [_ Hf].
  rewrite HP in Hin. cbn in Hin. apply elem_of_cons in Hin as [[= ->]|Hin].
  - split_and!; try done.
    + rewrite Hd in Hp. by apply (Permutation_cons_inv (a := (ticket w, wants w))).
    + intros Hq. apply Hh. rewrite HP, hungry_cons, Hq. by destruct (negb _).
  - destruct Hni. rewrite <-places_tickets. by apply (list_elem_of_fmap_2 fst _ (ticket w, u)).
Qed.

Lemma wake_spec l busy ws i t u s :
  balanced l busy → orderly l ws → ws !! i = Some (t, u) → poll t (sem l) = Some s →
  let l' := count_admitted (drop_queue_slot (with_sem s l)) in
  balanced l' (u + busy) ∧ orderly l' (delete i ws) ∧ same_limits l l'
  ∧ leave t (line l) = Some (mkWaiter t u u, line l').
Proof.
  intros [Hc Hm] Ho Hi Hs. destruct (place_of _ _ _ _ _ Ho Hi) as (w & q & E & <- & HP & Hpl & Hnd & Hf & Hh).
  apply poll_some in Hs as (w' & E' & Hr & Ha). unfold line in E. rewrite E in E'. injection E' as <- Hq.
  destruct Ho as (_ & _ & Hfed & _). rewrite HP in Hfed. apply Forall_cons in Hfed as [[Hw _] _].
  unfold ready in Hr. to_prop. assert (has w = wants w) as Hhw by lia.
  rewrite HP, gathered_cons in Hc. unfold balanced, orderly, line, available in *. simpl. rewrite <-Hq, Ha.
  change (units_of (count_admitted _)) with (units_of l). split; [split; lia|]. split; [by split_and!|]. split; [done|].
  rewrite E. apply leave_perm in E as [_ <-]. destruct w; cbn in *; congruence.
Qed.

Lemma leave_line_spec l busy ws i t u :
  balanced l busy → orderly l ws → ws !! i = Some (t, u) →
  let l' := leave_line t l in
  balanced l' busy ∧ orderly l' (delete i ws) ∧ same_limits l l'
  ∧ ∃ w q, leave t (line l) = Some (w, q) ∧ line l' = (hand_out (has w) q).2.
Proof.
  intros [Hc Hm] Ho Hi. destruct (place_of _ _ _ _ _ Ho Hi) as (w & q & E & <- & HP & Hpl & Hnd & Hf & Hh).
  rewrite HP, gathered_cons in Hc. unfold balanced, orderly, line, available in *. simpl.
  pose proof (cancel_spec t (sem l) w q E ltac:(lia)) as Hs.
  pose proof (hand_out_sum (has w) q) as Hsum. pose proof (hand_out_places (has w) q) as Hplq.
  pose proof (hand_out_fed (has w) q Hf) as Hf'. pose proof (serve_orderly _ (has w) q Hf Hh) as Hr.
  destruct (hand_out (has w) q) as [rest q'] eqn:Eh. destruct Hs as [-> ->]. simpl in *.
  change (units_of (leave_line t l)) with (units_of l). split; [split; lia|]. split; [|split; [done|]].
  - split_and!; [by rewrite Hplq| |done|done]. by rewrite <-places_tickets, Hplq, places_tickets.
  - exists w, q. by rewrite Eh.
Qed.

(** A permit that comes back settles debt first, then serves the queue. *)
Lemma release_spec units l busy ws :
  balanced l (busy + units) → orderly l ws →
  let gone := N.min (debt l) units in
  let l' := release units l in
  balanced l' busy ∧ orderly l' ws ∧ limit l' = limit l ∧ debt l' = debt l - gone
  ∧ line l' = (hand_out (units - gone) (line l)).2
  ∧ queue_depth l' = queue_depth l ∧ queue_max l' = queue_max l.
Proof.
  intros Hbal Ho gone. unfold release. fold gone. set (l1 := with_debt (debt l - gone) l).
  assert (balanced l1 (busy + (units - gone))) as H1.
  { destruct Hbal as [Hc Hm]. unfold balanced, units_of, available, line, gone, l1 in *. simpl. split; lia. }
  assert (orderly l1 ws) as H2 by done.
  destruct (N.eqb_spec gone units) as [Hall|Hpart].
  { replace (units - gone) with 0 in * by lia. rewrite N.add_0_r in H1. rewrite hand_out_0. cbv zeta. by split_and!. }
  destruct (N.ltb_spec 0 gone) as [Hpos|Hzero].
  - rewrite permit_split_spec by lia. cbv zeta beta iota.
    destruct (give_spec _ _ _ _ H1 H2) as (B & O & L). by split_and!.
  - replace (units - gone) with units in * by lia.
    destruct (give_spec _ _ _ _ H1 H2) as (B & O & L). by split_and!.
Qed.

(** Growing cancels debt, then serves the queue; shrinking takes what is
    available, and what is not is owed. *)
Lemma resize_spec n l busy ws :
  balanced l busy → orderly l ws → n <= max_permits Sem →
  let l' := resize n l in
  balanced l' busy ∧ orderly l' ws ∧ limit l' = n
  ∧ units_of l' = (if limit l <? n then N.max n (units_of l) else units_of l - N.min (limit l - n) (available l))
  ∧ line l' = (if limit l <? n then (hand_out (units_of l' - units_of l) (line l)).2 else line l)
  ∧ queue_depth l' = queue_depth l ∧ queue_max l' = queue_max l.
Proof.
  intros Hbal Ho Hn. pose proof (max_permits_usize (Sem:=Sem)) as Hmax. unfold resize.
  destruct (N.ltb_spec (limit l) n) as [Hlt|Hge].
  - cbv zeta. cbn [debt with_limit]. set (cancelled := N.min (debt l) (n - limit l)).
    set (l1 := with_debt (debt l - cancelled) (with_limit n l)).
    assert (orderly l1 ws) as H2 by done.
    destruct Hbal as [Hc Hm].
    assert (units_of l1 = N.max n (units_of l)) as Hu by (unfold units_of, l1, cancelled; simpl; lia).
    assert (n - limit l - cancelled = units_of l1 - units_of l) as Hg
      by (rewrite Hu; unfold units_of, cancelled; lia).
    destruct (N.ltb_spec 0 (n - limit l - cancelled)) as [Hpos|Hzero].
    + destruct (give_spec (n - limit l - cancelled) l1 busy ws) as (B & O & L); [|done|].
      { unfold balanced. rewrite Hu. change (available l1) with (available l). change (line l1) with (line l). split; lia. }
      split_and!; try done. by rewrite L, Hg.
    + assert (units_of l1 = units_of l) as Hsame by (unfold units_of, l1, cancelled in *; simpl in *; lia).
      split; [unfold balanced in *; rewrite Hsame; done|]. split; [done|]. split; [done|]. split; [done|].
      split; [|done]. rewrite Hsame, N.sub_diag, hand_out_0. done.
  - destruct (N.ltb_spec n (limit l)) as [Hlt|Heq].
    + destruct (forget_permits (limit l - n) _) as [k s] eqn:Hk. cbn [sem with_limit] in Hk.
      apply forget_permits_spec in Hk as (Hk & Ha & Hq). fold (available l) in Hk, Ha.
      destruct Hbal as [Hc Hm]. destruct Ho as (Hp & Hnd & Hf & Hh).
      assert (∀ d, limit l + debt l = n + d + k →
        let l' := with_debt d (with_sem s (with_limit n l)) in
        balanced l' busy ∧ orderly l' ws ∧ limit l' = n ∧ units_of l' = units_of l - N.min (limit l - n) (available l)
        ∧ line l' = line l ∧ queue_depth l' = queue_depth l ∧ queue_max l' = queue_max l) as H.
      { intros d Hd l'. unfold balanced, orderly, units_of, line, available in *. simpl. rewrite Hq, Ha.
        split; [split; lia|]. split; [split_and!; try done; intros E; specialize (Hh E); lia|].
        split; [done|]. split; [lia|done]. }
      cbv zeta. destruct (N.ltb_spec k (limit l - n)) as [Hless|Hmore].
      * cbn [debt with_sem with_limit]. unfold units_of in Hm. rewrite wrapping_add_small by lia. apply H. lia.
      * assert (limit l + debt l = n + debt l + k) as E by lia. apply (H (debt l)) in E. by destruct l.
    + assert (n = limit l) as -> by lia. rewrite N.sub_diag, N.min_0_l, N.sub_0_r. by destruct l.
Qed.

Lemma step_preserves w e w' : Inv w → step w e w' → Inv w'.
Proof.
  intros (Hbal & Ho & Hq & Hqb & Hqm) Hstep.
  assert (∀ l' i t u, parked w !! i = Some (t, u) → queue_depth l' = wrapping_sub (queue_depth (lim w)) 1 →
            queue_depth l' = N.of_nat (length (delete i (parked w))) ∧ queue_depth l' <= USIZE_MAX) as Hdepth.
  { intros l' i t u Hi ->. apply lookup_lt_Some in Hi as Hlt. split; [|apply wrapping_sub_bound].
    rewrite length_delete by done. rewrite wrapping_sub_small by lia. lia. }
  destruct Hstep as [w weight units l' Hs|w weight reason l' Hs|w weight t units l' Hs
                    |w i t units s l' Hi Ht Hf|w i t units reason l' Hi Hf|w i t units Hi
                    |w i units Hi|w n Hn|w max timeout Hmax].
  1-3: pose proof (acquire_start_cases weight _ _ _ Hbal Ho Hqb) as Hc; rewrite Hs in Hc.
  - destruct Hc as (-> & _ & _ & Hbal' & Ho' & (_ & _ & Hm) & _ & Hqd).
    split; [by simpl; rewrite N.add_comm|]. split_and!; simpl; congruence || done.
  - destruct Hc as (_ & _ & _ & Hbal' & Ho' & (_ & _ & Hm) & _ & Hqd).
    split; [done|]. split_and!; simpl; congruence || done.
  - destruct Hc as (-> & _ & Hroom & Hbal' & Ho' & (_ & _ & Hm) & _ & Hqd).
    rewrite wrapping_add_small in Hqd by lia.
    split; [done|]. split_and!; simpl; [done|lia|lia|congruence].
  - injection Hf as <-. destruct (wake_spec _ _ _ _ _ _ _ Hbal Ho Hi Ht) as (B & O & _ & _).
    split; [done|]. split; [done|]. destruct (Hdepth (count_admitted (drop_queue_slot (with_sem s (lim w)))) _ _ _ Hi eq_refl). done.
  - injection Hf as <- <-. destruct (leave_line_spec _ _ _ _ _ _ Hbal Ho Hi) as (B & O & _ & _).
    split; [done|]. split; [done|]. destruct (Hdepth (leave_line t (lim w)) _ _ _ Hi eq_refl). done.
  - destruct (leave_line_spec _ _ _ _ _ _ Hbal Ho Hi) as (B & O & _ & _).
    split; [done|]. split; [done|]. destruct (Hdepth (leave_line t (lim w)) _ _ _ Hi eq_refl). done.
  - rewrite (sum_N_delete _ _ _ Hi), N.add_comm in Hbal.
    destruct (release_spec _ _ _ _ Hbal Ho) as (B & O & _ & _ & _ & Hd & Hm).
    split; [done|]. split; [done|]. simpl. rewrite Hd, Hm. done.
  - destruct (resize_spec _ _ _ _ Hbal Ho Hn) as (B & O & _ & _ & _ & Hd & Hm).
    split; [done|]. split; [done|]. simpl. rewrite Hd, Hm. done.
  - done.
Qed.

Lemma reachable_inv w : reachable w → Inv w.
Proof.
  induction 1 as [nm n qm qt Hn Hqm|w e w' _ IH Hstep].
  - destruct (balanced_new nm n qm qt Hn) as [B L]. split; [done|]. split; [by apply orderly_nil|]. by split_and!.
  - by eapply step_preserves.
Qed.

(** Whether a request for [u] units is served at once, where [k] units exist,
    [b] are held and [q] is the queue: nobody short is before it, and there are
    enough beside what is held and what the queue has gathered. *)
Definition fits (k b : N) (q : list Waiter) (u : N) : bool := negb (hungry q) && (b + gathered q + u <=? k).

Lemma fits_available l busy ws u :
  balanced l busy → orderly l ws → 1 <= u → fits (units_of l) busy (line l) u = (u <=? available l).
Proof.
  intros [Hc _] (_ & _ & _ & Hh) Hu. unfold fits. destruct (hungry (line l)); simpl.
  - rewrite (Hh eq_refl). symmetry. apply N.leb_gt. lia.
  - apply eq_true_iff_eq. rewrite !N.leb_le. lia.
Qed.

Lemma parked_length l ws : orderly l ws → length (line l) = length ws.
Proof. intros (Hp & _). apply Permutation_length in Hp. unfold places in Hp. by rewrite length_fmap in Hp. Qed.
End LimiterFacts.

(** ** What a limiter promises

    The specification the admission controller relies on: a ceiling, the units
    that exist, the work in flight and a bounded first-come queue.  Nothing here
    mentions the semaphore, the debt or a counter.  More units exist than the
    ceiling says only after it was lowered: every unit that comes back from work
    then ceases to exist until the two agree.  What a request that gives up had
    gathered is not work that comes back: it goes to the others. *)

Record Spec := mkSpec { ceiling : N; existing : N; busy : list N; turns : list Waiter; room : N }.

Definition free (k : N) (b : list N) (q : list Waiter) : N := k - sum_N b - gathered q.

Inductive spec_step : Spec → event → Spec → Prop :=
| spec_grant c k b q r u :
    fits k (sum_N b) q u = true →
    spec_step (mkSpec c k b q r) (EvGrant u) (mkSpec c k (u :: b) q r)
| spec_refuse c k b q r u :
    fits k (sum_N b) q u = false → r <= N.of_nat (length q) →
    spec_step (mkSpec c k b q r) (EvRefuse QueueFull) (mkSpec c k b q r)
| spec_park c k b q r t u :
    fits k (sum_N b) q u = false → N.of_nat (length q) < r →
    spec_step (mkSpec c k b q r) EvPark (mkSpec c k b (q ++ [mkWaiter t u (free k b q)]) r)
| spec_wake c k b q r t u q' :
    leave t q = Some (mkWaiter t u u, q') →
    spec_step (mkSpec c k b q r) (EvWake u) (mkSpec c k (u :: b) q' r)
| spec_timeout c k b q r t w q' :
    leave t q = Some (w, q') →
    spec_step (mkSpec c k b q r) (EvRefuse QueueTimeout) (mkSpec c k b (hand_out (has w) q').2 r)
| spec_cancel c k b q r t w q' :
    leave t q = Some (w, q') →
    spec_step (mkSpec c k b q r) EvCancel (mkSpec c k b (hand_out (has w) q').2 r)
| spec_release c k b q r i u :
    b !! i = Some u →
    let gone := N.min (k - c) u in
    spec_step (mkSpec c k b q r) (EvRelease u) (mkSpec c (k - gone) (delete i b) (hand_out (u - gone) q).2 r)
| spec_grow c k b q r n :
    c < n →
    spec_step (mkSpec c k b q r) (EvResize n) (mkSpec n (N.max n k) b (hand_out (N.max n k - k) q).2 r)
| spec_shrink c k b q r n :
    n <= c →
    spec_step (mkSpec c k b q r) (EvResize n) (mkSpec n (k - N.min (c - n) (free k b q)) b q r)
| spec_queue c k b q r r' : spec_step (mkSpec c k b q r) EvQueue (mkSpec c k b q r').

Section LimiterTheorems.
Context {Sem : Type} `{S : !Semaphore Sem} {laws : SemaphoreLaws Sem S}.
Implicit Types (l : Limiter Sem).

Definition abstract (w : World Sem) : Spec :=
  mkSpec (limit (lim w)) (units_of (lim w)) (held w) (line (lim w)) (queue_max (lim w)).

(** What [acquire_start] decides, without the state it leaves. *)
Inductive Verdict := VGranted (units : N) | VRefused (r : ShedReason) | VParked (units : N).
Definition verdict (s : Start Sem) : Verdict :=
  match s with
  | Granted u _ => VGranted u
  | Refused r _ => VRefused r
  | Parked _ u _ => VParked u
  end.

(** In every reachable state the units available, gathered by waiters and held
    by live requests are together the ceiling plus the outstanding shrink debt;
    the queue is the parked requests, none with more than it asked for, and
    nothing is available while one of them is short. *)
Theorem limiter_conservation w :
  reachable w →
  available (lim w) + gathered (line (lim w)) + sum_N (held w) = limit (lim w) + debt (lim w)
  ∧ places (line (lim w)) ≡ₚ parked w ∧ fed (line (lim w))
  ∧ (hungry (line (lim w)) = true → available (lim w) = 0)
  ∧ queue_depth (lim w) = N.of_nat (length (parked w)).
Proof. by intros ([? _] & (? & _ & ? & ?) & ? & _)%reachable_inv. Qed.

(** [acquire] decides exactly as the specification says: it grants the request
    at once if and only if nobody short queues before it and its units fit
    beside what is held and gathered, refuses it if the queue is full, and parks
    it otherwise. *)
Theorem acquire_decides w weight :
  reachable w →
  verdict (acquire_start weight (lim w)) =
    let u := N.max weight 1 in
    if fits (units_of (lim w)) (sum_N (held w)) (line (lim w)) u then VGranted u
    else if queue_max (lim w) <=? N.of_nat (length (parked w)) then VRefused QueueFull
    else VParked u.
Proof.
  intros (Hbal & Ho & Hq & Hqb & _)%reachable_inv. cbv zeta. rewrite (fits_available _ _ _ _ Hbal Ho) by lia.
  pose proof (acquire_start_cases weight _ _ _ Hbal Ho Hqb) as Hc. rewrite <-Hq.
  destruct (acquire_start weight (lim w)) as [u l'|r l'|t u l']; simpl.
  - destruct Hc as (-> & _ & Hle & _). by rewrite (proj2 (N.leb_le _ _) Hle).
  - destruct Hc as (-> & Hlt & Hfull & _).
    by rewrite (proj2 (N.leb_gt _ _) Hlt), (proj2 (N.leb_le _ _) Hfull).
  - destruct Hc as (-> & Hlt & Hroom & _).
    by rewrite (proj2 (N.leb_gt _ _) Hlt), (proj2 (N.leb_gt _ _) Hroom).
Qed.

(** Capacity is never lost: once nobody holds or waits, whatever resizes
    happened meanwhile, at least the whole ceiling is available. *)
Theorem drained_limiter_is_full w :
  reachable w → held w = [] → parked w = [] → available (lim w) = limit (lim w) + debt (lim w).
Proof.
  intros ([Hc _] & Ho & _)%reachable_inv Hh Hk. rewrite Hh in Hc. rewrite Hk in Ho.
  apply orderly_empty in Ho. rewrite Ho in Hc. unfold units_of in Hc. cbn in Hc. lia.
Qed.

Lemma step_abstract_start w weight :
  Inv w →
  match acquire_start weight (lim w) with
  | Granted u l' => spec_step (abstract w) (EvGrant u) (abstract (mkWorld l' (u :: held w) (parked w)))
  | Refused r l' => spec_step (abstract w) (EvRefuse r) (abstract (mkWorld l' (held w) (parked w)))
  | Parked t u l' => spec_step (abstract w) EvPark (abstract (mkWorld l' (held w) ((t, u) :: parked w)))
  end.
Proof.
  intros (Hbal & Ho & Hq & Hqb & _). pose proof (parked_length _ _ Ho) as Hlen.
  pose proof (fits_available _ _ _ (N.max weight 1) Hbal Ho ltac:(lia)) as Hfit.
  pose proof (acquire_start_cases weight _ _ _ Hbal Ho Hqb) as Hc.
  destruct (acquire_start weight (lim w)) as [u l'|r l'|t u l']; unfold abstract, units_of in *; simpl.
  - destruct Hc as (-> & _ & Hle & _ & _ & (-> & -> & ->) & -> & _). apply spec_grant.
    rewrite Hfit. by apply N.leb_le.
  - destruct Hc as (-> & Hlt & Hfull & _ & _ & (-> & -> & ->) & -> & _).
    eapply spec_refuse; [rewrite Hfit; by apply N.leb_gt|]. lia.
  - destruct Hc as (-> & Hlt & Hroom & _ & _ & (-> & -> & ->) & -> & _).
    destruct Hbal as [Hc _]. unfold units_of in Hc.
    replace (available (lim w)) with (free (limit (lim w) + debt (lim w)) (held w) (line (lim w))) by (unfold free; lia).
    apply spec_park; [rewrite Hfit; by apply N.leb_gt|lia].
Qed.

Lemma limit_resize n l : limit (resize n l) = n ∧ queue_max (resize n l) = queue_max l.
Proof. unfold resize; simpl. repeat case_match; simpl; split; try done; to_prop; lia. Qed.

Lemma limit_release u l : limit (release u l) = limit l ∧ queue_max (release u l) = queue_max l.
Proof. unfold release; simpl. by repeat case_match. Qed.

(** C3: Every step of the limiter is a step of its specification: the
    semaphore, the debt and the counters are an implementation of "a ceiling,
    the units that exist, the work in flight, and a bounded first-come queue". *)
Theorem limiter_refines_spec w e w' :
  reachable w → step w e w' → spec_step (abstract w) e (abstract w').
Proof.
  intros Hinv%reachable_inv Hstep. pose proof Hinv as (Hbal & Ho & Hq & Hqb & _).
  destruct Hstep as [w weight u l' Hs|w weight reason l' Hs|w weight t u l' Hs
                    |w i t u s l' Hi Ht Hf|w i t u reason l' Hi Hf|w i t u Hi
                    |w i u Hi|w n Hn|w max timeout Hmax].
  1-3: pose proof (step_abstract_start w weight Hinv) as Hc; by rewrite Hs in Hc.
  - injection Hf as <-. destruct (wake_spec _ _ _ _ _ _ _ Hbal Ho Hi Ht) as (_ & _ & _ & Hl).
    by eapply spec_wake.
  - injection Hf as <- <-. destruct (leave_line_spec _ _ _ _ _ _ Hbal Ho Hi) as (_ & _ & _ & x & q & Hl & Hq').
    unfold abstract; simpl. change (line (count_shed ?x)) with (line x). rewrite Hq'. by eapply spec_timeout.
  - destruct (leave_line_spec _ _ _ _ _ _ Hbal Ho Hi) as (_ & _ & _ & x & q & Hl & Hq').
    unfold abstract; simpl. rewrite Hq'. by eapply spec_cancel.
  - rewrite (sum_N_delete _ _ _ Hi), N.add_comm in Hbal.
    destruct (release_spec _ _ _ _ Hbal Ho) as (_ & _ & Hl & Hd & Hq' & _ & Hm).
    unfold abstract, units_of; simpl. rewrite Hl, Hd, Hq', Hm.
    pose proof (spec_release (limit (lim w)) (limit (lim w) + debt (lim w)) (held w) (line (lim w)) (queue_max (lim w)) i u Hi) as Hr.
    cbv zeta in Hr. replace (limit (lim w) + debt (lim w) - limit (lim w)) with (debt (lim w)) in Hr by lia.
    by rewrite N.add_sub_assoc by lia.
  - destruct (resize_spec _ _ _ _ Hbal Ho Hn) as (_ & _ & Hl & Hu & Hq' & _ & Hm).
    unfold abstract; simpl. rewrite Hu in Hq'. rewrite Hl, Hu, Hq', Hm.
    destruct (N.ltb_spec (limit (lim w)) n) as [Hlt|Hge]; [by apply spec_grow|].
    assert (available (lim w) = free (units_of (lim w)) (held w) (line (lim w))) as ->.
    { destruct Hbal as [Hc _]. unfold free. lia. }
    by apply spec_shrink.
  - constructor.
Qed.

(** A shrink that is still owed units has none to give: what follows unless a
    request gives up while it is owed (see [queued_waiter_escapes_debt]). *)
Definition settled l : Prop := debt l = 0 ∨ available l = 0.

Definition patient (w : World Sem) (e : event) : Prop :=
  match e with EvRefuse QueueTimeout | EvCancel => debt (lim w) = 0 | _ => True end.

Lemma settled_step w e w' : reachable w → step w e w' → patient w e → settled (lim w) → settled (lim w').
Proof.
  intros (Hbal & Ho & Hq & Hqb & _)%reachable_inv Hstep Hpat Hs.
  destruct Hstep as [w weight u l' Hg|w weight reason l' Hg|w weight t u l' Hg
                    |w i t u s l' Hi Ht Hf|w i t u reason l' Hi Hf|w i t u Hi
                    |w i u Hi|w n Hn|w max timeout Hmax]; simpl.
  1-3: pose proof (acquire_start_cases weight _ _ _ Hbal Ho Hqb) as Hc; rewrite Hg in Hc; unfold settled in *.
  1-3: destruct Hbal as [Hc1 _], Hc as (_ & _ & _ & [Hc2 _] & _ & (E1 & E2 & _) & El & _); unfold units_of in *;
       rewrite El, E1, E2 in Hc2; rewrite E2; rewrite ?gathered_app, ?gathered_cons in Hc2; cbn in *; lia.
  - injection Hf as <-. destruct (poll_some _ _ _ Ht) as (x & _ & _ & Ha). unfold settled, available in *. simpl. lia.
  - injection Hf as <- <-. left. exact Hpat.
  - left. exact Hpat.
  - rewrite (sum_N_delete _ _ _ Hi), N.add_comm in Hbal.
    destruct (release_spec _ _ _ _ Hbal Ho) as ([B _] & _ & Hl & Hd & Hq' & _).
    unfold settled in *. destruct Hbal as [Hc _]. unfold units_of in *. rewrite Hl, Hd in *.
    destruct (N.le_gt_cases u (debt (lim w))) as [Hle|Hgt]; [|left; lia].
    rewrite N.min_r in * by done. rewrite N.sub_diag, hand_out_0 in Hq'. rewrite Hq' in B. cbn [snd] in B. lia.
  - destruct (resize_spec _ _ _ _ Hbal Ho Hn) as ([B _] & _ & Hl & Hu & Hq' & _).
    unfold settled in *. destruct Hbal as [Hc _]. rewrite Hu in B, Hq'. unfold units_of in *. rewrite Hl in Hu.
    destruct (N.ltb_spec (limit (lim w)) n) as [Hlt|Hge]; [|rewrite Hq' in B; lia].
    destruct (N.le_gt_cases (limit (lim w) + debt (lim w)) n); [left; lia|].
    rewrite N.max_r, N.sub_diag, hand_out_0 in Hq' by lia. rewrite Hq' in B. cbn [snd] in B. lia.
  - done.
Qed.

(** Whatever the interleaving of requests, completions and reloads, no request
    is granted units above the ceiling in force at that moment, as long as none
    gave up its place while a shrink was owed. *)
Theorem grants_respect_ceiling w u w' :
  reachable w → settled (lim w) → step w (EvGrant u) w' →
  sum_N (held w') + gathered (line (lim w')) <= limit (lim w').
Proof.
  intros (Hbal & Ho & Hq & Hqb & _)%reachable_inv Hs Hstep.
  inversion Hstep as [w0 weight u0 l' Hg| | | | | | | |]; subst; simpl.
  pose proof (acquire_start_cases weight _ _ _ Hbal Ho Hqb) as Hc. rewrite Hg in Hc.
  destruct Hc as (-> & _ & Hle & [B _] & _ & (El & Ed & _) & _), Hbal as [Hc _].
  unfold settled, units_of in *. lia.
Qed.
End LimiterTheorems.

(** ** Witnesses *)

Import CountingSemaphore.

Definition arrive (weight : N) (w : World counter) : World counter :=
  match acquire_start weight (lim w) with
  | Granted u l => mkWorld l (u :: held w) (parked w)
  | Refused _ l => mkWorld l (held w) (parked w)
  | Parked t u l => mkWorld l (held w) ((t, u) :: parked w)
  end.

Lemma reach_arrive weight w : reachable w → reachable (arrive weight w).
Proof.
  intros H. unfold arrive. destruct (acquire_start weight (lim w)) as [u l|r l|t u l] eqn:E.
  - eapply reach_step; [exact H|]. by eapply step_grant.
  - eapply reach_step; [exact H|]. by eapply step_refuse.
  - eapply reach_step; [exact H|]. by eapply step_park.
Qed.

Lemma step_arrive weight w u l :
  acquire_start weight (lim w) = Granted u l → step w (EvGrant u) (arrive weight w).
Proof. intros E. unfold arrive. rewrite E. by eapply step_grant. Qed.

Definition come_back (i : nat) (units : N) (w : World counter) : World counter :=
  mkWorld (release units (lim w)) (delete i (held w)) (parked w).

(** A limiter of 5 with 3 units out and a request for 3 parked, which has the
    other 2; shrunk to 2 meanwhile, and then the 3 units come back. *)
Definition w0 : World counter := mkWorld (new "global" 5 2 1000000000) [] [].
Definition w1 : World counter := arrive 3 w0.
Definition w2 : World counter := arrive 3 w1.
Definition w3 : World counter := mkWorld (resize 2 (lim w2)) (held w2) (parked w2).
Definition w4 : World counter := come_back 0 3 w3.

Lemma reach_w2 : reachable w2.
Proof. apply reach_arrive, reach_arrive. by apply reach_new. Qed.
Lemma reach_w3 : reachable w3.
Proof. apply (reach_step w2 (EvResize 2)); [apply reach_w2|]. by apply (step_resize w2 2). Qed.
Lemma reach_w4 : reachable w4.
Proof. apply (reach_step w3 (EvRelease 3)); [apply reach_w3|]. apply step_release. vm_compute. reflexivity. Qed.

Lemma limiter_conservation_witness :
  available (lim w3) = 0 ∧ gathered (line (lim w3)) = 2 ∧ debt (lim w3) = 3 ∧
  available (lim w3) + gathered (line (lim w3)) + sum_N (held w3) = limit (lim w3) + debt (lim w3).
Proof.
  split; [reflexivity|]. split; [reflexivity|]. split; [reflexivity|].
  apply (limiter_conservation w3), reach_w3.
Defined.

(** One unit is there in all, yet a request for one queues behind the other. *)
Lemma acquire_decides_witness :
  verdict (acquire_start 1 (lim w1)) = VGranted 1 ∧ verdict (acquire_start 1 (lim w2)) = VParked 1.
Proof.
  split; [rewrite (acquire_decides w1 1)|rewrite (acquire_decides w2 1)]; try reflexivity; [|apply reach_w2].
  apply reach_arrive. by apply reach_new.
Defined.

Lemma grants_respect_ceiling_witness :
  step w1 (EvGrant 2) (arrive 2 w1) ∧ sum_N (held (arrive 2 w1)) + gathered (line (lim (arrive 2 w1))) <= limit (lim (arrive 2 w1)).
Proof.
  assert (step w1 (EvGrant 2) (arrive 2 w1)) as Hs by (eapply step_arrive; vm_compute; reflexivity).
  split; [exact Hs|]. apply (grants_respect_ceiling w1 2 (arrive 2 w1)); [|by left|exact Hs].
  apply reach_arrive. by apply reach_new.
Defined.

Lemma drained_limiter_is_full_witness :
  available (lim w0) = limit (lim w0) + debt (lim w0).
Proof. apply (drained_limiter_is_full w0); [by apply reach_new|reflexivity..]. Defined.

Lemma limiter_refines_spec_witness :
  step w3 (EvRelease 3) w4 ∧ spec_step (abstract w3) (EvRelease 3) (abstract w4).
Proof.
  assert (step w3 (EvRelease 3) w4) as Hs by (apply step_release; vm_compute; reflexivity).
  split; [exact Hs|]. apply (limiter_refines_spec w3 _ w4); [apply reach_w3|exact Hs].
Defined.

(** A limiter of 10 with 1 unit out and a request for all 10 parked, which has
    the other 9; shrunk to 1, the unit comes back and settles 1 of the 9 owed;
    then the request times out and its 9 units are available, under a ceiling
    of 1. *)
Definition x0 : World counter := arrive 10 (arrive 1 (mkWorld (new "global" 10 1 1000000000) [] [])).
Definition x1 : World counter := mkWorld (resize 1 (lim x0)) (held x0) (parked x0).
Definition x2 : World counter := come_back 0 1 x1.
Definition x3 : World counter := mkWorld (acquire_finish 1 10 Elapsed (lim x2)).2 (held x2) (delete 0%nat (parked x2)).

Example queued_waiter_escapes_debt :
  reachable x3 ∧ available (lim x3) = 9 ∧ debt (lim x3) = 8 ∧ limit (lim x3) = 1
  ∧ verdict (acquire_start 9 (lim x3)) = VGranted 9.
Proof.
  split; [|by vm_compute].
  apply (reach_step x2 (EvRefuse QueueTimeout)); [|eapply (step_timeout x2 0 1 10); vm_compute; reflexivity].
  apply (reach_step x1 (EvRelease 1)); [|apply step_release; vm_compute; reflexivity].
  apply (reach_step x0 (EvResize 1)); [|by apply (step_resize x0 1)].
  apply reach_arrive, reach_arrive. by apply reach_new.
Qed.
