(* ===== verification/Classifier.v ===== *)
(** * Request classification ([src/src/classifier/])

    What kind of request this is, and whether its response may ever be shared.
    A request is reduced to what classification and keying read.  The [http]
    crate's header map is a parameter of every definition: a function from a
    lowercase header name to the values stored under it, in order, each value
    the bytes that arrived. *)

From S2P Require Import Prelude Words Text.
Local Open Scope string_scope.

(** ** Requests *)

(** [HeaderMap::get_all]; [get] is its first element and [contains_key] whether
    there is one. *)
Abbreviation HeaderMap := (string → list string).

Definition get_all (h : HeaderMap) (name : string) : list string := h name.
Definition get_header (h : HeaderMap) (name : string) : option string := head (h name).
Definition contains_key (h : HeaderMap) (name : string) : bool :=
  match h name with [] => false | _ => true end.

Inductive Method :=
| GET | HEAD | POST | PUT | PATCH | DELETE | OPTIONS | CONNECT | TRACE
| Extension (token : string).
#[export] Instance Method_eq_dec : EqDecision Method.
Proof. solve_decision. Defined.

Definition method_as_str (m : Method) : string :=
  match m with
  | GET => "GET" | HEAD => "HEAD" | POST => "POST" | PUT => "PUT" | PATCH => "PATCH"
  | DELETE => "DELETE" | OPTIONS => "OPTIONS" | CONNECT => "CONNECT" | TRACE => "TRACE"
  | Extension t => t
  end.

Record RequestMetadata := mkRequest {
  method : Method;
  host : string;
  path : string;
  query : option string;
  headers : HeaderMap }.

(** ** Classes *)

Inductive RequestClass :=
| Static | PublicDocument | PublicDynamic | PrivateDynamic
| Mutation | Streaming | Upgrade | Unknown.
#[export] Instance RequestClass_eq_dec : EqDecision RequestClass.
Proof. solve_decision. Defined.

Definition storable_in_principle (c : RequestClass) : bool :=
  match c with Static | PublicDocument | PublicDynamic => true | _ => false end.

Definition coalescible_in_principle (c : RequestClass) : bool :=
  match c with PublicDocument | PublicDynamic => true | _ => false end.

Definition consumes_origin_permit (c : RequestClass) : bool :=
  match c with Static | Streaming | Upgrade => false | _ => true end.

Definition class_as_str (c : RequestClass) : string :=
  match c with
  | Static => "static" | PublicDocument => "public_document"
  | PublicDynamic => "public_dynamic" | PrivateDynamic => "private_dynamic"
  | Mutation => "mutation" | Streaming => "streaming" | Upgrade => "upgrade"
  | Unknown => "unknown"
  end.

(** ** Header text

    [<[u8]>::escape_ascii]: printable ASCII as itself, the six characters with
    a short escape, [\xNN] for every other byte. *)

Definition backslash : ascii := chr 92.
Definition quote : ascii := chr 34.
Definition hex_digit_char (n : N) : ascii :=
  if (n <? 10)%N then chr (48 + n) else chr (87 + n).

Definition escape_byte (a : ascii) : string :=
  let c := code a in
  if (c =? 9)%N then String backslash "t"
  else if (c =? 10)%N then String backslash "n"
  else if (c =? 13)%N then String backslash "r"
  else if (c =? 34)%N || (c =? 39)%N || (c =? 92)%N then String backslash (str1 a)
  else if (32 <=? c)%N && (c <=? 126)%N then str1 a
  else String backslash (String "x"
         (String (hex_digit_char (c / 16)) (str1 (hex_digit_char (c mod 16))))).

Fixpoint escape_ascii (s : string) : string :=
  match s with
  | EmptyString => EmptyString
  | String a s' => escape_byte a +:+ escape_ascii s'
  end.

Definition header_text (value : string) : string := escape_ascii value.

(** ** What is read off a request *)

Definition has_header (req : RequestMetadata) (name : string) : bool :=
  contains_key (headers req) name.
Definition has_authorization (req : RequestMetadata) : bool :=
  contains_key (headers req) "authorization".
Definition has_cookies (req : RequestMetadata) : bool :=
  contains_key (headers req) "cookie".
Definition is_upgrade (req : RequestMetadata) : bool :=
  contains_key (headers req) "upgrade".
Definition is_safe_method (req : RequestMetadata) : bool :=
  bool_decide (method req = GET) || bool_decide (method req = HEAD).

(** The bytes before the first [=], or the whole pair without one. *)
Definition cookie_key (pair : string) : string :=
  match split_once "=" pair with Some (k, _) => k | None => pair end.

Definition has_cookie_named (req : RequestMetadata) (name : string) : bool :=
  existsb (λ value,
    existsb (λ pair, bool_decide (trim_ascii (cookie_key pair) = name))
      (split_on ";" value))
    (get_all (headers req) "cookie").

(** ** Adapters *)

Record RequestHints := mkHints {
  class : option RequestClass;
  key_headers : list string;
  force_bypass : option string;
  coalesce_only : bool }.

Definition default_hints : RequestHints := mkHints None [] None false.

Class FrameworkAdapter (A : Type) := {
  adapter_name : string;
  classify_request : RequestMetadata → RequestHints }.
#[global] Arguments adapter_name A {_}.
#[global] Arguments classify_request A {_} _.

(** What the proxy relies on in any adapter: a request that asks to leave HTTP
    is classified as such and offers nothing to the cache. *)
Class AdapterLaws (A : Type) (I : FrameworkAdapter A) : Prop := {
  upgrade_is_upgrade req :
    is_upgrade req = true → class (classify_request A req) = Some Upgrade;
  always_classified req : class (classify_request A req) ≠ None }.

(** *** [generic.rs] *)

Inductive Generic := GenericAdapter.

Definition classify (req : RequestMetadata) : RequestClass :=
  if is_upgrade req then Upgrade
  else if negb (is_safe_method req) then
    match method req with POST | PUT | PATCH | DELETE => Mutation | _ => Unknown end
  else if has_authorization req then PrivateDynamic
  else if has_cookies req then PrivateDynamic
  else if match query req with Some q => negb (is_empty q) | None => false end then PublicDynamic
  else PublicDocument.

#[export] Instance generic_adapter : FrameworkAdapter Generic := {
  adapter_name := "generic";
  classify_request req :=
    mkHints (Some (classify req)) (key_headers default_hints)
      (force_bypass default_hints) (coalesce_only default_hints) }.

(** *** [nextjs.rs] *)

Inductive NextJs := NextJsAdapter.

Definition RSC_KEY_HEADERS : list string :=
  ["rsc"; "next-router-prefetch"; "next-router-state-tree";
   "next-router-segment-prefetch"; "next-url"].

Definition DRAFT_COOKIES : list string := ["__prerender_bypass"; "__next_preview_data"].

Definition is_static_asset (path : string) : bool :=
  starts_with "/_next/static/" path || bool_decide (path = "/favicon.ico").

Definition is_rsc (req : RequestMetadata) : bool := has_header req "rsc".

Definition is_prefetch (req : RequestMetadata) : bool :=
  has_header req "next-router-prefetch" || has_header req "next-router-segment-prefetch".

Definition is_server_action (req : RequestMetadata) : bool := has_header req "next-action".

Definition in_draft_mode (req : RequestMetadata) : bool :=
  existsb (has_cookie_named req) DRAFT_COOKIES.

Definition nextjs_classify_request (req : RequestMetadata) : RequestHints :=
  if is_upgrade req then
    mkHints (Some Upgrade) [] (Some "protocol_upgrade") false
  else if in_draft_mode req then
    mkHints (Some PrivateDynamic) [] (Some "next_draft_mode") false
  else if is_server_action req then
    mkHints (Some Mutation) [] (Some "next_server_action") false
  else if is_static_asset (path req) then
    mkHints (Some Static) [] None false
  else if is_rsc req then
    let base := classify req in
    let coalesce_only := is_prefetch req in
    mkHints (Some base) RSC_KEY_HEADERS None coalesce_only
  else mkHints (Some (classify req)) RSC_KEY_HEADERS None false.

#[export] Instance nextjs_adapter : FrameworkAdapter NextJs := {
  adapter_name := "nextjs";
  classify_request := nextjs_classify_request }.

(** ** Lemmas *)

Lemma contains_key_get_all h name : contains_key h name = true ↔ get_all h name ≠ [].
Proof. unfold contains_key, get_all. by destruct (h name). Qed.

#[export] Instance generic_laws : AdapterLaws Generic _.
Proof.
  split; simpl; [|done]. intros req H. unfold classify. by rewrite H.
Qed.

#[export] Instance nextjs_laws : AdapterLaws NextJs _.
Proof.
  split; simpl; unfold nextjs_classify_request; intros req.
  - by intros ->.
  - by repeat case_match.
Qed.

(** *** [escape_ascii] loses nothing *)

Definition unescape_one (s : string) : option (ascii * string) :=
  match s with
  | EmptyString => None
  | String c s' =>
      if decide (c = backslash) then
        match s' with
        | String "t" r => Some (chr 9, r)
        | String "n" r => Some (chr 10, r)
        | String "r" r => Some (chr 13, r)
        | String "x" (String h (String l r)) =>
            match to_digit 16 h, to_digit 16 l with
            | Some a, Some b => Some (chr (a * 16 + b), r)
            | _, _ => None
            end
        | String d r => Some (d, r)
        | EmptyString => None
        end
      else Some (c, s')
  end.

Lemma unescape_escape_byte a s : unescape_one (escape_byte a +:+ s) = Some (a, s).
Proof. destruct a as [[] [] [] [] [] [] [] []]; reflexivity. Qed.

Lemma escape_byte_nonempty a s : escape_byte a +:+ s ≠ EmptyString.
Proof. intros H. pose proof (unescape_escape_byte a s) as E. by rewrite H in E. Qed.

Lemma escape_ascii_inj s t : escape_ascii s = escape_ascii t → s = t.
Proof.
  revert t. induction s as [|a s IH]; intros [|b t]; simpl; intros H; [done|..].
  - by symmetry in H; apply escape_byte_nonempty in H.
  - by apply escape_byte_nonempty in H.
  - pose proof (unescape_escape_byte a (escape_ascii s)) as Ea.
    rewrite H, unescape_escape_byte in Ea. injection Ea as -> Ht.
    by rewrite (IH t).
Qed.

Definition printable (a : ascii) : bool := ((32 <=? code a) && (code a <=? 126))%N.

Lemma escape_ascii_printable s : all_chars printable (escape_ascii s) = true.
Proof.
  induction s as [|a s IH]; [done|]. simpl. rewrite all_chars_app, IH, andb_true_r.
  destruct a as [[] [] [] [] [] [] [] []]; reflexivity.
Qed.

Lemma header_text_no_separator c v : printable c = false → contains_char c (header_text v) = false.
Proof. intros Hc. eapply all_chars_not_contains; [exact Hc|]. apply escape_ascii_printable. Qed.

(** *** Cookies *)

(** A [Cookie] header as a client writes it: [k1=v1; k2=v2]. *)
Definition render_cookie (kv : string * string) : string := kv.1 +:+ "=" +:+ kv.2.
Definition render_cookies (l : list (string * string)) : string :=
  join "; " (render_cookie <$> l).

(** Cookie names are tokens; values are any bytes but the separator. *)
Definition cookie_ok (kv : string * string) : bool :=
  all_chars is_ascii_graphic kv.1 && negb (contains_char "=" kv.1)
  && negb (contains_char ";" kv.1) && negb (contains_char ";" kv.2).

Lemma trim_ascii_graphic s : all_chars is_ascii_graphic s = true → trim_ascii s = s.
Proof.
  intros Hs. apply trim_pats_id.
  - by apply (strip_one_head is_ascii_graphic).
  - apply (strip_one_head is_ascii_graphic); [done|]. by rewrite all_chars_rev.
Qed.

Lemma trim_ascii_space s :
  all_chars is_ascii_graphic s = true → trim_ascii (String " " s) = s.
Proof.
  intros Hs. rewrite <-(trim_ascii_graphic s Hs) at 2.
  unfold trim_ascii, trim_pats, trim_front. simpl String.length. simpl trim_go.
  change (strip_prefix (String " " EmptyString) (String " " s)) with (Some s).
  simpl. by rewrite !trim_go_fixed by by apply (strip_one_head is_ascii_graphic).
Qed.

Lemma cookie_key_render kv :
  cookie_ok kv = true →
  trim_ascii (cookie_key (render_cookie kv)) = kv.1
  ∧ trim_ascii (cookie_key (String " " (render_cookie kv))) = kv.1.
Proof.
  unfold cookie_ok. rewrite !andb_true_iff, !negb_true_iff.
  intros [[[Hg He] Hs] Hv]. unfold cookie_key, render_cookie. split.
  - rewrite (proj2 (split_once_some "=" _ kv.1 kv.2)) by done.
    by apply trim_ascii_graphic.
  - rewrite (proj2 (split_once_some "=" _ (String " " kv.1) kv.2)).
    + by apply trim_ascii_space.
    + split; [done|]. rewrite contains_char_cons. by rewrite He.
Qed.

Lemma join_semicolon_space w ws :
  join "; " (w :: ws) = join ";" (w :: (String " " <$> ws)).
Proof.
  revert w. induction ws as [|v vs IH]; intros w; [done|].
  rewrite fmap_cons, !join_cons by done. rewrite IH.
  destruct vs as [|u us]; [done|]. rewrite fmap_cons, !join_cons by done. done.
Qed.

Lemma render_cookie_no_semicolon kv :
  cookie_ok kv = true → contains_char ";" (render_cookie kv) = false.
Proof.
  unfold cookie_ok. rewrite !andb_true_iff, !negb_true_iff.
  intros [[[Hg He] Hs] Hv]. unfold render_cookie.
  by rewrite !contains_char_app, Hs, Hv.
Qed.

Lemma split_render_cookies kv l :
  Forall (λ kv, cookie_ok kv = true) (kv :: l) →
  split_on ";" (render_cookies (kv :: l))
  = render_cookie kv :: ((λ kv, String " " (render_cookie kv)) <$> l).
Proof.
  intros H. unfold render_cookies. rewrite fmap_cons, join_semicolon_space.
  change ";"%string with (str1 ";"). rewrite split_join; [|done|].
  - by rewrite <-list_fmap_compose.
  - apply Forall_cons in H as [H1 H2].
    constructor; [by apply render_cookie_no_semicolon|].
    rewrite <-list_fmap_compose. apply Forall_fmap.
    eapply Forall_impl; [exact H2|]. intros kv' Hk. simpl.
    rewrite contains_char_cons. by rewrite render_cookie_no_semicolon.
Qed.

Lemma cookie_in_tail name l :
  Forall (λ kv, cookie_ok kv = true) l →
  existsb (λ pair, bool_decide (trim_ascii (cookie_key pair) = name))
    ((λ kv, String " " (render_cookie kv)) <$> l) = bool_decide (name ∈ l.*1).
Proof.
  induction 1 as [|kv l Hk Hl IH]; [done|]. rewrite !fmap_cons. cbn [existsb].
  destruct (cookie_key_render kv Hk) as [_ ->]. rewrite IH, <-bool_decide_or.
  apply bool_decide_ext. rewrite elem_of_cons. naive_solver.
Qed.

Lemma cookie_in_header name l :
  l ≠ [] → Forall (λ kv, cookie_ok kv = true) l →
  existsb (λ pair, bool_decide (trim_ascii (cookie_key pair) = name))
    (split_on ";" (render_cookies l)) = bool_decide (name ∈ l.*1).
Proof.
  intros Hl H. destruct l as [|kv l]; [done|]. rewrite split_render_cookies by done.
  apply Forall_cons in H as [H1 H2]. cbn [existsb].
  destruct (cookie_key_render kv H1) as [-> _].
  rewrite cookie_in_tail, fmap_cons, <-bool_decide_or by done.
  apply bool_decide_ext. rewrite elem_of_cons. naive_solver.
Qed.

(** The cookie detector finds a cookie exactly when one of that name was
    sent, in any [Cookie] header and at any position, whatever bytes the other
    cookies' values hold (non-ASCII included). *)
Theorem has_cookie_named_spec req name (sent : list (list (string * string))) :
  get_all (headers req) "cookie" = render_cookies <$> sent →
  Forall (λ l, l ≠ [] ∧ Forall (λ kv, cookie_ok kv = true) l) sent →
  has_cookie_named req name = bool_decide (name ∈ (mjoin sent).*1).
Proof.
  intros Hh H. unfold has_cookie_named. rewrite Hh. clear Hh.
  induction H as [|l ls [Hl Hok] Hls IH]; [done|].
  rewrite fmap_cons. cbn [existsb mjoin list_join].
  rewrite cookie_in_header, IH by done. rewrite <-bool_decide_or.
  apply bool_decide_ext. rewrite fmap_app, elem_of_app. done.
Qed.

(** ** Witness *)

Definition two_cookie_headers : RequestMetadata :=
  mkRequest GET "shop.example" "/" None (λ n,
    if bool_decide (n = "cookie")
    then ["theme=dark"; "a=1; __prerender_bypass=yes"] else []).

Lemma has_cookie_named_spec_witness :
  has_cookie_named two_cookie_headers "__prerender_bypass" = true
  ∧ has_cookie_named two_cookie_headers "__prerender" = false.
Proof.
  split.
  - rewrite (has_cookie_named_spec two_cookie_headers "__prerender_bypass"
      [[("theme", "dark")]; [("a", "1"); ("__prerender_bypass", "yes")]]);
      [vm_compute; reflexivity|reflexivity|].
    repeat constructor; discriminate.
  - rewrite (has_cookie_named_spec two_cookie_headers "__prerender"
      [[("theme", "dark")]; [("a", "1"); ("__prerender_bypass", "yes")]]);
      [vm_compute; reflexivity|reflexivity|].
    repeat constructor; discriminate.
Defined.
