(* ===== verification/Admission.v ===== *)
(** * The admission controller ([src/src/admission/mod.rs])

    A request needs room on its route, on its priority tier and globally.  The
    controller holds limiters by reference ([Arc<Limiter>]): one that leaves
    the registry on a reload stays alive for the requests that hold permits on
    it, so limiters live in a heap and the registry maps route ids to
    references.  [admit] is split at its awaits: [admit_request] runs until it
    is decided or parks on a limiter, [admit_resume] continues it. *)

From S2P Require Import Prelude Words Text Units Schema Semaphores Limiter Classifier.
Local Open Scope string_scope.
Local Open Scope list_scope.
Local Open Scope N_scope.

(** A permit: the limiter it was taken on and its units. *)
Abbreviation Permit := (nat * N)%type.

(** A place in a limiter's queue: its ticket and the units it waits for. *)
Abbreviation Place := (nat * (N * N))%type.

(** What concerns one limiter: the units of the permits taken on it, the places
    in its queue. *)
Definition on {A} (l : nat) (ps : list (nat * A)) : list A := (filter (λ p, p.1 = l) ps).*2.

(** A tier's ceiling: [global * percent / 100], floored, but never zero. *)
Definition tier_ceiling (global_max percent : N) : N :=
  N.max (saturating_mul global_max percent / 100) 1.

(** A reloaded route: id, ceiling, queue bound, queue timeout. *)
Abbreviation RouteLimits := (string * N * N * Duration)%type.

Section Controller.
Context {Sem : Type} `{S : !Semaphore Sem}.

(** ** References *)

Record Heap := mkHeap { cell : nat → Limiter Sem; next : nat }.

Definition modify (l : nat) (f : Limiter Sem → Limiter Sem) (h : Heap) : Heap :=
  mkHeap (λ k, if decide (k = l) then f (cell h k) else cell h k) (next h).

Definition alloc (x : Limiter Sem) (h : Heap) : nat * Heap :=
  (next h, mkHeap (λ k, if decide (k = next h) then x else cell h k) (Datatypes.S (next h))).

(** Dropping a permit, and every permit bound to an admission in turn. *)
Definition drop_permits (ps : list Permit) (h : Heap) : Heap :=
  foldl (λ h p, modify p.1 (release p.2) h) h ps.

(** ** The controller *)

Record AdmissionController := mkController {
  global : nat;
  tiers : list nat;
  routes : gmap string nat }.

Definition new_controller (global_max queue_max : N) (queue_timeout : Duration)
    (priorities : Priorities.Priorities) (h : Heap) : AdmissionController * Heap :=
  let '(g, h) := alloc (Limiter.new "global" global_max queue_max queue_timeout) h in
  let '(ts, h) := foldl (λ acc p,
      let '(ts, h) := acc in
      let '(t, h) := alloc (Limiter.new (limiter_name p)
                       (tier_ceiling global_max (Priorities.percent_for priorities p))
                       queue_max queue_timeout) h in
      (ts ++ [t], h)) ([], h) all_priorities in
  (mkController g ts ∅, h).

Definition tier_limiter (c : AdmissionController) (priority : Priority) : option nat :=
  '(i, _) ← list_find (λ p, p = priority) all_priorities; tiers c !! i.

Definition route_limiter (id : string) (max queue_max : N) (queue_timeout : Duration)
    (c : AdmissionController) (h : Heap) : nat * (AdmissionController * Heap) :=
  match routes c !! id with
  | Some l => (l, (c, h))
  | None =>
      let '(l, h) := alloc (Limiter.new id max queue_max queue_timeout) h in
      (l, (mkController (global c) (tiers c) (<[id := l]> (routes c)), h))
  end.

Definition resize_queue (max queue_max : N) (queue_timeout : Duration) (l : Limiter Sem) :
    Limiter Sem :=
  set_queue queue_max queue_timeout (resize max l).

Definition apply_route (st : AdmissionController * Heap) (r : RouteLimits) :
    AdmissionController * Heap :=
  let '(c, h) := st in
  let '(id, max, queue_max, queue_timeout) := r in
  match routes c !! id with
  | Some existing => (c, modify existing (resize_queue max queue_max queue_timeout) h)
  | None =>
      let '(l, h) := alloc (Limiter.new id max queue_max queue_timeout) h in
      (mkController (global c) (tiers c) (<[id := l]> (routes c)), h)
  end.

Definition apply_limits (global_max global_queue_max : N) (global_queue_timeout : Duration)
    (priorities : Priorities.Priorities) (rs : list RouteLimits)
    (c : AdmissionController) (h : Heap) : AdmissionController * Heap :=
  let h := modify (global c)
             (resize_queue global_max global_queue_max global_queue_timeout) h in
  let h := foldl (λ h ip,
      match tiers c !! ip.1 with
      | Some tier => modify tier
          (resize_queue (tier_ceiling global_max (Priorities.percent_for priorities ip.2))
             global_queue_max global_queue_timeout) h
      | None => h
      end) h (imap pair all_priorities) in
  let '(c, h) := foldl apply_route (c, h) rs in
  let keep := (λ r : RouteLimits, r.1.1.1) <$> rs in
  (mkController (global c) (tiers c) (filter (λ kv, kv.1 ∈ keep) (routes c)), h).

(** ** [admit] *)

Inductive Admission :=
| AdmittedWith (permits : list Permit)
| Exempt
| Shed (reason : ShedReason).

(** A request parked on [at_limiter]: its ticket and the units it waits for there,
    how long it may wait, the limiters it has yet to pass, the permits it holds and the
    deadline its waits share. *)
Record Pending := mkPending {
  at_limiter : nat;
  slip : N;
  wanted : N;
  wait : Duration;
  todo : list nat;
  took : list Permit;
  weight : N;
  deadline : option N }.

Inductive Progress :=
| Decided (a : Admission) (h : Heap)
| Await (p : Pending) (h : Heap).

(** Take each limiter in turn.  The permits taken so far are dropped, latest
    first, when one refuses; all of them are handed over when none does. *)
Fixpoint admit_go (now : N) (weight : N) (deadline : option N) (todo : list nat)
    (took : list Permit) (h : Heap) : Progress :=
  match todo with
  | [] => Decided (AdmittedWith took) h
  | l :: rest =>
      match acquire_start weight (cell h l) with
      | Granted units x =>
          admit_go now weight deadline rest ((l, units) :: took) (modify l (λ _, x) h)
      | Refused reason x =>
          Decided (Shed reason) (drop_permits took (modify l (λ _, x) h))
      | Parked t units x =>
          Await (mkPending l t units (wait_for deadline now (cell h l)) rest took weight deadline)
            (modify l (λ _, x) h)
      end
  end.

Definition min_duration (l : list Duration) : option Duration :=
  match l with [] => None | d :: ds => Some (foldl N.min d ds) end.

(** The limiters of a request, narrowest ceiling first. *)
Definition ceilings (c : AdmissionController) (route : option nat) (priority : Priority) :
    list nat :=
  option_list route ++ option_list (tier_limiter c priority) ++ [global c].

(** The longest a request may wait in all: the shortest queue timeout set. *)
Definition budget (c : AdmissionController) (route : option nat) (priority : Priority)
    (h : Heap) : option Duration :=
  min_duration (filter (λ d, is_zero d = false)
    ((λ l, queue_timeout (cell h l)) <$>
       global c :: option_list route ++ option_list (tier_limiter c priority))).

Definition admit_request (now : N) (class : RequestClass) (route : option nat)
    (priority : Priority) (weight : N) (c : AdmissionController) (h : Heap) : Progress :=
  if negb (consumes_origin_permit class) then Decided Exempt h
  else
    let deadline := (λ d, now + d) <$> budget c route priority h in
    admit_go now weight deadline (ceilings c route priority) [] h.

(** The await ended. *)
Definition admit_resume (now : N) (p : Pending) (w : Wait Sem) (h : Heap) : Progress :=
  let '(r, x) := acquire_finish (slip p) (wanted p) w (cell h (at_limiter p)) in
  let h := modify (at_limiter p) (λ _, x) h in
  match r with
  | Ok units =>
      admit_go now (weight p) (deadline p) (todo p) ((at_limiter p, units) :: took p) h
  | Err reason => Decided (Shed reason) (drop_permits (took p) h)
  end.

(** The request went away while parked: its future is dropped, and with it its
    place in the queue, the queue slot and the permits it holds. *)
Definition admit_abandon (p : Pending) (h : Heap) : Heap :=
  drop_permits (took p) (modify (at_limiter p) (leave_line (slip p)) h).

(** ** The whole system

    Every admission still held, every request parked somewhere; reloads and
    first uses of a route come at any time. *)

Record System := mkSystem {
  ctl : AdmissionController;
  heap : Heap;
  live : list (list Permit);
  waiting : list Pending }.

Definition settle (s : System) (c : AdmissionController) (p : Progress) (ws : list Pending) :
    System :=
  match p with
  | Decided (AdmittedWith ps) h => mkSystem c h (ps :: live s) ws
  | Decided _ h => mkSystem c h (live s) ws
  | Await p h => mkSystem c h (live s) (p :: ws)
  end.

(** What configuration validation guarantees of the limits it lets through. *)
Definition limits_ok (global_max queue_max : N) (priorities : Priorities.Priorities)
    (rs : list RouteLimits) : bool :=
  (1 <=? global_max) && (global_max <=? max_permits Sem) && (queue_max <=? USIZE_MAX)
  && forallb (λ p, Priorities.percent_for priorities p <=? 100) all_priorities
  && forallb (λ r : RouteLimits,
       (r.1.1.2 <=? max_permits Sem) && (r.1.2 <=? USIZE_MAX)) rs.

Inductive sys_step : System → System → Prop :=
| sys_arrive s now class route priority weight :
    (∀ l, route = Some l → (l < next (heap s))%nat) →
    sys_step s (settle s (ctl s)
      (admit_request now class route priority weight (ctl s) (heap s)) (waiting s))
| sys_wake s now i p x :
    waiting s !! i = Some p →
    poll (slip p) (sem (cell (heap s) (at_limiter p))) = Some x →
    sys_step s (settle s (ctl s) (admit_resume now p (Woken x) (heap s)) (delete i (waiting s)))
| sys_elapse s now i p :
    waiting s !! i = Some p →
    sys_step s (settle s (ctl s) (admit_resume now p Elapsed (heap s)) (delete i (waiting s)))
| sys_abandon s i p :
    waiting s !! i = Some p →
    sys_step s (mkSystem (ctl s) (admit_abandon p (heap s)) (live s) (delete i (waiting s)))
| sys_complete s i ps :
    live s !! i = Some ps →
    sys_step s (mkSystem (ctl s) (drop_permits ps (heap s)) (delete i (live s)) (waiting s))
| sys_route s id max queue_max timeout l c h :
    max <= max_permits Sem → queue_max <= USIZE_MAX →
    route_limiter id max queue_max timeout (ctl s) (heap s) = (l, (c, h)) →
    sys_step s (mkSystem c h (live s) (waiting s))
| sys_reload s gmax gq gt priorities rs c h :
    limits_ok gmax gq priorities rs = true →
    apply_limits gmax gq gt priorities rs (ctl s) (heap s) = (c, h) →
    sys_step s (mkSystem c h (live s) (waiting s)).

Definition boot (gmax gq : N) (gt : Duration) (priorities : Priorities.Priorities)
    (h : Heap) : System :=
  let '(c, h) := new_controller gmax gq gt priorities h in mkSystem c h [] [].

Inductive sys_reachable : System → Prop :=
| sys_boot gmax gq gt priorities h :
    next h = 0%nat → limits_ok gmax gq priorities [] = true →
    sys_reachable (boot gmax gq gt priorities h)
| sys_trans s s' : sys_reachable s → sys_step s s' → sys_reachable s'.

(** Every permit out, and what every parked request waits for. *)
Definition permits (s : System) : list Permit := mjoin (live s) ++ mjoin (took <$> waiting s).
Definition place (p : Pending) : Place := (at_limiter p, (slip p, wanted p)).
Definition waits (s : System) : list Place := place <$> waiting s.

(** The units in flight against a limiter. *)
Definition in_flight (s : System) (l : nat) : N := sum_N (on l (permits s)).
End Controller.
Arguments Heap Sem : clear implicits.
Arguments Progress Sem : clear implicits.
Arguments System Sem : clear implicits.

(** ** Proofs

    Seen from one limiter, everything the controller does is a sequence of that
    limiter's own steps: its invariant is the interface the proofs rest on. *)

Section ControllerFacts.
Context {Sem : Type} `{S : !Semaphore Sem} {laws : SemaphoreLaws Sem S}.
Implicit Types (h : Heap Sem) (s : System Sem) (x : Limiter Sem).

Lemma on_cons_eq {A} l (u : A) ps : on l ((l, u) :: ps) = u :: on l ps.
Proof. unfold on. by rewrite filter_cons_True. Qed.

Lemma on_cons_ne {A} l k (u : A) ps : k ≠ l → on k ((l, u) :: ps) = on k ps.
Proof. intros H. unfold on. rewrite filter_cons_False; [done|simpl; congruence]. Qed.

Lemma on_app {A} l (ps qs : list (nat * A)) : on l (ps ++ qs) = on l ps ++ on l qs.
Proof. unfold on. by rewrite filter_app, fmap_app. Qed.

#[export] Instance on_perm {A} l : Proper (Permutation ==> Permutation) (on (A := A) l).
Proof. intros ps qs H. unfold on. by rewrite H. Qed.

Lemma cell_modify l f h : cell (modify l f h) l = f (cell h l).
Proof. simpl. by rewrite decide_True. Qed.

Lemma cell_modify_ne l k f h : k ≠ l → cell (modify l f h) k = cell h k.
Proof. intros H. simpl. by rewrite decide_False. Qed.

Lemma next_drop ps h : next (drop_permits ps h) = next h.
Proof. revert h. induction ps as [|p ps IH]; intros h; [done|]. simpl. by rewrite IH. Qed.

Lemma Inv_perm x hs hs' ws ws' :
  hs ≡ₚ hs' → ws ≡ₚ ws' → Limiter.Inv (mkWorld x hs ws) → Limiter.Inv (mkWorld x hs' ws').
Proof. unfold Limiter.Inv; simpl. intros -> Hw. by rewrite Hw. Qed.

(** Every limiter of the heap keeps its invariant for the permits [ps] and the
    waits [ws], and none of those dangles. *)
Definition HeapInv (h : Heap Sem) (ps : list Permit) (ws : list Place) : Prop :=
  (∀ l, (l < next h)%nat → Limiter.Inv (mkWorld (cell h l) (on l ps) (on l ws)))
  ∧ Forall (λ p, (p.1 < next h)%nat) ps
  ∧ Forall (λ p, (p.1 < next h)%nat) ws.

#[export] Instance HeapInv_perm h :
  Proper (Permutation ==> Permutation ==> iff) (HeapInv h).
Proof.
  assert (∀ ps ps' ws ws', ps ≡ₚ ps' → ws ≡ₚ ws' → HeapInv h ps ws → HeapInv h ps' ws') as H.
  { intros ps ps' ws ws' Hp Hw (Hi & Hb & Hb'). split_and!; [|by rewrite <-Hp|by rewrite <-Hw].
    intros l Hl. eapply Inv_perm; [..|by apply Hi]; by apply on_perm. }
  intros ps ps' Hp ws ws' Hw. split; by apply H.
Qed.

(** One limiter takes one step. *)
Lemma HeapInv_step h ps ws ps' ws' l f e :
  HeapInv h ps ws → (l < next h)%nat →
  step (mkWorld (cell h l) (on l ps) (on l ws)) e (mkWorld (f (cell h l)) (on l ps') (on l ws')) →
  (∀ k, k ≠ l → on k ps' = on k ps ∧ on k ws' = on k ws) →
  Forall (λ p, (p.1 < next h)%nat) ps' → Forall (λ p, (p.1 < next h)%nat) ws' →
  HeapInv (modify l f h) ps' ws'.
Proof.
  intros (Hi & Hb & Hw) Hl Hstep Hother Hb' Hw'. split_and!; [|done..].
  intros k Hk. destruct (decide (k = l)) as [->|Hne].
  - rewrite cell_modify. eapply step_preserves; [by apply Hi|exact Hstep].
  - rewrite cell_modify_ne by done. destruct (Hother k Hne) as [-> ->]. by apply Hi.
Qed.

Lemma HeapInv_release h l u ps ws :
  HeapInv h ((l, u) :: ps) ws → HeapInv (modify l (release u) h) ps ws.
Proof.
  intros H. pose proof H as (Hi & [Hl Hb]%Forall_cons & Hw).
  eapply (HeapInv_step h _ _ ps ws l (release u)) in H; [exact H|done|..|done|done].
  - rewrite on_cons_eq. by apply (step_release (mkWorld (cell h l) (u :: on l ps) (on l ws)) 0 u).
  - intros k Hk. by rewrite on_cons_ne.
Qed.

Lemma HeapInv_drop h took ps ws :
  HeapInv h (took ++ ps) ws → HeapInv (drop_permits took h) ps ws.
Proof.
  revert h. induction took as [|[l u] took IH]; intros h H; [done|].
  apply IH, HeapInv_release, H.
Qed.

Lemma HeapInv_start h ps ws l weight :
  HeapInv h ps ws → (l < next h)%nat →
  match acquire_start weight (cell h l) with
  | Granted u x => HeapInv (modify l (λ _, x) h) ((l, u) :: ps) ws
  | Refused r x => HeapInv (modify l (λ _, x) h) ps ws
  | Parked t u x => HeapInv (modify l (λ _, x) h) ps ((l, (t, u)) :: ws)
  end.
Proof.
  intros H Hl. pose proof H as (Hi & Hb & Hw).
  destruct (acquire_start weight (cell h l)) as [u x|r x|t u x] eqn:E;
    (eapply HeapInv_step; [exact H|exact Hl|..]).
  - rewrite on_cons_eq. by apply (step_grant (mkWorld (cell h l) (on l ps) (on l ws)) weight).
  - intros k Hk. by rewrite on_cons_ne.
  - by constructor.
  - done.
  - by apply (step_refuse (mkWorld (cell h l) (on l ps) (on l ws)) weight).
  - done.
  - done.
  - done.
  - rewrite on_cons_eq. by apply (step_park (mkWorld (cell h l) (on l ps) (on l ws)) weight).
  - intros k Hk. by rewrite on_cons_ne.
  - done.
  - by constructor.
Qed.

(** The permits and the waits of the request that just ran. *)
Definition result_permits (p : Progress Sem) : list Permit :=
  match p with
  | Decided (AdmittedWith ps) _ => ps
  | Decided _ _ => []
  | Await p _ => took p
  end.
Definition result_waits (p : Progress Sem) : list Place :=
  match p with Await p _ => [place p] | _ => [] end.
Definition result_heap (p : Progress Sem) : Heap Sem :=
  match p with Decided _ h => h | Await _ h => h end.

Lemma HeapInv_go now weight dl todo took h ps ws :
  HeapInv h (took ++ ps) ws → Forall (λ l, (l < next h)%nat) todo →
  let p := admit_go now weight dl todo took h in
  HeapInv (result_heap p) (result_permits p ++ ps) (result_waits p ++ ws)
  ∧ next (result_heap p) = next h.
Proof.
  revert took h. induction todo as [|l rest IH]; intros took h H Hb; simpl; [done|].
  apply Forall_cons in Hb as [Hl Hb].
  pose proof (HeapInv_start h _ _ l weight H Hl) as Hs.
  destruct (acquire_start weight (cell h l)) as [u x|r x|t u x]; simpl.
  - exact (IH ((l, u) :: took) (modify l (λ _, x) h) Hs Hb).
  - split; [by apply HeapInv_drop|by rewrite next_drop].
  - done.
Qed.

(** Leaving the queue of a limiter: with the permits, or without. *)
Lemma HeapInv_unpark h l (u : N * N) ps ws f e ps' :
  HeapInv h ps ((l, u) :: ws) →
  step (mkWorld (cell h l) (on l ps) (u :: on l ws)) e
       (mkWorld (f (cell h l)) (on l ps') (on l ws)) →
  (∀ k, k ≠ l → on k ps' = on k ps) → Forall (λ p, (p.1 < next h)%nat) ps' →
  HeapInv (modify l f h) ps' ws.
Proof.
  intros H Hstep Hk Hb'. pose proof H as (Hi & Hb & [Hl Hw]%Forall_cons).
  eapply HeapInv_step; [exact H|exact Hl| |..|exact Hb'|exact Hw].
  - rewrite on_cons_eq. exact Hstep.
  - intros k Hne. by rewrite on_cons_ne, Hk.
Qed.

Definition pending_in_heap (h : Heap Sem) (p : Pending) : Prop :=
  Forall (λ l, (l < next h)%nat) (todo p).

Lemma HeapInv_resume now p (w : Wait Sem) h ps ws :
  HeapInv h (took p ++ ps) (place p :: ws) → pending_in_heap h p →
  (∀ sm : Sem, w = Woken sm →
     poll (slip p) (sem (cell h (at_limiter p))) = Some sm) →
  w ≠ Closed →
  let r := admit_resume now p w h in
  HeapInv (result_heap r) (result_permits r ++ ps) (result_waits r ++ ws)
  ∧ next (result_heap r) = next h.
Proof.
  intros H Hp Hw Hc. pose proof H as (_ & Hb & [Hl _]%Forall_cons).
  unfold admit_resume. destruct w as [x| |]; [|done|]; simpl.
  - set (x' := count_admitted _).
    refine (HeapInv_go now _ _ _ ((at_limiter p, wanted p) :: took p)
              (modify (at_limiter p) (λ _, x') h) ps ws _ Hp).
    eapply HeapInv_unpark; [exact H|..|by constructor].
    + rewrite <-app_comm_cons, on_cons_eq.
      eapply (step_wake (mkWorld (cell h (at_limiter p)) _ (_ :: _)) 0); [done|by apply Hw|done].
    + intros k Hne. by rewrite <-app_comm_cons, on_cons_ne.
  - split; [|by rewrite next_drop]. apply HeapInv_drop.
    eapply HeapInv_unpark; [exact H|..|done|done].
    by eapply (step_timeout (mkWorld (cell h (at_limiter p)) _ (_ :: _)) 0).
Qed.

Lemma HeapInv_abandon p h ps ws :
  HeapInv h (took p ++ ps) (place p :: ws) →
  HeapInv (admit_abandon p h) ps ws ∧ next (admit_abandon p h) = next h.
Proof.
  intros H. pose proof H as (_ & Hb & _). split; [|unfold admit_abandon; by rewrite next_drop].
  apply HeapInv_drop. eapply HeapInv_unpark; [exact H|..|done|done].
  by eapply (step_cancel (mkWorld (cell h (at_limiter p)) _ (_ :: _)) 0).
Qed.

(** A fresh limiter, and a reloaded one. *)
Lemma on_fresh {A} h l (ps : list (nat * A)) :
  Forall (λ p, (p.1 < next h)%nat) ps → (next h ≤ l)%nat → on l ps = [].
Proof.
  intros Hb Hl. unfold on. induction Hb as [|p ps Hp Hb IH]; [done|].
  rewrite filter_cons_False; [done|lia].
Qed.

Lemma HeapInv_alloc h nm n qm qt ps ws l h' :
  HeapInv h ps ws → n <= max_permits Sem → qm <= USIZE_MAX →
  alloc (Limiter.new nm n qm qt) h = (l, h') →
  HeapInv h' ps ws ∧ next h' = Datatypes.S (next h) ∧ l = next h.
Proof.
  intros (Hi & Hb & Hw) Hn Hq [= <- <-]. split; [|done]. unfold HeapInv. split_and!.
  - intros l Hl. simpl in *. case_decide as Heq.
    + rewrite !(on_fresh h) by (done || lia). apply reachable_inv. by apply reach_new.
    + apply Hi. lia.
  - eapply Forall_impl; [exact Hb|]. intros p Hp. simpl in *. lia.
  - eapply Forall_impl; [exact Hw|]. intros p Hp. simpl in *. lia.
Qed.

Lemma HeapInv_resize h ps ws l max qm qt :
  HeapInv h ps ws → max <= max_permits Sem → qm <= USIZE_MAX →
  HeapInv (modify l (resize_queue max qm qt) h) ps ws.
Proof.
  intros (Hi & Hb & Hw) Hm Hq. split_and!; [|done..].
  intros k Hk. simpl. case_decide as Heq; [|by apply Hi]. subst k.
  eapply step_preserves; [|by eapply (step_set_queue (mkWorld _ _ _))].
  eapply step_preserves; [by apply Hi|by apply (step_resize (mkWorld _ _ _))].
Qed.

(** The controller's own references are live. *)
Definition ctl_ok (c : AdmissionController) (h : Heap Sem) : Prop :=
  (global c < next h)%nat ∧ Forall (λ l, (l < next h)%nat) (tiers c)
  ∧ map_Forall (λ _ l, (l < next h)%nat) (routes c).

Lemma tier_limiter_some c p l : tier_limiter c p = Some l → l ∈ tiers c.
Proof.
  unfold tier_limiter. intros H. apply bind_Some in H as ([i q] & _ & H).
  by apply list_elem_of_lookup_2 in H.
Qed.

Lemma ceilings_bound c h route p :
  ctl_ok c h → (∀ l, route = Some l → (l < next h)%nat) →
  Forall (λ l, (l < next h)%nat) (ceilings c route p).
Proof.
  intros (Hg & Ht & _) Hr. unfold ceilings. rewrite !Forall_app. split_and!.
  - destruct route; simpl; auto.
  - destruct (tier_limiter c p) as [l|] eqn:E; simpl; [|constructor].
    constructor; [|constructor]. apply tier_limiter_some in E.
    by eapply Forall_forall in Ht.
  - by constructor.
Qed.

Lemma go_pending now weight dl todo' took' h p h' n :
  Forall (λ l, (l < n)%nat) todo' →
  admit_go now weight dl todo' took' h = Await p h' → Forall (λ l, (l < n)%nat) (todo p).
Proof.
  revert took' h. induction todo' as [|l rest IH]; intros took' h Hb; simpl; [done|].
  apply Forall_cons in Hb as [_ Hb].
  destruct (acquire_start weight (cell h l)); [by apply IH|done|by intros [= <- _]].
Qed.

Lemma resume_pending now p (w : Wait Sem) h p' h' :
  pending_in_heap h p → admit_resume now p w h = Await p' h' → pending_in_heap h p'.
Proof.
  unfold admit_resume, pending_in_heap. intros Hp.
  destruct w; simpl; [|done|done]. by apply go_pending.
Qed.

(** *** The invariant of the system *)

Definition SysInv s : Prop :=
  HeapInv (heap s) (permits s) (waits s)
  ∧ ctl_ok (ctl s) (heap s)
  ∧ Forall (pending_in_heap (heap s)) (waiting s).

Lemma ctl_ok_mono c h h' : (next h ≤ next h')%nat → ctl_ok c h → ctl_ok c h'.
Proof.
  intros Hle (Hg & Ht & Hr). split_and!; [lia| |].
  - eapply Forall_impl; [exact Ht|]. simpl. lia.
  - eapply map_Forall_impl; [exact Hr|]. simpl. lia.
Qed.

Lemma pending_mono h h' ws :
  (next h ≤ next h')%nat → Forall (pending_in_heap h) ws → Forall (pending_in_heap h') ws.
Proof.
  intros Hle H. eapply Forall_impl; [exact H|]. intros p Hp.
  eapply Forall_impl; [exact Hp|]. simpl. lia.
Qed.

Lemma permits_waiting s i p :
  waiting s !! i = Some p →
  permits s ≡ₚ took p ++ (mjoin (live s) ++ mjoin (took <$> delete i (waiting s)))
  ∧ waits s ≡ₚ place p :: (place <$> delete i (waiting s)).
Proof.
  intros Hi. apply delete_Permutation in Hi. unfold permits, waits. split.
  - rewrite Hi at 1. simpl. solve_Permutation.
  - by rewrite Hi at 1.
Qed.

(** A request ran: it now holds what it was granted and waits where it parked. *)
Lemma SysInv_settle s c r ws :
  let ps := mjoin (live s) ++ mjoin (took <$> ws) in
  let wt := place <$> ws in
  HeapInv (result_heap r) (result_permits r ++ ps) (result_waits r ++ wt) →
  ctl_ok c (result_heap r) → Forall (pending_in_heap (result_heap r)) ws →
  (∀ p h, r = Await p h → pending_in_heap h p) →
  SysInv (settle s c r ws).
Proof.
  intros ps wt H Hc Hw Hp. unfold SysInv.
  destruct r as [[took'| |reason] h|p h]; simpl in *.
  - split; [|done]. unfold permits; simpl. by rewrite <-app_assoc.
  - done.
  - done.
  - split; [|split; [done|]]; [|constructor; [by apply Hp|done]].
    assert (permits (mkSystem c h (live s) (p :: ws)) ≡ₚ took p ++ ps) as ->; [|done].
    unfold permits, ps; simpl. solve_Permutation.
Qed.

Lemma SysInv_arrive s now cls route priority weight :
  SysInv s → (∀ l, route = Some l → (l < next (heap s))%nat) →
  SysInv (settle s (ctl s)
    (admit_request now cls route priority weight (ctl s) (heap s)) (waiting s)).
Proof.
  intros (Hh & Hc & Hw) Hr. pose proof (ceilings_bound _ _ _ priority Hc Hr) as Hb.
  unfold admit_request. destruct (negb (consumes_origin_permit cls)).
  { by apply SysInv_settle. }
  set (dl := fmap _ _).
  destruct (HeapInv_go now weight dl _ [] (heap s) _ _ Hh Hb) as [Hh' Hn].
  apply SysInv_settle; [done|..].
  - eapply ctl_ok_mono; [|exact Hc]. by rewrite Hn.
  - eapply pending_mono; [|exact Hw]. by rewrite Hn.
  - intros p h E. rewrite E in Hn. simpl in Hn. unfold pending_in_heap. rewrite Hn.
    by eapply go_pending.
Qed.

Lemma SysInv_resume s now i p (w : Wait Sem) :
  SysInv s → waiting s !! i = Some p → w ≠ Closed →
  (∀ sm : Sem, w = Woken sm →
     poll (slip p) (sem (cell (heap s) (at_limiter p))) = Some sm) →
  SysInv (settle s (ctl s) (admit_resume now p w (heap s)) (delete i (waiting s))).
Proof.
  intros (Hh & Hc & Hw) Hi Hcl Hs. destruct (permits_waiting _ _ _ Hi) as [Hp Hwt].
  rewrite Hp, Hwt in Hh. pose proof (Forall_lookup_1 _ _ _ _ Hw Hi) as Hpend.
  destruct (HeapInv_resume now p w _ _ _ Hh Hpend Hs Hcl) as [Hh' Hn].
  apply SysInv_settle; [done|..].
  - eapply ctl_ok_mono; [|exact Hc]. by rewrite Hn.
  - eapply pending_mono; [|by apply Forall_delete]. by rewrite Hn.
  - intros p' h E. rewrite E in Hn. simpl in Hn.
    pose proof (resume_pending _ _ _ _ _ _ Hpend E) as H.
    unfold pending_in_heap in *. by rewrite Hn.
Qed.

Lemma SysInv_abandon s i p :
  SysInv s → waiting s !! i = Some p →
  SysInv (mkSystem (ctl s) (admit_abandon p (heap s)) (live s) (delete i (waiting s))).
Proof.
  intros (Hh & Hc & Hw) Hi. destruct (permits_waiting _ _ _ Hi) as [Hp Hwt].
  rewrite Hp, Hwt in Hh. apply HeapInv_abandon in Hh as [Hh Hn].
  split; [exact Hh|split]; simpl.
  - eapply ctl_ok_mono; [|exact Hc]. by rewrite Hn.
  - eapply pending_mono; [|by apply Forall_delete]. by rewrite Hn.
Qed.

Lemma SysInv_complete s i ps :
  SysInv s → live s !! i = Some ps →
  SysInv (mkSystem (ctl s) (drop_permits ps (heap s)) (delete i (live s)) (waiting s)).
Proof.
  intros (Hh & Hc & Hw) Hi. apply delete_Permutation in Hi.
  split; [|split]; simpl.
  - apply HeapInv_drop.
    assert (permits s ≡ₚ ps ++ (mjoin (delete i (live s)) ++ mjoin (took <$> waiting s)))
      as Hp; [|by rewrite Hp in Hh].
    unfold permits. rewrite Hi at 1. simpl. by rewrite app_assoc.
  - eapply ctl_ok_mono; [|exact Hc]. by rewrite next_drop.
  - eapply pending_mono; [|exact Hw]. by rewrite next_drop.
Qed.

(** *** Reloads *)

Definition Good (n : nat) (ps : list Permit) (ws : list Place) (st : AdmissionController * Heap Sem) : Prop :=
  HeapInv st.2 ps ws ∧ ctl_ok st.1 st.2 ∧ (n ≤ next st.2)%nat.

Lemma Good_resize n ps ws c h l max qm qt :
  max <= max_permits Sem → qm <= USIZE_MAX →
  Good n ps ws (c, h) → Good n ps ws (c, modify l (resize_queue max qm qt) h).
Proof. intros Hm Hq (Hh & Hc & Hn). split; [by apply HeapInv_resize|done]. Qed.

Lemma Good_insert n ps ws c h id max qm qt l h' :
  max <= max_permits Sem → qm <= USIZE_MAX →
  Good n ps ws (c, h) → alloc (Limiter.new id max qm qt) h = (l, h') →
  Good n ps ws (mkController (global c) (tiers c) (<[id := l]> (routes c)), h').
Proof.
  intros Hm Hq (Hh & Hc & Hn) Ha. simpl in *.
  destruct (HeapInv_alloc _ _ _ _ _ _ _ _ _ Hh Hm Hq Ha) as (Hh' & Hnext & ->).
  split; [done|]. simpl. rewrite Hnext. split; [|lia].
  apply (ctl_ok_mono c h h') in Hc; [|lia]. destruct Hc as (Hg & Ht & Hr).
  split; [done|]. split; [done|]. apply map_Forall_insert_2; [|done].
  rewrite Hnext. lia.
Qed.

Lemma Good_route n ps ws st r :
  r.1.1.2 <= max_permits Sem → r.1.2 <= USIZE_MAX →
  Good n ps ws st → Good n ps ws (apply_route st r).
Proof.
  destruct st as [c h], r as [[[id max] qm] qt]. simpl. intros Hm Hq H.
  destruct (routes c !! id); [by apply Good_resize|]. by eapply Good_insert.
Qed.

Lemma Good_fold {A} n ps ws (f : AdmissionController * Heap Sem → A → AdmissionController * Heap Sem)
    (P : A → Prop) l st :
  (∀ st a, P a → Good n ps ws st → Good n ps ws (f st a)) →
  Forall P l → Good n ps ws st → Good n ps ws (foldl f st l).
Proof. intros Hf Hl. revert st. induction Hl; intros st Hst; simpl; auto. Qed.

Lemma tier_ceiling_bound gmax percent :
  1 <= gmax → percent <= 100 → 1 <= tier_ceiling gmax percent ∧ tier_ceiling gmax percent <= gmax.
Proof.
  intros Hg Hp. unfold tier_ceiling, saturating_mul. split; [lia|].
  apply N.max_lub; [|done]. apply N.Div0.div_le_upper_bound. nia.
Qed.

(** The bounds [limits_ok] checks, as propositions. *)
Lemma limits_ok_spec gmax gq priorities rs :
  limits_ok (Sem := Sem) gmax gq priorities rs = true →
  1 <= gmax ∧ gmax <= max_permits Sem ∧ gq <= USIZE_MAX
  ∧ (∀ p, tier_ceiling gmax (Priorities.percent_for priorities p) <= max_permits Sem)
  ∧ Forall (λ r : RouteLimits, r.1.1.2 <= max_permits Sem ∧ r.1.2 <= USIZE_MAX) rs.
Proof.
  unfold limits_ok. rewrite !andb_true_iff, !N.leb_le.
  intros [[[[H1 Hg] Hq] Hp] Hr]. split_and!; [done..| |].
  - intros p. assert (Priorities.percent_for priorities p <= 100) as Hle.
    { rewrite forallb_forall in Hp. apply N.leb_le, Hp. destruct p; simpl; auto. }
    destruct (tier_ceiling_bound gmax _ H1 Hle). lia.
  - apply Forall_forall. intros r Hin. rewrite forallb_forall in Hr.
    specialize (Hr r). rewrite <-list_elem_of_In in Hr. specialize (Hr Hin).
    by rewrite andb_true_iff, !N.leb_le in Hr.
Qed.

Lemma Good_apply_limits ps ws gmax gq gt priorities rs c h :
  limits_ok (Sem := Sem) gmax gq priorities rs = true →
  HeapInv h ps ws → ctl_ok c h →
  Good (next h) ps ws (apply_limits gmax gq gt priorities rs c h).
Proof.
  intros (H1 & Hg & Hq & Htier & Hr)%limits_ok_spec Hh Hc. unfold apply_limits.
  set (h1 := modify (global c) _ h). set (h2 := foldl _ h1 _).
  assert (Good (next h) ps ws (c, h1)) as H1'.
  { apply Good_resize; [done..|]. by split. }
  assert (Good (next h) ps ws (c, h2)) as H2'.
  { unfold h2. generalize (imap pair all_priorities). intros l. revert H1'. generalize h1.
    induction l as [|[i p] l IH]; intros h' Hh'; simpl; [done|]. apply IH.
    destruct (tiers c !! i); [|done]. by apply Good_resize. }
  pose proof (Good_fold _ _ _ apply_route _ rs _
    (λ st r Hr, Good_route _ _ _ st r (proj1 Hr) (proj2 Hr)) Hr H2') as H3.
  destruct (foldl apply_route (c, h2) rs) as [c' h'].
  destruct H3 as (Hh' & (Hg' & Ht' & Hr') & Hn). split; [done|]. split; [|done].
  split; [done|]. split; [done|]. simpl. intros id l Hl.
  apply map_lookup_filter_Some in Hl as [Hl _]. by eapply Hr'.
Qed.

Lemma SysInv_good s st :
  SysInv s → Good (next (heap s)) (permits s) (waits s) st →
  SysInv (mkSystem st.1 st.2 (live s) (waiting s)).
Proof.
  intros (_ & _ & Hw) (Hh & Hc & Hn). split; [done|]. split; [done|]. by eapply pending_mono.
Qed.

Lemma SysInv_step s s' : SysInv s → sys_step s s' → SysInv s'.
Proof.
  intros HI Hs. pose proof HI as (Hh & Hc & _).
  destruct Hs as [s now cls route pr wt Hr|s now i p x Hi Hx|s now i p Hi|s i p Hi|s i ps Hi
                 |s id max qm qt l c h Hm Hq Hroute|s gmax gq gt pr rs c h Hok Happly].
  - by apply SysInv_arrive.
  - apply SysInv_resume; try done. by intros ? [= <-].
  - by apply SysInv_resume.
  - by apply SysInv_abandon.
  - by apply SysInv_complete.
  - apply (SysInv_good s (c, h) HI). unfold route_limiter in Hroute.
    destruct (routes (ctl s) !! id); [by injection Hroute as <- <- <-|].
    destruct (alloc _ _) as [l' h'] eqn:Ha. injection Hroute as <- <- <-.
    eapply Good_insert; [exact Hm|exact Hq| |exact Ha]. by split.
  - apply (SysInv_good s (c, h) HI). rewrite <-Happly. by apply Good_apply_limits.
Qed.

Lemma SysInv_boot gmax gq gt priorities h :
  next h = 0%nat → limits_ok (Sem := Sem) gmax gq priorities [] = true →
  SysInv (boot gmax gq gt priorities h).
Proof.
  intros Hz (H1 & Hg & Hq & Htier & _)%limits_ok_spec. unfold boot, new_controller.
  assert (HeapInv h [] []) as H0. { split; [|done]. intros l. lia. }
  destruct (alloc _ h) as [g h1] eqn:E1.
  apply (HeapInv_alloc _ _ _ _ _ _ _ _ _ H0 Hg Hq) in E1 as (I1 & N1 & ->).
  unfold all_priorities. simpl foldl. 
  pose proof (HeapInv_alloc _ (limiter_name High) _ _ gt _ _ _ _ I1 (Htier High) Hq eq_refl) as (I2 & N2 & _).
  pose proof (HeapInv_alloc _ (limiter_name Normal) _ _ gt _ _ _ _ I2 (Htier Normal) Hq eq_refl) as (I3 & N3 & _).
  pose proof (HeapInv_alloc _ (limiter_name Low) _ _ gt _ _ _ _ I3 (Htier Low) Hq eq_refl) as (I4 & N4 & _).
  split; [exact I4|]. split; [|constructor].
  unfold ctl_ok. simpl. rewrite N1, Hz. split; [lia|]. split; [|apply map_Forall_empty].
  repeat constructor; lia.
Qed.

Lemma sys_reachable_inv s : sys_reachable s → SysInv s.
Proof.
  induction 1 as [gmax gq gt pr h Hz Hok|s s' _ IH Hs]; [by apply SysInv_boot|].
  by eapply SysInv_step.
Qed.
End ControllerFacts.

(** ** What admission promises *)

Section AdmissionTheorems.
Context {Sem : Type} `{S : !Semaphore Sem} {laws : SemaphoreLaws Sem S}.
Implicit Types (h : Heap Sem) (s : System Sem) (x : Limiter Sem).

(** What a caller sees of a run. *)
Inductive Outcome :=
| OAdmitted (permits : list Permit)
| OExempt
| OShed (reason : ShedReason)
| OParked (l : nat) (units : N).

Definition outcome (p : Progress Sem) : Outcome :=
  match p with
  | Decided (AdmittedWith ps) _ => OAdmitted ps
  | Decided Exempt _ => OExempt
  | Decided (Shed r) _ => OShed r
  | Await p _ => OParked (at_limiter p) (wanted p)
  end.

(** Whether a request for [units] is served at once on a limiter. *)
Definition fits_on (s : System Sem) (units : N) (l : nat) : bool :=
  let x := cell (heap s) l in fits (units_of x) (in_flight s l) (line x) units.

(** The specification: the first ceiling the request does not fit under decides
    whether it is refused or parked; if there is none it is admitted, holding
    its units on every ceiling. *)
Definition decide_by_ceilings (s : System Sem) (units : N) (ls : list nat) (held : list Permit) :
    Outcome :=
  match list_find (λ l, fits_on s units l = false) ls with
  | None => OAdmitted (rev ((λ l, (l, units)) <$> ls) ++ held)
  | Some (_, l) =>
      if queue_max (cell (heap s) l) <=? N.of_nat (length (on l (waits s)))
      then OShed QueueFull else OParked l units
  end.

Lemma start_limit weight x :
  match acquire_start weight x with
  | Granted _ y | Refused _ y | Parked _ _ y => limit y = limit x
  end.
Proof.
  unfold acquire_start. destruct (try_acquire_many _ _); [done|].
  destruct (queue_max x =? 0); [done|]. simpl. destruct (queue_max x <=? queue_depth x); [done|].
  by destruct (acquire_many _ _).
Qed.

Lemma limit_modify l f h k :
  (∀ x, limit (f x) = limit x) → limit (cell (modify l f h) k) = limit (cell h k).
Proof. intros Hf. simpl. case_decide; [subst; apply Hf|done]. Qed.

Lemma limit_drop ps h k : limit (cell (drop_permits ps h) k) = limit (cell h k).
Proof.
  revert h. induction ps as [|p ps IH]; intros h; [done|]. simpl. rewrite IH.
  apply limit_modify. intros x. apply limit_release.
Qed.

Lemma limit_go now weight dl ls held h k :
  limit (cell (result_heap (admit_go now weight dl ls held h)) k) = limit (cell h k).
Proof.
  revert held h. induction ls as [|l ls IH]; intros held h; simpl; [done|].
  pose proof (start_limit weight (cell h l)) as Hl.
  assert (∀ y, limit y = limit (cell h l) →
    limit (cell (modify l (λ _, y) h) k) = limit (cell h k)) as Hm.
  { intros y Hy. simpl. case_decide; congruence. }
  destruct (acquire_start weight (cell h l)) as [u y|r y|t u y]; simpl result_heap.
  - rewrite IH. by apply Hm.
  - rewrite limit_drop. by apply Hm.
  - by apply Hm.
Qed.

Lemma limit_request now cls route pr weight c h k :
  limit (cell (result_heap (admit_request now cls route pr weight c h)) k) = limit (cell h k).
Proof. unfold admit_request. case_match; [done|]. apply limit_go. Qed.

Lemma SysInv_request s now cls route pr weight :
  SysInv s → (∀ l, route = Some l → (l < next (heap s))%nat) →
  let r := admit_request now cls route pr weight (ctl s) (heap s) in
  HeapInv (result_heap r) (result_permits r ++ permits s) (result_waits r ++ waits s)
  ∧ next (result_heap r) = next (heap s).
Proof.
  intros (Hh & Hc & _) Hr. unfold admit_request. case_match; [done|].
  apply (HeapInv_go now weight _ _ [] (heap s)); [done|]. by apply ceilings_bound.
Qed.

(** What one limiter answers, given what else the request already holds. *)
Lemma go_outcome s now weight dl ls held h :
  (∀ l, l ∈ ls → cell h l = cell (heap s) l) →
  NoDup ls → Forall (λ l, (l < next (heap s))%nat) ls → SysInv s →
  outcome (admit_go now weight dl ls held h) = decide_by_ceilings s (N.max weight 1) ls held.
Proof.
  revert held h. induction ls as [|l ls IH]; intros held h Hsame Hnd Hb HI; [done|].
  apply NoDup_cons in Hnd as [Hl Hnd]. apply Forall_cons in Hb as [Hlt Hb].
  destruct HI as (HH & Hrest). pose proof (proj1 HH l Hlt) as (Hbal & Ho & Hq & Hqb & _). simpl in Hbal, Ho, Hq, Hqb.
  pose proof (acquire_start_cases weight _ _ _ Hbal Ho Hqb) as Hc.
  pose proof (fits_available _ _ _ (N.max weight 1) Hbal Ho ltac:(lia)) as Hfit.
  change (fits_on s (N.max weight 1) l = (N.max weight 1 <=? available (cell (heap s) l))) in Hfit.
  unfold decide_by_ceilings in *. simpl. rewrite Hsame by constructor.
  destruct (acquire_start weight (cell (heap s) l)) as [u x|r x|t u x].
  - destruct Hc as (-> & _ & Hle & _). rewrite decide_False by (by rewrite Hfit, (proj2 (N.leb_le _ _) Hle)). rewrite IH; try done.
    + destruct (list_find _ ls) as [[i k]|]; simpl; [done|]. by rewrite <-app_assoc.
    + intros k Hk. rewrite cell_modify_ne by congruence. apply Hsame. by constructor.
  - destruct Hc as (-> & Hlt' & Hfull & _). rewrite decide_True by (rewrite Hfit; by apply N.leb_gt). simpl.
    rewrite <-Hq. by rewrite (proj2 (N.leb_le _ _) Hfull).
  - destruct Hc as (-> & Hlt' & Hroom & _). rewrite decide_True by (rewrite Hfit; by apply N.leb_gt). simpl.
    rewrite <-Hq. by rewrite (proj2 (N.leb_gt _ _) Hroom).
Qed.

(** C2: Every ceiling is exact at every moment: whatever requests arrived,
    waited, were woken, timed out, went away or completed and whatever reloads
    happened, on each limiter the units available, those its waiters have
    gathered and those of every live or waiting request are together its ceiling
    plus its debt; its queue is the requests parked on it, none with more than it
    asked for and nothing available while one is short; and its queue depth is
    their number.  So no path leaks or double-frees capacity. *)
Theorem admission_conservation s l :
  sys_reachable s → (l < next (heap s))%nat →
  let x := cell (heap s) l in
  available x + gathered (line x) + in_flight s l = limit x + debt x
  ∧ places (line x) ≡ₚ on l (waits s) ∧ fed (line x) ∧ (hungry (line x) = true → available x = 0)
  ∧ queue_depth x = N.of_nat (length (on l (waits s))).
Proof.
  intros (Hh & _)%sys_reachable_inv Hl. destruct (proj1 Hh l Hl) as ([? _] & (? & _ & ? & ?) & ? & _). done.
Qed.

(** C1: [admit] is all or nothing.  It admits a request exactly when its weight
    fits on its route's, its tier's and the global limiter (nobody short queues
    there before it, and its weight fits beside what is held and what the queue
    has gathered under the ceiling, plus what a shrink is still owed), and then
    holds its weight on each of them; otherwise the first one it does not fit on
    refuses it (its queue is full) or parks it. *)
Theorem admission_decides s now cls route priority weight :
  sys_reachable s → (∀ l, route = Some l → (l < next (heap s))%nat) →
  NoDup (ceilings (ctl s) route priority) →
  outcome (admit_request now cls route priority weight (ctl s) (heap s)) =
    if consumes_origin_permit cls
    then decide_by_ceilings s (N.max weight 1) (ceilings (ctl s) route priority) []
    else OExempt.
Proof.
  intros HI%sys_reachable_inv Hr Hnd. unfold admit_request.
  destruct (consumes_origin_permit cls); simpl; [|done].
  apply go_outcome; [done|done| |done]. by apply ceilings_bound; [apply HI|].
Qed.

(** A refusal costs nothing: after a request is shed, every limiter of the
    process has the ceiling and the queue it had before, and the units it had
    unless they settled debt. *)
Theorem shed_leaves_no_trace s now cls route priority weight reason h' :
  sys_reachable s → (∀ l, route = Some l → (l < next (heap s))%nat) →
  admit_request now cls route priority weight (ctl s) (heap s) = Decided (Shed reason) h' →
  ∀ l, (l < next (heap s))%nat →
    let x := cell (heap s) l in let x' := cell h' l in
    available x' + gathered (line x') + debt x = available x + gathered (line x) + debt x'
    ∧ limit x' = limit x ∧ places (line x') ≡ₚ places (line x) ∧ queue_depth x' = queue_depth x.
Proof.
  intros HI%sys_reachable_inv Hr E l Hl.
  pose proof (SysInv_request s now cls route priority weight HI Hr) as [Hh Hn].
  pose proof (limit_request now cls route priority weight (ctl s) (heap s) l) as Hlim.
  rewrite E in Hh, Hn, Hlim. simpl in *. destruct HI as (HI & _).
  destruct (proj1 HI l Hl) as ([Hc _] & (Hp & _) & Hq & _).
  rewrite <-Hn in Hl. destruct (proj1 Hh l Hl) as ([Hc' _] & (Hp' & _) & Hq' & _). unfold units_of in *. simpl in *.
  split_and!; [lia|done|by rewrite Hp, Hp'|congruence].
Qed.

(** When every request has completed or gone, each limiter has its whole
    current ceiling available, and beyond it only what a shrink is still owed. *)
Theorem drained_system_is_full s l :
  sys_reachable s → live s = [] → waiting s = [] → (l < next (heap s))%nat →
  let x := cell (heap s) l in
  available x = limit x + debt x ∧ line x = [] ∧ queue_depth x = 0.
Proof.
  intros (Hh & _)%sys_reachable_inv Hlv Hw Hl.
  destruct (proj1 Hh l Hl) as ([Hc _] & Ho & Hq & _).
  unfold permits, waits in *. rewrite Hlv, Hw in *. simpl in *.
  apply orderly_empty in Ho. rewrite Ho in Hc |- *. unfold units_of in Hc. cbn in Hc. split_and!; [lia|done|lia].
Qed.
End AdmissionTheorems.

(** ** Witnesses *)

Import CountingSemaphore.

(** A controller of 4 whose low tier is half of that, and a route of 3. *)
Definition share : Priorities.Priorities := Priorities.mk 100 100 50.
Definition s0 : System counter :=
  boot 4 0 1000000000 share (mkHeap (λ _, Limiter.new EmptyString 0 0 0) 0).
Definition s1 : System counter :=
  let '(_, (c, h)) := route_limiter "search" 3 1 1000000000 (ctl s0) (heap s0) in
  mkSystem c h [] [].
(** A low-priority request of weight 2 is admitted; the next one parks on the
    tier's queue, which is closed, and is refused. *)
Definition s2 : System counter :=
  settle s1 (ctl s1) (admit_request 0 PublicDynamic (Some 4%nat) Low 2 (ctl s1) (heap s1)) [].
Definition s3 : System counter :=
  mkSystem (ctl s2) (drop_permits [(0%nat, 2); (3%nat, 2); (4%nat, 2)] (heap s2)) [] [].

Lemma reach_s2 : sys_reachable s2.
Proof.
  apply (sys_trans s1); [apply (sys_trans s0); [by apply sys_boot|]|].
  - by apply (sys_route s0 "search" 3 1 1000000000 4%nat).
  - apply (sys_arrive s1). intros l [= <-]. vm_compute. lia.
Defined.

Lemma reach_s3 : sys_reachable s3.
Proof. apply (sys_trans s2); [apply reach_s2|]. by apply (sys_complete s2 0). Defined.

(** A request of weight 2 parks on the route, which has 1 unit left, and takes it
    into its place. *)
Definition s4 : System counter :=
  settle s2 (ctl s2) (admit_request 0 PublicDynamic (Some 4%nat) High 2 (ctl s2) (heap s2)) (waiting s2).

Lemma reach_s4 : sys_reachable s4.
Proof.
  apply (sys_trans s2); [apply reach_s2|]. apply (sys_arrive s2 0 PublicDynamic (Some 4%nat) High 2). intros l [= <-]. vm_compute. lia.
Defined.

Lemma admission_conservation_witness :
  available (cell (heap s4) 4) = 0 ∧ gathered (line (cell (heap s4) 4)) = 1 ∧ in_flight s4 4 = 2 ∧
  available (cell (heap s4) 4) + gathered (line (cell (heap s4) 4)) + in_flight s4 4
  = limit (cell (heap s4) 4) + debt (cell (heap s4) 4).
Proof.
  split; [reflexivity|]. split; [reflexivity|]. split; [reflexivity|].
  apply (admission_conservation s4 4); [apply reach_s4|]. vm_compute. lia.
Defined.

Lemma admission_decides_witness :
  outcome (admit_request 0 PublicDynamic (Some 4%nat) High 2 (ctl s2) (heap s2)) = OParked 4 2
  ∧ outcome (admit_request 0 PublicDynamic (Some 4%nat) High 1 (ctl s2) (heap s2))
    = OAdmitted [(0%nat, 1); (1%nat, 1); (4%nat, 1)]
  ∧ outcome (admit_request 0 PublicDynamic (Some 4%nat) High 1 (ctl s4) (heap s4)) = OShed QueueFull.
Proof.
  split; [|split]; [rewrite (admission_decides s2)|rewrite (admission_decides s2)|rewrite (admission_decides s4)];
    try reflexivity; try apply reach_s2; try apply reach_s4;
    try (intros l [= <-]; vm_compute; lia);
    apply (bool_decide_unpack _); vm_compute; exact I.
Defined.

Lemma shed_leaves_no_trace_witness :
  ∃ h', admit_request 0 PublicDynamic (Some 4%nat) Low 1 (ctl s2) (heap s2)
        = Decided (Shed QueueFull) h' ∧ limit (cell h' 0) = limit (cell (heap s2) 0).
Proof.
  eexists. split; [reflexivity|].
  eapply (shed_leaves_no_trace s2 0 PublicDynamic (Some 4%nat) Low 1);
    [apply reach_s2|intros l [= <-]; vm_compute; lia|reflexivity|vm_compute; lia].
Defined.

Lemma drained_system_is_full_witness :
  available (cell (heap s3) 4) = limit (cell (heap s3) 4) + debt (cell (heap s3) 4).
Proof.
  apply (drained_system_is_full s3 4); [apply reach_s3|reflexivity..|vm_compute; lia].
Defined.
