(* ===== verification/Orders.v ===== *)
(** * Sorting

    Rust's [Ord] on byte strings, options and tuples, and [sort] on lists of
    them.  [slice::sort] and [slice::sort_unstable] are both [merge_sort]: on a
    total order whose equal elements are identical they have one result. *)

From S2P Require Import Prelude Words Text.
From stdpp Require Import sorting.
Local Open Scope list_scope.

Class TotalOrder {A} (R : relation A) : Prop := {
  order_preorder :: PreOrder R;
  order_antisymm :: AntiSymm (=) R;
  order_total :: Total R }.

(** ** Strings, byte by byte *)

Fixpoint str_leb (s t : string) : bool :=
  match s, t with
  | EmptyString, _ => true
  | String _ _, EmptyString => false
  | String a s', String b t' =>
      if (code a <? code b)%N then true
      else if (code b <? code a)%N then false else str_leb s' t'
  end.

Definition str_le (s t : string) : Prop := str_leb s t = true.
#[export] Instance str_le_dec : RelDecision str_le.
Proof. intros s t. unfold str_le. apply _. Defined.

Lemma code_inj a b : code a = code b → a = b.
Proof. intros H. rewrite <-(ascii_N_embedding a), <-(ascii_N_embedding b). by f_equal. Qed.

#[export] Instance str_le_order : TotalOrder str_le.
Proof.
  unfold str_le. split; [split| |].
  - intros s. induction s as [|a s IH]; simpl; [done|]. by rewrite N.ltb_irrefl.
  - intros s. induction s as [|a s IH]; intros [|b t] [|c u]; simpl; try done.
    destruct (N.ltb_spec (code a) (code b)), (N.ltb_spec (code b) (code a)),
      (N.ltb_spec (code b) (code c)), (N.ltb_spec (code c) (code b)),
      (N.ltb_spec (code a) (code c)), (N.ltb_spec (code c) (code a));
      try done; try lia. apply IH.
  - intros s. induction s as [|a s IH]; intros [|b t]; simpl; try done.
    destruct (N.ltb_spec (code a) (code b)), (N.ltb_spec (code b) (code a)); try done; try lia.
    intros H1 H2. f_equal; [apply code_inj; lia|by apply IH].
  - intros s. induction s as [|a s IH]; intros [|b t]; simpl; auto.
    destruct (N.ltb_spec (code a) (code b)), (N.ltb_spec (code b) (code a)); auto; lia.
Qed.

(** ** Options ([None] first) and pairs *)

Section Lift.
Context {A B : Type} (R : relation A) (Q : relation B).
Context `{!EqDecision A, !RelDecision R, !RelDecision Q, !TotalOrder R, !TotalOrder Q}.

Definition option_le (x y : option B) : Prop :=
  match x, y with
  | None, _ => True
  | Some _, None => False
  | Some a, Some b => Q a b
  end.
#[export] Instance option_le_dec : RelDecision option_le.
Proof. intros [a|] [b|]; simpl; apply _. Defined.

#[export] Instance option_le_order : TotalOrder option_le.
Proof.
  split; [split| |].
  - intros [a|]; simpl; [reflexivity|done].
  - intros [a|] [b|] [c|]; simpl; try done. by intros; etrans.
  - intros [a|] [b|]; simpl; try done. intros; f_equal. by apply (anti_symm Q).
  - intros [a|] [b|]; simpl; auto. by apply (total Q).
Qed.

Definition pair_le (x y : A * B) : Prop :=
  if decide (x.1 = y.1) then Q x.2 y.2 else R x.1 y.1.
#[export] Instance pair_le_dec : RelDecision pair_le.
Proof. intros [a b] [c d]. unfold pair_le; simpl. case_decide; apply _. Defined.

#[export] Instance pair_le_order : TotalOrder pair_le.
Proof.
  unfold pair_le. split; [split| |].
  - intros [a b]; simpl. by rewrite decide_True by done.
  - intros [a b] [c d] [e f]; simpl. repeat case_decide; subst; try done.
    + by intros; etrans.
    + intros H1 H2. destruct H. by apply (anti_symm R).
    + by intros; etrans.
  - intros [a b] [c d]; simpl. repeat case_decide; subst; try done.
    + intros; f_equal. by apply (anti_symm Q).
    + intros H1 H2. destruct H. by apply (anti_symm R).
  - intros [a b] [c d]; simpl. repeat case_decide; subst; try done.
    + apply (total Q).
    + apply (total R).
Qed.
End Lift.

(** ** [sort] *)

Section Sort.
Context {A : Type} (R : relation A) `{!RelDecision R, !TotalOrder R}.

Definition sort (l : list A) : list A := merge_sort R l.

Lemma sort_perm l : sort l ≡ₚ l.
Proof. apply merge_sort_Permutation. Qed.

Lemma sort_sorted l : Sorted R (sort l).
Proof. apply Sorted_merge_sort, order_total. Qed.

(** The input's order is forgotten, and nothing else. *)
Lemma sort_eq l k : sort l = sort k ↔ l ≡ₚ k.
Proof.
  split.
  - intros H. by rewrite <-(sort_perm l), H, sort_perm.
  - intros H. apply (Sorted_unique R); [apply sort_sorted..|]. by rewrite !sort_perm.
Qed.
End Sort.

(** ** [dedup] *)

(** [Vec::dedup]: consecutive repetitions are dropped. *)
Fixpoint dedup {A} `{EqDecision A} (l : list A) : list A :=
  match l with
  | [] => []
  | a :: l' => match dedup l' with
               | (b :: _) as r => if decide (a = b) then r else a :: r
               | [] => [a]
               end
  end.

Section Dedup.
Context {A : Type} `{EqDecision A} (R : relation A) `{!TotalOrder R}.
Implicit Types l : list A.

Lemma dedup_elem l x : x ∈ dedup l ↔ x ∈ l.
Proof.
  induction l as [|a l IH]; [done|]. simpl. rewrite elem_of_cons, <-IH.
  destruct (dedup l) as [|b r]; [by rewrite elem_of_cons|].
  case_decide; subst; rewrite !elem_of_cons; tauto.
Qed.

Lemma dedup_head l a r : dedup l = a :: r → ∃ l', l = a :: l'.
Proof.
  destruct l as [|b l]; [done|]. simpl. destruct (dedup l) as [|c r'].
  - intros [= -> _]. by eexists.
  - case_decide as H; intros [= -> _]; subst; by eexists.
Qed.

(** On a sorted list the result is strictly sorted: no address twice. *)
Lemma dedup_sorted l : Sorted R l → NoDup (dedup l) ∧ Sorted R (dedup l).
Proof.
  intros Hs. apply (Sorted_StronglySorted R) in Hs.
  induction Hs as [|a l Hs IH Ha]; [split; constructor|]. simpl. destruct IH as [Hn Hsd].
  destruct (dedup l) as [|b r] eqn:E; [split; [apply NoDup_singleton|repeat constructor]|].
  case_decide as Hab; [done|].
  assert (b ∈ l) as Hb by (apply dedup_elem; rewrite E; by left).
  assert (R a b) as Hle by by apply (proj1 (Forall_forall _ _) Ha).
  split; [|constructor; [done|by constructor]].
  constructor; [|done]. intros Hin.
  apply (Sorted_StronglySorted R) in Hsd.
  apply elem_of_cons in Hin as [->|Hin]; [done|].
  inversion Hsd as [|? ? _ Hall]; subst.
  apply Hab, (anti_symm R); [done|]. by apply (proj1 (Forall_forall _ _) Hall).
Qed.
End Dedup.
