(* ===== verification/CacheKey.v ===== *)
(** * Cache keys ([src/src/cache/key.rs])

    The structural key, its canonical rendering (what Pingora hashes), and the
    builder that reads it off a request.  [fingerprint] hashes the key with the
    standard library's [DefaultHasher], whose algorithm is unspecified; no
    lookup uses it and it is not modelled. *)

From S2P Require Import Prelude Words Text Schema Classifier Orders.
Local Open Scope string_scope.

(** ** The key *)

Record CacheKey := mkKey {
  scheme : string;
  host : string;
  method : string;
  path : string;
  query : string;
  variant : list (string * string);
  deployment : option string }.
#[export] Instance CacheKey_eq_dec : EqDecision CacheKey.
Proof. solve_decision. Defined.

Definition record_separator : ascii := chr 30.
Definition unit_separator : ascii := chr 31.
Definition group_separator : ascii := chr 29.

(** One component: its byte length, the separator, its bytes, the end mark. *)
Definition push (part : string) : string :=
  print_uint (len part) +:+ str1 record_separator +:+ part +:+ str1 unit_separator.

Definition concat_str (l : list string) : string := foldr String.append EmptyString l.

Definition canonical_string (k : CacheKey) : string :=
  concat_str (push <$> [scheme k; host k; method k; path k; query k])
  +:+ match deployment k with
      | Some id => push "d" +:+ push id
      | None => push "-"
      end
  +:+ push (print_uint (N.of_nat (length (variant k))))
  +:+ concat_str ((λ nv, push nv.1 +:+ push nv.2) <$> variant k).

(** ** Building it *)

Record KeyBuilder := mkBuilder {
  builder_scheme : string;
  query_policy : option QueryPolicy.QueryPolicy;
  variant_headers : list string;
  builder_deployment : option string }.

(** [str::replace] of one character by nothing. *)
Fixpoint remove_char (c : ascii) (s : string) : string :=
  match s with
  | EmptyString => EmptyString
  | String a s' => if decide (a = c) then remove_char c s' else String a (remove_char c s')
  end.

Definition normalize_host (h sch : string) : string :=
  let h := to_ascii_lowercase (trim h) in
  let sch := to_ascii_lowercase sch in
  let default_port :=
    if bool_decide (sch = "http") then Some ":80"
    else if bool_decide (sch = "https") then Some ":443" else None in
  default h (port ← default_port; strip_suffix port h).

Definition normalize_accept_encoding (req : RequestMetadata) : string :=
  let joined := join "," (header_text <$> get_all (headers req) "accept-encoding") in
  let values := filter (λ part, is_empty part = false)
    ((λ part, join ";"
        ((λ piece, remove_char " " (to_ascii_lowercase (trim piece))) <$> split_on ";" part))
      <$> split_on "," joined) in
  match values with [] => "identity" | _ => join "," values end.

Definition header_values (req : RequestMetadata) (name : string) : option string :=
  match header_text <$> get_all (headers req) name with
  | [] => None
  | values => Some (join (str1 group_separator) values)
  end.

Abbreviation Pair := (string * option string)%type.

(** The parameters of a raw query, in order. *)
Definition parse_pair (p : string) : Pair :=
  match split_once "=" p with Some (k, v) => (k, Some v) | None => (p, None) end.
Definition parse_query (raw : string) : list Pair :=
  parse_pair <$> filter (λ p, is_empty p = false) (split_on "&" raw).

(** Whether the route's policy keeps a parameter. *)
Definition keeps (policy : option QueryPolicy.QueryPolicy) (kv : Pair) : bool :=
  match policy with
  | None => true
  | Some p =>
      let listed := bool_decide (kv.1 ∈ QueryPolicy.keys p) in
      match QueryPolicy.mode p with Include => listed | Exclude => negb listed end
  end.

Definition print_pair (kv : Pair) : string :=
  match kv.2 with Some v => kv.1 +:+ "=" +:+ v | None => kv.1 end.

Abbreviation pair_order := (pair_le str_le (option_le str_le)).

Definition canonical_query (raw : string) (policy : option QueryPolicy.QueryPolicy) : string :=
  if is_empty raw then EmptyString
  else
    let pairs := filter (λ kv, keeps policy kv = true) (parse_query raw) in
    let pairs := if bool_decide (NoDup pairs.*1) then sort pair_order pairs else pairs in
    join "&" (print_pair <$> pairs).

Abbreviation variant_order := (pair_le str_le str_le).

Definition build (b : KeyBuilder) (req : RequestMetadata) : CacheKey :=
  let variant := omap (λ name,
      let lower := to_ascii_lowercase name in
      (λ v, (lower, v)) <$> header_values req lower) (variant_headers b) in
  let variant := (variant ++ [("~encoding", normalize_accept_encoding req)])%list in
  mkKey (to_ascii_lowercase (builder_scheme b))
    (normalize_host (Classifier.host req) (builder_scheme b))
    (to_ascii_uppercase (method_as_str (Classifier.method req)))
    (Classifier.path req)
    (canonical_query (default EmptyString (Classifier.query req)) (query_policy b))
    (sort variant_order variant)
    (builder_deployment b).

(** ** The rendering is injective *)

Lemma push_inj p q r s : push p +:+ r = push q +:+ s → p = q ∧ r = s.
Proof.
  unfold push. rewrite <-!str_app_assoc. intros H.
  assert (∀ n, contains_char record_separator (print_uint n) = false) as Hd.
  { intros n. eapply all_chars_not_contains; [|apply print_uint_digits]. done. }
  assert (split_once record_separator (print_uint (len p) +:+ str1 record_separator
            +:+ (p +:+ str1 unit_separator +:+ r))
          = Some (print_uint (len p), p +:+ str1 unit_separator +:+ r)) as Hp.
  { by apply split_once_some. }
  rewrite H in Hp. rewrite (proj2 (split_once_some _ _ (print_uint (len q)) _)) in Hp by done.
  injection Hp as Hl Hpr. apply print_uint_inj in Hl.
  apply str_app_split in Hpr as [-> Hr]; [|unfold len in Hl; lia].
  by injection Hr.
Qed.

Lemma push_nonempty p r : push p +:+ r ≠ EmptyString.
Proof.
  unfold push. pose proof (print_uint_nonempty (len p)). by destruct (print_uint (len p)).
Qed.

#[local] Opaque push.

Lemma push_pairs_inj l1 l2 :
  concat_str ((λ nv : string * string, push nv.1 +:+ push nv.2) <$> l1)
  = concat_str ((λ nv, push nv.1 +:+ push nv.2) <$> l2) → l1 = l2.
Proof.
  revert l2. induction l1 as [|[n v] l1 IH]; intros [|[n' v'] l2]; simpl; try done;
    rewrite <-?str_app_assoc; intros H.
  - by symmetry in H; apply push_nonempty in H.
  - by apply push_nonempty in H.
  - apply push_inj in H as [-> [-> H]%push_inj]. f_equal. by apply IH.
Qed.

Lemma canonical_string_inj k1 k2 : canonical_string k1 = canonical_string k2 → k1 = k2.
Proof.
  destruct k1 as [s1 h1 m1 p1 q1 v1 d1], k2 as [s2 h2 m2 p2 q2 v2 d2].
  unfold canonical_string; simpl. rewrite <-!str_app_assoc. simpl.
  intros [-> [-> [-> [-> [-> H]%push_inj]%push_inj]%push_inj]%push_inj]%push_inj.
  destruct d1 as [d1|], d2 as [d2|]; rewrite <-?str_app_assoc in H.
  - apply push_inj in H as [_ [-> [_ H]%push_inj]%push_inj]. by apply push_pairs_inj in H as ->.
  - by apply push_inj in H as [[=] _].
  - by apply push_inj in H as [[=] _].
  - apply push_inj in H as [_ [_ H]%push_inj]. by apply push_pairs_inj in H as ->.
Qed.

(** C10: Two different structural keys never render to the same string, whatever
    bytes their components hold: no component can imitate a separator, and an
    absent deployment id is not an empty one.  So Pingora's storage key keeps
    every distinction the structural key was built to keep. *)
Theorem canonical_string_injective k1 k2 :
  canonical_string k1 = canonical_string k2 ↔ k1 = k2.
Proof. split; [apply canonical_string_inj|by intros ->]. Qed.

(** ** Queries *)

(** A parameter as [parse_query] yields it. *)
Definition pair_ok (kv : Pair) : Prop :=
  contains_char "=" kv.1 = false ∧ contains_char "&" (print_pair kv) = false
  ∧ is_empty (print_pair kv) = false.

Lemma split_on_pieces c s : Forall (λ w, contains_char c w = false) (split_on c s).
Proof.
  induction s as [|a s IH]; simpl; [by repeat constructor|].
  case_decide as Hac; [by constructor|].
  pose proof (split_on_nonempty c s). destruct (split_on c s) as [|w ws]; [done|].
  apply Forall_cons in IH as [Hw Hws]. constructor; [|done].
  rewrite contains_char_cons, Hw. by rewrite bool_decide_eq_false_2.
Qed.

Lemma print_parse_pair p : print_pair (parse_pair p) = p.
Proof.
  unfold parse_pair, print_pair. destruct (split_once "=" p) as [[k v]|] eqn:E; [|done].
  by apply split_once_some in E as [-> _].
Qed.

Lemma parse_print_pair kv : contains_char "=" kv.1 = false → parse_pair (print_pair kv) = kv.
Proof.
  destruct kv as [k [v|]]; unfold parse_pair, print_pair; simpl; intros Hk.
  - by rewrite (proj2 (split_once_some "=" _ k v)).
  - by rewrite (proj2 (split_once_none "=" k)).
Qed.

Lemma parse_query_ok raw : Forall pair_ok (parse_query raw).
Proof.
  unfold parse_query. apply Forall_fmap. apply Forall_forall. intros p Hp.
  apply list_elem_of_filter in Hp as [Hne Hp].
  pose proof (proj1 (Forall_forall _ _) (split_on_pieces "&" raw) p Hp) as Hamp.
  unfold pair_ok. simpl. rewrite print_parse_pair. split; [|done].
  unfold parse_pair. destruct (split_once "=" p) as [[k v]|] eqn:E; simpl.
  - by apply split_once_some in E as [_ E].
  - by apply split_once_none in E.
Qed.

Lemma parse_query_join l :
  Forall pair_ok l → parse_query (join "&" (print_pair <$> l)) = l.
Proof.
  intros H. destruct l as [|kv l]; [done|]. unfold parse_query.
  change "&"%string with (str1 "&"). rewrite split_join; [|done|].
  - rewrite filter_all.
    + rewrite <-list_fmap_compose. rewrite <-(list_fmap_id (kv :: l)) at 2.
      apply list_fmap_ext. intros i x Hx.
      apply parse_print_pair. by apply (Forall_lookup_1 _ _ _ _ H Hx).
    + apply Forall_forall. intros x Hx. apply list_elem_of_fmap in Hx as (y & -> & Hy).
      by destruct (proj1 (Forall_forall _ _) H y Hy) as (_ & _ & ?).
  - apply Forall_fmap. eapply Forall_impl; [exact H|]. by intros x (_ & ? & _).
Qed.

(** The parameters a policy keeps, in order. *)
Definition kept (policy : option QueryPolicy.QueryPolicy) (raw : string) : list Pair :=
  filter (λ kv, keeps policy kv = true) (parse_query raw).

(** Their canonical order: sorted, unless a key repeats. *)
Definition canonical_order (ps : list Pair) : list Pair :=
  if bool_decide (NoDup ps.*1) then sort pair_order ps else ps.

Lemma canonical_order_perm ps : canonical_order ps ≡ₚ ps.
Proof. unfold canonical_order. case_bool_decide; [apply sort_perm|done]. Qed.

Lemma canonical_query_unfold raw policy :
  canonical_query raw policy = join "&" (print_pair <$> canonical_order (kept policy raw)).
Proof. unfold canonical_query. destruct raw; [|done].
  unfold kept. change (parse_query EmptyString) with (@nil Pair). rewrite filter_nil. done.
Qed.

Lemma parse_canonical_query raw policy :
  parse_query (canonical_query raw policy) = canonical_order (kept policy raw).
Proof.
  rewrite canonical_query_unfold. apply parse_query_join. rewrite canonical_order_perm.
  unfold kept. apply Forall_forall. intros kv [_ Hin]%list_elem_of_filter.
  by apply (proj1 (Forall_forall _ _) (parse_query_ok raw)).
Qed.

Lemma canonical_order_eq ps qs :
  canonical_order ps = canonical_order qs ↔ ps = qs ∨ (NoDup ps.*1 ∧ ps ≡ₚ qs).
Proof.
  split.
  - intros H. assert (ps ≡ₚ qs) as Hp.
    { by rewrite <-(canonical_order_perm ps), H, canonical_order_perm. }
    unfold canonical_order in H.
    destruct (decide (NoDup ps.*1)) as [Hn|Hn]; [by right|].
    rewrite !bool_decide_eq_false_2 in H; [by left|by rewrite <-Hp|done].
  - intros [->|[Hn Hp]]; [done|]. unfold canonical_order.
    assert (NoDup qs.*1) as Hn' by by rewrite <-Hp.
    rewrite !bool_decide_eq_true_2 by done. apply (sort_eq pair_order); exact Hp.
Qed.

(** Two query strings share a cache entry exactly when they carry the same
    parameters among those the route's policy keeps: the same list, or, when no
    key repeats, the same list in another order.  Duplicate keys are never
    reordered, and no two different parameter lists are merged. *)
Theorem canonical_query_exact r1 r2 policy :
  canonical_query r1 policy = canonical_query r2 policy ↔
  kept policy r1 = kept policy r2
  ∨ (NoDup (kept policy r1).*1 ∧ kept policy r1 ≡ₚ kept policy r2).
Proof.
  rewrite <-canonical_order_eq. split.
  - intros H. by rewrite <-!parse_canonical_query, H.
  - intros H. by rewrite !canonical_query_unfold, H.
Qed.

(** ** Variants *)

Lemma header_values_inj r1 r2 name :
  header_values r1 name = header_values r2 name →
  get_all (headers r1) name = get_all (headers r2) name.
Proof.
  assert (∀ vs, Forall (λ w, contains_char group_separator w = false) (header_text <$> vs)) as Hc.
  { intros vs. apply Forall_fmap, Forall_true. intros v. by apply header_text_no_separator. }
  unfold header_values. set (v1 := get_all _ _). set (v2 := get_all (headers r2) _).
  destruct v1 as [|a v1], v2 as [|b v2]; try done. intros H.
  change (Some (join (str1 group_separator) (header_text <$> a :: v1))
          = Some (join (str1 group_separator) (header_text <$> b :: v2))) in H.
  apply (inj Some) in H.
  apply (join_inj group_separator (header_text <$> a :: v1) (header_text <$> b :: v2)) in H;
    [|apply (Hc (a :: v1))|apply (Hc (b :: v2))|done|done].
  assert (Inj (=) (=) header_text) as Hinj by (intros x y; apply escape_ascii_inj).
  by apply (inj (fmap header_text)) in H.
Qed.

Lemma variant_elem b req n v :
  n ≠ "~encoding" →
  (n, v) ∈ variant (build b req) ↔
  header_values req n = Some v ∧ n ∈ to_ascii_lowercase <$> variant_headers b.
Proof.
  intros Hn. unfold build; simpl. rewrite sort_perm, elem_of_app, list_elem_of_omap.
  rewrite list_elem_of_singleton, list_elem_of_fmap. split.
  - intros [(name & Hin & Hv)|Hv]; [|congruence].
    apply fmap_Some in Hv as (w & Hw & [= -> ->]). split; [done|]. by exists name.
  - intros [Hv (name & -> & Hin)]. left. exists name. split; [done|]. by rewrite Hv.
Qed.

(** Two keys that are equal agree on every header both were built from. *)
Lemma variant_agree b1 b2 r1 r2 name :
  build b1 r1 = build b2 r2 → name ≠ "~encoding" →
  name ∈ to_ascii_lowercase <$> variant_headers b1 → name ∈ to_ascii_lowercase <$> variant_headers b2 →
  get_all (headers r1) name = get_all (headers r2) name.
Proof.
  intros Hk Hn H1 H2. apply header_values_inj. apply option_eq. intros v.
  pose proof (variant_elem b1 r1 name v Hn) as Hv1. pose proof (variant_elem b2 r2 name v Hn) as Hv2.
  rewrite Hk in Hv1. tauto.
Qed.

Lemma encoding_agree b1 b2 r1 r2 :
  build b1 r1 = build b2 r2 →
  "~encoding" ∉ to_ascii_lowercase <$> variant_headers b1 → "~encoding" ∉ to_ascii_lowercase <$> variant_headers b2 →
  normalize_accept_encoding r1 = normalize_accept_encoding r2.
Proof.
  assert (∀ b r v, "~encoding" ∉ to_ascii_lowercase <$> variant_headers b →
    ("~encoding", v) ∈ variant (build b r) ↔ v = normalize_accept_encoding r) as H.
  { intros b r v Hno. unfold build; simpl. rewrite sort_perm, elem_of_app, list_elem_of_singleton, list_elem_of_omap.
    split; [|intros ->; by right]. intros [(name & Hin & Hv)|Hv]; [|congruence].
    apply fmap_Some in Hv as (w & _ & [= Hn _]). destruct Hno. rewrite Hn. by apply list_elem_of_fmap_2. }
  intros Hk H1 H2. apply (H b2 r2 _ H2). rewrite <-Hk. by apply (H b1 r1 _ H1).
Qed.

(** Requests that share a cache entry are the same request as far as the
    entry's variants go: the same path, the same kept parameters (up to order),
    and byte-identical values, header by header, of every header the route or
    the adapter varies on. *)
Theorem shared_entry_same_variants b r1 r2 name :
  canonical_string (build b r1) = canonical_string (build b r2) →
  name ∈ to_ascii_lowercase <$> variant_headers b → name ≠ "~encoding" →
  get_all (headers r1) name = get_all (headers r2) name
  ∧ Classifier.path r1 = Classifier.path r2
  ∧ kept (query_policy b) (default EmptyString (Classifier.query r1))
    ≡ₚ kept (query_policy b) (default EmptyString (Classifier.query r2)).
Proof.
  intros Hk%canonical_string_inj Hin Hn. split; [|split].
  - by apply (variant_agree b b).
  - by apply (f_equal path) in Hk.
  - apply (f_equal query) in Hk. simpl in Hk.
    apply (f_equal parse_query) in Hk. rewrite !parse_canonical_query in Hk.
    by rewrite <-(canonical_order_perm (kept _ _)), Hk, canonical_order_perm.
Qed.

(** ** Witnesses *)

Definition next_builder : KeyBuilder := mkBuilder "https" None ["RSC"] (Some "v1").
Definition page (q : string) : RequestMetadata :=
  mkRequest GET "Shop.example:443" "/search" (Some q)
    (λ n, if bool_decide (n = "rsc") then ["1"] else []).

Lemma shared_entry_same_variants_witness :
  canonical_string (build next_builder (page "a=1&b=2"))
    = canonical_string (build next_builder (page "b=2&&a=1"))
  ∧ kept None "a=1&b=2" ≡ₚ kept None "b=2&&a=1".
Proof.
  assert (canonical_string (build next_builder (page "a=1&b=2"))
    = canonical_string (build next_builder (page "b=2&&a=1"))) as H by (vm_compute; reflexivity).
  split; [exact H|].
  apply (shared_entry_same_variants next_builder (page "a=1&b=2") (page "b=2&&a=1") "rsc" H).
  - by constructor.
  - done.
Defined.

Example default_port_is_dropped :
  host (build next_builder (page EmptyString)) = "shop.example".
Proof. reflexivity. Qed.
