(* ===== verification/CachePolicy.v ===== *)
(** * Reuse decisions ([src/src/cache/policy.rs])

    Whether reuse may be attempted for a request, and what may be done with the
    response the origin gave. *)

From S2P Require Import Prelude Words Text Units Schema Classifier.
Local Open Scope string_scope.
Local Open Scope N_scope.

(** ** Outcomes *)

Inductive BypassReason :=
| UnsafeMethod | Authorization | Cookie | ClassNotStorable | RouteDisabled
| Framework (f : string)
| Status (s : N)
| SetCookie | CacheControlPrivate | NoStore | NoCache
| UnsupportedVary (token : string).
#[export] Instance BypassReason_eq_dec : EqDecision BypassReason.
Proof. solve_decision. Defined.

Definition bypass_as_str (r : BypassReason) : string :=
  match r with
  | UnsafeMethod => "unsafe_method" | Authorization => "authorization"
  | Cookie => "cookie" | ClassNotStorable => "class_not_storable"
  | RouteDisabled => "route_disabled" | Framework f => f | Status _ => "status"
  | SetCookie => "set_cookie" | CacheControlPrivate => "cache_control_private"
  | NoStore => "no_store" | NoCache => "no_cache" | UnsupportedVary _ => "unsupported_vary"
  end.

Inductive Disposition :=
| Bypass (reason : BypassReason)
| Eligible (may_store may_coalesce : bool).

Inductive Shareability :=
| Shareable (ttl swr sie : Duration)
| TransientOnly
| NotShareable (reason : BypassReason).

(** ** [Cache-Control] *)

Record CacheControl := mkCC {
  no_store : bool;
  no_cache : bool;
  private : bool;
  public : bool;
  max_age : option N;
  s_maxage : option N;
  cc_swr : option N;
  cc_sie : option N }.

Definition default_CacheControl : CacheControl :=
  mkCC false false false false None None None None.

(** One directive, its name and its value. *)
Definition directive (part : string) : string * option string :=
  let part := trim part in
  match split_once "=" part with
  | Some (n, v) => (trim n, Some (trim_matches quote (trim v)))
  | None => (part, None)
  end.

Definition apply_directive (cc : CacheControl) (part : string) : CacheControl :=
  let '(name, value) := directive part in
  let secs := v ← value; parse_u64 v in
  let name := to_ascii_lowercase name in
  let '(mkCC ns nc pr pu ma sm sw si) := cc in
  if bool_decide (name = "no-store") then mkCC true nc pr pu ma sm sw si
  else if bool_decide (name = "no-cache") then mkCC ns true pr pu ma sm sw si
  else if bool_decide (name = "private") then mkCC ns nc true pu ma sm sw si
  else if bool_decide (name = "public") then mkCC ns nc pr true ma sm sw si
  else if bool_decide (name = "max-age") then mkCC ns nc pr pu secs sm sw si
  else if bool_decide (name = "s-maxage") then mkCC ns nc pr pu ma secs sw si
  else if bool_decide (name = "stale-while-revalidate") then mkCC ns nc pr pu ma sm secs si
  else if bool_decide (name = "stale-if-error") then mkCC ns nc pr pu ma sm sw secs
  else cc.

Definition parse_CacheControl (raw : string) : CacheControl :=
  foldl apply_directive default_CacheControl (split_on "," raw).

Definition or_else {A} (a b : option A) : option A := match a with Some _ => a | None => b end.

Definition shared_ttl (cc : CacheControl) : option Duration :=
  from_secs <$> or_else (s_maxage cc) (max_age cc).

(** ** Before the origin is asked *)

Definition opt_is {A} (f : A → bool) (o : option A) : bool :=
  match o with Some a => f a | None => false end.

Definition evaluate_request (req : RequestMetadata) (class : RequestClass)
    (framework_bypass : option string) (route : option RouteCache.RouteCache)
    (coalesce_override cache_enabled coalesce_enabled : bool) : Disposition :=
  match framework_bypass with
  | Some f => Bypass (Framework f)
  | None =>
      if negb (is_safe_method req) then Bypass UnsafeMethod
      else if has_authorization req then Bypass Authorization
      else if negb cache_enabled && negb coalesce_enabled then Bypass RouteDisabled
      else if negb (storable_in_principle class) && negb (coalescible_in_principle class)
      then Bypass ClassNotStorable
      else
        let override_origin := opt_is RouteCache.override_origin route in
        if has_cookies req && negb override_origin && negb coalesce_override
        then Bypass Cookie
        else Eligible (cache_enabled && storable_in_principle class)
                      (coalesce_enabled && coalescible_in_principle class)
  end.

(** ** When the origin has answered *)

Record ResponseMetadata := mkResponse {
  status : N;
  cache_control : option string;
  set_cookie : bool;
  vary : option string }.

Definition CACHEABLE_STATUSES : list N := [200; 203; 204; 301; 308; 404; 410].

(** The first [Vary] token the cache key cannot honour. *)
Fixpoint unsupported_vary_go (tokens key_headers : list string) : option string :=
  match tokens with
  | [] => None
  | token :: rest =>
      let token := to_ascii_lowercase (trim token) in
      if is_empty token then unsupported_vary_go rest key_headers
      else if bool_decide (token = "*") then Some "*"
      else if bool_decide (token = "accept-encoding") then unsupported_vary_go rest key_headers
      else if negb (existsb (λ k, eq_ignore_ascii_case k token) key_headers) then Some token
      else unsupported_vary_go rest key_headers
  end.

Definition unsupported_vary (vary : string) (key_headers : list string) : option string :=
  unsupported_vary_go (split_on "," vary) key_headers.

Definition evaluate_response (res : ResponseMetadata) (route : option RouteCache.RouteCache)
    (key_headers : list string) (coalesce_only coalesce_override : bool) : Shareability :=
  if set_cookie res then NotShareable SetCookie
  else
  match v ← vary res; unsupported_vary v key_headers with
  | Some offending => NotShareable (UnsupportedVary offending)
  | None =>
  if negb (bool_decide (status res ∈ CACHEABLE_STATUSES)) then NotShareable (Status (status res))
  else
  let cc := default default_CacheControl (parse_CacheControl <$> cache_control res) in
  let override_origin := opt_is RouteCache.override_origin route in
  let route_max := as_duration <$> (r ← route; t ← RouteCache.ttl r; Ttl.max t) in
  let strict := negb override_origin && negb coalesce_override in
  if strict && no_store cc then NotShareable NoStore
  else if strict && private cc then NotShareable CacheControlPrivate
  else if strict && no_cache cc then NotShareable NoCache
  else if coalesce_only then TransientOnly
  else
  let ttl :=
    if override_origin then route_max
    else match shared_ttl cc, route_max with
         | Some o, Some m => Some (N.min o m)
         | Some o, None => Some o
         | None, _ => None
         end in
  match ttl with
  | None => NotShareable NoCache
  | Some ttl =>
      if is_zero ttl then TransientOnly
      else Shareable ttl
        (default 0 (or_else (as_duration <$> (r ← route; RouteCache.stale_while_revalidate r))
                            (from_secs <$> cc_swr cc)))
        (default 0 (or_else (as_duration <$> (r ← route; RouteCache.stale_if_error r))
                            (from_secs <$> cc_sie cc)))
  end
  end.

(** ** The rules, as a specification *)

(** Every [Vary] token is one the key carries: content coding always, and the
    headers the route or the adapter added. *)
Definition token_keyed (key_headers : list string) (token : string) : Prop :=
  let token := to_ascii_lowercase (trim token) in
  token = EmptyString ∨ token = "accept-encoding"
  ∨ token ≠ "*" ∧ token ∈ to_ascii_lowercase <$> key_headers.

Definition vary_keyed (res : ResponseMetadata) (key_headers : list string) : Prop :=
  match vary res with
  | None => True
  | Some v => Forall (token_keyed key_headers) (split_on "," v)
  end.

(** What the absolute rules ask of a response. *)
Definition shareable_in_principle (res : ResponseMetadata) (key_headers : list string) : Prop :=
  set_cookie res = false ∧ vary_keyed res key_headers ∧ status res ∈ CACHEABLE_STATUSES.

Lemma unsupported_vary_go_none ts ks :
  unsupported_vary_go ts ks = None ↔ Forall (token_keyed ks) ts.
Proof.
  induction ts as [|t ts IH]; simpl; [done|]. rewrite Forall_cons, <-IH.
  assert (∀ t, existsb (λ k, eq_ignore_ascii_case k (to_ascii_lowercase t)) ks = true
    ↔ to_ascii_lowercase t ∈ to_ascii_lowercase <$> ks) as Hin.
  { intros u. rewrite existsb_exists, list_elem_of_fmap.
    unfold eq_ignore_ascii_case. setoid_rewrite bool_decide_eq_true.
    rewrite to_ascii_lowercase_idem. setoid_rewrite list_elem_of_In. naive_solver. }
  unfold token_keyed. specialize (Hin (trim t)).
  set (u := to_ascii_lowercase (trim t)) in *. clearbody u.
  destruct (existsb _ ks) eqn:E; destruct (is_empty u) eqn:Ee.
  all: try (destruct u; [|done]; naive_solver).
  all: assert (u ≠ EmptyString) as Hu by (by intros ->).
  all: repeat case_bool_decide; simpl; subst; naive_solver.
Qed.

Lemma vary_keyed_spec res ks :
  (v ← vary res; unsupported_vary v ks) = None ↔ vary_keyed res ks.
Proof.
  unfold vary_keyed. destruct (vary res) as [v|]; simpl; [|done].
  apply unsupported_vary_go_none.
Qed.

(** ** What the rules amount to *)

Definition overrides (route : option RouteCache.RouteCache) : bool :=
  opt_is RouteCache.override_origin route.

Definition origin_says (res : ResponseMetadata) : CacheControl :=
  default default_CacheControl (parse_CacheControl <$> cache_control res).

(** The origin forbids sharing. *)
Definition forbidden (cc : CacheControl) : bool := no_store cc || private cc || no_cache cc.

Definition route_ttl_max (route : option RouteCache.RouteCache) : option Duration :=
  as_duration <$> (r ← route; t ← RouteCache.ttl r; Ttl.max t).

(** The lifetime an entry gets: a route's override replaces the origin's; its
    maximum otherwise only shortens it. *)
Definition lifetime (cc : CacheControl) (route : option RouteCache.RouteCache) : option Duration :=
  if overrides route then route_ttl_max route
  else o ← shared_ttl cc; Some (default o (N.min o <$> route_ttl_max route)).

Definition swr_window (cc : CacheControl) (route : option RouteCache.RouteCache) : Duration :=
  default 0 (or_else (as_duration <$> (r ← route; RouteCache.stale_while_revalidate r))
                     (from_secs <$> cc_swr cc)).
Definition sie_window (cc : CacheControl) (route : option RouteCache.RouteCache) : Duration :=
  default 0 (or_else (as_duration <$> (r ← route; RouteCache.stale_if_error r))
                     (from_secs <$> cc_sie cc)).

(** The absolute rules first, then the decision on lifetimes. *)
Lemma evaluate_response_split res route ks co cov :
  (∃ reason, ¬ shareable_in_principle res ks
     ∧ evaluate_response res route ks co cov = NotShareable reason)
  ∨ shareable_in_principle res ks
    ∧ evaluate_response res route ks co cov =
      let cc := origin_says res in
      let strict := negb (overrides route) && negb cov in
      if strict && no_store cc then NotShareable NoStore
      else if strict && private cc then NotShareable CacheControlPrivate
      else if strict && no_cache cc then NotShareable NoCache
      else if co then TransientOnly
      else match lifetime cc route with
           | None => NotShareable NoCache
           | Some ttl => if is_zero ttl then TransientOnly
                         else Shareable ttl (swr_window cc route) (sie_window cc route)
           end.
Proof.
  unfold evaluate_response, shareable_in_principle.
  pose proof (vary_keyed_spec res ks) as Hv.
  destruct (set_cookie res); [left; naive_solver|].
  destruct (v ← vary res; _) as [t|].
  { left. exists (UnsupportedVary t). split; [|done]. naive_solver. }
  destruct (decide (status res ∈ CACHEABLE_STATUSES)) as [Hs|Hs].
  - right. rewrite bool_decide_eq_true_2 by done. split; [naive_solver|]. simpl negb. cbv iota.
    unfold lifetime, swr_window, sie_window, route_ttl_max, overrides, origin_says. cbv zeta.
    repeat (destruct (_ && _); [done|]). destruct co; [done|].
    destruct (opt_is _ route); [done|]. by destruct (shared_ttl _), (as_duration <$> _).
  - left. rewrite bool_decide_eq_false_2 by done. eexists. split; [|done]. naive_solver.
Qed.

(** No configuration reaches past the absolute rules: whatever the route,
    the overrides and the framework say, a response that sets a cookie, that
    varies on something the key does not carry, or whose status is not
    cacheable is neither stored nor handed to waiters. *)
Theorem absolute_rules res route ks co cov :
  ¬ shareable_in_principle res ks →
  ∃ reason, evaluate_response res route ks co cov = NotShareable reason.
Proof.
  intros H. destruct (evaluate_response_split res route ks co cov) as [(r & _ & E)|[? _]].
  - by exists r.
  - done.
Qed.

(** Exactly when a response is stored, and for how long: the absolute rules
    pass, the request may store at all, the origin does not forbid it or an
    override outranks it, and the lifetime — the route's own under an
    override, otherwise the origin's shortened by the route's maximum — is not
    zero.  The stale windows are the route's, or else the origin's. *)
Theorem shareable_exact res route ks co cov ttl swr sie :
  evaluate_response res route ks co cov = Shareable ttl swr sie ↔
  shareable_in_principle res ks ∧ co = false
  ∧ (overrides route = true ∨ cov = true ∨ forbidden (origin_says res) = false)
  ∧ lifetime (origin_says res) route = Some ttl ∧ ttl ≠ 0
  ∧ swr = swr_window (origin_says res) route ∧ sie = sie_window (origin_says res) route.
Proof.
  destruct (evaluate_response_split res route ks co cov) as [(r & Hn & ->)|[Hs ->]].
  { split; [done|naive_solver]. }
  cbv zeta. unfold forbidden.
  destruct (overrides route), cov, (no_store _), (private _), (no_cache _), co; simpl;
    try (split; [done|naive_solver]).
  all: destruct (lifetime _ route) as [t|]; [|split; [done|naive_solver]].
  all: unfold is_zero; destruct (N.eqb_spec t 0) as [->|Ht];
    [split; [done|naive_solver]|].
  all: split; [intros [= <- <- <-]; split_and!; auto|intros (_ & _ & _ & [= ->] & _ & -> & ->); done].
Qed.

(** Exactly when reuse is attempted for a request: no framework veto, a safe
    method, no credentials, no cookie unless the route overrides, and a class
    and a configuration that allow storing or coalescing. *)
Theorem eligible_exact req class fb route cov ce coe may_store may_coalesce :
  evaluate_request req class fb route cov ce coe = Eligible may_store may_coalesce ↔
  fb = None ∧ is_safe_method req = true ∧ has_authorization req = false
  ∧ (has_cookies req = true → overrides route = true ∨ cov = true)
  ∧ (ce = true ∨ coe = true)
  ∧ (storable_in_principle class = true ∨ coalescible_in_principle class = true)
  ∧ may_store = (ce && storable_in_principle class)
  ∧ may_coalesce = (coe && coalescible_in_principle class).
Proof.
  unfold evaluate_request. fold (overrides route).
  destruct fb; [split; [done|naive_solver]|].
  destruct (is_safe_method req); [|split; [done|naive_solver]].
  destruct (has_authorization req); [split; [done|naive_solver]|].
  destruct ce, coe, (storable_in_principle class), (coalescible_in_principle class),
    (has_cookies req), (overrides route), cov; simpl;
    (split; [intros [= <- <-] || done; naive_solver|naive_solver]).
Qed.

(** A request the framework marks private is never reused, whatever the
    route says: draft mode, a server action and a protocol upgrade bypass the
    cache under every class, override and switch. *)
Theorem framework_private_bypass req class route cov ce coe :
  is_upgrade req = true ∨ in_draft_mode req = true ∨ is_server_action req = true →
  ∃ f, evaluate_request req class (force_bypass (nextjs_classify_request req)) route cov ce coe
       = Bypass (Framework f).
Proof.
  intros H. unfold nextjs_classify_request.
  destruct (is_upgrade req); [by eexists|].
  destruct (in_draft_mode req); [by eexists|].
  destruct (is_server_action req); [by eexists|]. naive_solver.
Qed.


(** ** Witnesses *)

Definition cookie_response : ResponseMetadata := mkResponse 200 (Some "max-age=60") true None.

Lemma absolute_rules_witness :
  (¬ shareable_in_principle cookie_response []) ∧
  ∃ reason, evaluate_response cookie_response
    (Some (RouteCache.mk None (Some (Ttl.mk (Some d_5s))) None None None None true)) [] false true
    = NotShareable reason.
Proof.
  assert (¬ shareable_in_principle cookie_response []) as H by (by intros (? & _)).
  split; [exact H|]. apply (absolute_rules cookie_response); exact H.
Defined.

(** A request in draft mode, by its cookie. *)
Definition draft_request : RequestMetadata :=
  mkRequest GET "shop.example" "/" None
    (λ n, if bool_decide (n = "cookie") then ["theme=dark; __prerender_bypass=1"] else []).

Lemma framework_private_bypass_witness :
  in_draft_mode draft_request = true ∧
  ∃ f, evaluate_request draft_request PublicDocument
    (force_bypass (nextjs_classify_request draft_request)) None true true true
    = Bypass (Framework f).
Proof.
  assert (in_draft_mode draft_request = true) as H by (vm_compute; reflexivity).
  split; [exact H|]. apply framework_private_bypass. right. left. exact H.
Defined.


