(* ===== verification/Store.v ===== *)
(** * The bounded store ([src/src/cache/store.rs])

    The in-memory cache behind Pingora's [Storage] trait: its byte budget and
    eviction queue, the tag index, fills in progress and the readers that
    follow them, and purging.  Every operation that touches the accounting
    takes the [used] lock first and the [lifecycle] lock orders fills and
    purges, so each is one atomic function on the state.

    [CacheMeta] is Pingora's: its type, its two-part serialization and the
    header lookups the store performs on it are parameters.  A cache key is
    what [CacheKey::combined] returns, a string. *)

From Stdlib Require Import Init.Byte.
From S2P Require Import Prelude Words Text Units Schema.
Local Open Scope string_scope.
Local Open Scope list_scope.
Local Open Scope N_scope.

Abbreviation bytes := (list byte).
Definition size_of {A} (l : list A) : N := N.of_nat (length l).

Definition MAX_TAGS_PER_ENTRY : N := 64.
Definition MAX_TAG_LEN : N := 256.
Definition TRANSIENT_HEADER : string := "x-harmost-transient-internal".
(** How much of a body one read returns. *)
Definition CHUNK : nat := N.to_nat 65536.

(** ** Data *)

Abbreviation BinaryMeta := (bytes * bytes)%type.

Inductive Written := Partial (n : nat) | Complete (n : nat).
Definition written_bytes (w : Written) : nat := match w with Partial n | Complete n => n end.
Definition written_done (w : Written) : bool := match w with Complete _ => true | _ => false end.

(** A finished entry.  Its body is no longer written to once it is here. *)
Record Stored := mkStored {
  meta : BinaryMeta;
  body : bytes;
  path : string;
  tags : list string;
  visited : bool }.

Definition meta_size (m : BinaryMeta) (ts : list string) : N :=
  size_of m.1 + size_of m.2 + sum_N (len <$> ts).
Definition stored_size (e : Stored) : N :=
  size_of (meta e).1 + size_of (meta e).2 + size_of (body e) + len (path e)
  + sum_N (len <$> tags e).

Definition with_visited (v : bool) (e : Stored) : Stored :=
  mkStored (meta e) (body e) (path e) (tags e) v.

(** A write in progress, as the [temp] map holds it; the body and the progress
    it shares with its writer and its followers are a [Channel]. *)
Record Temp := mkTemp {
  tmeta : BinaryMeta;
  transient : bool;
  ttags : list string;
  tpath : string;
  invalidated : bool }.

Definition invalidate (t : Temp) : Temp :=
  mkTemp (tmeta t) (transient t) (ttags t) (tpath t) true.

(** The shared body, the watch channel's value, and whether a sender is alive. *)
Record Channel := mkChannel { content : bytes; written : Written; sender : bool }.

(** The writer of a fill; it and its fill share an id. *)
Record Handler := mkHandler { hkey : string; accounted : N }.

Record Store := mkStore {
  cached : gmap string Stored;
  order : list string;
  tag_index : gmap string (gset string);
  temp : gmap string (gmap N Temp);
  used : N;
  max_bytes : N;
  next_id : N;
  policy : Eviction;
  tag_header : string;
  evicted : N;
  purged : N }.

Definition new_store (cfg : CacheDefaults.CacheDefaults) : Store :=
  mkStore ∅ [] ∅ ∅ 0 (as_usize (CacheDefaults.max_memory cfg)) 0
    (CacheDefaults.eviction cfg) (to_ascii_lowercase (CacheDefaults.tag_header cfg)) 0 0.

(** Field updates. *)
Definition set_cache (c : gmap string Stored) (o : list string)
    (ix : gmap string (gset string)) (u : N) (s : Store) : Store :=
  mkStore c o ix (temp s) u (max_bytes s) (next_id s) (policy s) (tag_header s)
    (evicted s) (purged s).
Definition set_used (u : N) (s : Store) : Store :=
  set_cache (cached s) (order s) (tag_index s) u s.
Definition set_temp (t : gmap string (gmap N Temp)) (s : Store) : Store :=
  mkStore (cached s) (order s) (tag_index s) t (used s) (max_bytes s) (next_id s) (policy s)
    (tag_header s) (evicted s) (purged s).
Definition take_id (s : Store) : N * Store :=
  (next_id s,
   mkStore (cached s) (order s) (tag_index s) (temp s) (used s) (max_bytes s)
     (wrapping_add (next_id s) 1) (policy s) (tag_header s) (evicted s) (purged s)).
Definition count_evicted (s : Store) : Store :=
  mkStore (cached s) (order s) (tag_index s) (temp s) (used s) (max_bytes s) (next_id s)
    (policy s) (tag_header s) (wrapping_add (evicted s) 1) (purged s).
Definition count_purged (n : N) (s : Store) : Store :=
  mkStore (cached s) (order s) (tag_index s) (temp s) (used s) (max_bytes s) (next_id s)
    (policy s) (tag_header s) (evicted s) (wrapping_add (purged s) n).

(** ** Tags *)

Fixpoint parse_tags_go (raws : list string) (acc : list string) : list string :=
  match raws with
  | [] => acc
  | raw :: rest =>
      let tag := trim raw in
      if is_empty tag || (MAX_TAG_LEN <? len tag) then parse_tags_go rest acc
      else if negb (all_chars is_ascii_graphic tag) then parse_tags_go rest acc
      else if bool_decide (tag ∈ acc) then parse_tags_go rest acc
      else
        let acc := acc ++ [tag] in
        if MAX_TAGS_PER_ENTRY <=? size_of acc then acc else parse_tags_go rest acc
  end.
Definition parse_tags (value : string) : list string := parse_tags_go (split_on "," value) [].

(** Remove one key from every tag it was indexed under, dropping the tags that
    no longer point at anything. *)
Definition unindex_tag (key : string) (ix : gmap string (gset string)) (tag : string) :
    gmap string (gset string) :=
  match ix !! tag with
  | Some keys =>
      let keys := keys ∖ {[key]} in
      if bool_decide (keys = ∅) then delete tag ix else <[tag := keys]> ix
  | None => ix
  end.
Definition unindex_tags (ix : gmap string (gset string)) (key : string) (ts : list string) :
    gmap string (gset string) :=
  foldl (unindex_tag key) ix ts.

Definition index_tag (key : string) (ix : gmap string (gset string)) (tag : string) :
    gmap string (gset string) :=
  <[tag := {[key]} ∪ default ∅ (ix !! tag)]> ix.
Definition index_tags (ix : gmap string (gset string)) (key : string) (ts : list string) :
    gmap string (gset string) :=
  foldl (index_tag key) ix ts.

(** ** The budget *)

(** One turn of the eviction loop on the victim at the head of the queue. *)
Definition evict_or_spare (chances : N) (victim : string) (rest : list string) (s : Store) :
    N * Store :=
  match cached s !! victim with
  | Some e =>
      if (0 <? chances) && visited e then
        (chances - 1,
         set_cache (<[victim := with_visited false e]> (cached s)) (rest ++ [victim])
           (tag_index s) (used s) s)
      else
        let cleared := if 0 <? chances then with_visited false e else e in
        (chances,
         count_evicted
           (set_cache (delete victim (cached s)) rest
              (unindex_tags (tag_index s) victim (tags cleared))
              (saturating_sub (used s) (stored_size cleared)) s))
  | None => (chances, set_cache (cached s) rest (tag_index s) (used s) s)
  end.

(** [None] means the fuel ran out. *)
Fixpoint reserve_loop (fuel : nat) (chances additional : N) (s : Store) :
    option (bool * Store) :=
  if max_bytes s <? saturating_add (used s) additional then
    match order s with
    | [] => Some (false, s)
    | victim :: rest =>
        match fuel with
        | O => None
        | S fuel =>
            let '(chances, s) := evict_or_spare chances victim rest s in
            reserve_loop fuel chances additional s
        end
    end
  else Some (true, set_used (wrapping_add (used s) additional) s).

Definition initial_chances (s : Store) : N :=
  match policy s with Clock => saturating_add (size_of (order s)) 1 | Fifo => 0 end.

Definition reserve (additional : N) (s : Store) : bool * Store :=
  if max_bytes s <? additional then (false, s)
  else
    let chances := initial_chances s in
    default (false, s)
      (reserve_loop (N.to_nat chances + length (order s)) chances additional s).

Definition release (amount : N) (s : Store) : Store :=
  set_used (saturating_sub (used s) amount) s.

(** [admit]: turn an accounted fill into a completed entry. *)
Definition admit_entry (key : string) (obj : Stored) (s : Store) : Store :=
  let s :=
    match cached s !! key with
    | Some old =>
        set_cache (delete key (cached s)) (filter (λ k, k ≠ key) (order s))
          (unindex_tags (tag_index s) key (tags old))
          (saturating_sub (used s) (stored_size old)) s
    | None => s
    end in
  set_cache (<[key := obj]> (cached s)) (order s ++ [key])
    (index_tags (tag_index s) key (tags obj)) (used s) s.

(** ** Purging *)

Record Purged := mkPurged { entries : N; freed : N }.

Definition purge_one (acc : Purged * Store) (key : string) : Purged * Store :=
  let '(p, s) := acc in
  match cached s !! key with
  | Some e =>
      let size := stored_size e in
      (mkPurged (wrapping_add (entries p) 1) (wrapping_add (freed p) size),
       set_cache (delete key (cached s)) (order s)
         (unindex_tags (tag_index s) key (tags e)) (saturating_sub (used s) size) s)
  | None => acc
  end.

Definition purge_matching (matches : string → Stored → bool) (s : Store) : Purged * Store :=
  let doomed := (map_to_list (filter (λ kv, matches kv.1 kv.2 = true) (cached s))).*1 in
  let '(p, s) := foldl purge_one (mkPurged 0 0, s) doomed in
  match doomed with
  | [] => (p, s)
  | _ => (p, count_purged (entries p)
               (set_cache (cached s) (filter (λ k, k ∉ doomed) (order s)) (tag_index s)
                  (used s) s))
  end.

(** Mark the fills a purge matched. *)
Definition invalidate_fills (matches : string → Temp → bool) (s : Store) : Store :=
  set_temp (map_imap (λ key (writes : gmap N Temp),
    Some ((λ t, if matches key t then invalidate t else t) <$> writes)) (temp s)) s.

Definition purge_tags (ts : list string) (s : Store) : Purged * Store :=
  let wanted := filter (λ t, is_empty t = false) ts in
  match wanted with
  | [] => (mkPurged 0 0, s)
  | _ =>
      let victims : gset string := ⋃ ((λ t, default ∅ (tag_index s !! t)) <$> wanted) in
      let s := invalidate_fills (λ _ t, existsb (λ tag, bool_decide (tag ∈ wanted)) (ttags t)) s in
      purge_matching (λ key _, bool_decide (key ∈ victims)) s
  end.

Definition purge_all (s : Store) : Purged * Store :=
  purge_matching (λ _ _, true) (invalidate_fills (λ _ _, true) s).

Definition purge_paths (ps : list string) (s : Store) : Purged * Store :=
  let wanted := filter (λ p, is_empty p = false) ps in
  match wanted with
  | [] => (mkPurged 0 0, s)
  | _ =>
      let s := invalidate_fills (λ _ t, bool_decide (tpath t ∈ wanted)) s in
      purge_matching (λ _ e, bool_decide (path e ∈ wanted)) s
  end.

(** Pingora's own purge hook. *)
Definition purge (hash : string) (s : Store) : bool * Store :=
  let temp_invalidated :=
    match temp s !! hash with Some writes => negb (bool_decide (writes = ∅)) | None => false end in
  let s := invalidate_fills (λ key _, bool_decide (key = hash)) s in
  let '(p, s) := purge_matching (λ key _, bool_decide (key = hash)) s in
  (temp_invalidated || (0 <? entries p), s).

Definition remove_temp (key : string) (id : N) (s : Store) : option Temp * Store :=
  match temp s !! key with
  | None => (None, s)
  | Some writes =>
      let rest := delete id writes in
      (writes !! id,
       set_temp (if bool_decide (rest = ∅) then delete key (temp s)
                 else <[key := rest]> (temp s)) s)
  end.

(** The four ways in, and what each is aimed at. *)
Inductive PurgeOp :=
| ByTags (ts : list string) | ByPaths (ps : list string) | Everything | ByKey (hash : string).

Definition run_purge (op : PurgeOp) (s : Store) : Store :=
  match op with
  | ByTags ts => (purge_tags ts s).2
  | ByPaths ps => (purge_paths ps s).2
  | Everything => (purge_all s).2
  | ByKey hash => (purge hash s).2
  end.

Definition targets (op : PurgeOp) (key : string) (ts : list string) (p : string) : bool :=
  match op with
  | ByTags wanted => existsb (λ t, negb (is_empty t) && bool_decide (t ∈ wanted)) ts
  | ByPaths wanted => negb (is_empty p) && bool_decide (p ∈ wanted)
  | Everything => true
  | ByKey hash => bool_decide (key = hash)
  end.

(** ** The [Storage] trait *)

Section Storage.
Context {Meta : Type}.
(** Pingora's [CacheMeta::serialize] and [deserialize]; whether the response
    header has a field, and its first value when [to_str] can read it. *)
Variable serialize : Meta → option BinaryMeta.
Variable deserialize : BinaryMeta → option Meta.
Variable has_field : Meta → string → bool.
Variable field_text : Meta → string → option string.

Inductive StoreError :=
| SerializeFailed | DeserializeFailed | BudgetExhausted | BudgetExhaustedDuringFill
| WriterDropped | WriteVanished.

(** Every part of the process that touches the store: the store itself, the
    channels of its fills, the writers, and the transient fills waiting for
    their handoff to expire. *)
Record World := mkWorld {
  store : Store;
  channels : gmap N Channel;
  handlers : gmap N Handler;
  handoffs : gmap N Handler }.

(** What a lookup hands out: a finished body, or a fill to follow. *)
Inductive HitHandler :=
| CompleteHit (b : bytes) (read : nat)
| PartialHit (id : N) (read : nat).

(** The newest fill of a key. *)
Definition newest (writes : gmap N Temp) : option (N * Temp) :=
  map_fold (λ id t best,
    match best with
    | Some (id', _) => if id' <? id then Some (id, t) else best
    | None => Some (id, t)
    end) None writes.

Definition lookup (hash : string) (s : Store) :
    result StoreError (option (Meta * HitHandler)) * Store :=
  match cached s !! hash with
  | Some obj =>
      let s := set_cache (<[hash := with_visited true obj]> (cached s)) (order s)
                 (tag_index s) (used s) s in
      ((m ← ok_or (deserialize (meta obj)) DeserializeFailed;
        Ok (Some (m, CompleteHit (body obj) 0))), s)
  | None =>
      match writes ← temp s !! hash; newest writes with
      | None => (Ok None, s)
      | Some (id, t) =>
          ((m ← ok_or (deserialize (tmeta t)) DeserializeFailed;
            Ok (Some (m, PartialHit id 0))), s)
      end
  end.

(** [parse_tag] is Pingora's [U64WriteId::try_from]. *)
Definition lookup_streaming_write (parse_tag : bytes → option N) (hash : string)
    (streaming_write_tag : option bytes) (s : Store) :
    result StoreError (option (Meta * HitHandler)) * Store :=
  match streaming_write_tag with
  | None => lookup hash s
  | Some tag =>
      (match parse_tag tag with
       | None => Ok None
       | Some id =>
           match writes ← temp s !! hash; (writes : gmap N Temp) !! id with
           | None => Ok None
           | Some t =>
               m ← ok_or (deserialize (tmeta t)) DeserializeFailed;
               Ok (Some (m, PartialHit id 0))
           end
       end, s)
  end.

Definition tags_of (m : Meta) (s : Store) : list string :=
  default [] (parse_tags <$> field_text m (tag_header s)).

Definition insert_temp (hash : string) (id : N) (t : Temp) (s : Store) : Store :=
  set_temp (<[hash := <[id := t]> (default ∅ (temp s !! hash))]> (temp s)) s.

Definition get_miss_handler (hash user_tag : string) (m : Meta) (w : World) :
    result StoreError N * World :=
  let s := store w in
  let transient := has_field m TRANSIENT_HEADER in
  let tags := if transient then [] else tags_of m s in
  let path := if transient then EmptyString else user_tag in
  match serialize m with
  | None => (Err SerializeFailed, w)
  | Some serialized =>
      let size := meta_size serialized tags + len path in
      let '(ok, s) := reserve size s in
      if negb ok then (Err BudgetExhausted, mkWorld s (channels w) (handlers w) (handoffs w))
      else
        let '(id, s) := take_id s in
        let s := insert_temp hash id (mkTemp serialized transient tags path false) s in
        (Ok id, mkWorld s (<[id := mkChannel [] (Partial 0) true]> (channels w))
                  (<[id := mkHandler hash size]> (handlers w)) (handoffs w))
  end.

Definition update_meta (hash : string) (m : Meta) (s : Store) : result StoreError bool * Store :=
  match serialize m with
  | None => (Err SerializeFailed, s)
  | Some replacement =>
      let replacement_tags := tags_of m s in
      let replacement_size := meta_size replacement replacement_tags in
      match cached s !! hash with
      | None => (Ok false, s)
      | Some obj =>
          let old_size := meta_size (meta obj) (tags obj) in
          let charged :=
            if old_size <? replacement_size then
              let growth := replacement_size - old_size in
              if max_bytes s <? saturating_add (used s) growth then None
              else Some (wrapping_add (used s) growth)
            else Some (saturating_sub (used s) (old_size - replacement_size)) in
          match charged with
          | None => (Ok false, s)
          | Some u =>
              let ix := unindex_tags (tag_index s) hash (tags obj) in
              let ix := index_tags ix hash replacement_tags in
              let obj := mkStored replacement (body obj) (path obj) replacement_tags (visited obj) in
              (Ok true, set_cache (<[hash := obj]> (cached s)) (order s) ix u s)
          end
      end
  end.

(** ** Readers *)

(** [CompleteHit::read_body]. *)
Definition complete_read (b : bytes) (read : nat) : option (bytes * nat) :=
  if (length b <=? read)%nat then None
  else
    let e := Nat.min (read + CHUNK) (length b) in
    Some (take (e - read) (drop read b), e).

(** [CompleteHit::seek]. *)
Definition complete_seek (start : nat) (b : bytes) : nat := Nat.min start (length b).

(** One turn of [PartialHit::read_body]'s loop. *)
Inductive Poll := Data (chunk : bytes) (read : nat) | EndOfBody | Failed (e : StoreError) | Pending.
Definition partial_read (c : Channel) (read : nat) : Poll :=
  let available := written_bytes (written c) in
  if (read <? available)%nat then
    let e := Nat.min (read + CHUNK) available in
    Data (take (e - read) (drop read (content c))) e
  else if written_done (written c) then EndOfBody
  else if sender c then Pending
  else Failed WriterDropped.

(** ** The writer *)

(** [HandleMiss::write_body]. *)
Definition write_body (id : N) (data : bytes) (eof : bool) (w : World) :
    result StoreError unit * World :=
  match handlers w !! id, channels w !! id with
  | Some h, Some c =>
      let '(ok, s) :=
        if (length data =? 0)%nat then (true, store w) else reserve (size_of data) (store w) in
      if negb ok then
        (Err BudgetExhaustedDuringFill, mkWorld s (channels w) (handlers w) (handoffs w))
      else
        let so_far := written_bytes (written c) in
        let total := (so_far + length data)%nat in
        let c := mkChannel (content c ++ data)
                   (if eof then Complete total else Partial total) (sender c) in
        (Ok tt, mkWorld s (<[id := c]> (channels w))
                  (<[id := mkHandler (hkey h) (wrapping_add (accounted h) (size_of data))]> (handlers w))
                  (handoffs w))
  | _, _ => (Err WriteVanished, w)
  end.

(** The last sender of a channel goes away. *)
Definition hang_up (id : N) (cs : gmap N Channel) : gmap N Channel :=
  alter (λ c, mkChannel (content c) (written c) false) id cs.

Definition finish_channel (c : Channel) : Channel :=
  mkChannel (content c) (Complete (written_bytes (written c))) (sender c).

(** [HandleMiss::finish]: returns the size, and the key admitted if one was. *)
Definition finish (id : N) (w : World) : result StoreError (nat * option string) * World :=
  match handlers w !! id, channels w !! id with
  | Some h, Some c =>
      let cs := <[id := finish_channel c]> (channels w) in
      match writes ← temp (store w) !! hkey h; (writes : gmap N Temp) !! id with
      | None => (Err WriteVanished, mkWorld (store w) cs (handlers w) (handoffs w))
      | Some t =>
          let size := length (content c) in
          let hs := delete id (handlers w) in
          if transient t then
            (Ok (size, None), mkWorld (store w) cs hs (<[id := h]> (handoffs w)))
          else
            let '(removed, s) := remove_temp (hkey h) id (store w) in
            match removed with
            | None => (Err WriteVanished, mkWorld s (hang_up id cs) hs (handoffs w))
            | Some t =>
                if invalidated t then
                  (Ok (size, None),
                   mkWorld (release (accounted h) s) (hang_up id cs) hs (handoffs w))
                else
                  (Ok (size, Some (hkey h)),
                   mkWorld (admit_entry (hkey h)
                              (mkStored (tmeta t) (content c) (tpath t) (ttags t) false) s)
                     (hang_up id cs) hs (handoffs w))
            end
      end
  | _, _ => (Err WriteVanished, w)
  end.

(** A fill leaves [temp] and its bytes go back to the budget: the writer is
    dropped unfinished, or a transient fill's handoff expires. *)
Definition retire (h : Handler) (id : N) (w : World) (hs ho : gmap N Handler) : World :=
  let '(removed, s) := remove_temp (hkey h) id (store w) in
  mkWorld (match removed with Some _ => release (accounted h) s | None => s end)
    (hang_up id (channels w)) hs ho.

(** [Drop for FollowableMiss]. *)
Definition drop_handler (id : N) (w : World) : World :=
  match handlers w !! id with
  | Some h => retire h id w (delete id (handlers w)) (handoffs w)
  | None => w
  end.

(** The task [finish] spawns for a transient fill. *)
Definition expire_handoff (id : N) (w : World) : World :=
  match handoffs w !! id with
  | Some h => retire h id w (handlers w) (delete id (handoffs w))
  | None => w
  end.

Definition with_store (f : Store → Store) (w : World) : World :=
  mkWorld (f (store w)) (channels w) (handlers w) (handoffs w).

(** ** Interleaving *)

Inductive event :=
| EvStart (id : N)
| EvStore (id : N) (key : string) (e : Stored)
| EvPurge
| EvOther.

(** What the fill [id] of [key] would be stored as. *)
Definition entry_of (id : N) (key : string) (w : World) : option Stored :=
  writes ← temp (store w) !! key; t ← (writes : gmap N Temp) !! id; c ← channels w !! id;
  Some (mkStored (tmeta t) (content c) (tpath t) (ttags t) false).

Inductive step : World → event → World → Prop :=
| step_start w hash user_tag m id w' :
    next_id (store w) < U64_MAX →
    get_miss_handler hash user_tag m w = (Ok id, w') → step w (EvStart id) w'
| step_start_refused w hash user_tag m e w' :
    get_miss_handler hash user_tag m w = (Err e, w') → step w EvOther w'
| step_write w id data eof r w' : write_body id data eof w = (r, w') → step w EvOther w'
| step_finish w id size r w' key e :
    finish id w = (r, w') → r = Ok (size, Some key) → entry_of id key w = Some e →
    step w (EvStore id key e) w'
| step_finish_quiet w id size w' :
    finish id w = (Ok (size, None), w') → step w EvOther w'
| step_drop w id : step w EvOther (drop_handler id w)
| step_expire w id : step w EvOther (expire_handoff id w)
| step_lookup w hash : step w EvOther (with_store (λ s, (lookup hash s).2) w)
| step_update w hash m : step w EvOther (with_store (λ s, (update_meta hash m s).2) w)
| step_purge w op : step w EvPurge (with_store (run_purge op) w).

Inductive steps : World → list event → World → Prop :=
| steps_nil w : steps w [] w
| steps_cons w e w' es w'' : step w e w' → steps w' es w'' → steps w (e :: es) w''.

Definition boot (cfg : CacheDefaults.CacheDefaults) : World := mkWorld (new_store cfg) ∅ ∅ ∅.

Definition reachable (w : World) : Prop := ∃ cfg es, 
  as_usize (CacheDefaults.max_memory cfg) < USIZE_MAX ∧ steps (boot cfg) es w.
End Storage.
