(* ===== verification/StoreFacts.v ===== *)
(** * The store keeps its books

    Lemmas on [Store.v]: the queue and the tag index describe the cache, every
    byte is accounted once, and every operation preserves both. *)

From S2P Require Import Prelude Words Text Units Schema Store.
Local Open Scope list_scope.
Local Open Scope N_scope.

(** ** The tag index *)

Definition mem (ix : gmap string (gset string)) (t k : string) : Prop :=
  k ∈ default ∅ (ix !! t).
Definition no_empty (ix : gmap string (gset string)) : Prop :=
  map_Forall (λ _ ks, ks ≠ ∅) ix.

Lemma unindex_tag_mem key ix tag t k :
  mem (unindex_tag key ix tag) t k ↔ mem ix t k ∧ ¬ (k = key ∧ t = tag).
Proof.
  unfold mem, unindex_tag. destruct (decide (t = tag)) as [->|Hne].
  - destruct (ix !! tag) as [ks|] eqn:E; [|rewrite E; set_solver].
    case_bool_decide as He.
    + rewrite lookup_delete_eq. simpl. set_solver.
    + rewrite lookup_insert_eq. simpl. set_solver.
  - destruct (ix !! tag) as [ks|] eqn:E; [|naive_solver].
    case_bool_decide.
    + rewrite lookup_delete_ne by done. naive_solver.
    + rewrite lookup_insert_ne by done. naive_solver.
Qed.

Lemma unindex_tags_mem ts key ix t k :
  mem (unindex_tags ix key ts) t k ↔ mem ix t k ∧ ¬ (k = key ∧ t ∈ ts).
Proof.
  unfold unindex_tags. revert ix. induction ts as [|tag ts IH]; intros ix; simpl.
  - set_solver.
  - rewrite IH, unindex_tag_mem. set_solver.
Qed.

Lemma index_tag_mem key ix tag t k :
  mem (index_tag key ix tag) t k ↔ mem ix t k ∨ (k = key ∧ t = tag).
Proof.
  unfold mem, index_tag. destruct (decide (t = tag)) as [->|Hne].
  - rewrite lookup_insert_eq. simpl. set_solver.
  - rewrite lookup_insert_ne by done. naive_solver.
Qed.

Lemma index_tags_mem ts key ix t k :
  mem (index_tags ix key ts) t k ↔ mem ix t k ∨ (k = key ∧ t ∈ ts).
Proof.
  unfold index_tags. revert ix. induction ts as [|tag ts IH]; intros ix; simpl.
  - set_solver.
  - rewrite IH, index_tag_mem. set_solver.
Qed.

Lemma unindex_tags_no_empty ts key ix : no_empty ix → no_empty (unindex_tags ix key ts).
Proof.
  unfold unindex_tags. revert ix. induction ts as [|tag ts IH]; intros ix H; simpl; [done|].
  apply IH. unfold unindex_tag. destruct (ix !! tag) as [ks|]; [|done].
  case_bool_decide; [by apply map_Forall_delete|by apply map_Forall_insert_2].
Qed.

Lemma index_tags_no_empty ts key ix : no_empty ix → no_empty (index_tags ix key ts).
Proof.
  unfold index_tags. revert ix. induction ts as [|tag ts IH]; intros ix H; simpl; [done|].
  apply IH. unfold index_tag. apply map_Forall_insert_2; [set_solver|done].
Qed.

(** ** The structure of the cache *)

Definition order_ok (s : Store) : Prop :=
  NoDup (order s) ∧ ∀ k, k ∈ order s ↔ is_Some (cached s !! k).
Definition index_ok (s : Store) : Prop :=
  no_empty (tag_index s)
  ∧ ∀ t k, mem (tag_index s) t k ↔ ∃ e, cached s !! k = Some e ∧ t ∈ tags e.
Definition shape (s : Store) : Prop := order_ok s ∧ index_ok s.

(** Every byte is accounted once: the completed entries and [p] more bytes held
    by fills, within the budget. *)
Definition books (s : Store) (p : N) : Prop :=
  used s = map_sum stored_size (cached s) + p
  ∧ used s <= max_bytes s ∧ max_bytes s < USIZE_MAX.

(** What the cache-side operations never touch. *)
Definition same_fills (s s' : Store) : Prop :=
  temp s' = temp s ∧ max_bytes s' = max_bytes s ∧ next_id s' = next_id s
  ∧ policy s' = policy s ∧ tag_header s' = tag_header s.

#[export] Instance same_fills_preorder : PreOrder same_fills.
Proof.
  split; [done|].
  intros x y z (A1 & A2 & A3 & A4 & A5) (B1 & B2 & B3 & B4 & B5). unfold same_fills.
  by rewrite B1, B2, B3, B4, B5.
Qed.

(** Flipping an entry's recency changes nothing the books see. *)
Lemma shape_visit s k e v :
  cached s !! k = Some e → shape s →
  shape (set_cache (<[k := with_visited v e]> (cached s)) (order s) (tag_index s) (used s) s).
Proof.
  intros Hk ((Hn & Ho) & (He & Hi)). split; split; simpl; [done| |done|].
  - intros k'. rewrite Ho. destruct (decide (k' = k)) as [->|Hne].
    + rewrite lookup_insert_eq, Hk. naive_solver.
    + by rewrite lookup_insert_ne.
  - intros t k'. rewrite Hi. destruct (decide (k' = k)) as [->|Hne].
    + rewrite lookup_insert_eq, Hk. naive_solver.
    + by rewrite lookup_insert_ne.
Qed.

Lemma books_visit s k e v ord p :
  cached s !! k = Some e → books s p →
  books (set_cache (<[k := with_visited v e]> (cached s)) ord (tag_index s) (used s) s) p.
Proof.
  intros Hk (Hu & Hm). split; [|done]. simpl. rewrite Hu.
  pose proof (map_sum_update stored_size (cached s) k e (with_visited v e) Hk) as Hs.
  change (stored_size (with_visited v e)) with (stored_size e) in Hs. lia.
Qed.

Lemma shape_order s ord :
  order s ≡ₚ ord → shape s → shape (set_cache (cached s) ord (tag_index s) (used s) s).
Proof.
  intros Hp ((Hn & Ho) & Hi). split; [|done]. split; simpl.
  - by rewrite <-Hp.
  - intros k. by rewrite <-Hp.
Qed.

(** Removing an entry: from the queue, the index and the books. *)
Lemma shape_remove s k e ord u :
  cached s !! k = Some e → shape s → NoDup ord → (∀ k', k' ∈ ord ↔ k' ∈ order s ∧ k' ≠ k) →
  shape (set_cache (delete k (cached s)) ord (unindex_tags (tag_index s) k (tags e)) u s).
Proof.
  intros Hk ((Hn & Ho) & (He & Hi)) Hnd Hord. split; split; simpl; [done| | |].
  - intros k'. rewrite Hord, Ho. destruct (decide (k' = k)) as [->|Hne].
    + rewrite lookup_delete_eq. split; [naive_solver|by intros [? ?]].
    + rewrite lookup_delete_ne by done. naive_solver.
  - by apply unindex_tags_no_empty.
  - intros t k'. rewrite unindex_tags_mem, Hi. destruct (decide (k' = k)) as [->|Hne].
    + rewrite lookup_delete_eq. naive_solver.
    + rewrite lookup_delete_ne by done. naive_solver.
Qed.

Lemma books_remove s k e ord ix p :
  cached s !! k = Some e → books s p →
  books (set_cache (delete k (cached s)) ord ix (saturating_sub (used s) (stored_size e)) s) p.
Proof.
  intros Hk (Hu & Hm & Hx). unfold saturating_sub, books; simpl.
  rewrite (map_sum_delete stored_size _ _ _ Hk) in Hu. split_and!; lia.
Qed.

(** ** The eviction loop *)

Section Evict.
Implicit Types (s : Store).

Lemma order_head s v rest :
  shape s → order s = v :: rest →
  ∃ e, cached s !! v = Some e ∧ (v ∉ rest) ∧ NoDup rest
       ∧ (∀ k, k ∈ rest ↔ k ∈ order s ∧ k ≠ v).
Proof.
  intros ((Hn & Ho) & _) Hord. rewrite Hord in *. apply NoDup_cons in Hn as [Hv Hn].
  destruct (proj1 (Ho v)) as [e He]; [by left|]. exists e. split_and!; [done..|].
  intros k. rewrite elem_of_cons. split; [|naive_solver]. intros Hk. split; [by right|].
  by intros ->.
Qed.

Lemma evict_or_spare_ok ch v rest s p ch' s' :
  shape s → books s p → order s = v :: rest →
  evict_or_spare ch v rest s = (ch', s') →
  shape s' ∧ books s' p ∧ same_fills s s'
  ∧ (N.to_nat ch' + length (order s') < N.to_nat ch + length (order s))%nat.
Proof.
  intros Hs Hb Hord. destruct (order_head _ _ _ Hs Hord) as (e & He & Hv & Hn & Hin).
  unfold evict_or_spare. rewrite He.
  destruct ((0 <? ch) && visited e) eqn:Hspare; intros [= <- <-].
  - apply andb_true_iff in Hspare as [Hch%N.ltb_lt _]. split_and!; [|by apply books_visit|done|].
    + apply (shape_order (set_cache (<[v:=with_visited false e]> (cached s)) (order s)
        (tag_index s) (used s) s)); [simpl; rewrite Hord; solve_Permutation|].
      by apply shape_visit.
    + rewrite Hord. simpl. rewrite length_app. simpl. lia.
  - assert (∀ e', tags e' = tags e → stored_size e' = stored_size e →
      let s' := count_evicted (set_cache (delete v (cached s)) rest
        (unindex_tags (tag_index s) v (tags e')) (saturating_sub (used s) (stored_size e')) s) in
      shape s' ∧ books s' p) as H.
    { intros e' Ht Hsz. rewrite Ht, Hsz. cbv zeta. split.
      - by apply (shape_remove s v e rest).
      - by apply (books_remove s v e rest). }
    assert (let c := if 0 <? ch then with_visited false e else e in
      tags c = tags e ∧ stored_size c = stored_size e) as [Ht Hsz] by (by destruct (0 <? ch)).
    specialize (H _ Ht Hsz) as [H1 H2]. split; [exact H1|]. split; [exact H2|].
    split; [done|]. rewrite Hord. simpl. lia.
Qed.

(** Given enough fuel the loop decides, and its decision is exact: it succeeds
    if and only if the bytes no eviction can free leave room. *)
Lemma reserve_loop_ok fuel ch n s p :
  shape s → books s p → (N.to_nat ch + length (order s) ≤ fuel)%nat →
  ∃ ok s', reserve_loop fuel ch n s = Some (ok, s')
    ∧ shape s' ∧ same_fills s s' ∧ books s' (if ok then p + n else p)
    ∧ ok = (p + n <=? max_bytes s).
Proof.
  revert ch s. induction fuel as [|fuel IH]; intros ch s Hs Hb Hf; simpl;
    (destruct (N.ltb_spec (max_bytes s) (saturating_add (used s) n)) as [Hgt|Hle]).
  2, 4: exists true; eexists; split; [done|];
    pose proof Hb as (Hu & Hm & Hx); unfold saturating_add in Hle;
    rewrite wrapping_add_small by lia;
    split; [done|]; split; [done|]; split;
    [unfold books; simpl; split_and!; lia|symmetry; apply N.leb_le; lia].
  all: destruct (order s) as [|v rest] eqn:Hord.
  1, 3: exists false, s; split; [done|]; split; [done|]; split; [done|]; split; [done|];
    symmetry; apply N.leb_gt; pose proof Hb as (Hu & Hm & Hx);
    unfold saturating_add in Hgt;
    assert (cached s = ∅) as Hc; [|rewrite Hc, map_sum_empty in Hu; lia];
    apply map_empty; intros k; destruct (cached s !! k) eqn:E; [|done];
    assert (k ∈ order s) as Hk by (by apply Hs); by rewrite Hord in Hk; apply elem_of_nil in Hk.
  - simpl in Hf. lia.
  - destruct (evict_or_spare ch v rest s) as [ch' s'] eqn:E.
    destruct (evict_or_spare_ok _ _ _ _ _ _ _ Hs Hb Hord E) as (Hs' & Hb' & Hsame & Hlt).
    rewrite Hord in Hlt. destruct (IH ch' s' Hs' Hb') as (ok & s'' & H1 & H2 & H3 & H4 & H5).
    { simpl in *. lia. }
    exists ok, s''. split; [done|]. split; [done|]. split; [by etrans|].
    split; [done|]. destruct Hsame as (_ & -> & _) in H5. done.
Qed.

Lemma reserve_ok n s p :
  shape s → books s p →
  let '(ok, s') := reserve n s in
  shape s' ∧ same_fills s s' ∧ books s' (if ok then p + n else p)
  ∧ ok = (p + n <=? max_bytes s).
Proof.
  intros Hs Hb. unfold reserve. destruct (N.ltb_spec (max_bytes s) n) as [Hgt|Hle].
  - split_and!; [done..|]. symmetry. apply N.leb_gt. lia.
  - destruct (reserve_loop_ok _ (initial_chances s) n s p Hs Hb (le_n _))
      as (ok & s' & -> & H). simpl. naive_solver.
Qed.
End Evict.

(** ** Admission of a finished fill *)

Lemma shape_insert s k obj u :
  cached s !! k = None → shape s →
  shape (set_cache (<[k := obj]> (cached s)) (order s ++ [k])
           (index_tags (tag_index s) k (tags obj)) u s).
Proof.
  intros Hk ((Hn & Ho) & (He & Hi)). split; split; simpl.
  - apply NoDup_app. split; [done|]. split; [|apply NoDup_singleton].
    intros k' Hk' ->%list_elem_of_singleton. apply Ho in Hk'. rewrite Hk in Hk'.
    by destruct Hk'.
  - intros k'. rewrite elem_of_app, Ho, list_elem_of_singleton.
    destruct (decide (k' = k)) as [->|Hne].
    + rewrite lookup_insert_eq. naive_solver.
    + rewrite lookup_insert_ne by done. naive_solver.
  - by apply index_tags_no_empty.
  - intros t k'. rewrite index_tags_mem, Hi. destruct (decide (k' = k)) as [->|Hne].
    + rewrite lookup_insert_eq, Hk. naive_solver.
    + rewrite lookup_insert_ne by done. naive_solver.
Qed.

Lemma filter_ne_elem k (l : list string) k' :
  k' ∈ filter (λ x, x ≠ k) l ↔ k' ∈ l ∧ k' ≠ k.
Proof. rewrite list_elem_of_filter. naive_solver. Qed.

Lemma admit_entry_ok key obj s p :
  shape s → books s (p + stored_size obj) →
  shape (admit_entry key obj s) ∧ books (admit_entry key obj s) p
  ∧ same_fills s (admit_entry key obj s)
  ∧ cached (admit_entry key obj s) = <[key := obj]> (cached s).
Proof.
  intros Hs Hb. unfold admit_entry. cbv zeta.
  assert (∃ s', match cached s !! key with
    | Some old => set_cache (delete key (cached s)) (filter (λ k, k ≠ key) (order s))
        (unindex_tags (tag_index s) key (tags old))
        (saturating_sub (used s) (stored_size old)) s
    | None => s end = s' ∧ shape s' ∧ books s' (p + stored_size obj)
    ∧ same_fills s s' ∧ cached s' = delete key (cached s)) as (s' & -> & Hs' & Hb' & Hsame & Hc).
  { destruct (cached s !! key) as [old|] eqn:E; eexists; (split; [reflexivity|]).
    - split; [|split; [by apply books_remove|done]].
      apply shape_remove; [done|done| |intros k'; apply filter_ne_elem].
      apply NoDup_filter, Hs.
    - by rewrite delete_id. }
  assert (cached s' !! key = None) as Hnone by (rewrite Hc; apply lookup_delete_eq).
  split; [by apply shape_insert|]. split; [|split; [done|]].
  - destruct Hb' as (Hu & Hm & Hx). split; [|done]. simpl.
    rewrite map_sum_insert by done. lia.
  - simpl. by rewrite Hc, insert_delete_eq.
Qed.

(** ** Purging *)

Lemma purge_fold_ok keys s p q :
  NoDup keys → (∀ k, k ∈ keys → is_Some (cached s !! k)) →
  index_ok s → books s p →
  let s' := (foldl purge_one (q, s) keys).2 in
  index_ok s' ∧ books s' p ∧ same_fills s s' ∧ order s' = order s
  ∧ cached s' = filter (λ kv, kv.1 ∉ keys) (cached s).
Proof.
  intros Hnd Hin. revert s q Hin. induction keys as [|k keys IH]; intros s q Hin Hi Hb; simpl.
  - split_and!; [done..|]. rewrite map_filter_id; [done|]. intros. by apply not_elem_of_nil.
  - apply NoDup_cons in Hnd as [Hk Hnd]. destruct (Hin k) as [e He]; [by left|].
    rewrite He. cbv zeta.
    set (s1 := set_cache _ _ _ _ s).
    destruct (IH Hnd s1 (mkPurged (wrapping_add (entries q) 1)
                (wrapping_add (freed q) (stored_size e)))) as (H1 & H2 & H3 & H4 & H5).
    + intros k' Hk'. simpl. rewrite lookup_delete_ne by congruence. apply Hin. by right.
    + destruct Hi as (Hne & Hm). split; simpl; [by apply unindex_tags_no_empty|].
      intros t k'. rewrite unindex_tags_mem, Hm. destruct (decide (k' = k)) as [->|Hneq].
      * rewrite lookup_delete_eq. naive_solver.
      * rewrite lookup_delete_ne by done. naive_solver.
    + by apply books_remove.
    + split_and!; [done|done|by etrans|done|].
      rewrite H5. simpl. apply map_eq. intros k'. apply option_eq. intros x.
      rewrite !map_lookup_filter_Some. simpl. rewrite not_elem_of_cons.
      destruct (decide (k' = k)) as [->|Hneq].
      * rewrite lookup_delete_eq. naive_solver.
      * rewrite lookup_delete_ne by done. naive_solver.
Qed.

Lemma set_cache_eta s : set_cache (cached s) (order s) (tag_index s) (used s) s = s.
Proof. by destruct s. Qed.

(** A purge removes exactly what it matches, from the cache, the queue, the
    index and the books. *)
Lemma purge_matching_ok matches s p :
  shape s → books s p →
  let s' := (purge_matching matches s).2 in
  shape s' ∧ books s' p ∧ same_fills s s'
  ∧ cached s' = filter (λ kv, matches kv.1 kv.2 = false) (cached s).
Proof.
  intros Hs Hb. unfold purge_matching.
  set (hit := filter (λ kv, matches kv.1 kv.2 = true) (cached s)).
  set (doomed := (map_to_list hit).*1).
  assert (∀ k, k ∈ doomed ↔ ∃ e, cached s !! k = Some e ∧ matches k e = true) as Hdoomed.
  { intros k. unfold doomed. rewrite list_elem_of_fmap. split.
    - intros ([k' e] & -> & Hin). apply elem_of_map_to_list in Hin.
      apply map_lookup_filter_Some in Hin. by exists e.
    - intros (e & He & Hm). exists (k, e). split; [done|]. apply elem_of_map_to_list.
      by apply map_lookup_filter_Some. }
  assert (filter (λ kv, kv.1 ∉ doomed) (cached s)
          = filter (λ kv, matches kv.1 kv.2 = false) (cached s)) as Hfilter.
  { apply map_filter_ext. intros k e He. simpl. rewrite Hdoomed. split.
    - intros H. destruct (matches k e) eqn:E; [|done]. destruct H. by exists e.
    - intros H (e' & He' & Hm). congruence. }
  destruct (purge_fold_ok doomed s p (mkPurged 0 0)) as (H1 & H2 & H3 & H4 & H5).
  { apply NoDup_fst_map_to_list. }
  { intros k Hk. apply Hdoomed in Hk as (e & He & _). by exists e. }
  { apply Hs. }
  { done. }
  destruct (foldl purge_one _ doomed) as [q s'] eqn:Hfold. simpl in *.
  rewrite Hfilter in H5.
  assert (shape (set_cache (cached s') (filter (λ k, k ∉ doomed) (order s')) (tag_index s')
    (used s') s')) as Hshape.
  { split; [|done]. destruct Hs as ((Hn & Ho) & _). split; simpl; rewrite H4.
    - by apply NoDup_filter.
    - intros k. rewrite list_elem_of_filter, Ho, H5.
      unfold is_Some. setoid_rewrite map_lookup_filter_Some. simpl. rewrite Hdoomed.
      split.
      + intros [Hk [e He]]. exists e. split; [done|].
        destruct (matches k e) eqn:E; [|done]. destruct Hk. by exists e.
      + intros (e & He & Hm). split; [|by exists e]. intros (e' & He' & Hm'). congruence. }
  clearbody doomed. destruct doomed as [|d ds]; simpl; [|done].
  split; [|done]. rewrite <-(set_cache_eta s').
  rewrite <-(filter_all (λ k, k ∉ @nil string) (order s')) at 1; [done|].
  apply Forall_forall. intros k _. apply not_elem_of_nil.
Qed.

(** ** Lookup and metadata updates *)

Lemma stored_size_split e :
  stored_size e = meta_size (meta e) (tags e) + (size_of (body e) + len (path e)).
Proof. unfold stored_size, meta_size. lia. Qed.

Section StorageFacts.
Context {Meta : Type} (serialize : Meta → option BinaryMeta)
  (deserialize : BinaryMeta → option Meta) (field_text : Meta → string → option string).

Lemma lookup_ok hash s p :
  shape s → books s p →
  let s' := (lookup deserialize hash s).2 in
  shape s' ∧ books s' p ∧ same_fills s s'
  ∧ (∀ k, (λ e, with_visited false e) <$> cached s' !! k
          = (λ e, with_visited false e) <$> cached s !! k).
Proof.
  intros Hs Hb. unfold lookup. destruct (cached s !! hash) as [e|] eqn:E; simpl.
  - split; [by apply shape_visit|]. split; [by apply books_visit|]. split; [done|].
    intros k. destruct (decide (k = hash)) as [->|Hne].
    + by rewrite lookup_insert_eq, E.
    + by rewrite lookup_insert_ne.
  - by destruct (_ ≫= _) as [[? ?]|].
Qed.

(** Swapping an entry's metadata moves its index entries and its bytes. *)
Lemma update_shape s hash obj m ts u :
  cached s !! hash = Some obj → shape s →
  shape (set_cache (<[hash := mkStored m (body obj) (path obj) ts (visited obj)]> (cached s))
    (order s) (index_tags (unindex_tags (tag_index s) hash (tags obj)) hash ts) u s).
Proof.
  intros Hk ((Hn & Ho) & (He & Hi)). split; split; simpl; [done| | |].
  - intros k'. rewrite Ho. destruct (decide (k' = hash)) as [->|Hne].
    + rewrite lookup_insert_eq, Hk. naive_solver.
    + by rewrite lookup_insert_ne.
  - by apply index_tags_no_empty, unindex_tags_no_empty.
  - intros t k'. rewrite index_tags_mem, unindex_tags_mem, Hi.
    destruct (decide (k' = hash)) as [->|Hne].
    + rewrite lookup_insert_eq, Hk. naive_solver.
    + rewrite lookup_insert_ne by done. naive_solver.
Qed.

Lemma update_meta_ok (hash : string) m s p :
  shape s → books s p →
  let s' := (update_meta serialize field_text hash m s).2 in
  shape s' ∧ books s' p ∧ same_fills s s'.
Proof.
  intros Hs Hb. unfold update_meta. destruct (serialize m) as [repl|]; [|done].
  destruct (cached s !! hash) as [obj|] eqn:E; [|done].
  set (ts := tags_of field_text m s).
  pose proof Hb as (Hu & Hm & Hx).
  pose proof (map_sum_update stored_size (cached s) hash obj
    (mkStored repl (body obj) (path obj) ts (visited obj)) E) as Hsum.
  pose proof (map_sum_elem stored_size _ _ _ E) as Hin.
  rewrite !stored_size_split in Hsum. rewrite stored_size_split in Hin. simpl in Hsum.
  unfold saturating_add, saturating_sub.
  set (old := meta_size (meta obj) (tags obj)) in *. set (new := meta_size repl ts) in *.
  destruct (N.ltb_spec old new) as [Hg|Hs'].
  - destruct (N.ltb_spec (max_bytes s) (N.min (used s + (new - old)) U64_MAX)) as [Hb'|Hfit];
      [done|].
    simpl. split; [by apply update_shape|]. split; [|done].
    rewrite wrapping_add_small by lia. unfold books; simpl. split_and!; lia.
  - simpl. split; [by apply update_shape|]. split; [|done].
    unfold books; simpl. split_and!; lia.
Qed.
End StorageFacts.
