(* ===== verification/StoreSafety.v ===== *)
(** * What the store promises

    The invariant of every reachable state of the store, its fills, its writers
    and their followers, and the properties the cache rests on. *)

From S2P Require Import Prelude Words Text Units Schema Store StoreFacts.
Local Open Scope list_scope.
Local Open Scope N_scope.

(** ** Fills *)

Definition fill (s : Store) (key : string) (id : N) : option Temp :=
  writes ← temp s !! key; (writes : gmap N Temp) !! id.

Lemma fill_insert s hash id t key id' :
  fill (insert_temp hash id t s) key id'
  = if decide (key = hash ∧ id' = id) then Some t else fill s key id'.
Proof.
  unfold fill, insert_temp; simpl. destruct (decide (key = hash)) as [->|Hne].
  - rewrite lookup_insert_eq. simpl. destruct (decide (id' = id)) as [->|Hid].
    + by rewrite lookup_insert_eq, decide_True.
    + rewrite lookup_insert_ne, decide_False by naive_solver. by destruct (temp s !! hash).
  - rewrite lookup_insert_ne, decide_False by naive_solver. done.
Qed.

Lemma remove_temp_ok key id s :
  (remove_temp key id s).1 = fill s key id
  ∧ (∀ key' id', fill (remove_temp key id s).2 key' id'
       = if decide (key' = key ∧ id' = id) then None else fill s key' id')
  ∧ cached (remove_temp key id s).2 = cached s ∧ order (remove_temp key id s).2 = order s
  ∧ tag_index (remove_temp key id s).2 = tag_index s ∧ used (remove_temp key id s).2 = used s
  ∧ max_bytes (remove_temp key id s).2 = max_bytes s
  ∧ next_id (remove_temp key id s).2 = next_id s.
Proof.
  unfold remove_temp, fill. destruct (temp s !! key) as [writes|] eqn:E; simpl.
  - split; [done|]. split; [|done]. intros key' id'. case_bool_decide as He.
    + destruct (decide (key' = key)) as [->|Hne].
      * rewrite lookup_delete_eq, E. simpl. case_decide as Hd; [done|].
        symmetry. rewrite <-(lookup_delete_ne writes id id') by naive_solver. by rewrite He.
      * rewrite lookup_delete_ne, decide_False by naive_solver. done.
    + destruct (decide (key' = key)) as [->|Hne].
      * rewrite lookup_insert_eq, E. simpl. case_decide as Hd.
        { destruct Hd as [_ ->]. apply lookup_delete_eq. }
        by rewrite lookup_delete_ne by naive_solver.
      * rewrite lookup_insert_ne, decide_False by naive_solver. done.
  - split; [done|]. split; [|done]. intros key' id'. case_decide as Hd; [|done].
    destruct Hd as [-> _]. by rewrite E.
Qed.

Lemma fill_invalidate matches s key id :
  fill (invalidate_fills matches s) key id
  = (λ t, if matches key t then invalidate t else t) <$> fill s key id.
Proof.
  unfold fill, invalidate_fills; simpl. rewrite map_lookup_imap.
  destruct (temp s !! key) as [writes|]; simpl; [|done]. apply lookup_fmap.
Qed.

(** ** Purging, uniformly *)

Lemma books_ext s s' p :
  cached s' = cached s → used s' = used s → max_bytes s' = max_bytes s →
  books s p → books s' p.
Proof. unfold books. by intros -> -> ->. Qed.

Lemma shape_ext s s' :
  cached s' = cached s → order s' = order s → tag_index s' = tag_index s →
  shape s → shape s'.
Proof. unfold shape, order_ok, index_ok. by intros -> -> ->. Qed.

(** What a purge does, given what it is aimed at. *)
Definition purged_by (target : string → list string → string → bool) (s s' : Store) (p : N) : Prop :=
  shape s' ∧ books s' p ∧ next_id s' = next_id s ∧ max_bytes s' = max_bytes s
  ∧ cached s' = filter (λ kv, target kv.1 (tags kv.2) (path kv.2) = false) (cached s)
  ∧ ∀ key id, fill s' key id
      = (λ t, if target key (ttags t) (tpath t) then invalidate t else t) <$> fill s key id.

Lemma purge_split target mt me s p :
  shape s → books s p →
  (∀ key t, mt key t = target key (ttags t) (tpath t)) →
  (∀ key e, cached s !! key = Some e → me key e = target key (tags e) (path e)) →
  purged_by target s (purge_matching me (invalidate_fills mt s)).2 p.
Proof.
  intros Hs Hb Ht He.
  destruct (purge_matching_ok me (invalidate_fills mt s) p) as (H1 & H2 & H3 & H4);
    [by eapply shape_ext; [..|exact Hs]|by eapply books_ext; [..|exact Hb]|].
  set (s' := (purge_matching _ _).2) in *. destruct H3 as (Htemp & Hmax & Hid & _).
  split; [done|]. split; [done|]. split; [done|]. split; [done|]. split.
  - rewrite H4. apply map_filter_ext. intros key e Hk. simpl. by rewrite He.
  - intros key id. assert (fill s' key id = fill (invalidate_fills mt s) key id) as ->.
    { unfold fill. by rewrite Htemp. }
    rewrite fill_invalidate. apply option_fmap_ext. intros t. by rewrite Ht.
Qed.

Lemma purge_nothing target s p :
  shape s → books s p → (∀ key ts q, target key ts q = false) → purged_by target s s p.
Proof.
  intros Hs Hb Ht. do 4 (split; [done|]). split.
  - rewrite map_filter_id; [done|]. intros key e _. apply Ht.
  - intros key id. destruct (fill s key id); simpl; [by rewrite Ht|done].
Qed.

(** Non-empty names, as the loops of the source filter them. *)
Lemma wanted_elem (l : list string) t :
  t ∈ filter (λ x, is_empty x = false) l ↔ negb (is_empty t) && bool_decide (t ∈ l) = true.
Proof.
  rewrite list_elem_of_filter, andb_true_iff, negb_true_iff, bool_decide_eq_true. done.
Qed.

Lemma wanted_bool (l : list string) t :
  bool_decide (t ∈ filter (λ x, is_empty x = false) l)
  = negb (is_empty t) && bool_decide (t ∈ l).
Proof. apply eq_true_iff_eq. by rewrite bool_decide_eq_true, wanted_elem. Qed.

Lemma run_purge_ok op s p :
  shape s → books s p → purged_by (targets op) s (run_purge op s) p.
Proof.
  intros Hs Hb. destruct op as [ts|ps| |hash]; simpl.
  - unfold purge_tags. set (wanted := filter _ ts).
    assert (∀ l, existsb (λ tag, bool_decide (tag ∈ wanted)) l = targets (ByTags ts) EmptyString l EmptyString)
      as Hw.
    { intros l. simpl. induction l as [|t l IH]; simpl; [done|].
      by rewrite IH, <-wanted_bool. }
    destruct wanted as [|w ws] eqn:Ew.
    + apply purge_nothing; [done..|]. intros key l q. simpl.
      change (targets (ByTags ts) EmptyString l EmptyString = false). rewrite <-Hw.
      clear. by induction l.
    + rewrite <-Ew in *. apply purge_split; [done..| |].
      * intros key t. simpl. apply Hw.
      * intros key e He. transitivity (existsb (λ tag, bool_decide (tag ∈ wanted)) (tags e));
          [|apply Hw].
        apply eq_true_iff_eq. rewrite bool_decide_eq_true, existsb_exists, elem_of_union_list.
        destruct Hs as (_ & _ & Hi). split.
        -- intros (X & HX & Hkey). apply list_elem_of_fmap in HX as (t & -> & Ht).
           apply Hi in Hkey as (e' & He' & Hin). exists t.
           rewrite <-list_elem_of_In, bool_decide_eq_true. naive_solver.
        -- intros (t & Hin & Ht). rewrite <-list_elem_of_In in Hin. apply bool_decide_eq_true in Ht.
           exists (default ∅ (tag_index s !! t)). split.
           ++ apply list_elem_of_fmap. by exists t.
           ++ apply Hi. by exists e.
  - unfold purge_paths. set (wanted := filter _ ps).
    destruct wanted as [|w ws] eqn:Ew.
    + apply purge_nothing; [done..|]. intros key l q. simpl. rewrite <-wanted_bool.
      apply bool_decide_eq_false_2. fold wanted. rewrite Ew. apply not_elem_of_nil.
    + rewrite <-Ew. apply purge_split; [done..| |]; intros; simpl; apply wanted_bool.
  - by apply purge_split.
  - unfold purge. destruct (purge_matching _ _) as [q s'] eqn:E.
    change s' with (q, s').2. rewrite <-E. by apply purge_split.
Qed.

(** ** The invariant *)

(** The bytes a fill answers for. *)
Definition fill_size (t : Temp) (c : Channel) : N :=
  meta_size (tmeta t) (ttags t) + (len (tpath t) + size_of (content c)).

(** Whoever will give a fill's bytes back: its writer, or its expiry task. *)
Definition own (w : World) (id : N) (h : Handler) : Prop :=
  handlers w !! id = Some h ∨ handoffs w !! id = Some h.

Definition pinned (w : World) : N :=
  map_sum accounted (handlers w) + map_sum accounted (handoffs w).

Definition fills_ok (w : World) : Prop :=
  handlers w ##ₘ handoffs w
  ∧ (∀ id h, own w id h → ∃ t c,
       fill (store w) (hkey h) id = Some t ∧ channels w !! id = Some c
       ∧ sender c = true ∧ accounted h = fill_size t c)
  ∧ (∀ key id t, fill (store w) key id = Some t → ∃ h, own w id h ∧ hkey h = key)
  ∧ (∀ id c, channels w !! id = Some c →
       id < next_id (store w) ∧ written_bytes (written c) = length (content c)).

Definition Winv (w : World) : Prop :=
  shape (store w) ∧ books (store w) (pinned w) ∧ fills_ok w ∧ next_id (store w) <= U64_MAX.

(** The store may change as long as its fills stay, invalidated or not. *)
Definition keeps_fills (s s' : Store) : Prop :=
  next_id s' = next_id s
  ∧ ∀ key id, ∃ g : Temp → Temp, (∀ t c, fill_size (g t) c = fill_size t c)
      ∧ fill s' key id = g <$> fill s key id.

Lemma same_fills_keeps s s' : same_fills s s' → keeps_fills s s'.
Proof.
  intros (Ht & _ & Hid & _). split; [done|]. intros key id. exists (λ t, t). split; [done|].
  unfold fill. rewrite Ht. by destruct (_ ≫= _).
Qed.

Lemma purged_keeps target s s' p : purged_by target s s' p → keeps_fills s s'.
Proof.
  intros (_ & _ & Hid & _ & _ & Hf). split; [done|]. intros key id.
  exists (λ t, if target key (ttags t) (tpath t) then invalidate t else t). split; [|apply Hf].
  intros t c. by destruct (target key (ttags t) (tpath t)).
Qed.

Lemma Winv_store s' w :
  Winv w → keeps_fills (store w) s' → shape s' → books s' (pinned w) →
  Winv (mkWorld s' (channels w) (handlers w) (handoffs w)).
Proof.
  intros (_ & _ & (Hd & Ho & Hf & Hc) & Hid) (Hn & Hk) Hs Hb.
  split; [done|]. split; [done|]. simpl. rewrite Hn. split; [|done].
  split; [done|]. split; [|split]; simpl.
  - intros id h Hown. destruct (Ho id h Hown) as (t & c & Ht & Hch & Hsend & Ha).
    destruct (Hk (hkey h) id) as (g & Hg & Hfill). rewrite Ht in Hfill.
    exists (g t), c. by rewrite Hg.
  - intros key id t Ht. destruct (Hk key id) as (g & _ & Hfill). rewrite Ht in Hfill.
    destruct (fill (store w) key id) as [t'|] eqn:E; [|done]. by apply (Hf key id t').
  - intros id c Hch. rewrite Hn. by apply Hc.
Qed.

Section StoreWorld.
Context {Meta : Type} (serialize : Meta → option BinaryMeta)
  (deserialize : BinaryMeta → option Meta) (has_field : Meta → string → bool)
  (field_text : Meta → string → option string).
Implicit Types w : World.

Lemma own_fresh w : fills_ok w → ∀ h, ¬ own w (next_id (store w)) h.
Proof.
  intros (_ & Ho & _ & Hc) h Hown. destruct (Ho _ _ Hown) as (t & c & _ & Hch & _).
  apply Hc in Hch as [Hlt _]. lia.
Qed.

(** Registering a fill. *)
Lemma Winv_register w s hash t :
  Winv w → next_id (store w) < U64_MAX →
  shape s → same_fills (store w) s → books s (pinned w + fill_size t (mkChannel [] (Partial 0) true)) →
  let '(id, s) := take_id s in
  Winv (mkWorld (insert_temp hash id t s) (<[id := mkChannel [] (Partial 0) true]> (channels w))
    (<[id := mkHandler hash (fill_size t (mkChannel [] (Partial 0) true))]> (handlers w))
    (handoffs w)).
Proof.
  intros (_ & _ & Hfo & Hid) Hlt Hs Hsame Hb. pose proof (own_fresh w Hfo) as Hfresh.
  destruct Hfo as (Hd & Ho & Hf & Hc).
  destruct Hsame as (Htemp & _ & Hn & _). unfold take_id.
  set (c0 := mkChannel _ _ _) in *. set (h0 := mkHandler _ _). rewrite Hn.
  set (id0 := next_id (store w)) in *.
  assert (handlers w !! id0 = None) as Hnone.
  { apply eq_None_not_Some. intros [h Hh]. apply (Hfresh h). by left. }
  assert (handoffs w !! id0 = None) as Hnone'.
  { apply eq_None_not_Some. intros [h Hh]. apply (Hfresh h). by right. }
  assert (wrapping_add id0 1 = id0 + 1) as Hw by (apply wrapping_add_small; lia).
  split; [done|]. split.
  { unfold pinned; simpl. rewrite map_sum_insert by done. simpl.
    eapply books_ext; [..|replace (_ + _ + _) with (pinned w + fill_size t c0)
      by (unfold pinned; lia); exact Hb]; done. }
  split; [|simpl; rewrite Hw; lia].
  set (s1 := mkStore _ _ _ _ _ _ _ _ _ _ _).
  assert (∀ key id, fill (insert_temp hash id0 t s1) key id
    = if decide (key = hash ∧ id = id0) then Some t else fill (store w) key id) as Hfill.
  { intros key id. rewrite fill_insert. unfold fill at 1. simpl. by rewrite Htemp. }
  split; [by apply map_disjoint_insert_l_2|]. split; [|split]; simpl.
  - intros id h Hown. rewrite Hfill. destruct (decide (id = id0)) as [->|Hne].
    + assert (h = h0) as ->.
      { destruct Hown as [H|H]; simpl in H; [|congruence].
        rewrite lookup_insert_eq in H. congruence. }
      exists t, c0. rewrite decide_True by done. by rewrite lookup_insert_eq.
    + rewrite decide_False by naive_solver. rewrite lookup_insert_ne by done.
      apply Ho. destruct Hown as [H|H]; simpl in H; [|by right].
      rewrite lookup_insert_ne in H by done. by left.
  - intros key id t' Ht'. rewrite Hfill in Ht'. case_decide as Hdec.
    + destruct Hdec as [-> ->]. exists h0. split; [|done]. left. simpl. apply lookup_insert_eq.
    + destruct (Hf key id t' Ht') as (h & [H|H] & Hk); exists h; (split; [|done]).
      * left. simpl. rewrite lookup_insert_ne; [done|]. intros ->. congruence.
      * by right.
  - intros id c Hch. rewrite Hw. destruct (decide (id = id0)) as [->|Hne].
    + rewrite lookup_insert_eq in Hch. injection Hch as <-. simpl. split; [lia|done].
    + rewrite lookup_insert_ne in Hch by done. apply Hc in Hch as [? ?]. split; [lia|done].
Qed.

(** Taking a fill off the books: its owner goes, its channel stays for the
    readers that hold it. *)
Lemma own_delete w id h :
  handlers w ##ₘ handoffs w → own w id h →
  (handlers w !! id = Some h ∧ delete id (handoffs w) = handoffs w)
  ∨ (handoffs w !! id = Some h ∧ delete id (handlers w) = handlers w).
Proof.
  intros Hd [H|H]; [left|right]; (split; [done|]); apply delete_id.
  - by eapply map_disjoint_Some_l.
  - by eapply map_disjoint_Some_r.
Qed.

Lemma pinned_remove w id h :
  handlers w ##ₘ handoffs w → own w id h →
  pinned w = accounted h
    + (map_sum accounted (delete id (handlers w)) + map_sum accounted (delete id (handoffs w))).
Proof.
  intros Hd Hown. unfold pinned. destruct (own_delete w id h Hd Hown) as [[H ->]|[H ->]].
  - rewrite (map_sum_delete accounted _ _ _ H). lia.
  - rewrite (map_sum_delete accounted _ _ _ H). lia.
Qed.

Lemma fills_ok_remove w s' cs' id h :
  fills_ok w → own w id h → next_id s' = next_id (store w) →
  (∀ key' id', fill s' key' id'
     = if decide (key' = hkey h ∧ id' = id) then None else fill (store w) key' id') →
  (∀ id', id' ≠ id → cs' !! id' = channels w !! id') →
  (∀ c, cs' !! id = Some c → written_bytes (written c) = length (content c)) →
  fills_ok (mkWorld s' cs' (delete id (handlers w)) (delete id (handoffs w))).
Proof.
  intros (Hd & Ho & Hf & Hc) Hown Hn Hfill Hcs Hci. split.
  { by apply map_disjoint_delete_l, map_disjoint_delete_r. }
  destruct (Ho id h Hown) as (t0 & c0 & _ & Hc0 & _).
  assert (∀ id' h', own (mkWorld s' cs' (delete id (handlers w)) (delete id (handoffs w))) id' h'
    ↔ id' ≠ id ∧ own w id' h') as Hown'.
  { intros id' h'. unfold own; simpl. rewrite !lookup_delete_Some. naive_solver. }
  split; [|split]; simpl.
  - intros id' h' [Hne Hh]%Hown'. rewrite Hfill, decide_False, Hcs by naive_solver. by apply Ho.
  - intros key id' t Ht. rewrite Hfill in Ht. case_decide as Hdec; [done|].
    destruct (Hf _ _ _ Ht) as (h' & Hh' & Hk). exists h'. split; [|done]. apply Hown'.
    split; [|done]. intros ->. destruct Hdec. split; [|done].
    destruct Hown as [H1|H1], Hh' as [H2|H2]; try congruence.
    + by destruct (map_disjoint_spec (handlers w) (handoffs w)) as [Hx _]; destruct (Hx Hd id h h').
    + by destruct (map_disjoint_spec (handlers w) (handoffs w)) as [Hx _]; destruct (Hx Hd id h' h).
  - intros id' c Hch. rewrite Hn. destruct (decide (id' = id)) as [->|Hne].
    + split; [|by apply Hci]. by apply Hc in Hc0 as [? _].
    + rewrite Hcs in Hch by done. by apply Hc.
Qed.

(** What [release] does to the books. *)
Lemma books_release s p n : books s (p + n) → books (release n s) p.
Proof. unfold books, release, saturating_sub; simpl. intros (Hu & Hm & Hx). split_and!; lia. Qed.

Lemma shape_release s n : shape s → shape (release n s).
Proof. by apply shape_ext. Qed.

Lemma hang_up_ne id id' cs : id' ≠ id → hang_up id cs !! id' = cs !! id'.
Proof. intros H. by apply lookup_alter_ne. Qed.

Lemma hang_up_eq id cs :
  hang_up id cs !! id = (λ c, mkChannel (content c) (written c) false) <$> cs !! id.
Proof. apply lookup_alter_eq. Qed.

Lemma Winv_retire w id h :
  Winv w → own w id h →
  Winv (retire h id w (delete id (handlers w)) (delete id (handoffs w))).
Proof.
  intros (Hs & Hb & Hfo & Hid) Hown. pose proof Hfo as (Hd & Ho & Hf & Hc).
  destruct (Ho id h Hown) as (t & c & Ht & Hch & _ & Ha).
  unfold retire. destruct (remove_temp_ok (hkey h) id (store w))
    as (H1 & H2 & H3 & H4 & H5 & H6 & H7 & H8).
  destruct (remove_temp (hkey h) id (store w)) as [r s]. simpl in *. subst r. rewrite Ht.
  rewrite (pinned_remove w id h Hd Hown), N.add_comm in Hb.
  split; [apply shape_release; by eapply shape_ext; [..|exact Hs]|].
  split; [apply books_release; by eapply books_ext; [..|exact Hb]|].
  split; [|simpl; by rewrite H8].
  apply (fills_ok_remove w _ _ id h); [done|done|done|exact H2|..].
  - intros id' Hne. by apply hang_up_ne.
  - intros c'. rewrite hang_up_eq, Hch. intros [= <-]. simpl. by apply Hc in Hch as [_ ?].
Qed.

(** A completed fill becomes an entry. *)
Lemma Winv_store_entry w id h t c :
  Winv w → own w id h → fill (store w) (hkey h) id = Some t → channels w !! id = Some c →
  let s := (remove_temp (hkey h) id (store w)).2 in
  let e := mkStored (tmeta t) (content c) (tpath t) (ttags t) false in
  let w' := mkWorld (admit_entry (hkey h) e s) (hang_up id (<[id := finish_channel c]> (channels w)))
              (delete id (handlers w)) (delete id (handoffs w)) in
  Winv w' ∧ cached (store w') = <[hkey h := e]> (cached (store w)).
Proof.
  intros (Hs & Hb & Hfo & Hid) Hown Ht Hch. pose proof Hfo as (Hd & Ho & Hf & Hc).
  destruct (Ho id h Hown) as (t' & c' & Ht' & Hch' & _ & Ha).
  rewrite Ht in Ht'; injection Ht' as <-. rewrite Hch in Hch'; injection Hch' as <-.
  destruct (remove_temp_ok (hkey h) id (store w)) as (H1 & H2 & H3 & H4 & H5 & H6 & H7 & H8).
  cbv zeta. set (s := (remove_temp _ _ _).2) in *. set (e := mkStored _ _ _ _ _).
  rewrite (pinned_remove w id h Hd Hown), N.add_comm in Hb.
  assert (stored_size e = accounted h) as Hsz.
  { rewrite Ha. unfold fill_size. rewrite stored_size_split. unfold e; simpl. lia. }
  destruct (admit_entry_ok (hkey h) e s _ ltac:(by eapply shape_ext; [..|exact Hs])
    ltac:(rewrite Hsz; by eapply books_ext; [..|exact Hb])) as (A1 & A2 & A3 & A4).
  split; [|cbn [store]; by rewrite A4, H3].
  destruct A3 as (B1 & B2 & B3 & _).
  split; [done|]. split; [done|]. split; [|cbn [store]; by rewrite B3, H8].
  apply (fills_ok_remove w _ _ id h); [done|done|by rewrite B3, H8|..].
  - intros key' id'. unfold fill at 1. rewrite B1. apply H2.
  - intros id' Hne. by rewrite hang_up_ne, lookup_insert_ne.
  - intros c'. rewrite hang_up_eq, lookup_insert_eq. intros [= <-]. simpl.
    by apply Hc in Hch as [_ ?].
Qed.

(** A writer's fill is there for as long as the writer is. *)
Lemma handler_fill w id h :
  Winv w → handlers w !! id = Some h →
  ∃ t c, fill (store w) (hkey h) id = Some t ∧ channels w !! id = Some c
    ∧ sender c = true ∧ accounted h = fill_size t c
    ∧ written_bytes (written c) = length (content c) ∧ handoffs w !! id = None.
Proof.
  intros (_ & _ & (Hd & Ho & _ & Hc) & _) Hh.
  destruct (Ho id h (or_introl Hh)) as (t & c & Ht & Hch & Hsend & Ha).
  exists t, c. split_and!; try done; [by apply Hc in Hch as [_ ?]|].
  by eapply map_disjoint_Some_l.
Qed.

Lemma Winv_write w id data eof r w' :
  Winv w → write_body id data eof w = (r, w') → Winv w'.
Proof.
  intros HW. unfold write_body. destruct (handlers w !! id) as [h|] eqn:Hh; [|by intros [= _ <-]].
  destruct (handler_fill w id h HW Hh) as (t & c & Ht & Hch & Hsend & Ha & Hwr & Hho).
  rewrite Hch. pose proof HW as (Hs & Hb & Hfo & Hid).
  set (res := if (length data =? 0)%nat then (true, store w) else reserve (size_of data) (store w)).
  assert (shape res.2 ∧ same_fills (store w) res.2
    ∧ books res.2 (if res.1 then pinned w + size_of data else pinned w)) as (Hs' & Hsame & Hb').
  { unfold res. destruct (Nat.eqb_spec (length data) 0) as [Hz|Hz].
    - split; [done|]. split; [done|]. unfold size_of; simpl. by rewrite Hz, N.add_0_r.
    - pose proof (reserve_ok (size_of data) (store w) _ Hs Hb) as H.
      destruct (reserve (size_of data) (store w)) as [ok s']. naive_solver. }
  destruct res as [ok s']. simpl in *. destruct ok; simpl.
  2: { intros [= _ <-]. apply Winv_store; [done|by apply same_fills_keeps|done..]. }
  intros [= _ <-].
  set (c' := mkChannel _ _ _). 
  pose proof (map_sum_elem accounted _ _ _ Hh) as Hle. pose proof Hb' as (Hu & Hm & Hx).
  rewrite wrapping_add_small by (unfold pinned in *; lia).
  set (h' := mkHandler _ _).
  destruct Hsame as (Htemp & Hmax & Hn & _). destruct Hfo as (Hd & Ho & Hf & Hc).
  split; [done|]. split.
  { pose proof (map_sum_update accounted (handlers w) id h h' Hh) as Hup. simpl in Hup.
    assert (pinned (mkWorld s' (<[id:=c']> (channels w)) (<[id:=h']> (handlers w)) (handoffs w))
      = pinned w + size_of data) as ->; [unfold pinned; simpl; lia|done]. }
  split; [|simpl; by rewrite Hn].
  assert (∀ k i, fill s' k i = fill (store w) k i) as Hfill by (intros k i; unfold fill; by rewrite Htemp).
  split; [|split; [|split]]; simpl.
  - apply map_disjoint_insert_l_2; [done|done].
  - intros id' h1 Hown. rewrite Hfill. destruct (decide (id' = id)) as [->|Hne].
    + assert (h1 = h') as ->.
      { destruct Hown as [H|H]; simpl in H; [rewrite lookup_insert_eq in H|]; congruence. }
      exists t, c'. rewrite lookup_insert_eq. split_and!; try done.
      simpl. rewrite Ha. unfold fill_size, c', size_of; simpl. rewrite length_app. lia.
    + rewrite lookup_insert_ne by done. apply Ho.
      destruct Hown as [H|H]; simpl in H; [rewrite lookup_insert_ne in H by done; by left|by right].
  - intros key id' t' Ht'. rewrite Hfill in Ht'. destruct (Hf _ _ _ Ht') as (h1 & Hown & Hk).
    destruct (decide (id' = id)) as [->|Hne].
    + exists h'. split; [left; simpl; apply lookup_insert_eq|].
      assert (h1 = h) as -> by (destruct Hown; congruence). done.
    + exists h1. split; [|done]. destruct Hown as [H|H]; [left|by right].
      simpl. by rewrite lookup_insert_ne.
  - intros id' c1 Hc1. rewrite Hn. destruct (decide (id' = id)) as [->|Hne].
    + rewrite lookup_insert_eq in Hc1. injection Hc1 as <-. apply Hc in Hch as [? _].
      split; [done|]. unfold c'; simpl. rewrite length_app. destruct eof; simpl; lia.
    + rewrite lookup_insert_ne in Hc1 by done. by apply Hc.
Qed.

(** [finish] never loses its fill: the writer either hands it to the expiry
    task, gives its bytes back because a purge matched it, or stores it. *)
Lemma finish_cases w id h :
  Winv w → handlers w !! id = Some h →
  ∃ t c, fill (store w) (hkey h) id = Some t ∧ channels w !! id = Some c
  ∧ finish id w =
    let cs := <[id := finish_channel c]> (channels w) in
    let hs := delete id (handlers w) in
    let s := (remove_temp (hkey h) id (store w)).2 in
    if transient t then
      (Ok (length (content c), None), mkWorld (store w) cs hs (<[id := h]> (handoffs w)))
    else if invalidated t then
      (Ok (length (content c), None),
       mkWorld (release (accounted h) s) (hang_up id cs) hs (handoffs w))
    else
      (Ok (length (content c), Some (hkey h)),
       mkWorld (admit_entry (hkey h)
                  (mkStored (tmeta t) (content c) (tpath t) (ttags t) false) s)
         (hang_up id cs) hs (handoffs w)).
Proof.
  intros HW Hh. destruct (handler_fill w id h HW Hh) as (t & c & Ht & Hch & _).
  exists t, c. split; [done|]. split; [done|]. unfold finish. rewrite Hh, Hch.
  change (writes ← temp (store w) !! hkey h; (writes : gmap N Temp) !! id)
    with (fill (store w) (hkey h) id). rewrite Ht.
  destruct (remove_temp_ok (hkey h) id (store w)) as (H1 & _).
  destruct (remove_temp (hkey h) id (store w)) as [r s]. simpl in *. subst r. rewrite Ht.
  by destruct (transient t), (invalidated t).
Qed.

Lemma Winv_handoff w id h c :
  Winv w → handlers w !! id = Some h → channels w !! id = Some c →
  Winv (mkWorld (store w) (<[id := finish_channel c]> (channels w))
    (delete id (handlers w)) (<[id := h]> (handoffs w))).
Proof.
  intros HW Hh Hch. destruct (handler_fill w id h HW Hh)
    as (t & c' & Ht & Hch' & Hsend & Ha & Hwr & Hho).
  rewrite Hch in Hch'; injection Hch' as <-.
  destruct HW as (Hs & Hb & (Hd & Ho & Hf & Hc) & Hid).
  split; [done|]. split.
  { unfold pinned in *; simpl. rewrite map_sum_insert by done.
    rewrite (map_sum_delete accounted _ _ _ Hh) in Hb.
    replace (_ + (_ + _)) with (accounted h + map_sum accounted (delete id (handlers w))
      + map_sum accounted (handoffs w)) by lia. exact Hb. }
  split; [|done].
  assert (∀ id' h', own (mkWorld (store w) (<[id := finish_channel c]> (channels w))
    (delete id (handlers w)) (<[id := h]> (handoffs w))) id' h' ↔ own w id' h') as Hown.
  { intros id' h'. unfold own; simpl. destruct (decide (id' = id)) as [->|Hne].
    - rewrite lookup_delete_eq, lookup_insert_eq, Hh, Hho. naive_solver.
    - by rewrite lookup_delete_ne, lookup_insert_ne. }
  split; [|split; [|split]]; simpl.
  - apply map_disjoint_insert_r_2; [apply lookup_delete_eq|by apply map_disjoint_delete_l].
  - intros id' h' Hh'%Hown. destruct (Ho id' h' Hh') as (t' & c1 & Ht' & Hc1 & Hs1 & Ha1).
    exists t'. destruct (decide (id' = id)) as [->|Hne].
    + rewrite Hch in Hc1; injection Hc1 as <-.
      exists (finish_channel c). by rewrite lookup_insert_eq.
    + exists c1. by rewrite lookup_insert_ne.
  - intros key id' t' Ht'. destruct (Hf _ _ _ Ht') as (h' & Hh' & Hk). exists h'.
    split; [by apply Hown|done].
  - intros id' c1 Hc1. destruct (decide (id' = id)) as [->|Hne].
    + rewrite lookup_insert_eq in Hc1. injection Hc1 as <-. simpl. by apply (Hc id c).
    + rewrite lookup_insert_ne in Hc1 by done. by apply Hc.
Qed.

Lemma Winv_finish w id r w' : Winv w → finish id w = (r, w') → Winv w'.
Proof.
  intros HW. destruct (handlers w !! id) as [h|] eqn:Hh.
  2: { unfold finish. rewrite Hh. by intros [= _ <-]. }
  destruct (finish_cases w id h HW Hh) as (t & c & Ht & Hch & ->). cbv zeta.
  assert (own w id h) as Hown by by left.
  assert (delete id (handoffs w) = handoffs w) as Hho.
  { apply delete_id. by destruct (handler_fill w id h HW Hh) as (? & ? & _ & _ & _ & _ & _ & ?). }
  destruct (transient t); [intros [= _ <-]; by apply Winv_handoff|].
  destruct (invalidated t); intros [= _ <-]; rewrite <-Hho.
  - pose proof (Winv_retire w id h HW Hown) as H. unfold retire in H.
    destruct (remove_temp_ok (hkey h) id (store w)) as (H1 & _).
    destruct (remove_temp (hkey h) id (store w)) as [r' s]. simpl in *. subst r'.
    rewrite Ht in H. destruct H as (A1 & A2 & (B1 & B2 & B3 & B4) & A4).
    split; [done|]. split; [done|]. split; [|done]. split; [done|]. split; [|split; [done|]].
    + intros id' h' Hh'. destruct (B2 id' h' Hh') as (t' & c' & X1 & X2 & X3). exists t', c'.
      split; [done|]. split; [|done]. simpl in *. rewrite <-X2.
      destruct (decide (id' = id)) as [->|Hne].
      * destruct Hh' as [Y|Y]; simpl in Y; by rewrite lookup_delete_eq in Y.
      * by rewrite !hang_up_ne, lookup_insert_ne.
    + intros id' c'. simpl. destruct (decide (id' = id)) as [->|Hne].
      * rewrite hang_up_eq, lookup_insert_eq. intros [= <-]. simpl.
        apply (B4 id (mkChannel (content c) (written c) false)). simpl.
        by rewrite hang_up_eq, Hch.
      * rewrite hang_up_ne, lookup_insert_ne by done. intros Hc'. apply (B4 id' c'). simpl.
        by rewrite hang_up_ne.
  - by apply (Winv_store_entry w id h t c).
Qed.

Lemma retire_owner w id h :
  Winv w → own w id h →
  (handlers w !! id = Some h → Winv (retire h id w (delete id (handlers w)) (handoffs w)))
  ∧ (handoffs w !! id = Some h → Winv (retire h id w (handlers w) (delete id (handoffs w)))).
Proof.
  intros HW Hown. pose proof (Winv_retire w id h HW Hown) as H.
  destruct HW as (_ & _ & (Hd & _) & _). split; intros Hh.
  - by rewrite (delete_id (handoffs w)) in H by (by eapply map_disjoint_Some_l).
  - by rewrite (delete_id (handlers w)) in H by (by eapply map_disjoint_Some_r).
Qed.

Lemma Winv_start w hash ut m r w' :
  Winv w → next_id (store w) < U64_MAX ∨ (∃ e, r = Err e) →
  get_miss_handler serialize has_field field_text hash ut m w = (r, w') → Winv w'.
Proof.
  intros HW Hlt. unfold get_miss_handler. destruct (serialize m) as [bm|]; [|by intros [= _ <-]].
  set (ts := if has_field m TRANSIENT_HEADER then [] else _).
  set (pt := if has_field m TRANSIENT_HEADER then _ else ut).
  pose proof HW as (Hs & Hb & _).
  pose proof (reserve_ok (meta_size bm ts + len pt) (store w) _ Hs Hb) as Hres.
  destruct (reserve (meta_size bm ts + len pt) (store w)) as [ok s].
  destruct Hres as (Hs' & Hsame & Hb' & _). destruct ok; simpl.
  - intros E. destruct Hlt as [Hlt|[e ->]]; [|done].
    set (t := mkTemp bm (has_field m TRANSIENT_HEADER) ts pt false) in *.
    assert (fill_size t (mkChannel [] (Partial 0) true) = meta_size bm ts + len pt) as Hsz.
    { unfold fill_size, size_of; simpl. lia. }
    rewrite <-Hsz in Hb'.
    pose proof (Winv_register w s hash t HW Hlt Hs' Hsame Hb') as H. unfold take_id in *.
    rewrite Hsz in H. by injection E as <- <-.
  - intros [= _ <-]. apply Winv_store; [done|by apply same_fills_keeps|done..].
Qed.

Abbreviation wstep := (step serialize deserialize has_field field_text).
Abbreviation wsteps := (steps serialize deserialize has_field field_text).
Abbreviation wreachable := (reachable serialize deserialize has_field field_text).

Lemma step_Winv w e w' : Winv w → wstep w e w' → Winv w'.
Proof.
  intros HW Hstep. pose proof HW as (Hs & Hb & _).
  destruct Hstep as [w hash ut m id w' Hlt E|w hash ut m e w' E|w id data eof r w' E
    |w id size r w' key e E Hr He|w id size w' E|w id|w id|w hash|w hash m|w op].
  - eapply Winv_start; [done|by left|exact E].
  - eapply Winv_start; [done| |exact E]. right. by exists e.
  - by eapply Winv_write.
  - by eapply Winv_finish.
  - by eapply Winv_finish.
  - unfold drop_handler. destruct (handlers w !! id) as [h|] eqn:Hh; [|done].
    by apply (retire_owner w id h); [|left|].
  - unfold expire_handoff. destruct (handoffs w !! id) as [h|] eqn:Hh; [|done].
    by apply (retire_owner w id h); [|right|].
  - destruct (lookup_ok deserialize hash (store w) _ Hs Hb) as (H1 & H2 & H3 & _).
    apply Winv_store; [done|by apply same_fills_keeps|done..].
  - destruct (update_meta_ok serialize deserialize field_text hash m (store w) _ Hs Hb) as (H1 & H2 & H3).
    apply Winv_store; [done|by apply same_fills_keeps|done..].
  - pose proof (run_purge_ok op (store w) _ Hs Hb) as H. apply Winv_store; [done|..];
      [by eapply purged_keeps|apply H|apply H].
Qed.

Lemma Winv_boot cfg :
  as_usize (CacheDefaults.max_memory cfg) < USIZE_MAX → Winv (boot cfg).
Proof.
  intros Hm. split; [|split; [|split]].
  - split; split; simpl; [constructor| |apply map_Forall_empty|].
    + intros k. rewrite lookup_empty, elem_of_nil. split; [done|by intros []].
    + intros t k. unfold mem. rewrite lookup_empty. simpl. split; [set_solver|].
      intros (e & He & _). by rewrite lookup_empty in He.
  - split; simpl; [|split; [lia|done]]. unfold pinned; simpl. by rewrite !map_sum_empty.
  - split; [apply map_disjoint_empty_l|]. split; [|split]; simpl.
    + intros id h [H|H]; simpl in H; by rewrite lookup_empty in H.
    + intros key id t. unfold fill; simpl. by rewrite lookup_empty.
    + intros id c. by rewrite lookup_empty.
  - simpl. lia.
Qed.

Lemma steps_Winv w es w' : Winv w → wsteps w es w' → Winv w'.
Proof. intros HW. induction 1; [done|]. by eauto using step_Winv. Qed.

Lemma reachable_Winv w : wreachable w → Winv w.
Proof. intros (cfg & es & Hm & Hsteps). eapply steps_Winv; [by apply Winv_boot|exact Hsteps]. Qed.
End StoreWorld.
