(* ===== verification/StoreTheorems.v ===== *)
(** * Properties of the store

    The budget, purging, eviction and following, over every interleaving of the
    store's operations ([Store.step]). *)

From S2P Require Import Prelude Words Text Units Schema Store StoreFacts StoreSafety.
Local Open Scope string_scope.
Local Open Scope list_scope.
Local Open Scope N_scope.

Section StoreTheorems.
Context {Meta : Type} (serialize : Meta → option BinaryMeta)
  (deserialize : BinaryMeta → option Meta) (has_field : Meta → string → bool)
  (field_text : Meta → string → option string).
Abbreviation wstep := (step serialize deserialize has_field field_text).
Abbreviation wsteps := (steps serialize deserialize has_field field_text).
Abbreviation wreachable := (reachable serialize deserialize has_field field_text).

(** C7: Whatever fills, reads, updates, evictions, purges, failures and expiries
    happened, every byte is accounted exactly once — the completed entries and
    the fills still owed to someone — and the total never exceeds the budget;
    the eviction queue lists exactly the entries, each once; and the tag index
    holds exactly the tags the entries carry, with no empty tag left behind. *)
Theorem store_keeps_its_books w :
  wreachable w →
  let s := store w in
  used s = map_sum stored_size (cached s) + pinned w ∧ used s <= max_bytes s
  ∧ (NoDup (order s) ∧ ∀ k, k ∈ order s ↔ is_Some (cached s !! k))
  ∧ (∀ t k, k ∈ default ∅ (tag_index s !! t) ↔ ∃ e, cached s !! k = Some e ∧ t ∈ tags e)
  ∧ map_Forall (λ _ ks, ks ≠ ∅) (tag_index s).
Proof.
  intros (((Hn & Ho) & (He & Hi)) & (Hu & Hm & _) & _)%reachable_Winv. by split_and!.
Qed.

(** C26: Making room always ends, with an exact answer: the eviction loop never
    runs out of turns, and it succeeds if and only if the request fits beside
    the fills in progress, which no eviction can remove. *)
Theorem reserve_exact w n :
  wreachable w →
  (∃ r, reserve_loop (N.to_nat (initial_chances (store w)) + length (order (store w)))
          (initial_chances (store w)) n (store w) = Some r)
  ∧ (reserve n (store w)).1 = (pinned w + n <=? max_bytes (store w)).
Proof.
  intros (Hs & Hb & _)%reachable_Winv. split.
  - destruct (reserve_loop_ok _ (initial_chances (store w)) n _ _ Hs Hb (le_n _))
      as (ok & s' & H & _). by exists (ok, s').
  - pose proof (reserve_ok n _ _ Hs Hb) as H. destruct (reserve n (store w)). by apply H.
Qed.

(** A purge — by tags, by paths, of everything, or of one key — removes
    exactly the entries it is aimed at, keeps every other entry as it was, and
    marks exactly the matching fills in progress. *)
Theorem purge_exact w op :
  wreachable w →
  let s := store w in let s' := run_purge op s in
  cached s' = filter (λ kv, targets op kv.1 (tags kv.2) (path kv.2) = false) (cached s)
  ∧ ∀ key id, fill s' key id =
      (λ t, if targets op key (ttags t) (tpath t) then invalidate t else t) <$> fill s key id.
Proof.
  intros (Hs & Hb & _)%reachable_Winv.
  by destruct (run_purge_ok op _ _ Hs Hb) as (_ & _ & _ & _ & H1 & H2).
Qed.

(** ** Purged content does not come back *)

(** Every fill older than [n0] that the purge was aimed at is marked. *)
Definition marked (op : PurgeOp) (n0 : N) (w : World) : Prop :=
  n0 <= next_id (store w)
  ∧ ∀ key id t, fill (store w) key id = Some t → id < n0 →
      targets op key (ttags t) (tpath t) = true → invalidated t = true.

Lemma marked_store op n0 w s' :
  marked op n0 w → next_id s' = next_id (store w) →
  (∀ key id t', fill s' key id = Some t' → ∃ t, fill (store w) key id = Some t
     ∧ ttags t' = ttags t ∧ tpath t' = tpath t
     ∧ (invalidated t = true → invalidated t' = true)) →
  ∀ cs hs ho, marked op n0 (mkWorld s' cs hs ho).
Proof.
  intros (Hn & Hm) Hid Hf cs hs ho. split; simpl; [by rewrite Hid|].
  intros key id t' Ht' Hlt Htg. destruct (Hf _ _ _ Ht') as (t & Ht & Hts & Htp & Hi).
  apply Hi. apply (Hm key id t Ht Hlt). by rewrite <-Hts, <-Htp.
Qed.

Lemma marked_same op n0 w s' cs hs ho :
  marked op n0 w → same_fills (store w) s' → marked op n0 (mkWorld s' cs hs ho).
Proof.
  intros Hm (Ht & _ & Hn & _). apply (marked_store op n0 w); [done|done|].
  unfold fill. rewrite Ht. intros key id t Hf. by exists t.
Qed.

Lemma marked_remove op n0 w k i s' cs hs ho :
  marked op n0 w → temp s' = temp (remove_temp k i (store w)).2 →
  next_id s' = next_id (store w) → marked op n0 (mkWorld s' cs hs ho).
Proof.
  intros Hm Ht Hn. apply (marked_store op n0 w); [done|done|].
  destruct (remove_temp_ok k i (store w)) as (_ & H & _). intros key id t Hf.
  unfold fill in Hf. rewrite Ht in Hf. fold (fill (remove_temp k i (store w)).2 key id) in Hf.
  rewrite H in Hf. case_decide; [done|]. by exists t.
Qed.

Lemma marked_start op n0 w hash ut m r w' :
  Winv w → marked op n0 w → next_id (store w) < U64_MAX ∨ (∃ e, r = Err e) →
  get_miss_handler serialize has_field field_text hash ut m w = (r, w') → marked op n0 w'.
Proof.
  intros (Hs & Hb & _) Hm Hlt. unfold get_miss_handler.
  destruct (serialize m) as [bm|]; [|by intros [= _ <-]].
  match goal with |- context [reserve ?n _] =>
    pose proof (reserve_ok n (store w) _ Hs Hb) as Hres; destruct (reserve n (store w)) as [ok s] end.
  destruct Hres as (_ & Hsame & _). destruct ok; simpl; intros E.
  - destruct Hlt as [Hlt|[e ->]]; [|done]. injection E as _ <-.
    destruct Hm as (Hn & Hm). destruct Hsame as (Htemp & _ & Hnx & _).
    split; simpl; rewrite Hnx; [rewrite wrapping_add_small by lia; lia|].
    intros key id t Ht Hid. rewrite fill_insert in Ht. case_decide as Hd; [lia|].
    unfold fill in Ht; simpl in Ht. rewrite Htemp in Ht.
    exact (Hm key id t Ht Hid).
  - injection E as _ <-. by eapply marked_same.
Qed.

Lemma marked_write op n0 w id data eof r w' :
  Winv w → marked op n0 w → write_body id data eof w = (r, w') → marked op n0 w'.
Proof.
  intros (Hs & Hb & _) Hm. unfold write_body.
  destruct (handlers w !! id) as [h|]; [|by intros [= _ <-]].
  destruct (channels w !! id) as [c|]; [|by intros [= _ <-]].
  set (res := if (length data =? 0)%nat then _ else _).
  assert (same_fills (store w) res.2) as Hsame.
  { unfold res. destruct (length data =? 0)%nat; [done|].
    pose proof (reserve_ok (size_of data) (store w) _ Hs Hb) as H.
    destruct (reserve (size_of data) (store w)). apply H. }
  destruct res as [ok s]. destruct ok; intros [= _ <-]; by eapply marked_same.
Qed.

Lemma next_id_remove k i s : next_id (remove_temp k i s).2 = next_id s.
Proof. by destruct (remove_temp_ok k i s) as (_ & _ & _ & _ & _ & _ & _ & H). Qed.

Lemma marked_retire op n0 w h id hs ho :
  marked op n0 w → marked op n0 (retire h id w hs ho).
Proof.
  intros Hm. unfold retire. destruct (remove_temp (hkey h) id (store w)) as [r s] eqn:E.
  assert (s = (remove_temp (hkey h) id (store w)).2) as -> by (by rewrite E).
  destruct r; (eapply marked_remove; [done|reflexivity|apply next_id_remove]).
Qed.

Lemma marked_finish op n0 w id r w' :
  Winv w → marked op n0 w → finish id w = (r, w') →
  marked op n0 w'
  ∧ ∀ size key e, r = Ok (size, Some key) → entry_of id key w = Some e →
      targets op key (tags e) (path e) = true → n0 <= id.
Proof.
  intros HW Hm. destruct (handlers w !! id) as [h|] eqn:Hh.
  2: { unfold finish. rewrite Hh. by intros [= <- <-]. }
  destruct (finish_cases w id h HW Hh) as (t & c & Ht & Hch & ->). cbv zeta.
  destruct (transient t); [intros [= <- <-]; split; [by apply (marked_same op n0 w)|done]|].
  destruct (invalidated t) eqn:Hinv; intros [= <- <-].
  - split; [|done]. eapply marked_remove; [done|reflexivity|apply next_id_remove].
  - split.
    + eapply marked_remove; [done|by unfold admit_entry; case_match|].
      rewrite <-(next_id_remove (hkey h) id (store w)). by unfold admit_entry; case_match.
    + intros size key e [= <- <-] He Htg. unfold entry_of, fill in *.
      destruct (temp (store w) !! hkey h) as [ws|] eqn:Etemp; [|done]. simpl in *.
      rewrite Ht, Hch in He. injection He as <-. simpl in Htg.
      destruct (N.lt_ge_cases id n0) as [Hlt|]; [|done].
      destruct Hm as (_ & Hm). rewrite (Hm (hkey h) id t) in Hinv; try done.
      unfold fill. by rewrite Etemp.
Qed.

Lemma marked_purge op n0 op' w :
  Winv w → marked op n0 w → marked op n0 (with_store (run_purge op') w).
Proof.
  intros (Hs & Hb & _) Hm.
  destruct (run_purge_ok op' _ _ Hs Hb) as (_ & _ & Hn & _ & _ & Hf).
  apply (marked_store op n0 w); [done|done|]. intros key id t'. rewrite Hf.
  destruct (fill (store w) key id) as [t|]; simpl; [|done]. intros [= <-]. exists t.
  by destruct (targets op' key (ttags t) (tpath t)).
Qed.

Lemma step_marked op n0 w e w' :
  Winv w → marked op n0 w → wstep w e w' →
  marked op n0 w'
  ∧ ∀ id key obj, e = EvStore id key obj → targets op key (tags obj) (path obj) = true → n0 <= id.
Proof.
  intros HW Hm Hstep. pose proof HW as (Hs & Hb & _).
  destruct Hstep as [w hash ut m id w' Hlt E|w hash ut m e w' E|w id data eof r w' E
    |w id size r w' key e E Hr He|w id size w' E|w id|w id|w hash|w hash m|w op'].
  - split; [|done]. eapply marked_start; [done|done|by left|exact E].
  - split; [|done]. eapply marked_start; [done|done| |exact E]. right. by exists e.
  - split; [|done]. by eapply marked_write.
  - destruct (marked_finish _ _ _ _ _ _ HW Hm E) as [H1 H2]. split; [done|].
    intros id' key' obj [= <- <- <-]. by eapply H2.
  - by destruct (marked_finish _ _ _ _ _ _ HW Hm E) as [H1 _].
  - split; [|done]. unfold drop_handler. case_match; [by apply marked_retire|done].
  - split; [|done]. unfold expire_handoff. case_match; [by apply marked_retire|done].
  - split; [|done]. apply (marked_same op n0 w); [done|]. by eapply lookup_ok.
  - split; [|done]. apply (marked_same op n0 w); [done|].
    by eapply (update_meta_ok serialize deserialize).
  - split; [|done]. by apply marked_purge.
Qed.

Lemma steps_marked op n0 w es w' :
  Winv w → marked op n0 w → wsteps w es w' →
  ∀ id key obj, EvStore id key obj ∈ es → targets op key (tags obj) (path obj) = true → n0 <= id.
Proof.
  intros HW Hm H. induction H as [w|w e w1 es w2 Hstep Hsteps IH]; intros id key obj Hin Htg.
  - by apply elem_of_nil in Hin.
  - destruct (step_marked _ _ _ _ _ HW Hm Hstep) as [Hm1 Hev].
    apply elem_of_cons in Hin as [<-|Hin]; [by eapply Hev|].
    apply (IH ltac:(by eapply step_Winv) Hm1 id key obj Hin Htg).
Qed.

Lemma purge_marks op w :
  Winv w → marked op (next_id (store w)) (with_store (run_purge op) w).
Proof.
  intros (Hs & Hb & _). destruct (run_purge_ok op _ _ Hs Hb) as (_ & _ & Hn & _ & _ & Hf).
  split; simpl; [by rewrite Hn|]. intros key id t' Ht' _ Htg. rewrite Hf in Ht'.
  destruct (fill (store w) key id) as [t|]; [|done]. simpl in Ht'. injection Ht' as <-.
  destruct (targets op key (ttags t) (tpath t)) eqn:E; [done|]. by rewrite E in Htg.
Qed.

(** C8: What was purged does not come back: after a purge, however fills,
    reads and further purges interleave, an entry the purge was aimed at is
    only ever stored by a fill that started after it.  A response that was
    already on its way when its tag was purged is delivered, not kept. *)
Theorem purged_never_resurrected w op es w' id key e :
  wreachable w → wsteps (with_store (run_purge op) w) es w' →
  EvStore id key e ∈ es → targets op key (tags e) (path e) = true →
  next_id (store w) <= id.
Proof.
  intros HW%reachable_Winv Hsteps Hin Htg.
  eapply steps_marked; [|by apply purge_marks|exact Hsteps|exact Hin|exact Htg].
  eapply step_Winv; [exact HW|apply (step_purge serialize deserialize has_field field_text)].
Qed.

(** ** Following a fill *)

(** A follower of fill [id]: it attached in some state, the process moved on,
    and it has read [got] so far, up to offset [read]. *)
Inductive follows (id : N) : World → nat → bytes → Prop :=
| follows_attach w : wreachable w → is_Some (channels w !! id) → follows id w 0 []
| follows_step w e w' read got :
    follows id w read got → wstep w e w' → follows id w' read got
| follows_read w c read got chunk read' :
    follows id w read got → channels w !! id = Some c →
    partial_read c read = Data chunk read' → follows id w read' (got ++ chunk).

(** A channel outlives its fill, and its content only grows at the end. *)
Lemma retire_channels h id w hs ho : channels (retire h id w hs ho) = hang_up id (channels w).
Proof. unfold retire. by destruct (remove_temp (hkey h) id (store w)) as [[?|] ?]. Qed.

Lemma hang_up_content id i (cs : gmap N Channel) c :
  cs !! i = Some c → ∃ c', hang_up id cs !! i = Some c' ∧ content c' = content c.
Proof.
  intros H. destruct (decide (i = id)) as [->|Hne].
  - rewrite hang_up_eq, H. by eexists.
  - rewrite hang_up_ne by done. by exists c.
Qed.

Lemma finish_channels w i id c r w' :
  Winv w → channels w !! i = Some c → finish id w = (r, w') →
  ∃ c', channels w' !! i = Some c' ∧ content c' = content c.
Proof.
  intros HW Hi. destruct (handlers w !! id) as [h|] eqn:Hh.
  2: { unfold finish. rewrite Hh. intros [= _ <-]. by exists c. }
  destruct (finish_cases w id h HW Hh) as (t & c0 & Ht & Hch & ->). cbv zeta.
  assert (∃ c', <[id := finish_channel c0]> (channels w) !! i = Some c' ∧ content c' = content c)
    as (c1 & Hc1 & Hcc).
  { destruct (decide (i = id)) as [->|Hne].
    - rewrite lookup_insert_eq. rewrite Hi in Hch. injection Hch as <-. by eexists.
    - rewrite lookup_insert_ne by done. by exists c. }
  destruct (hang_up_content id i _ _ Hc1) as (c2 & Hc2 & Hcc2).
  destruct (transient t); [intros [= _ <-]; by exists c1|].
  destruct (invalidated t); intros [= _ <-]; exists c2; by rewrite Hcc2.
Qed.

Lemma start_channels w hash ut m r w' i c :
  Winv w → channels w !! i = Some c →
  get_miss_handler serialize has_field field_text hash ut m w = (r, w') → channels w' !! i = Some c.
Proof.
  intros (Hs & Hb & (_ & _ & _ & Hc) & _) Hi. unfold get_miss_handler.
  destruct (serialize m) as [bm|]; [|by intros [= _ <-]].
  match goal with |- context [reserve ?n _] =>
    pose proof (reserve_ok n (store w) _ Hs Hb) as Hres; destruct (reserve n (store w)) as [ok s] end.
  destruct Hres as (_ & (_ & _ & Hn & _) & _). destruct ok; simpl; intros [= _ <-]; [|done].
  simpl. rewrite Hn. apply Hc in Hi as Hlt. rewrite lookup_insert_ne; [done|lia].
Qed.

Lemma step_channel w e w' i c :
  Winv w → wstep w e w' → channels w !! i = Some c →
  ∃ c', channels w' !! i = Some c' ∧ content c `prefix_of` content c'.
Proof.
  intros HW Hstep Hi.
  destruct Hstep as [w hash ut m id w' Hlt E|w hash ut m e w' E|w id data eof r w' E
    |w id size r w' key e E Hr He|w id size w' E|w id|w id|w hash|w hash m|w op'].
  - exists c. split; [by eapply start_channels|done].
  - exists c. split; [by eapply start_channels|done].
  - unfold write_body in E. destruct (handlers w !! id) as [h|]; [|injection E as _ <-; by exists c].
    destruct (channels w !! id) as [c0|] eqn:E0; [|injection E as _ <-; by exists c].
    set (res := if (length data =? 0)%nat then _ else _) in E. destruct res as [ok s].
    destruct ok; injection E as _ <-; [|by exists c]. simpl.
    destruct (decide (i = id)) as [->|Hne].
    + rewrite lookup_insert_eq. rewrite Hi in E0. injection E0 as ->. eexists. split; [done|].
      simpl. by apply prefix_app_r.
    + rewrite lookup_insert_ne by done. by exists c.
  - destruct (finish_channels w i id c r w' HW Hi E) as (c' & H1 & H2). exists c'. by rewrite H2.
  - destruct (finish_channels w i id c _ w' HW Hi E) as (c' & H1 & H2). exists c'. by rewrite H2.
  - unfold drop_handler. case_match; [|by exists c]. rewrite retire_channels.
    destruct (hang_up_content id i _ _ Hi) as (c' & H1 & H2). exists c'. by rewrite H2.
  - unfold expire_handoff. case_match; [|by exists c]. rewrite retire_channels.
    destruct (hang_up_content id i _ _ Hi) as (c' & H1 & H2). exists c'. by rewrite H2.
  - by exists c.
  - by exists c.
  - by exists c.
Qed.

Lemma follows_Winv id w read got : follows id w read got → Winv w.
Proof. induction 1; [by eapply reachable_Winv|by eapply step_Winv|done]. Qed.

Lemma follows_prefix id w read got :
  follows id w read got →
  ∃ c, channels w !! id = Some c ∧ got = take read (content c) ∧ (read ≤ length (content c))%nat.
Proof.
  induction 1 as [w Hw [c Hc]|w e w' read got Hf IH Hstep|w c read got chunk read' Hf IH Hc Hr].
  - exists c. split; [done|]. split; [done|lia].
  - destruct IH as (c & Hc & -> & Hlen).
    destruct (step_channel _ _ _ _ _ (follows_Winv _ _ _ _ Hf) Hstep Hc) as (c' & Hc' & [k Hk]).
    exists c'. split; [done|]. rewrite Hk. split; [by rewrite take_app_le|].
    rewrite length_app. lia.
  - destruct IH as (c' & Hc' & -> & Hlen). rewrite Hc in Hc'. injection Hc' as <-.
    exists c. split; [done|].
    destruct (follows_Winv _ _ _ _ Hf) as (_ & _ & (_ & _ & _ & Hch) & _).
    apply Hch in Hc as [_ Hwr]. unfold partial_read in Hr.
    destruct (Nat.ltb_spec read (written_bytes (written c))) as [Hlt|];
      [|by destruct (written_done _), (sender c)].
    injection Hr as <- <-. rewrite take_take_drop. split; [f_equal|]; lia.
Qed.

(** C9: A follower streams exactly the leader's body: at any moment, whatever
    else happens to the store (its fill finishing, failing, being purged or
    evicted), what it has read is a prefix of what the leader wrote; and when
    it is told the body is over it has read all of it. *)
Theorem follower_reads_the_body id w read got :
  follows id w read got →
  ∃ c, channels w !! id = Some c ∧ got `prefix_of` content c
  ∧ (partial_read c read = EndOfBody → got = content c).
Proof.
  intros Hf. destruct (follows_prefix _ _ _ _ Hf) as (c & Hc & -> & Hlen).
  exists c. split; [done|]. split; [apply prefix_take|].
  destruct (follows_Winv _ _ _ _ Hf) as (_ & _ & (_ & _ & _ & Hch) & _).
  apply Hch in Hc as [_ Hwr]. unfold partial_read.
  destruct (Nat.ltb_spec read (written_bytes (written c))); [done|].
  intros _. apply take_ge. lia.
Qed.
End StoreTheorems.

(** ** Second chances *)

(** An entry read since it was queued survives while anything unread remains:
    [Q] is what holds when the loop stops. *)
Definition spared_first (s0 s : Store) : Prop :=
  (∀ k e, cached s0 !! k = Some e → visited e = true → is_Some (cached s !! k))
  ∨ (∀ k e, cached s0 !! k = Some e → visited e = false → cached s !! k = None).

(** The loop's state on its first pass: [rest] is still to be looked at, [req]
    was read and has been queued again. *)
Definition first_pass (s0 : Store) (ch : N) (s : Store) : Prop :=
  ∃ rest req, order s = rest ++ req
  ∧ N.of_nat (length rest) < ch
  ∧ (∀ k, k ∈ rest → cached s !! k = cached s0 !! k)
  ∧ (∀ k e, cached s0 !! k = Some e → k ∉ rest →
       if visited e then is_Some (cached s !! k) else cached s !! k = None).

Definition passing (s0 : Store) (ch : N) (s : Store) : Prop :=
  first_pass s0 ch s
  ∨ (∀ k e, cached s0 !! k = Some e → visited e = false → cached s !! k = None).

Lemma passing_done s0 ch s :
  passing s0 ch s → spared_first s0 s.
Proof.
  intros [(rest & req & Hord & Hch & Hrest & Hout)|H]; [|by right]. left.
  intros k e He Hv. destruct (decide (k ∈ rest)) as [Hin|Hin].
  - rewrite Hrest by done. by exists e.
  - specialize (Hout k e He Hin). by rewrite Hv in Hout.
Qed.

Lemma evict_cached_other ch v rest s k :
  k ≠ v → cached (evict_or_spare ch v rest s).2 !! k = cached s !! k.
Proof.
  intros Hne. unfold evict_or_spare. destruct (cached s !! v); [|done].
  case_match; simpl; [by rewrite lookup_insert_ne|by rewrite lookup_delete_ne].
Qed.

Lemma evict_none ch v rest s k :
  cached s !! k = None → cached (evict_or_spare ch v rest s).2 !! k = None.
Proof.
  intros Hk. destruct (decide (k = v)) as [->|Hne]; [|by rewrite evict_cached_other].
  unfold evict_or_spare. by rewrite Hk.
Qed.

Lemma evict_passing s0 ch v l s :
  shape s → order s = v :: l → passing s0 ch s →
  let '(ch', s') := evict_or_spare ch v l s in passing s0 ch' s'.
Proof.
  intros Hs Hord [(rest & req & Ho & Hch & Hrest & Hout)|H].
  2: { destruct (evict_or_spare ch v l s) as [ch' s'] eqn:E. right. intros k e He Hv.
       change s' with (ch', s').2. rewrite <-E. apply evict_none. by eapply H. }
  destruct (order_head _ _ _ Hs Hord) as (e & He & Hv & Hnd & _).
  rewrite Hord in Ho. destruct rest as [|v' rest]; simpl in Ho.
  { destruct (evict_or_spare ch v l s) as [ch' s'] eqn:E. right. intros k e' He' Hv'.
    change s' with (ch', s').2. rewrite <-E. apply evict_none.
    specialize (Hout k e' He' (not_elem_of_nil k)). by rewrite Hv' in Hout. }
  injection Ho as <- ->. assert (cached s0 !! v = Some e) as He0.
  { rewrite <-Hrest; [done|by left]. }
  assert (v ∉ rest) as Hvr by (intros Hin; apply Hv; apply elem_of_app; by left).
  simpl in Hch. unfold evict_or_spare. rewrite He.
  rewrite (proj2 (N.ltb_lt 0 ch)) by lia. simpl. destruct (visited e) eqn:Hvis.
  - left. exists rest, (req ++ [v]). split; [by rewrite <-app_assoc|]. split; [lia|]. split; simpl.
    + intros k Hk. rewrite lookup_insert_ne by congruence. apply Hrest. by right.
    + intros k e' He' Hk. destruct (decide (k = v)) as [->|Hne].
      * rewrite lookup_insert_eq. rewrite He0 in He'. injection He' as <-. by rewrite Hvis.
      * rewrite lookup_insert_ne by done. apply Hout; [done|]. rewrite not_elem_of_cons. done.
  - left. exists rest, req. split; [done|]. split; [lia|]. split; simpl.
    + intros k Hk. rewrite lookup_delete_ne by congruence. apply Hrest. by right.
    + intros k e' He' Hk. destruct (decide (k = v)) as [->|Hne].
      * rewrite lookup_delete_eq. rewrite He0 in He'. injection He' as <-. by rewrite Hvis.
      * rewrite lookup_delete_ne by done. apply Hout; [done|]. rewrite not_elem_of_cons. done.
Qed.

Lemma loop_spares_first s0 fuel ch n s p r :
  shape s → books s p → passing s0 ch s →
  reserve_loop fuel ch n s = Some r → spared_first s0 r.2.
Proof.
  revert ch s. induction fuel as [|fuel IH]; intros ch s Hs Hb Hp; simpl;
    (destruct (max_bytes s <? saturating_add (used s) n);
      [|intros [= <-]; by eapply (passing_done s0 ch)]);
    (destruct (order s) as [|v l] eqn:Hord; [intros [= <-]; by eapply passing_done|]); [done|].
  pose proof (evict_passing s0 ch v l s Hs Hord Hp) as Hp'.
  destruct (evict_or_spare ch v l s) as [ch' s'] eqn:E.
  destruct (evict_or_spare_ok _ _ _ _ _ _ _ Hs Hb Hord E) as (Hs' & Hb' & _ & _).
  by apply IH.
Qed.

(** Under the [clock] policy an entry that was read since it was queued is
    evicted only after every entry that was not: if making room costs one read
    entry, no unread one is left. *)
Theorem clock_second_chance {Meta} (serialize : Meta → option BinaryMeta) deserialize has_field
    field_text w n k e :
  reachable serialize deserialize has_field field_text w → policy (store w) = Clock →
  N.of_nat (length (order (store w))) < U64_MAX →
  cached (store w) !! k = Some e → visited e = true →
  cached (reserve n (store w)).2 !! k = None →
  ∀ k' e', cached (store w) !! k' = Some e' → visited e' = false →
    cached (reserve n (store w)).2 !! k' = None.
Proof.
  intros (Hs & Hb & _)%reachable_Winv Hpol Hlen Hk Hv Hgone k' e' Hk' Hv'.
  unfold reserve in *. destruct (max_bytes (store w) <? n); [simpl in Hgone; congruence|].
  destruct (reserve_loop_ok _ (initial_chances (store w)) n _ _ Hs Hb (le_n _))
    as (ok & s' & E & _).
  assert (passing (store w) (initial_chances (store w)) (store w)) as Hp.
  { left. exists (order (store w)), []. split; [by rewrite app_nil_r|].
    unfold initial_chances, saturating_add, size_of. rewrite Hpol. split; [lia|].
    split; [done|]. intros k1 e1 He1 Hout. destruct Hout. apply Hs. by exists e1. }
  pose proof (loop_spares_first _ _ _ _ _ _ _ Hs Hb Hp E) as [H|H]; simpl in *;
    rewrite E in *; simpl in *.
  - destruct (H k e Hk Hv) as [x Hx]. congruence.
  - by eapply H.
Qed.

(** ** Tags *)

Lemma parse_tags_go_ok raws acc :
  let ok := λ ts, NoDup ts ∧ size_of ts <= MAX_TAGS_PER_ENTRY
    ∧ Forall (λ t, t ≠ EmptyString ∧ len t <= MAX_TAG_LEN
                   ∧ all_chars is_ascii_graphic t = true) ts in
  size_of acc < MAX_TAGS_PER_ENTRY → ok acc → ok (parse_tags_go raws acc).
Proof.
  cbv zeta. revert acc. induction raws as [|raw raws IH]; intros acc Hlen (Hnd & Hsz & Hall);
    simpl; [done|].
  destruct (is_empty (trim raw) || (MAX_TAG_LEN <? len (trim raw))) eqn:E1; [by apply IH|].
  destruct (negb _) eqn:E2; [by apply IH|]. case_bool_decide as Hin; [by apply IH|].
  apply orb_false_iff in E1 as [He Hl%N.ltb_ge]. apply negb_false_iff in E2.
  assert (size_of (acc ++ [trim raw]) = size_of acc + 1) as Hsz'.
  { unfold size_of. rewrite length_app. simpl. lia. }
  assert (NoDup (acc ++ [trim raw]) ∧ Forall (λ t, t ≠ EmptyString ∧ len t <= MAX_TAG_LEN
    ∧ all_chars is_ascii_graphic t = true) (acc ++ [trim raw])) as [Hnd' Hall'].
  { split.
    - apply NoDup_app. split; [done|]. split; [|apply NoDup_singleton].
      intros t Ht ->%list_elem_of_singleton. done.
    - apply Forall_app. split; [done|]. constructor; [|constructor].
      split; [by intros H; rewrite H in He|done]. }
  assert (size_of (acc ++ [trim raw]) <= MAX_TAGS_PER_ENTRY) as Hle by lia.
  destruct (N.leb_spec MAX_TAGS_PER_ENTRY (size_of (acc ++ [trim raw]))); [done|].
  by apply IH.
Qed.

(** However hostile the origin's tag header, what reaches the index is
    bounded: at most 64 tags, all different, each between 1 and 256 visible
    ASCII bytes. *)
Theorem parse_tags_bounded value :
  NoDup (parse_tags value) ∧ size_of (parse_tags value) <= MAX_TAGS_PER_ENTRY
  ∧ Forall (λ t, t ≠ EmptyString ∧ len t <= MAX_TAG_LEN ∧ all_chars is_ascii_graphic t = true)
      (parse_tags value).
Proof.
  apply parse_tags_go_ok; [done|]. split; [constructor|]. split; [done|constructor].
Qed.

(** ** Witnesses

    Metadata reduced to a transient flag and a tag header; a budget of 100
    bytes; one response of two bytes tagged [a], stored and then purged. *)

Module Example.
Definition Meta : Type := bool * string.
Definition serialize (m : Meta) : option BinaryMeta := Some ([Byte.x68], [Byte.x74]).
Definition deserialize (b : BinaryMeta) : option Meta := Some (false, EmptyString).
Definition has_field (m : Meta) (f : string) : bool := m.1.
Definition field_text (m : Meta) (f : string) : option string := Some m.2.

Definition cfg : CacheDefaults.CacheDefaults :=
  CacheDefaults.mk true Memory (MkBytes 100) (MkBytes 100) true Clock default_tag_header
    (Purge.mk None).
Definition product : Meta := (false, "a").
Definition start (key : string) (w : World) : World :=
  (get_miss_handler serialize has_field field_text key "/p" product w).2.
Definition fill_with (id : N) (w : World) : World := (write_body id [Byte.x6f; Byte.x6b] true w).2.
Definition done_with (id : N) (w : World) : World := (finish id w).2.
Definition entry : Stored :=
  mkStored ([Byte.x68], [Byte.x74]) [Byte.x6f; Byte.x6b] "/p" ["a"] false.

Definition w1 : World := start "k1" (boot cfg).
Definition w2 : World := fill_with 0 w1.
Definition w3 : World := done_with 0 w2.
Definition w4 : World := with_store (run_purge (ByTags ["a"])) w3.
Definition w5 : World := start "k1" w4.
Definition w6 : World := fill_with 1 w5.
Definition w7 : World := done_with 1 w6.
(** A second entry, and a read of the first. *)
Definition w8 : World := done_with 1 (fill_with 1 (start "k2" w3)).
Definition w9 : World := with_store (λ s, (lookup deserialize "k1" s).2) w8.

Abbreviation wstep := (step serialize deserialize has_field field_text).
Abbreviation wsteps := (steps serialize deserialize has_field field_text).
Abbreviation wreachable := (reachable serialize deserialize has_field field_text).

(** One whole fill: registered, written, stored. *)
Lemma fill_steps key id w :
  next_id (store w) = id → id < U64_MAX →
  get_miss_handler serialize has_field field_text key "/p" product w = (Ok id, start key w) →
  (write_body id [Byte.x6f; Byte.x6b] true (start key w)) = (Ok tt, fill_with id (start key w)) →
  finish id (fill_with id (start key w)) = (Ok (2%nat, Some key), done_with id (fill_with id (start key w))) →
  entry_of id key (fill_with id (start key w)) = Some entry →
  wsteps w [EvStart id; EvOther; EvStore id key entry] (done_with id (fill_with id (start key w))).
Proof.
  intros Hid Hlt H1 H2 H3 H4.
  eapply steps_cons; [eapply step_start; [by rewrite Hid|exact H1]|].
  eapply steps_cons; [eapply step_write; exact H2|].
  eapply steps_cons; [eapply step_finish; [exact H3|reflexivity|exact H4]|]. constructor.
Defined.

Lemma steps_w3 : wsteps (boot cfg) [EvStart 0; EvOther; EvStore 0 "k1" entry] w3.
Proof. apply fill_steps; vm_compute; reflexivity. Defined.
Lemma reach_stored : wreachable w3.
Proof. exists cfg, [EvStart 0; EvOther; EvStore 0 "k1" entry]. split; [done|exact steps_w3]. Defined.
Lemma steps_w7 : wsteps w4 [EvStart 1; EvOther; EvStore 1 "k1" entry] w7.
Proof. apply fill_steps; vm_compute; reflexivity. Defined.
Lemma steps_app w es w' es' w'' : wsteps w es w' → wsteps w' es' w'' → wsteps w (es ++ es') w''.
Proof. induction 1; simpl; [done|]. intros. econstructor; eauto. Defined.
Lemma reach_w9 : wreachable w9.
Proof.
  eexists cfg, _. split; [done|]. eapply steps_app; [exact steps_w3|].
  eapply steps_app; [apply (fill_steps "k2" 1 w3); vm_compute; reflexivity|].
  eapply steps_cons; [apply (step_lookup _ deserialize _ _ w8 "k1")|constructor].
Defined.
End Example.

Import Example.

Lemma store_keeps_its_books_witness :
  used (store w3) = 7 ∧ cached (store w3) !! "k1" = Some entry
  ∧ used (store w3) = map_sum stored_size (cached (store w3)) + pinned w3.
Proof.
  split; [vm_compute; reflexivity|]. split; [vm_compute; reflexivity|].
  apply (store_keeps_its_books serialize deserialize has_field field_text w3 reach_stored).
Defined.

Lemma reserve_exact_witness :
  (reserve 95 (store w3)).1 = true ∧ (reserve 101 (store w3)).1 = false.
Proof.
  split.
  - rewrite (proj2 (reserve_exact serialize deserialize has_field field_text w3 95 reach_stored)).
    vm_compute. reflexivity.
  - rewrite (proj2 (reserve_exact serialize deserialize has_field field_text w3 101 reach_stored)).
    vm_compute. reflexivity.
Defined.

Lemma purge_exact_witness :
  cached (store w3) ≠ ∅ ∧ cached (run_purge (ByTags ["a"]) (store w3)) = ∅.
Proof.
  split; [vm_compute; discriminate|].
  rewrite (proj1 (purge_exact serialize deserialize has_field field_text w3 (ByTags ["a"]) reach_stored)).
  vm_compute. reflexivity.
Defined.

Lemma purged_never_resurrected_witness :
  targets (ByTags ["a"]) "k1" (tags entry) (path entry) = true ∧ next_id (store w3) <= 1.
Proof.
  split; [reflexivity|].
  apply (purged_never_resurrected serialize deserialize has_field field_text w3 (ByTags ["a"])
    [EvStart 1; EvOther; EvStore 1 "k1" entry] w7 1 "k1" entry);
    [exact reach_stored|exact steps_w7|right; right; left|reflexivity].
Defined.

Lemma follower_reads_the_body_witness :
  ∃ c, channels w2 !! 0 = Some c ∧ [Byte.x6f; Byte.x6b] = content c.
Proof.
  assert (follows serialize deserialize has_field field_text 0 w2 2 [Byte.x6f; Byte.x6b]) as H.
  { apply (follows_read _ _ _ _ 0 w2 (mkChannel [Byte.x6f; Byte.x6b] (Complete 2) true) 0 []).
    - apply (follows_step _ _ _ _ 0 w1 EvOther).
      + apply follows_attach; [|vm_compute; by eexists].
        exists cfg, [EvStart 0]. split; [done|].
        eapply steps_cons; [|constructor].
        apply (step_start _ _ _ _ (boot cfg) "k1" "/p" product 0); vm_compute; reflexivity.
      + apply (step_write _ _ _ _ w1 0 [Byte.x6f; Byte.x6b] true (Ok tt)). vm_compute. reflexivity.
    - vm_compute. reflexivity.
    - reflexivity. }
  destruct (follower_reads_the_body serialize deserialize has_field field_text 0 w2 2 _ H)
    as (c & Hc & _ & Hend).
  exists c. split; [exact Hc|]. apply Hend.
  assert (c = mkChannel [Byte.x6f; Byte.x6b] (Complete 2) true) as ->
    by (vm_compute in Hc; congruence). reflexivity.
Defined.

Lemma clock_second_chance_witness :
  visited <$> cached (store w9) !! "k1" = Some true
  ∧ cached (reserve 100 (store w9)).2 !! "k2" = None.
Proof.
  split; [vm_compute; reflexivity|].
  apply (clock_second_chance serialize deserialize has_field field_text w9 100 "k1"
    (with_visited true entry)) with (e' := entry);
    [exact reach_w9|vm_compute; reflexivity..].
Defined.
