(* ===== verification/StoreLimits.v ===== *)
(** * What the store's operations leave as it is

    A property of the store that no field update touches survives every operation
    ([step_stable]): so the budget's limit never moves, and the eviction count
    stays a 64-bit one.  A purge does not count as evictions ([purge_evicted]). *)

From S2P Require Import Prelude Words Text Units Schema Store.
Local Open Scope string_scope.
Local Open Scope list_scope.
Local Open Scope N_scope.

Section Stable.
Variable Q : Store → Prop.
Hypothesis Q_cache : ∀ c o ix u s, Q s → Q (set_cache c o ix u s).
Hypothesis Q_temp : ∀ t s, Q s → Q (set_temp t s).

Lemma remove_temp_stable key id s : Q s → Q (remove_temp key id s).2.
Proof. unfold remove_temp. destruct (temp s !! key); [apply Q_temp|done]. Qed.

Lemma admit_stable key o s : Q s → Q (admit_entry key o s).
Proof. intros H. unfold admit_entry. apply Q_cache. destruct (cached s !! key); [by apply Q_cache|done]. Qed.

Section Purging.
Hypothesis Q_purged : ∀ n s, Q s → Q (count_purged n s).

Lemma purge_matching_stable matches s : Q s → Q (purge_matching matches s).2.
Proof.
  intros H. unfold purge_matching. set (doomed := _.*1). clearbody doomed.
  assert (∀ ks p s, Q s → Q (foldl purge_one (p, s) ks).2) as Hf.
  { induction ks as [|k ks IH]; intros p s1 H1; [done|]. cbn [foldl purge_one]. destruct (cached s1 !! k); [apply IH; by apply Q_cache|by apply IH]. }
  specialize (Hf doomed (mkPurged 0 0) s H). destruct (foldl purge_one _ doomed) as [p s1]. cbn [snd] in Hf.
  destruct doomed; [done|]. by apply Q_purged, Q_cache.
Qed.

Lemma run_purge_stable op s : Q s → Q (run_purge op s).
Proof.
  intros H. destruct op as [ts|ps| |hash]; cbn [run_purge].
  - unfold purge_tags. destruct (filter _ ts); [done|]. by apply purge_matching_stable, Q_temp.
  - unfold purge_paths. destruct (filter _ ps); [done|]. by apply purge_matching_stable, Q_temp.
  - by apply purge_matching_stable, Q_temp.
  - unfold purge. pose proof (purge_matching_stable (λ key _, bool_decide (key = hash)) _ (Q_temp _ s H : Q (invalidate_fills (λ key _, bool_decide (key = hash)) s))) as H'.
    by destruct (purge_matching _ _).
Qed.

Section Filling.
Context {Meta : Type} (serialize : Meta → option BinaryMeta) (deserialize : BinaryMeta → option Meta)
  (has_field : Meta → string → bool) (field_text : Meta → string → option string).
Hypothesis Q_id : ∀ s, Q s → Q (take_id s).2.
Hypothesis Q_evicted : ∀ s, Q s → Q (count_evicted s).

Lemma reserve_stable n s : Q s → Q (reserve n s).2.
Proof.
  assert (∀ chances v rest s, Q s → Q (evict_or_spare chances v rest s).2) as He.
  { intros chances v rest s0 H. unfold evict_or_spare. destruct (cached s0 !! v); [|by apply Q_cache].
    destruct (_ && _); [by apply Q_cache|by apply Q_evicted, Q_cache]. }
  assert (∀ fuel chances s r, Q s → reserve_loop fuel chances n s = Some r → Q r.2) as Hl.
  { induction fuel as [|fuel IH]; intros chances s0 r H; simpl; (destruct (_ <? _); [|by intros [= <-]; apply Q_cache]).
    - destruct (order s0); [by intros [= <-]|done].
    - destruct (order s0) as [|v rest]; [by intros [= <-]|]. pose proof (He chances v rest s0 H) as H1.
      destruct (evict_or_spare chances v rest s0) as [c s1]. by apply IH. }
  intros H. unfold reserve. destruct (_ <? _); [done|]. destruct (reserve_loop _ _ _ _) as [r|] eqn:E; [|done]. by apply Hl in E.
Qed.

Lemma finish_stable id w r w' : Q (store w) → finish id w = (r, w') → Q (store w').
Proof.
  intros H. unfold finish. destruct (handlers w !! id) as [h|]; [|by intros [= _ <-]]. destruct (channels w !! id); [|by intros [= _ <-]].
  destruct (writes ← _; _) as [t|]; [|by intros [= _ <-]]. cbv zeta. destruct (transient t); [by intros [= _ <-]|].
  pose proof (remove_temp_stable (hkey h) id _ H) as Hr.
  destruct (remove_temp _ _ _) as [[t'|] s1]; cbn [snd] in Hr; [|by intros [= _ <-]].
  destruct (invalidated t'); intros [= _ <-]; [by apply Q_cache|by apply admit_stable].
Qed.

Lemma retire_stable h id w hs ho : Q (store w) → Q (store (retire h id w hs ho)).
Proof.
  intros H. unfold retire. pose proof (remove_temp_stable (hkey h) id _ H) as Hr.
  destruct (remove_temp _ _ _) as [[t'|] s1]; [by apply Q_cache|done].
Qed.

Lemma step_stable w e w' : step serialize deserialize has_field field_text w e w' → Q (store w) → Q (store w').
Proof.
  intros Hs H.
  destruct Hs as [w hash ut m id w' _ E|w hash ut m er w' E|w id data eof r w' E|w id size r w' key e E _ _|w id size w' E|w id|w id|w hash|w hash m|w op].
  1-2: unfold get_miss_handler in E; destruct (serialize m) as [sz|]; [|by injection E as ? <-];
    match type of E with context [reserve ?n ?s] => pose proof (reserve_stable n s H) as Hr; destruct (reserve n s) as [ok s1] end;
    cbn [snd] in Hr; destruct ok; injection E as ? <-; first [done|by apply Q_temp, Q_id].
  - unfold write_body in E. destruct (handlers w !! id); [|by injection E as ? <-]. destruct (channels w !! id); [|by injection E as ? <-].
    pose proof (reserve_stable (size_of data) (store w) H) as Hr. destruct (_ =? 0)%nat.
    + by injection E as ? <-.
    + destruct (reserve (size_of data) (store w)) as [ok s1]. cbn [snd] in Hr. destruct ok; by injection E as ? <-.
  - by eapply finish_stable.
  - by eapply finish_stable.
  - unfold drop_handler. destruct (handlers w !! id); [by apply retire_stable|done].
  - unfold expire_handoff. destruct (handoffs w !! id); [by apply retire_stable|done].
  - unfold with_store, lookup. cbn [store]. destruct (cached (store w) !! hash); [by apply Q_cache|].
    by destruct (writes ← temp (store w) !! hash; newest writes) as [[]|].
  - unfold with_store, update_meta. cbn [store]. destruct (serialize m); [|done]. destruct (cached (store w) !! hash); [|done].
    cbv zeta. destruct (if _ <? _ then _ else _); [by apply Q_cache|done].
  - by apply run_purge_stable.
Qed.

Lemma steps_stable w es w' : steps serialize deserialize has_field field_text w es w' → Q (store w) → Q (store w').
Proof. induction 1 as [|w e w1 es w2 Hs _ IH]; [done|]. intros H. by eapply IH, step_stable. Qed.
End Filling.
End Purging.
End Stable.

Section Limits.
Context {Meta : Type} (serialize : Meta → option BinaryMeta) (deserialize : BinaryMeta → option Meta)
  (has_field : Meta → string → bool) (field_text : Meta → string → option string).

(** No operation moves the budget's limit. *)
Lemma steps_max w es w' : steps serialize deserialize has_field field_text w es w' → max_bytes (store w') = max_bytes (store w).
Proof. intros H. by apply (steps_stable (λ s, max_bytes s = max_bytes (store w)) ltac:(done) ltac:(done) ltac:(done) _ _ _ _ ltac:(done) ltac:(done) _ _ _ H). Qed.

Lemma purge_evicted op s : evicted (run_purge op s) = evicted s.
Proof. by apply (run_purge_stable (λ s', evicted s' = evicted s)). Qed.
End Limits.
