(* ===== verification/Net.v ===== *)
(** * Addresses and their textual forms ([std::net])

    The standard library's IP and socket addresses and its recursive-descent
    parser, which the configuration and the forwarded-header code rely on.  An
    address is its numeric value; octets are computed from it. *)

From S2P Require Import Prelude Words Text.
Local Open Scope string_scope.
Local Open Scope N_scope.

(** ** Addresses *)

Inductive IpAddr := V4 (a : N) | V6 (a : N).
#[export] Instance IpAddr_eq_dec : EqDecision IpAddr.
Proof. solve_decision. Defined.

Record SocketAddr := mkSocket { ip : IpAddr; port : N }.
#[export] Instance SocketAddr_eq_dec : EqDecision SocketAddr.
Proof. solve_decision. Defined.

Definition is_ipv4 (a : IpAddr) : bool := match a with V4 _ => true | V6 _ => false end.
Definition is_ipv6 (a : IpAddr) : bool := negb (is_ipv4 a).
Definition is_unspecified (a : IpAddr) : bool := match a with V4 n | V6 n => n =? 0 end.

(** Octets, most significant first: [k] of them. *)
Fixpoint octets (k : nat) (a : N) : list N :=
  match k with O => [] | S k => N.shiftr a (8 * N.of_nat k) mod 256 :: octets k a end.

Definition from_octets (l : list N) : N := fold_left (λ acc b, acc * 256 + b) l 0.
Definition from_groups (l : list N) : N := fold_left (λ acc b, acc * 65536 + b) l 0.

(** [Ipv6Addr::to_ipv4_mapped]. *)
Definition to_ipv4_mapped (a : N) : option N :=
  if N.shiftr a 32 =? 65535 then Some (a mod 4294967296) else None.

(** ** The parser: a reader consumes a prefix or fails *)

Definition reader (A : Type) : Type := string → option (A * string).

Definition read_given_char (c : ascii) : reader unit := λ s,
  match s with
  | String a s' => if decide (a = c) then Some (tt, s') else None
  | EmptyString => None
  end.

(** The longest run of digits, its value and its length. *)
Fixpoint read_digits (radix : N) (acc count : N) (s : string) : N * N * string :=
  match s with
  | EmptyString => (acc, count, s)
  | String a s' =>
      match to_digit radix a with
      | Some d => read_digits radix (acc * radix + d) (count + 1) s'
      | None => (acc, count, s)
      end
  end.

Definition has_leading_zero (s : string) : bool :=
  match s with String a _ => bool_decide (a = "0"%char) | EmptyString => false end.

Definition read_number (radix : N) (max_digits : option N) (allow_zero_prefix : bool) (max : N) :
    reader N := λ s,
  let '(v, count, rest) := read_digits radix 0 0 s in
  if count =? 0 then None
  else if match max_digits with Some m => m <? count | None => false end then None
  else if negb allow_zero_prefix && has_leading_zero s && (1 <? count) then None
  else if max <? v then None else Some (v, rest).

Definition read_separator {A} (sep : ascii) (index : nat) (inner : reader A) : reader A := λ s,
  match index with
  | O => inner s
  | S _ => '(_, s) ← read_given_char sep s; inner s
  end.

Definition read_octet (index : nat) : reader N :=
  read_separator "." index (read_number 10 (Some 3) false U8_MAX).

Definition read_ipv4_addr : reader N := λ s,
  '(a, s) ← read_octet 0 s; '(b, s) ← read_octet 1 s;
  '(c, s) ← read_octet 2 s; '(d, s) ← read_octet 3 s;
  Some (from_octets [a; b; c; d], s).

(** Up to [limit] groups, the last two possibly written as an IPv4 address. *)
Fixpoint read_groups (fuel : nat) (i limit : nat) (s : string) : list N * bool * string :=
  match fuel with
  | O => ([], false, s)
  | S fuel =>
      match (if (S i <? limit)%nat then read_separator ":" i read_ipv4_addr s else None) with
      | Some (v4, s) => ([v4 / 65536; v4 mod 65536], true, s)
      | None =>
          match read_separator ":" i (read_number 16 (Some 4) true U16_MAX) s with
          | Some (g, s) =>
              let '(gs, is4, s) := read_groups fuel (S i) limit s in (g :: gs, is4, s)
          | None => ([], false, s)
          end
      end
  end.

Definition read_ipv6_addr : reader N := λ s,
  let '(head, head_ipv4, s) := read_groups 8 0 8 s in
  if (length head =? 8)%nat then Some (from_groups head, s)
  else if head_ipv4 then None
  else
    '(_, s) ← read_given_char ":" s;
    '(_, s) ← read_given_char ":" s;
    let limit := (7 - length head)%nat in
    let '(tail, _, s) := read_groups limit 0 limit s in
    Some (from_groups (head ++ replicate (8 - length head - length tail) 0 ++ tail)%list, s).

Definition read_ip_addr : reader IpAddr := λ s,
  match read_ipv4_addr s with
  | Some (a, s) => Some (V4 a, s)
  | None => '(a, s) ← read_ipv6_addr s; Some (V6 a, s)
  end.

Definition read_port : reader N := λ s,
  '(_, s) ← read_given_char ":" s; read_number 10 None true U16_MAX s.

Definition read_scope_id : reader N := λ s,
  '(_, s) ← read_given_char "%" s; read_number 10 None true U32_MAX s.

Definition read_socket_addr : reader SocketAddr := λ s,
  match ('(a, s) ← read_ipv4_addr s; '(p, s) ← read_port s; Some (mkSocket (V4 a) p, s)) with
  | Some r => Some r
  | None =>
      '(_, s) ← read_given_char "[" s;
      '(a, s) ← read_ipv6_addr s;
      let s := match read_scope_id s with Some (_, s) => s | None => s end in
      '(_, s) ← read_given_char "]" s;
      '(p, s) ← read_port s;
      Some (mkSocket (V6 a) p, s)
  end.

(** [parse_with]: the reader must consume everything. *)
Definition parse_with {A} (r : reader A) (s : string) : option A :=
  '(a, rest) ← r s; if is_empty rest then Some a else None.

Definition parse_ipv4 (s : string) : option N :=
  if 15 <? len s then None else parse_with read_ipv4_addr s.
Definition parse_ip (s : string) : option IpAddr := parse_with read_ip_addr s.
Definition parse_socket (s : string) : option SocketAddr := parse_with read_socket_addr s.

(** [Display for Ipv4Addr]. *)
Definition print_ipv4 (a : N) : string := join "." (print_uint <$> octets 4 a).

(** [{:x}] of a 16-bit group. *)
Definition hex_group (g : N) : string :=
  let digits := (λ d, chr (if d <? 10 then 48 + d else 87 + d)) <$>
    [g / 4096 mod 16; g / 256 mod 16; g / 16 mod 16; g mod 16] in
  let kept := if g <? 16 then 3%nat else if g <? 256 then 2%nat else if g <? 4096 then 1%nat else 0%nat in
  string_of_list_ascii (drop kept digits).

Fixpoint groups (k : nat) (a : N) : list N :=
  match k with O => [] | S k => N.shiftr a (16 * N.of_nat k) mod 65536 :: groups k a end.

(** The first longest run of zero groups: where it starts and how long it is. *)
Fixpoint zero_run (i : nat) (current longest : nat * nat) (gs : list N) : nat * nat :=
  match gs with
  | [] => longest
  | g :: gs =>
      if g =? 0 then
        let current := (if (current.2 =? 0)%nat then i else current.1, S current.2) in
        zero_run (S i) current (if (longest.2 <? current.2)%nat then current else longest) gs
      else zero_run (S i) (0, 0)%nat longest gs
  end.

(** [Display for Ipv6Addr] and [Display for IpAddr]. *)
Definition print_ipv6 (a : N) : string :=
  match to_ipv4_mapped a with
  | Some v4 => "::ffff:" +:+ print_ipv4 v4
  | None =>
      let gs := groups 8 a in
      let '(start, count) := zero_run 0 (0, 0)%nat (0, 0)%nat gs in
      let text l := join ":" (hex_group <$> l) in
      if (1 <? count)%nat then text (take start gs) +:+ "::" +:+ text (drop (start + count) gs)
      else text gs
  end.

Definition print_ip (a : IpAddr) : string :=
  match a with V4 n => print_ipv4 n | V6 n => print_ipv6 n end.

(** ** Octets and bits *)

Lemma octets_length k a : length (octets k a) = k.
Proof. induction k; simpl; congruence. Qed.

(** The octet that holds bits [8 m .. 8 m + 7]. *)
Definition octet (a : N) (m : nat) : N := N.shiftr a (8 * N.of_nat m) mod 256.

Lemma octets_lookup k a j : (j < k)%nat → octets k a !! j = Some (octet a (k - 1 - j)).
Proof.
  revert j. induction k as [|k IH]; intros j Hj; [lia|]. destruct j as [|j]; simpl.
  - by replace (k - 0 - 0)%nat with k by lia.
  - rewrite IH by lia. do 2 f_equal. lia.
Qed.

Lemma octet_testbit a m i :
  N.testbit (octet a m) i = (i <? 8) && N.testbit a (8 * N.of_nat m + i).
Proof.
  unfold octet. change 256 with (2 ^ 8). destruct (N.ltb_spec i 8) as [Hi|Hi].
  - rewrite N.mod_pow2_bits_low by done. rewrite N.shiftr_spec'. simpl. f_equal. lia.
  - by rewrite N.mod_pow2_bits_high.
Qed.

(** Agreeing on all bits from [n] up. *)
Definition agree_from (n : N) (a b : N) : Prop := ∀ i, n <= i → N.testbit a i = N.testbit b i.

Lemma shiftr_agree n a b : N.shiftr a n = N.shiftr b n ↔ agree_from n a b.
Proof.
  split.
  - intros H i Hi. replace i with (i - n + n) by lia. rewrite <-!N.shiftr_spec'. by rewrite H.
  - intros H. apply N.bits_inj. intros i. rewrite !N.shiftr_spec'. apply H. lia.
Qed.

Lemma octet_agree a b m :
  octet a m = octet b m ↔
  ∀ i, 8 * N.of_nat m <= i < 8 * N.of_nat m + 8 → N.testbit a i = N.testbit b i.
Proof.
  split.
  - intros H i Hi. pose proof (octet_testbit a m (i - 8 * N.of_nat m)) as Ha.
    pose proof (octet_testbit b m (i - 8 * N.of_nat m)) as Hb.
    rewrite H in Ha. rewrite Ha in Hb.
    rewrite (proj2 (N.ltb_lt _ _)) in Hb by lia. simpl in Hb.
    by replace (8 * N.of_nat m + (i - 8 * N.of_nat m)) with i in Hb by lia.
  - intros H. apply N.bits_inj. intros i. rewrite !octet_testbit.
    destruct (N.ltb_spec i 8); [|done]. simpl. apply H. lia.
Qed.

(** ** What the parser returns is an address *)

Definition valid_ip (a : IpAddr) : Prop :=
  match a with V4 n => n < 2 ^ 32 | V6 n => n < 2 ^ 128 end.

Lemma read_number_bound radix md z max s v rest :
  read_number radix md z max s = Some (v, rest) → v <= max.
Proof.
  unfold read_number. destruct (read_digits radix 0 0 s) as [[w c] r].
  destruct (c =? 0); [done|]. destruct (match md with Some m => _ | None => _ end); [done|].
  destruct (_ && _); [done|]. destruct (N.ltb_spec max w); [done|]. by intros [= <- _].
Qed.

Lemma read_separator_some {A} sep i (r : reader A) s a rest :
  read_separator sep i r s = Some (a, rest) → ∃ s', r s' = Some (a, rest).
Proof.
  destruct i; simpl; [by exists s|]. destruct (read_given_char sep s) as [[? s']|]; [|done].
  simpl. by exists s'.
Qed.

Lemma read_ipv4_bound s a rest : read_ipv4_addr s = Some (a, rest) → a < 2 ^ 32.
Proof.
  unfold read_ipv4_addr. intros H.
  apply bind_Some in H as (p1 & E1 & H). destruct p1 as [n1 s1]. apply bind_Some in H as ([n2 s2] & E2 & H).
  apply bind_Some in H as ([n3 s3] & E3 & H). apply bind_Some in H as ([n4 s4] & E4 & H).
  injection H as <- _.
  assert (∀ i s n r, read_octet i s = Some (n, r) → n <= U8_MAX) as Ho.
  { intros i t n' r [s' Hr]%read_separator_some. by apply read_number_bound in Hr. }
  apply Ho in E1, E2, E3, E4.
  unfold from_octets, U8_MAX in *. simpl fold_left. change (2 ^ 32) with 4294967296. lia.
Qed.

Lemma read_groups_ok fuel i limit s gs b rest :
  (fuel + i = limit)%nat → read_groups fuel i limit s = (gs, b, rest) →
  (length gs ≤ fuel)%nat ∧ Forall (λ g, g < 65536) gs.
Proof.
  revert i s gs b rest. induction fuel as [|fuel IH]; intros i s gs b rest Hf; simpl.
  - intros [= <- _ _]. by split; [simpl; lia|].
  - destruct (if (S i <? limit)%nat then _ else None) as [[v4 s']|] eqn:E4.
    + intros [= <- _ _]. destruct (Nat.ltb_spec (S i) limit); [|done].
      apply read_separator_some in E4 as [t Hv]. apply read_ipv4_bound in Hv.
      simpl. split; [lia|]. change (2 ^ 32) with (65536 * 65536) in Hv.
      constructor; [by apply N.Div0.div_lt_upper_bound|].
      constructor; [by apply N.mod_lt|constructor].
    + destruct (read_separator ":" i (read_number 16 (Some 4) true U16_MAX) s) as [[g s']|] eqn:Eg.
      * destruct (read_groups fuel (S i) limit s') as [[gs' b'] r'] eqn:Er.
        intros [= <- _ _]. apply IH in Er as [Hl Hall]; [|lia]. simpl. split; [lia|].
        constructor; [|done]. apply read_separator_some in Eg as [t Ht].
        apply read_number_bound in Ht. unfold U16_MAX in Ht. lia.
      * intros [= <- _ _]. by split; [simpl; lia|].
Qed.

Lemma from_groups_bound l acc n :
  Forall (λ g, g < 65536) l → acc < 65536 ^ n →
  fold_left (λ acc b, acc * 65536 + b) l acc < 65536 ^ (n + N.of_nat (length l)).
Proof.
  intros H. revert acc n. induction H as [|g l Hg _ IH]; intros acc n Hacc; simpl.
  - by rewrite N.add_0_r.
  - replace (n + N.of_nat (S (length l))) with (N.succ n + N.of_nat (length l)) by lia.
    apply IH. rewrite N.pow_succ_r'. nia.
Qed.

Lemma read_ipv6_bound s a rest : read_ipv6_addr s = Some (a, rest) → a < 2 ^ 128.
Proof.
  assert (∀ l, Forall (λ g, g < 65536) l → length l = 8%nat → from_groups l < 2 ^ 128) as Hb.
  { intros l Hl Hlen. change (2 ^ 128) with (65536 ^ (0 + N.of_nat 8)). rewrite <-Hlen.
    by apply from_groups_bound. }
  unfold read_ipv6_addr. destruct (read_groups 8 0 8 s) as [[head b] s1] eqn:Eh.
  apply read_groups_ok in Eh as [Hl Hh]; [|done].
  destruct (Nat.eqb_spec (length head) 8) as [H8|H8].
  { intros [= <- _]. by apply Hb. }
  destruct b; [done|]. intros H.
  apply bind_Some in H as ([[] s2] & _ & H). apply bind_Some in H as ([[] s3] & _ & H).
  destruct (read_groups (7 - length head) 0 (7 - length head) s3) as [[tail b'] s4] eqn:Et.
  apply read_groups_ok in Et as [Htl Ht]; [|lia]. injection H as <- _. apply Hb.
  - rewrite !Forall_app. split; [done|]. split; [|done]. apply Forall_replicate. lia.
  - rewrite !length_app, length_replicate. lia.
Qed.

Lemma parse_ip_valid s a : parse_ip s = Some a → valid_ip a.
Proof.
  unfold parse_ip, parse_with. intros H. apply bind_Some in H as ([a' rest] & Hr & H).
  destruct (is_empty rest); [|done]. injection H as ->. unfold read_ip_addr in Hr.
  destruct (read_ipv4_addr s) as [[n r]|] eqn:E4.
  - injection Hr as <- _. by apply read_ipv4_bound in E4.
  - apply bind_Some in Hr as ([n r] & E6 & Hr). injection Hr as <- _. by apply read_ipv6_bound in E6.
Qed.

(** ** Printing an IPv4 address and reading it back *)

Definition digit_first (s : string) : bool :=
  match s with String a _ => is_digit a | EmptyString => false end.

Lemma to_digit_10_none a : is_digit a = false → to_digit 10 a = None.
Proof. destruct a as [[] [] [] [] [] [] [] []]; by vm_compute. Qed.

Lemma read_digits_app acc count ds rest v k :
  digit_first rest = false →
  read_digits 10 acc count ds = (v, k, EmptyString) →
  read_digits 10 acc count (ds +:+ rest) = (v, k, rest).
Proof.
  intros Hrest. revert acc count. induction ds as [|a ds IH]; intros acc count; simpl.
  - intros [= <- <-]. destruct rest as [|b rest]; [done|]. simpl in *.
    by rewrite to_digit_10_none.
  - destruct (to_digit 10 a) as [d|]; [apply IH|done].
Qed.

(** One octet at a time, all 256 of them. *)
Definition octet_reads (n : N) : bool :=
  let s := print_uint n in
  let '(v, k, rest) := read_digits 10 0 0 s in
  (v =? n) && is_empty rest && (1 <=? k) && (k <=? 3) && (negb (has_leading_zero s) || (k =? 1)).

Lemma octets_read : forallb octet_reads (N.of_nat <$> seq 0 256) = true.
Proof. by vm_compute. Qed.

Lemma octet_read n : n < 256 → octet_reads n = true.
Proof.
  intros Hn. pose proof octets_read as H. rewrite forallb_forall in H. apply H.
  apply list_elem_of_In, list_elem_of_fmap. exists (N.to_nat n). split; [lia|].
  apply elem_of_seq. lia.
Qed.

Lemma read_printed_octet n rest :
  n < 256 → digit_first rest = false →
  read_number 10 (Some 3) false U8_MAX (print_uint n +:+ rest) = Some (n, rest).
Proof.
  intros Hn Hrest. pose proof (octet_read n Hn) as H. unfold octet_reads in H.
  destruct (read_digits 10 0 0 (print_uint n)) as [[v k] r] eqn:E.
  apply andb_true_iff in H as [H Hz]. to_prop. subst v. destruct r; [|done].
  unfold read_number. rewrite (read_digits_app _ _ _ rest _ _ Hrest E).
  rewrite (proj2 (N.eqb_neq k 0)) by lia. rewrite (proj2 (N.ltb_ge 3 k)) by lia.
  assert (has_leading_zero (print_uint n +:+ rest) = has_leading_zero (print_uint n)) as ->.
  { pose proof (print_uint_nonempty n). by destruct (print_uint n). }
  assert (negb false && has_leading_zero (print_uint n) && (1 <? k) = false) as ->.
  { apply orb_true_iff in Hz as [Hz|Hz]; to_prop; [by rewrite Hz|]. subst k.
    by rewrite andb_false_r. }
  rewrite (proj2 (N.ltb_ge U8_MAX n)); [done|unfold U8_MAX; lia].
Qed.

Lemma from_octets_4 a : a < 2 ^ 32 → from_octets (octets 4 a) = a.
Proof.
  change (2 ^ 32) with 4294967296. intros Ha.
  change (from_octets (octets 4 a)) with
    (((((0 * 256 + N.shiftr a 24 mod 256) * 256 + N.shiftr a 16 mod 256) * 256
       + N.shiftr a 8 mod 256) * 256) + N.shiftr a 0 mod 256).
  rewrite !N.shiftr_div_pow2.
  change (2 ^ 8) with 256. change (2 ^ 16) with 65536. change (2 ^ 24) with 16777216.
  change (2 ^ 0) with 1. rewrite N.div_1_r.
  pose proof (N.Div0.div_div a 256 256) as D2. pose proof (N.Div0.div_div a 65536 256) as D3.
  change (256 * 256) with 65536 in D2. change (65536 * 256) with 16777216 in D3.
  rewrite <-D3, <-D2 in *.
  pose proof (N.Div0.div_mod a 256) as E1. pose proof (N.Div0.div_mod (a / 256) 256) as E2.
  pose proof (N.Div0.div_mod (a / 256 / 256) 256) as E3.
  assert (a / 256 / 256 / 256 < 256) as Hq.
  { do 3 (apply N.Div0.div_lt_upper_bound). done. }
  rewrite (N.mod_small (a / 256 / 256 / 256)) by done. clear D2 D3 Ha Hq.
  revert E1 E2 E3.
  generalize (a / 256 / 256 / 256) as q, (a / 256 / 256 mod 256) as x,
    (a / 256 mod 256) as y, (a mod 256) as z.
  generalize (a / 256 / 256) as u, (a / 256) as v. intros. lia.
Qed.

Lemma octet_bound k a x : x ∈ octets k a → x < 256.
Proof. induction k; simpl; [by inversion 1|]. intros [->|?]%elem_of_cons; [by apply N.mod_lt|auto]. Qed.

Lemma read_this_char c s : read_given_char c (String c s) = Some (tt, s).
Proof. simpl. by rewrite decide_True. Qed.

Lemma read_printed_ipv4 a rest :
  a < 2 ^ 32 → digit_first rest = false →
  read_ipv4_addr (print_ipv4 a +:+ rest) = Some (a, rest).
Proof.
  intros Ha Hrest. unfold print_ipv4. rewrite <-(from_octets_4 a Ha) at 2.
  pose proof (octet_bound 4 a) as Hb. pose proof (octets_length 4 a) as Hl.
  destruct (octets 4 a) as [|x1 [|x2 [|x3 [|x4 [|]]]]]; try done.
  unfold read_ipv4_addr, read_octet. cbn -[String.append read_number print_uint str1 read_given_char].
  rewrite <-!str_app_assoc.
  assert (∀ x s, x ∈ [x1; x2; x3; x4] → digit_first s = false →
    read_number 10 (Some 3) false U8_MAX (print_uint x +:+ s) = Some (x, s)) as Hr.
  { intros x s Hx. apply read_printed_octet. by apply Hb. }
  rewrite Hr by (set_solver || done). cbn -[read_number print_uint read_given_char]. rewrite read_this_char. cbn -[read_number print_uint decide].
  rewrite Hr by (set_solver || done). cbn -[read_number print_uint read_given_char]. rewrite read_this_char. cbn -[read_number print_uint decide].
  rewrite Hr by (set_solver || done). cbn -[read_number print_uint read_given_char]. rewrite read_this_char. cbn -[read_number print_uint decide].
  rewrite Hr by (set_solver || done). done.
Qed.

Lemma print_ipv4_graphic a : all_chars is_ascii_graphic (print_ipv4 a) = true.
Proof.
  unfold print_ipv4. induction (octets 4 a) as [|x l IH]; [done|].
  rewrite fmap_cons. destruct l as [|y l]; [apply print_uint_graphic|].
  rewrite join_cons by done. rewrite !all_chars_app, print_uint_graphic, IH. done.
Qed.

Lemma octet_length n : n < 256 → len (print_uint n) <= 3.
Proof.
  intros Hn.
  assert (forallb (λ n, len (print_uint n) <=? 3) (N.of_nat <$> seq 0 256) = true) as H by by vm_compute.
  rewrite forallb_forall in H. apply N.leb_le, H. apply list_elem_of_In, list_elem_of_fmap.
  exists (N.to_nat n). split; [lia|]. apply elem_of_seq. lia.
Qed.

Lemma print_ipv4_length a : len (print_ipv4 a) <= 15.
Proof.
  unfold print_ipv4. pose proof (octet_bound 4 a) as Hb. pose proof (octets_length 4 a) as Hl.
  destruct (octets 4 a) as [|x1 [|x2 [|x3 [|x4 [|]]]]]; try done.
  assert (∀ x, x ∈ [x1; x2; x3; x4] → len (print_uint x) <= 3) as Hr.
  { intros x Hx. by apply octet_length, Hb. }
  cbn [fmap list_fmap join]. rewrite !len_app. change (len ".") with 1.
  pose proof (Hr x1 ltac:(set_solver)). pose proof (Hr x2 ltac:(set_solver)).
  pose proof (Hr x3 ltac:(set_solver)). pose proof (Hr x4 ltac:(set_solver)). lia.
Qed.

Lemma parse_print_ipv4 a : a < 2 ^ 32 → parse_ipv4 (print_ipv4 a) = Some a.
Proof.
  intros Ha. unfold parse_ipv4. rewrite (proj2 (N.ltb_ge 15 _) (print_ipv4_length a)).
  unfold parse_with. rewrite <-(str_app_nil_r (print_ipv4 a)) at 1.
  by rewrite (read_printed_ipv4 a EmptyString Ha eq_refl).
Qed.
