(* ===== verification/Forwarded.v ===== *)
(** * Who is the client ([src/src/net/forwarded.rs])

    CIDR trust lists and the forwarded headers they let in.  Header bytes are
    decoded lossily by the source; the replacement only touches bytes no
    address, scheme or parameter name contains, so the model reads the bytes. *)

From S2P Require Import Prelude Words Text Schema Classifier Net.
Local Open Scope string_scope.
Local Open Scope list_scope.
Local Open Scope N_scope.

Inductive ListenerScheme := Http | Https.
Definition scheme_as_str (s : ListenerScheme) : string :=
  match s with Http => "http" | Https => "https" end.

Record ClientFacts := mkFacts {
  fact_client_ip : option IpAddr;
  fact_scheme : string;
  peer_trusted : bool }.

(** ** CIDR blocks *)

Record Cidr := mkCidr { network : IpAddr; prefix : N }.

Inductive CidrError :=
| PrefixNotANumber (raw : string)
| NotAnAddress (raw : string)
| PrefixTooLong (raw : string) (prefix max : N).

Definition parse_Cidr (raw : string) : result CidrError Cidr :=
  let raw := trim raw in
  '(address, prefix) ←
    match rsplit_once "/" raw with
    | Some (address, l) =>
        prefix ← ok_or (parse_u8 l) (PrefixNotANumber raw); Ok (address, Some prefix)
    | None => Ok (raw, None)
    end;
  let address := default address (rest ← strip_prefix "[" address; strip_suffix "]" rest) in
  network ← ok_or (parse_ip address) (NotAnAddress raw);
  let max := if is_ipv4 network then 32 else 128 in
  let prefix := default max prefix in
  if max <? prefix then Err (PrefixTooLong raw prefix max) else Ok (mkCidr network prefix).

(** [a[..n]] and [a[n]]; the indices stay in range because [prefix] does. *)
Definition prefix_eq (a b : list N) (prefix : N) : bool :=
  let whole := N.to_nat (prefix / 8) in
  if negb (bool_decide (take whole a = take whole b)) then false
  else
    let leftover := prefix mod 8 in
    if leftover =? 0 then true
    else
      let mask := N.shiftl 255 (8 - leftover) mod 256 in
      N.land (nth whole a 0) mask =? N.land (nth whole b 0) mask.

Definition contains (c : Cidr) (address : IpAddr) : bool :=
  match network c, address with
  | V4 n, V4 a => prefix_eq (octets 4 n) (octets 4 a) (prefix c)
  | V6 n, V6 a => prefix_eq (octets 16 n) (octets 16 a) (prefix c)
  | V4 n, V6 a =>
      match to_ipv4_mapped a with
      | Some mapped => prefix_eq (octets 4 n) (octets 4 mapped) (prefix c)
      | None => false
      end
  | V6 _, V4 _ => false
  end.

(** ** Reading the headers *)

(** [Iterator::find_map] and [filter_map]. *)
Fixpoint find_map {A B} (f : A → option B) (l : list A) : option B :=
  match l with
  | [] => None
  | a :: l => match f a with Some b => Some b | None => find_map f l end
  end.

Definition normalize_scheme (raw : string) : option string :=
  if eq_ignore_ascii_case raw "https" then Some "https"
  else if eq_ignore_ascii_case raw "http" then Some "http" else None.

(** [split(',').next()]. *)
Definition first_element (value : string) : option string := head (split_on "," value).
Definition first_token (value : string) : string := trim (default EmptyString (first_element value)).

Definition param (element name : string) : option string :=
  find_map (λ pair,
    '(key, value) ← split_once "=" pair;
    if eq_ignore_ascii_case (trim key) name then Some (trim_matches quote (trim value)) else None)
    (split_on ";" element).

Definition parse_address (raw : string) : option IpAddr :=
  let raw := trim_matches quote (trim raw) in
  if is_empty raw then None
  else
    match strip_prefix "[" raw with
    | Some rest => '(inside, _) ← split_once "]" rest; parse_ip inside
    | None =>
        match parse_ip raw with
        | Some address => Some address
        | None =>
            '(host, port) ← rsplit_once ":" raw;
            match parse_u16 port with None => None | Some _ => V4 <$> parse_ipv4 host end
        end
    end.

Definition x_forwarded_chain (value : string) : list IpAddr :=
  omap parse_address (split_on "," value).
Definition forwarded_chain (value : string) : list IpAddr :=
  omap (λ element, p ← param element "for"; parse_address p) (split_on "," value).

Definition parse_x_forwarded_for (h : HeaderMap) : list IpAddr :=
  get_all h "x-forwarded-for" ≫= x_forwarded_chain.
Definition parse_forwarded_for (h : HeaderMap) : list IpAddr :=
  get_all h "forwarded" ≫= forwarded_chain.

(** ** The policy *)

Record TrustPolicy := mkTrust {
  blocks : list Cidr;
  client_ip : ForwardedSource;
  scheme : ForwardedSource }.

Definition build (config : TrustedProxies.TrustedProxies) : result CidrError TrustPolicy :=
  blocks ← try_map parse_Cidr (TrustedProxies.from config);
  Ok (mkTrust blocks (TrustedProxies.client_ip config) (TrustedProxies.scheme config)).

Definition trusts (p : TrustPolicy) (address : IpAddr) : bool :=
  existsb (λ block, contains block address) (blocks p).

Definition walk_back (p : TrustPolicy) (chain : list IpAddr) : option IpAddr :=
  match list_find (λ a, trusts p a = false) (rev chain) with
  | Some (_, address) => Some address
  | None => head chain
  end.

Definition forwarded_client (p : TrustPolicy) (h : HeaderMap) : option IpAddr :=
  match client_ip p with
  | NoForwarded => None
  | XForwarded => walk_back p (parse_x_forwarded_for h)
  | Forwarded => walk_back p (parse_forwarded_for h)
  end.

Definition forwarded_scheme (p : TrustPolicy) (h : HeaderMap) : option string :=
  raw ← match scheme p with
        | NoForwarded => None
        | XForwarded => first_token <$> get_header h "x-forwarded-proto"
        | Forwarded =>
            v ← get_header h "forwarded"; element ← first_element v; param element "proto"
        end;
  normalize_scheme raw.

Definition resolve (p : TrustPolicy) (peer : option IpAddr) (h : HeaderMap)
    (listener : ListenerScheme) : ClientFacts :=
  let trusted := match peer with Some address => trusts p address | None => false end in
  if negb trusted then mkFacts peer (scheme_as_str listener) false
  else
    mkFacts (match forwarded_client p h with Some a => Some a | None => peer end)
      (default (scheme_as_str listener) (forwarded_scheme p h)) true.

(** ** Properties *)

Lemma mask_testbit l i :
  1 <= l < 8 → N.testbit (N.shiftl 255 (8 - l) mod 256) i = (8 - l <=? i) && (i <? 8).
Proof.
  intros Hl. change 256 with (2 ^ 8). destruct (N.ltb_spec i 8) as [Hi|Hi].
  - rewrite N.mod_pow2_bits_low, andb_true_r by done.
    destruct (N.leb_spec (8 - l) i) as [Hle|Hlt].
    + rewrite N.shiftl_spec_high' by done. change 255 with (N.ones 8).
      apply N.ones_spec_low. lia.
    + by rewrite N.shiftl_spec_low.
  - rewrite N.mod_pow2_bits_high by done. by rewrite andb_false_r.
Qed.

Lemma div8 i : ∃ q r, i / 8 = q ∧ i mod 8 = r ∧ i = 8 * q + r ∧ r < 8.
Proof.
  exists (i / 8), (i mod 8). split; [done|]. split; [done|].
  split; [apply N.Div0.div_mod|by apply N.mod_lt].
Qed.

(** The leading octets agree exactly when the bits they hold do. *)
Lemma take_octets_agree k a b w :
  (w ≤ k)%nat → a < 2 ^ (8 * N.of_nat k) → b < 2 ^ (8 * N.of_nat k) →
  take w (octets k a) = take w (octets k b) ↔ agree_from (8 * N.of_nat (k - w)) a b.
Proof.
  intros Hw Ha Hb. split.
  - intros H i Hi. destruct (N.lt_ge_cases i (8 * N.of_nat k)) as [Hlt|Hge].
    2: { assert (∀ x, x < 2 ^ (8 * N.of_nat k) → N.testbit x i = false) as Hz.
         { intros x Hx. destruct (decide (x = 0)) as [->|Hne]; [apply N.bits_0|].
           apply N.bits_above_log2. apply N.log2_lt_pow2; [lia|].
           eapply N.lt_le_trans; [exact Hx|]. apply N.pow_le_mono_r; lia. }
         by rewrite !Hz. }
    destruct (div8 i) as (q & r & _ & _ & Hi8 & Hr). set (m := N.to_nat q).
    assert (q < N.of_nat k) as Hik by lia.
    assert (N.of_nat (k - w) <= q) as Hiw by lia.
    assert (octet a m = octet b m) as Hm.
    { apply (f_equal (λ l, l !! (k - 1 - m)%nat)) in H. unfold m in *.
      rewrite !lookup_take_lt, !octets_lookup in H by lia.
      replace (k - 1 - (k - 1 - N.to_nat q))%nat with (N.to_nat q) in H by lia.
      by injection H. }
    rewrite octet_agree in Hm. apply Hm. unfold m. rewrite N2Nat.id. lia.
  - intros H. apply list_eq. intros j. destruct (decide (j < w)%nat) as [Hj|Hj].
    + rewrite !lookup_take_lt, !octets_lookup by lia. f_equal. apply octet_agree.
      intros i Hi. apply H. lia.
    + rewrite !lookup_take_ge by lia. done.
Qed.

(** What a prefix comparison means: the two addresses have the same leading
    bits, as many as the prefix says. *)
Lemma prefix_eq_bits k a b p :
  a < 2 ^ (8 * N.of_nat k) → b < 2 ^ (8 * N.of_nat k) → p <= 8 * N.of_nat k →
  prefix_eq (octets k a) (octets k b) p = true ↔
  N.shiftr a (8 * N.of_nat k - p) = N.shiftr b (8 * N.of_nat k - p).
Proof.
  intros Ha Hb Hp. rewrite shiftr_agree. unfold prefix_eq.
  destruct (div8 p) as (w & l & -> & -> & Hdm & Hmod).
  assert (w <= N.of_nat k) as Hw by lia.
  pose proof (take_octets_agree k a b (N.to_nat w) ltac:(lia) Ha Hb) as Htake.
  replace (8 * N.of_nat (k - N.to_nat w)) with (8 * N.of_nat k - 8 * w) in Htake by lia.
  destruct (decide (take (N.to_nat w) (octets k a) = take (N.to_nat w) (octets k b))) as [Ht|Ht].
  2: { rewrite bool_decide_eq_false_2 by done. simpl. split; [done|]. intros H. destruct Ht.
       apply Htake. intros i Hi. apply H. lia. }
  rewrite bool_decide_eq_true_2 by done. simpl. apply Htake in Ht.
  destruct (N.eqb_spec l 0) as [Hl|Hl].
  { split; [|done]. intros _. replace (8 * N.of_nat k - p) with (8 * N.of_nat k - 8 * w) by lia. done. }
  assert (w < N.of_nat k) as Hwk by lia.
  assert (∀ x, nth (N.to_nat w) (octets k x) 0 = octet x (k - 1 - N.to_nat w)) as Hnth.
  { intros x. apply nth_lookup_Some. apply octets_lookup. lia. }
  rewrite !Hnth, N.eqb_eq. set (m := (k - 1 - N.to_nat w)%nat).
  assert (8 * N.of_nat m + 8 = 8 * N.of_nat k - 8 * w) as Hm by (unfold m; lia).
  assert (∀ x i, N.testbit (N.land (octet x m) (N.shiftl 255 (8 - l) mod 256)) i
    = (8 - l <=? i) && (i <? 8) && N.testbit x (8 * N.of_nat m + i)) as Hbit.
  { intros x i. rewrite N.land_spec, octet_testbit, mask_testbit by lia.
    by destruct (8 - l <=? i), (i <? 8), (N.testbit x _). }
  split.
  - intros H i Hi. destruct (N.le_gt_cases (8 * N.of_nat k - 8 * w) i) as [Hhi|Hlo]; [by apply Ht|].
    apply (f_equal (λ x, N.testbit x (i - 8 * N.of_nat m))) in H. rewrite !Hbit in H.
    rewrite (proj2 (N.leb_le _ _)), (proj2 (N.ltb_lt _ _)) in H by lia. simpl in H.
    by replace (8 * N.of_nat m + (i - 8 * N.of_nat m)) with i in H by lia.
  - intros H. apply N.bits_inj. intros i. rewrite !Hbit.
    destruct (N.leb_spec (8 - l) i), (N.ltb_spec i 8); simpl; try done. apply H. lia.
Qed.

(** The block a CIDR denotes, by bits; an IPv4 block also covers the
    IPv4-mapped IPv6 addresses. *)
Definition in_block (c : Cidr) (a : IpAddr) : Prop :=
  match network c, a with
  | V4 n, V4 x => N.shiftr n (32 - prefix c) = N.shiftr x (32 - prefix c)
  | V6 n, V6 x => N.shiftr n (128 - prefix c) = N.shiftr x (128 - prefix c)
  | V4 n, V6 x =>
      N.shiftr x 32 = 65535 ∧
      N.shiftr n (32 - prefix c) = N.shiftr (x mod 2 ^ 32) (32 - prefix c)
  | V6 _, V4 _ => False
  end.

(** What the parser promises of a block. *)
Definition valid_cidr (c : Cidr) : Prop :=
  valid_ip (network c) ∧ prefix c <= (if is_ipv4 (network c) then 32 else 128).

Lemma parse_Cidr_valid raw c : parse_Cidr raw = Ok c → valid_cidr c.
Proof.
  unfold parse_Cidr. rewrite bind_ok. intros ([address l] & _ & H).
  apply bind_ok in H as (a & Ha & H). apply ok_or_ok, parse_ip_valid in Ha.
  destruct (N.ltb_spec (if is_ipv4 a then 32 else 128) (default (if is_ipv4 a then 32 else 128) l));
    [done|]. injection H as <-. done.
Qed.

Lemma prefix_eq_bits_v4 a b p :
  a < 2 ^ 32 → b < 2 ^ 32 → p <= 32 →
  prefix_eq (octets 4 a) (octets 4 b) p = true ↔ N.shiftr a (32 - p) = N.shiftr b (32 - p).
Proof. intros. exact (prefix_eq_bits 4 a b p ltac:(assumption) ltac:(assumption) ltac:(assumption)). Qed.

Lemma prefix_eq_bits_v6 a b p :
  a < 2 ^ 128 → b < 2 ^ 128 → p <= 128 →
  prefix_eq (octets 16 a) (octets 16 b) p = true ↔ N.shiftr a (128 - p) = N.shiftr b (128 - p).
Proof. intros. exact (prefix_eq_bits 16 a b p ltac:(assumption) ltac:(assumption) ltac:(assumption)). Qed.

Lemma contains_spec c a :
  valid_cidr c → valid_ip a → contains c a = true ↔ in_block c a.
Proof.
  intros [Hn Hp] Ha. unfold contains, in_block.
  destruct (network c) as [n|n] eqn:En, a as [x|x]; cbn [is_ipv4 valid_ip] in *.
  - apply prefix_eq_bits_v4; assumption.
  - unfold to_ipv4_mapped. change 4294967296 with (2 ^ 32).
    destruct (N.eqb_spec (N.shiftr x 32) 65535) as [Hm|?].
    + assert (x mod 2 ^ 32 < 2 ^ 32) as Hx by (apply N.mod_lt; discriminate).
      rewrite (prefix_eq_bits_v4 _ _ _ Hn Hx Hp). split; [intros ?; split; assumption|intros [_ ?]; assumption].
    + split; [discriminate|]. intros [? _]. contradiction.
  - split; [discriminate|contradiction].
  - apply prefix_eq_bits_v6; assumption.
Qed.

(** A block written in the configuration contains exactly the addresses that
    share its leading bits, as many as its prefix says, for every byte boundary
    the octet-and-mask comparison may or may not fall on; a bare address is a
    single host, and a dual-stack listener's IPv4-mapped peers are compared with
    the IPv4 blocks. *)
Theorem cidr_contains_exact raw c a :
  parse_Cidr raw = Ok c → valid_ip a → contains c a = true ↔ in_block c a.
Proof. intros H Ha. apply contains_spec; [by eapply parse_Cidr_valid|done]. Qed.

(** *** The hop walk *)

Lemma list_find_app_none {A} (P : A → Prop) `{!∀ x, Decision (P x)} l x k :
  Forall (λ a, ¬ P a) l → P x → list_find P (l ++ x :: k) = Some (length l, x).
Proof.
  intros Hl Hx. induction Hl as [|a l Ha _ IH]; simpl.
  - by rewrite decide_True.
  - rewrite decide_False by done. by rewrite IH.
Qed.

Lemma walk_back_stops p l a k :
  trusts p a = false → Forall (λ x, trusts p x = true) k →
  walk_back p (l ++ a :: k) = Some a.
Proof.
  intros Ha Hk. unfold walk_back. rewrite rev_app_distr. simpl. rewrite <-app_assoc. simpl.
  rewrite (list_find_app_none _ (rev k) a (rev l)); [done| |done].
  rewrite rev_alt, <-rev_alt. apply Forall_forall. intros x Hx.
  rewrite Forall_forall in Hk. rewrite (Hk x); [done|].
  apply list_elem_of_In. apply list_elem_of_In in Hx. by apply in_rev.
Qed.

(** The header the source reads and how one field value becomes a chain. *)
Definition forwarded_header (s : ForwardedSource) : string :=
  match s with XForwarded => "x-forwarded-for" | _ => "forwarded" end.
Definition value_chain (s : ForwardedSource) (value : string) : list IpAddr :=
  match s with XForwarded => x_forwarded_chain value | _ => forwarded_chain value end.

Lemma split_on_app_sep c a b :
  split_on c (a +:+ str1 c +:+ b) = split_on c a ++ split_on c b.
Proof.
  induction a as [|x a IH]; simpl in *; [by rewrite decide_True|].
  case_decide; [by rewrite IH|]. rewrite IH.
  by destruct (split_on c a) eqn:E; [by apply split_on_nonempty in E|].
Qed.

Lemma value_chain_app s a b :
  value_chain s (a +:+ str1 "," +:+ b) = value_chain s a ++ value_chain s b.
Proof.
  destruct s; unfold value_chain, x_forwarded_chain, forwarded_chain;
    by rewrite split_on_app_sep, omap_app.
Qed.

(** C12: A client cannot choose the address it is known by.  Whatever header
    fields [vs] and whatever text [forged] the client sends, once the trusted
    proxies have appended to the list the hops they saw and one of those is
    outside the trusted blocks, the last such hop is the answer; it does not
    depend on anything to its left. *)
Theorem client_ip_unforgeable p peer h listener vs forged seen l a k :
  client_ip p ≠ NoForwarded →
  trusts p peer = true →
  get_all h (forwarded_header (client_ip p)) = vs ++ [forged +:+ "," +:+ seen] →
  value_chain (client_ip p) seen = l ++ a :: k →
  trusts p a = false → Forall (λ x, trusts p x = true) k →
  fact_client_ip (resolve p (Some peer) h listener) = Some a.
Proof.
  intros Hs Hpeer Hh Hc Ha Hk. unfold resolve. rewrite Hpeer. simpl.
  assert (forwarded_client p h
          = walk_back p (get_all h (forwarded_header (client_ip p)) ≫= value_chain (client_ip p))) as ->.
  { unfold forwarded_client. by destruct (client_ip p). }
  rewrite Hh, bind_app. change ("," +:+ seen) with (str1 "," +:+ seen).
  cbn [mbind list_bind]. rewrite app_nil_r, value_chain_app, Hc, !app_assoc.
  by rewrite walk_back_stops.
Qed.

Lemma normalize_closed raw s : normalize_scheme raw = Some s → s = "http" ∨ s = "https".
Proof. unfold normalize_scheme. repeat (destruct (eq_ignore_ascii_case _ _)); intros [=]; auto. Qed.

(** What a request may influence: the scheme that enters the cache key is
    [http] or [https] whatever the headers say; and unless the peer's address
    is in a trusted block, the facts are the peer and the listener's scheme,
    the headers playing no part. *)
Theorem headers_need_a_trusted_peer p peer h listener :
  let facts := resolve p peer h listener in
  (fact_scheme facts = "http" ∨ fact_scheme facts = "https") ∧
  peer_trusted facts = existsb (λ b, match peer with Some a => contains b a | None => false end) (blocks p) ∧
  (peer_trusted facts = false → facts = mkFacts peer (scheme_as_str listener) false).
Proof.
  unfold resolve. set (t := match peer with Some a => trusts p a | None => false end).
  assert (t = existsb (λ b, match peer with Some a => contains b a | None => false end) (blocks p)) as Ht.
  { unfold t, trusts. destruct peer; [done|]. by induction (blocks p). }
  rewrite <-Ht. clear Ht. destruct t; simpl.
  - split; [|done]. destruct (forwarded_scheme p h) as [s|] eqn:E; [|by destruct listener; auto].
    unfold forwarded_scheme in E. apply bind_Some in E as (raw & _ & E). by eapply normalize_closed.
  - split; [by destruct listener; auto|done].
Qed.

(** *** Chain entries *)

Lemma strip_one_char c s : contains_char c s = false → strip_one [str1 c] s = None.
Proof.
  destruct s as [|a s]; [done|]. rewrite contains_char_cons.
  intros [Ha _]%orb_false_iff. apply bool_decide_eq_false in Ha. simpl.
  rewrite decide_False; [done|congruence].
Qed.

Lemma trim_matches_clean c s : contains_char c s = false → trim_matches c s = s.
Proof.
  intros Hc. apply trim_pats_id; [by apply strip_one_char|].
  apply (strip_one_char c). unfold contains_char in *. by rewrite all_chars_rev.
Qed.

Lemma read_printed_ip a rest :
  a < 2 ^ 32 → digit_first rest = false →
  parse_ip (print_ipv4 a +:+ rest) = if is_empty rest then Some (V4 a) else None.
Proof.
  intros Ha Hrest. unfold parse_ip, parse_with, read_ip_addr.
  by rewrite (read_printed_ipv4 a rest Ha Hrest).
Qed.

Definition address_char (c : ascii) : bool := is_digit c || bool_decide (c = "."%char).

Lemma print_ipv4_chars a : all_chars address_char (print_ipv4 a) = true.
Proof.
  unfold print_ipv4. induction (octets 4 a) as [|x l IH]; [done|].
  assert (all_chars address_char (print_uint x) = true) as Hx.
  { eapply all_chars_impl, print_uint_digits. intros c Hc. unfold address_char. by rewrite Hc. }
  rewrite fmap_cons. destruct l as [|y l]; [done|].
  rewrite join_cons by done. rewrite !all_chars_app, Hx, IH. done.
Qed.

Lemma print_ipv4_lacks c a : address_char c = false → contains_char c (print_ipv4 a) = false.
Proof. intros Hc. eapply all_chars_not_contains, print_ipv4_chars. done. Qed.

(** Every address a proxy writes is read back: the dotted form, alone or
    with a port, parses to the address it was printed from. *)
Theorem parse_address_print a port :
  a < 2 ^ 32 → port <= U16_MAX →
  parse_address (print_ipv4 a) = Some (V4 a) ∧
  parse_address (print_ipv4 a +:+ ":" +:+ print_uint port) = Some (V4 a).
Proof.
  intros Ha Hp.
  assert (∀ rest, all_chars is_ascii_graphic rest = true → contains_char quote rest = false →
    digit_first rest = false →
    parse_address (print_ipv4 a +:+ rest) =
      if is_empty rest then Some (V4 a)
      else '(host, port) ← rsplit_once ":" (print_ipv4 a +:+ rest);
           match parse_u16 port with None => None | Some _ => V4 <$> parse_ipv4 host end) as Hgen.
  { intros rest Hg Hq Hd. unfold parse_address.
    rewrite trim_graphic by by rewrite all_chars_app, print_ipv4_graphic.
    rewrite trim_matches_clean by by rewrite contains_char_app, print_ipv4_lacks, Hq.
    assert (is_empty (print_ipv4 a +:+ rest) = false ∧ strip_prefix "[" (print_ipv4 a +:+ rest) = None)
      as [-> ->].
    { pose proof (print_ipv4_lacks "[" a eq_refl) as Hl.
      pose proof (parse_print_ipv4 a Ha) as Hne.
      destruct (print_ipv4 a) as [|x s]; [done|]. split; [done|].
      rewrite contains_char_cons in Hl. apply orb_false_iff in Hl as [Hx _].
      apply bool_decide_eq_false in Hx. simpl. by rewrite decide_False. }
    rewrite (read_printed_ip a rest Ha Hd). by destruct (is_empty rest). }
  split.
  - rewrite <-(str_app_nil_r (print_ipv4 a)). by rewrite Hgen.
  - assert (contains_char ":" (print_uint port) = false) as Hc.
    { by eapply all_chars_not_contains, print_uint_digits. }
    rewrite Hgen; [|by simpl; rewrite print_uint_graphic| |done].
    + change (":" +:+ print_uint port) with (str1 ":" +:+ print_uint port).
      rewrite rsplit_once_last by exact Hc. cbn [mbind option_bind is_empty String.append str1].
      unfold parse_u16. rewrite (parse_print_uint _ _ Hp), (parse_print_ipv4 a Ha). reflexivity.
    + change (":" +:+ print_uint port) with (str1 ":" +:+ print_uint port).
      rewrite contains_char_app. cbn [orb]. by eapply all_chars_not_contains, print_uint_digits.
Qed.

(** ** Witnesses *)

Lemma cidr_contains_exact_witness :
  contains (mkCidr (V4 167837696) 12) (V6 281470850236417) = true.
Proof.
  apply (cidr_contains_exact " 10.1.0.0/12 "); [vm_compute; reflexivity|vm_compute; reflexivity|].
  split; vm_compute; reflexivity.
Defined.

Definition sample_policy : TrustPolicy :=
  mkTrust [mkCidr (V4 167772160) 8] XForwarded XForwarded.
Definition sample_headers : HeaderMap := λ n,
  if String.eqb n "x-forwarded-for" then ["6.6.6.6"; "9.9.9.9, 203.0.113.7, 10.0.0.4"] else [].

Lemma client_ip_unforgeable_witness :
  fact_client_ip (resolve sample_policy (Some (V4 167772161)) sample_headers Https)
    = Some (V4 3405803783).
Proof.
  apply (client_ip_unforgeable sample_policy _ sample_headers Https ["6.6.6.6"] "9.9.9.9"
    " 203.0.113.7, 10.0.0.4" [] _ [V4 167772164]); [discriminate|vm_compute; reflexivity..|].
  constructor; [vm_compute; reflexivity|constructor].
Defined.

Lemma parse_address_print_witness :
  parse_address "203.0.113.7:65535" = Some (V4 3405803783).
Proof. apply (parse_address_print 3405803783 65535); [vm_compute; reflexivity|vm_compute; discriminate]. Defined.
