(* ===== verification/Otlp.v ===== *)
(** * Where spans are posted ([src/src/telemetry/otlp.rs])

    The endpoint of the OTLP exporter as the configuration writes it. *)

From S2P Require Import Prelude Words Text.
Local Open Scope string_scope.
Local Open Scope list_scope.
Local Open Scope N_scope.

Record Endpoint := mkEndpoint {
  host : string;
  port : N;
  path : string;
  authority : string }.
#[export] Instance Endpoint_eq_dec : EqDecision Endpoint.
Proof. solve_decision. Defined.

Inductive EndpointError :=
| SurroundingWhitespace
| ForbiddenCharacter
| NotPlaintext
| NotHttp (raw : string)
| NoHost
| Userinfo
| QueryInAuthority
| UnterminatedLiteral (authority : string)
| AfterLiteral (after : string)
| NotAPort (raw : string)
| PortZero.

Definition parse_port (raw : string) : result EndpointError N :=
  p ← ok_or (parse_u16 raw) (NotAPort raw);
  if p =? 0 then Err PortZero else Ok p.

(** ASCII, but no control character, space, [#] or backslash. *)
Definition endpoint_char (a : ascii) : bool :=
  negb ((128 <=? code a) || (code a <=? 32) || (code a =? 127) || (code a =? 35) || (code a =? 92)).

(** [find('/')] and [split_at]: the slash stays with the path. *)
Definition split_authority (rest : string) : string * string :=
  match split_once "/" rest with
  | Some (a, p) => (a, "/" +:+ p)
  | None => (rest, EmptyString)
  end.

Definition host_port (authority : string) : result EndpointError (string * N) :=
  match strip_prefix "[" authority with
  | Some close =>
      '(inside, after) ← ok_or (split_once "]" close) (UnterminatedLiteral authority);
      port ← match strip_prefix ":" after with
             | Some p => parse_port p
             | None => if is_empty after then Ok 4318 else Err (AfterLiteral after)
             end;
      Ok (inside, port)
  | None =>
      match rsplit_once ":" authority with
      | Some (h, p) => port ← parse_port p; Ok (h, port)
      | None => Ok (authority, 4318)
      end
  end.

Definition parse_endpoint (raw : string) : result EndpointError Endpoint :=
  refuse_if (negb (bool_decide (raw = trim raw))) SurroundingWhitespace;;
  refuse_if (negb (all_chars endpoint_char raw)) ForbiddenCharacter;;
  refuse_if (starts_with "https://" raw) NotPlaintext;;
  rest ← ok_or (strip_prefix "http://" raw) (NotHttp raw);
  refuse_if (is_empty rest) NoHost;;
  let '(authority, path) := split_authority rest in
  refuse_if (is_empty authority) NoHost;;
  refuse_if (contains_char "@" authority) Userinfo;;
  refuse_if (contains_char "?" authority) QueryInAuthority;;
  '(host, port) ← host_port authority;
  refuse_if (is_empty host) NoHost;;
  Ok (mkEndpoint host port (if is_empty path then "/v1/traces" else path) authority).

(** ** Properties *)

Lemma endpoint_char_graphic a : endpoint_char a = true → is_ascii_graphic a = true.
Proof. destruct a as [[] [] [] [] [] [] [] []]; vm_compute; congruence. Qed.

(** The characters of a DNS name or a dotted address. *)
Definition host_char (a : ascii) : bool :=
  is_ascii_alphabetic a || is_digit a || bool_decide (a = "."%char) || bool_decide (a = "-"%char).

Lemma host_char_endpoint a : host_char a = true → endpoint_char a = true.
Proof. destruct a as [[] [] [] [] [] [] [] []]; vm_compute; congruence. Qed.

Lemma digit_endpoint a : is_digit a = true → endpoint_char a = true.
Proof. destruct a as [[] [] [] [] [] [] [] []]; vm_compute; congruence. Qed.

(** What may follow the authority: nothing, or a path. *)
Definition url_path (path : string) : bool :=
  is_empty path || (starts_with "/" path && all_chars endpoint_char path).

Lemma split_authority_at authority path :
  contains_char "/" authority = false → url_path path = true →
  split_authority (authority +:+ path) = (authority, path).
Proof.
  intros Ha Hp. unfold split_authority, url_path in *. apply orb_true_iff in Hp as [Hp|Hp].
  - destruct path; [|done]. rewrite str_app_nil_r. by rewrite (proj2 (split_once_none _ _) Ha).
  - apply andb_true_iff in Hp as [Hp _]. apply starts_with_spec in Hp as [p ->].
    by rewrite (proj2 (split_once_some "/" (authority +:+ "/" +:+ p) authority p) (conj eq_refl Ha)).
Qed.

Lemma host_port_of h port :
  all_chars host_char h = true → port <= U16_MAX → port ≠ 0 →
  host_port (h +:+ ":" +:+ print_uint port) = Ok (h, port) ∧ host_port h = Ok (h, 4318).
Proof.
  intros Hh Hp Hz. unfold host_port.
  assert (∀ c, host_char c = false → contains_char c h = false) as Hno.
  { intros c Hc. by eapply all_chars_not_contains. }
  assert (∀ s, (∀ a s', s = String a s' → a ≠ "["%char) → strip_prefix "[" s = None) as Hb.
  { intros [|a s] Hs; [done|]. specialize (Hs a s eq_refl). simpl. rewrite decide_False; [done|congruence]. }
  split.
  - rewrite Hb.
    + change (":" +:+ print_uint port) with (str1 ":" +:+ print_uint port).
      rewrite rsplit_once_last by by eapply all_chars_not_contains, print_uint_digits.
      unfold parse_port, parse_u16. rewrite parse_print_uint by done.
      cbn [ok_or mbind result_bind]. by rewrite (proj2 (N.eqb_neq port 0) Hz).
    + intros a s' E ->. destruct h as [|b h]; [done|]. injection E as -> _. discriminate Hh.
  - rewrite Hb.
    + by rewrite rsplit_once_clean by by apply Hno.
    + intros a s' -> ->. discriminate Hh.
Qed.

Lemma parse_endpoint_of h authority path port :
  all_chars endpoint_char (authority +:+ path) = true →
  contains_char "/" authority = false → contains_char "@" authority = false →
  contains_char "?" authority = false → authority ≠ EmptyString → url_path path = true →
  host_port authority = Ok (h, port) → h ≠ EmptyString →
  parse_endpoint ("http://" +:+ authority +:+ path) =
    Ok (mkEndpoint h port (if is_empty path then "/v1/traces" else path) authority).
Proof.
  intros Hc Hs Hat Hq Hne Hp Hhp Hh. unfold parse_endpoint.
  assert (all_chars endpoint_char ("http://" +:+ authority +:+ path) = true) as Hall.
  { rewrite all_chars_app, Hc. done. }
  rewrite Hall. rewrite trim_graphic.
  2: { eapply all_chars_impl; [|exact Hall]. exact endpoint_char_graphic. }
  rewrite bool_decide_eq_true_2 by done.
  rewrite strip_prefix_app. cbn [negb refuse_if mbind result_bind ok_or].
  change (starts_with "https://" ("http://" +:+ authority +:+ path)) with false. cbn [refuse_if].
  rewrite split_authority_at by done. rewrite Hat, Hq, Hhp. destruct authority; [done|].
  cbn [String.append is_empty refuse_if]. destruct h; done.
Qed.

(** An endpoint written as a host, an optional port and an optional path is
    read back exactly: the host and path as written, port 4318 and path
    [/v1/traces] where they are left out. *)
Theorem parse_endpoint_print h port path :
  all_chars host_char h = true → h ≠ EmptyString →
  port <= U16_MAX → port ≠ 0 → url_path path = true →
  let path' := if is_empty path then "/v1/traces" else path in
  parse_endpoint ("http://" +:+ (h +:+ ":" +:+ print_uint port) +:+ path)
    = Ok (mkEndpoint h port path' (h +:+ ":" +:+ print_uint port)) ∧
  parse_endpoint ("http://" +:+ h +:+ path) = Ok (mkEndpoint h 4318 path' h).
Proof.
  intros Hh Hne Hp Hz Hpath. destruct (host_port_of h port Hh Hp Hz) as [H1 H2].
  assert (all_chars endpoint_char h = true) as Hhe.
  { eapply all_chars_impl; [|exact Hh]. exact host_char_endpoint. }
  assert (all_chars endpoint_char path = true) as Hpe.
  { unfold url_path in Hpath. apply orb_true_iff in Hpath as [E|[_ E]%andb_true_iff]; [|done].
    by destruct path. }
  assert (all_chars endpoint_char (print_uint port) = true) as Hpp.
  { eapply all_chars_impl; [|apply print_uint_digits]. exact digit_endpoint. }
  assert (∀ c, host_char c = false → contains_char c h = false) as Hno.
  { intros c Hc. by eapply all_chars_not_contains. }
  assert (∀ c, host_char c = false → is_digit c = false → c ≠ ":"%char →
    contains_char c (h +:+ ":" +:+ print_uint port) = false) as Hno'.
  { intros c Hc Hd Hcol. rewrite !contains_char_app, Hno by done.
    rewrite (all_chars_not_contains is_digit c (print_uint port) Hd (print_uint_digits port)).
    rewrite orb_false_r. simpl. rewrite contains_char_cons. rewrite bool_decide_eq_false_2; done. }
  cbv zeta. split; apply parse_endpoint_of; try done.
  - by rewrite !all_chars_app, Hhe, Hpp, Hpe.
  - by apply Hno'.
  - by apply Hno'.
  - by apply Hno'.
  - by destruct h.
  - by rewrite all_chars_app, Hhe, Hpe.
  - by apply Hno.
  - by apply Hno.
  - by apply Hno.
Qed.

Lemma parse_endpoint_print_witness :
  parse_endpoint "http://otel.svc:4317/custom" =
    Ok (mkEndpoint "otel.svc" 4317 "/custom" "otel.svc:4317") ∧
  parse_endpoint "http://otel.svc" = Ok (mkEndpoint "otel.svc" 4318 "/v1/traces" "otel.svc").
Proof.
  split.
  - apply (parse_endpoint_print "otel.svc" 4317 "/custom"); try reflexivity; discriminate.
  - apply (parse_endpoint_print "otel.svc" 4317 EmptyString); try reflexivity; discriminate.
Defined.
