(* ===== verification/Validation.v ===== *)
(** * Configuration validation ([src/src/config/validation.rs])

    Every check of [validate], in the order the source makes them, with one
    error constructor per message and the values the message shows.  What the
    checks ask of the outside (the build's features, the file system, the TLS
    library, http's header names) is a [Platform]. *)

From S2P Require Import Prelude Words Text Units Schema Semaphores Limiter Classifier Admission Otlp Net Forwarded.
Local Open Scope string_scope.
Local Open Scope list_scope.
Local Open Scope N_scope.

(** The outside, as the checks see it. *)
Record Platform := mkPlatform {
  tls_feature : bool;
  path_exists : string → bool;
  Material : Type;
  load_certs_and_key_files : string → string → result string (option Material);
  with_single_cert : Material → result string unit;
  HeaderName : Type;
  HeaderName_eq_dec : EqDecision HeaderName;
  from_bytes : string → option HeaderName }.
#[export] Existing Instance HeaderName_eq_dec.

Inductive ValidationError :=
| UnsupportedVersion (found supported : N)
| NoUpstreams
| ConcurrencyZero
| AboveSemaphoreMax (path : string) (value max : N)
| GlobalMaxZero
| ReplicasZero
| AllocationOverflows
| AllocationExceeds (max replicas allocated global_max : N)
| MaxMemoryZero
| MaxBodyZero
| BodyExceedsMemory (body memory : N)
| StatusNotError (status : N)
| TwoDeploymentIds
| DeploymentSeparator
| HealthPath
| HealthZeroDuration
| HealthZeroCount
| ReadinessWithoutHealth
| RespectOriginUnimplemented
| IdHeaderUnimplemented
| ServerTlsFeature
| TlsSameListen (listen : string)
| TlsCertOrKeyEmpty
| TlsFileMissing (label path : string)
| TlsMaterialUnreadable (error : string)
| TlsMaterialEmpty
| TlsMaterialInvalid (error : string)
| TrustedBlock (error : CidrError)
| TrustsNobody
| AutoNeedsTls
| OriginTlsFeature
| SniEmpty
| HostnameWithoutCert
| OriginCaUnimplemented
| SpoolBodyZero
| SpoolMemoryZero
| SpoolBodyExceeds (body memory : N)
| SpoolStreaming (route : string)
| UpgradeZero
| PidFileEmpty
| UpgradeSocketEmpty
| SamePaths
| ShutdownZero
| AdminOverlap (listen name : string)
| ServiceNameEmpty
| OneInZero
| OtlpEndpoint (why : EndpointError)
| OtlpZero
| OtlpBatchExceeds (batch queue : N)
| OtlpZeroDuration
| BadListen (path address : string)
| UpstreamNoPort (address : string)
| UpstreamInvalid (address : string)
| UpstreamUnbracketed (address : string)
| CoalesceWaitShort (wait origin : Duration)
| QueueNoDeadline (path : string) (max : N)
| QueueTimeoutLong (path : string) (timeout : Duration)
| PurgeWithoutAdmin
| PurgeTokenShort (length : N)
| PurgeTokenBytes
| TagHeaderInvalid (name : string)
| TagHeaderRequest (name : string)
| BreakerAlone (upstreams : N)
| BreakerZeroDuration
| BreakerMinRequests
| BreakerFailurePercent (percent : N)
| BreakerMaxEjected (percent : N)
| BreakerEjectsNothing (percent upstreams raise_to : N)
| RetryAttempts (max_attempts : N)
| RetryWindow
| RetryBudget (percent : N)
| RetryUnaffordable
| PriorityPercent (name : string) (percent : N)
| PriorityRoundsToZero (name : string) (percent max raise_to : N)
| DuplicateRoute (id : string)
| WeightZero (id : string)
| WeightExceedsGlobal (id : string) (weight global : N)
| WeightExceedsTier (id : string) (weight : N) (priority : string) (tier percent : N)
| WeightExceedsRoute (id : string) (weight max : N)
| PriorityUniform (id priority : string)
| RouteConcurrencyZero (id : string)
| PrivateCached (id : string)
| PrivateOverride (id : string)
| OverrideWithoutClass (id : string)
| OverrideWithoutTtl (id : string)
| VaryCredential (id header : string)
| VaryUnbounded (id header : string)
| QueryKeysEmpty (id : string)
| PrivateCoalesceOverride (id : string)
| OverrideCoalesceDisabled (id : string)
| VaryInvalid (id name : string)
| VaryRepeats (id name : string).

Abbreviation Check := (result ValidationError unit).

(** [if let Some(x) = opt { ... }]. *)
Definition if_some {A} (o : option A) (f : A → Check) : Check :=
  match o with Some a => f a | None => Ok tt end.

Definition MAX_QUEUE_TIMEOUT : Duration := from_secs (60 * 60).
Definition MIN_PURGE_TOKEN : N := 24.

Definition count {A} (l : list A) : N := N.of_nat (length l).

(** ** Checks that ask nothing of the outside *)

Definition validate_listen (address path : string) : Check :=
  match parse_socket address with
  | Some _ => Ok tt
  | None => Err (BadListen path address)
  end.

Definition validate_upstream (address : string) : Check :=
  '(host, port) ← ok_or (rsplit_once ":" address) (UpstreamNoPort address);
  refuse_if (is_empty host || negb (match parse_u16 port with Some _ => true | None => false end))
    (UpstreamInvalid address);;
  refuse_if (contains_char ":" host && negb (starts_with "[" host && ends_with "]" host))
    (UpstreamUnbracketed address).

Definition check_queue (c : Concurrency.Concurrency) (path : string) : Check :=
  let q := Concurrency.queue c in
  refuse_if ((0 <? Queue.max q) && bool_decide (Queue.timeout q = ZERO))
    (QueueNoDeadline path (Queue.max q));;
  refuse_if (MAX_QUEUE_TIMEOUT <? as_duration (Queue.timeout q))
    (QueueTimeoutLong path (as_duration (Queue.timeout q))).

Definition priority_name (priority : Priority) : string :=
  match priority with High => "high" | Normal => "normal" | Low => "low" end.

Definition validate_capacity_group (cfg : Config.Config) : Check :=
  if_some (Config.capacity cfg) (λ group,
    let max := Concurrency.max (Origin.concurrency (Config.origin cfg)) in
    let replicas := CapacityGroup.replicas group in
    refuse_if (CapacityGroup.global_max group =? 0) GlobalMaxZero;;
    refuse_if (replicas =? 0) ReplicasZero;;
    allocated ← ok_or (checked_mul max replicas) AllocationOverflows;
    refuse_if (CapacityGroup.global_max group <? allocated)
      (AllocationExceeds max replicas allocated (CapacityGroup.global_max group))).

Definition check_unimplemented (cfg : Config.Config) : Check :=
  refuse_if (negb (CacheDefaults.respect_origin (Config.cache cfg))) RespectOriginUnimplemented;;
  refuse_if (match Deployment.id_header (Config.deployment cfg) with Some _ => true | None => false end)
    IdHeaderUnimplemented.

Definition validate_trusted_proxies (cfg : Config.Config) : Check :=
  let proxies := Server.trusted_proxies (Config.server cfg) in
  try_each (λ block, map_err TrustedBlock (parse_Cidr block);; Ok tt) (TrustedProxies.from proxies);;
  let reads_headers :=
    negb (bool_decide (TrustedProxies.client_ip proxies = NoForwarded)) ||
    negb (bool_decide (TrustedProxies.scheme proxies = NoForwarded)) in
  refuse_if (bool_decide (TrustedProxies.from proxies = []) && reads_headers
             && negb (bool_decide (proxies = TrustedProxies.default_TrustedProxies)))
    TrustsNobody.

Definition validate_spool (cfg : Config.Config) : Check :=
  let spool := Config.spool cfg in
  refuse_if (get (Spool.max_body spool) =? 0) SpoolBodyZero;;
  refuse_if (get (Spool.max_memory spool) =? 0) SpoolMemoryZero;;
  refuse_if (get (Spool.max_memory spool) <? get (Spool.max_body spool))
    (SpoolBodyExceeds (get (Spool.max_body spool)) (get (Spool.max_memory spool)));;
  try_each (λ route,
      let asked := bool_decide
        ((s ← Route.spool route; RouteSpool.enabled s) = Some true) in
      refuse_if (asked && bool_decide (Route.class route = Some CoStreaming))
        (SpoolStreaming (Route.id route)))
    (Config.routes cfg).

Definition validate_graceful (cfg : Config.Config) : Check :=
  let g := Server.graceful (Config.server cfg) in
  refuse_if (is_empty (trim (Graceful.pid_file g))) PidFileEmpty;;
  refuse_if (is_empty (trim (Graceful.upgrade_socket g))) UpgradeSocketEmpty;;
  refuse_if (bool_decide (Graceful.pid_file g = Graceful.upgrade_socket g)) SamePaths;;
  refuse_if (bool_decide (Graceful.shutdown_timeout g = ZERO)) ShutdownZero.

Definition listeners_overlap (a b : SocketAddr) : bool :=
  if negb (port a =? port b) then false
  else if bool_decide (ip a = ip b) then true
  else (is_unspecified (ip a) && (is_ipv6 (ip a) || is_ipv4 (ip b)))
       || (is_unspecified (ip b) && (is_ipv6 (ip b) || is_ipv4 (ip a))).

(** The listeners the admin surface must not share, with their names. *)
Definition taken (cfg : Config.Config) : list (string * string) :=
  ("server.listen", Server.listen (Config.server cfg)) ::
  option_list ((λ tls, ("server.tls.listen", ServerTls.listen tls)) <$> Server.tls (Config.server cfg)) ++
  option_list ((λ p, ("telemetry.prometheus.listen", Prometheus.listen p))
                 <$> Telemetry.prometheus (Config.telemetry cfg)).

Definition validate_admin (cfg : Config.Config) : Check :=
  if_some (Telemetry.admin (Config.telemetry cfg)) (λ admin,
    validate_listen (Admin.listen admin) "telemetry.admin.listen";;
    let admin_addr := parse_socket (Admin.listen admin) in
    try_each (λ na : string * string,
        refuse_if (match admin_addr, parse_socket na.2 with
                   | Some a, Some t => listeners_overlap a t
                   | _, _ => false
                   end) (AdminOverlap (Admin.listen admin) na.1))
      (taken cfg)).

Definition validate_tracing (cfg : Config.Config) : Check :=
  let t := Telemetry.tracing (Config.telemetry cfg) in
  refuse_if (match Tracing.service_name t with Some n => is_empty (trim n) | None => false end)
    ServiceNameEmpty;;
  refuse_if (Sample.one_in (Tracing.sample t) =? 0) OneInZero;;
  if_some (Tracing.otlp t) (λ otlp,
    map_err OtlpEndpoint (parse_endpoint (Otlp.endpoint otlp));;
    refuse_if ((Otlp.max_queue otlp =? 0) || (Otlp.max_batch otlp =? 0)) OtlpZero;;
    refuse_if (Otlp.max_queue otlp <? Otlp.max_batch otlp)
      (OtlpBatchExceeds (Otlp.max_batch otlp) (Otlp.max_queue otlp));;
    refuse_if (bool_decide (Otlp.timeout otlp = ZERO) || bool_decide (Otlp.interval otlp = ZERO))
      OtlpZeroDuration).

Definition check_coalesce_wait (cfg : Config.Config) : Check :=
  if_some (CoalesceDefaults.wait_timeout (Config.coalesce cfg)) (λ wait,
    let origin := Timeouts.origin (Config.timeouts cfg) in
    refuse_if (as_duration wait <? as_duration origin)
      (CoalesceWaitShort (as_duration wait) (as_duration origin))).

Definition validate_purge (cfg : Config.Config) : Check :=
  if_some (Purge.token (CacheDefaults.purge (Config.cache cfg))) (λ token,
    refuse_if (match Telemetry.admin (Config.telemetry cfg) with None => true | Some _ => false end)
      PurgeWithoutAdmin;;
    refuse_if (len token <? MIN_PURGE_TOKEN) (PurgeTokenShort (len token));;
    refuse_if (negb (all_chars is_ascii_graphic token)) PurgeTokenBytes).

Definition validate_breaker (cfg : Config.Config) : Check :=
  let b := Origin.breaker (Config.origin cfg) in
  let upstreams := count (Origin.upstreams (Config.origin cfg)) in
  if negb (Breaker.enabled b) then Ok tt
  else
    refuse_if (upstreams <? 2) (BreakerAlone upstreams);;
    refuse_if (bool_decide (Breaker.window b = ZERO) || bool_decide (Breaker.open_for b = ZERO))
      BreakerZeroDuration;;
    refuse_if (Breaker.min_requests b =? 0) BreakerMinRequests;;
    refuse_if (negb ((1 <=? Breaker.failure_percent b) && (Breaker.failure_percent b <=? 100)))
      (BreakerFailurePercent (Breaker.failure_percent b));;
    refuse_if (100 <? Breaker.max_ejected_percent b)
      (BreakerMaxEjected (Breaker.max_ejected_percent b));;
    refuse_if (upstreams * Breaker.max_ejected_percent b / 100 =? 0)
      (BreakerEjectsNothing (Breaker.max_ejected_percent b) upstreams (div_ceil 100 upstreams)).

Definition validate_retry (cfg : Config.Config) : Check :=
  let r := Origin.retry (Config.origin cfg) in
  if negb (Retry.enabled r) then Ok tt
  else
    refuse_if (Retry.max_attempts r <? 2) (RetryAttempts (Retry.max_attempts r));;
    refuse_if (bool_decide (Retry.window r = ZERO)) RetryWindow;;
    refuse_if (100 <? Retry.budget_percent r) (RetryBudget (Retry.budget_percent r));;
    refuse_if ((Retry.budget_percent r =? 0) && (Retry.budget_min r =? 0)) RetryUnaffordable.

Definition validate_priorities (cfg : Config.Config) : Check :=
  let p := Origin.priorities (Config.origin cfg) in
  let max := Concurrency.max (Origin.concurrency (Config.origin cfg)) in
  try_each (λ np : string * N,
      let '(name, percent) := np in
      refuse_if (negb ((1 <=? percent) && (percent <=? 100))) (PriorityPercent name percent);;
      refuse_if (saturating_mul max percent / 100 =? 0)
        (PriorityRoundsToZero name percent max (div_ceil 100 (N.max max 1))))
    [("high", Priorities.high p); ("normal", Priorities.normal p); ("low", Priorities.low p)].

Definition check_route_weight (route : Route.Route) (cfg : Config.Config) : Check :=
  let id := Route.id route in
  let weight := Route.weight route in
  refuse_if (weight =? 0) (WeightZero id);;
  let global := Concurrency.max (Origin.concurrency (Config.origin cfg)) in
  refuse_if (global <? weight) (WeightExceedsGlobal id weight global);;
  let percent := Priorities.percent_for (Origin.priorities (Config.origin cfg)) (Route.priority route) in
  let tier := N.max (saturating_mul global percent / 100) 1 in
  refuse_if (tier <? weight)
    (WeightExceedsTier id weight (priority_name (Route.priority route)) tier percent);;
  if_some (Route.concurrency route) (λ c,
    refuse_if (Concurrency.max c <? weight) (WeightExceedsRoute id weight (Concurrency.max c))).

(** One header of [cache.vary]. *)
Definition check_vary_header (id h : string) : Check :=
  let lower := to_ascii_lowercase h in
  refuse_if (bool_decide (lower ∈ ["cookie"; "authorization"])) (VaryCredential id h);;
  refuse_if (bool_decide (lower = "user-agent") || bool_decide (lower = "*")) (VaryUnbounded id h).

Definition validate_health (cfg : Config.Config) : Check :=
  if_some (Config.health cfg) (λ health,
    refuse_if (negb (starts_with "/" (Health.path health))) HealthPath;;
    refuse_if (bool_decide (Health.interval health = ZERO) || bool_decide (Health.timeout health = ZERO))
      HealthZeroDuration;;
    refuse_if ((Health.healthy_after health =? 0) || (Health.unhealthy_after health =? 0))
      HealthZeroCount);;
  refuse_if (match Telemetry.admin (Config.telemetry cfg) with
             | Some admin => Admin.require_healthy_upstream admin
             | None => false
             end && match Config.health cfg with None => true | Some _ => false end)
    ReadinessWithoutHealth.

(** The cache block of a route. *)
Definition check_route_cache (route : Route.Route) : Check :=
  let id := Route.id route in
  let is_private := bool_decide (Route.class route = Some CoPrivateDynamic) in
  if_some (Route.cache route) (λ cache,
    refuse_if (is_private && bool_decide (RouteCache.enabled cache = Some true)) (PrivateCached id);;
    (if RouteCache.override_origin cache then
       refuse_if is_private (PrivateOverride id);;
       refuse_if (bool_decide (Route.class route = None)) (OverrideWithoutClass id);;
       refuse_if (bool_decide ((t ← RouteCache.ttl cache; Ttl.max t) = None)) (OverrideWithoutTtl id)
     else Ok tt);;
    if_some (RouteCache.vary cache) (λ v, try_each (check_vary_header id) (VaryPolicy.headers v));;
    if_some (RouteCache.query cache) (λ q,
      refuse_if (bool_decide (QueryPolicy.keys q = [])) (QueryKeysEmpty id))).

Definition check_route_coalesce (route : Route.Route) : Check :=
  let id := Route.id route in
  let is_private := bool_decide (Route.class route = Some CoPrivateDynamic) in
  if_some (Route.coalesce route) (λ co,
    refuse_if (RouteCoalesce.override_origin co && is_private) (PrivateCoalesceOverride id));;
  refuse_if (match Route.coalesce route with
             | Some co => RouteCoalesce.override_origin co
                          && bool_decide (RouteCoalesce.enabled co = Some false)
             | None => false
             end) (OverrideCoalesceDisabled id).

(** ** Checks that ask the platform *)

Section Checks.
Context {Sem : Type} `{S : !Semaphore Sem} (P : Platform).

Definition check_concurrency_max (value : N) (path : string) : Check :=
  refuse_if (max_permits Sem <? value) (AboveSemaphoreMax path value (max_permits Sem)).

Definition validate_server_tls_material (cert_path key_path : string) : Check :=
  material ← map_err TlsMaterialUnreadable (load_certs_and_key_files P cert_path key_path);
  material ← ok_or material TlsMaterialEmpty;
  map_err TlsMaterialInvalid (with_single_cert P material).

Definition validate_server_tls (cfg : Config.Config) : Check :=
  if_some (Server.tls (Config.server cfg)) (λ tls,
    refuse_if (negb (tls_feature P)) ServerTlsFeature;;
    validate_listen (ServerTls.listen tls) "server.tls.listen";;
    refuse_if (bool_decide (ServerTls.listen tls = Server.listen (Config.server cfg)))
      (TlsSameListen (ServerTls.listen tls));;
    refuse_if (is_empty (ServerTls.cert tls) || is_empty (ServerTls.key tls)) TlsCertOrKeyEmpty;;
    try_each (λ pl : string * string, refuse_if (negb (path_exists P pl.1)) (TlsFileMissing pl.2 pl.1))
      [(ServerTls.cert tls, "cert"); (ServerTls.key tls, "key")];;
    validate_server_tls_material (ServerTls.cert tls) (ServerTls.key tls)).

Definition validate_origin_tls (cfg : Config.Config) : Check :=
  match Origin.tls (Config.origin cfg) with
  | None => refuse_if (bool_decide (Origin.http_version (Config.origin cfg) = Auto)) AutoNeedsTls
  | Some tls =>
      refuse_if (negb (tls_feature P)) OriginTlsFeature;;
      refuse_if (is_empty (trim (OriginTls.sni tls))) SniEmpty;;
      refuse_if (OriginTls.verify_hostname tls && negb (OriginTls.verify_cert tls)) HostnameWithoutCert;;
      refuse_if (match OriginTls.ca tls with Some _ => true | None => false end) OriginCaUnimplemented
  end.

Definition validate_upgrade (cfg : Config.Config) : Check :=
  let u := Config.upgrade cfg in
  check_concurrency_max (Upgrade.max_concurrent u) "upgrade.max_concurrent";;
  refuse_if (Upgrade.enabled u && (Upgrade.max_concurrent u =? 0)) UpgradeZero.

Definition validate_tag_header (cfg : Config.Config) : Check :=
  let name := CacheDefaults.tag_header (Config.cache cfg) in
  ok_or (from_bytes P name) (TagHeaderInvalid name);;
  refuse_if (bool_decide (to_ascii_lowercase name ∈
      ["cookie"; "authorization"; "host"; "accept"; "accept-encoding"; "user-agent"]))
    (TagHeaderRequest name).

(** The names of [cache.vary], each a header name that did not occur before. *)
Fixpoint check_vary_names (id : string) (seen : list (HeaderName P)) (names : list string) : Check :=
  match names with
  | [] => Ok tt
  | name :: rest =>
      parsed ← ok_or (from_bytes P name) (VaryInvalid id name);
      refuse_if (bool_decide (parsed ∈ seen)) (VaryRepeats id name);;
      check_vary_names id (parsed :: seen) rest
  end.

Definition check_route_concurrency (route : Route.Route) : Check :=
  let id := Route.id route in
  if_some (Route.concurrency route) (λ c,
    refuse_if (Concurrency.max c =? 0) (RouteConcurrencyZero id);;
    check_concurrency_max (Concurrency.max c) ("route `" +:+ id +:+ "`.concurrency.max");;
    check_queue c ("route `" +:+ id +:+ "`.concurrency")).

Definition check_route (route : Route.Route) (cfg : Config.Config) : Check :=
  let id := Route.id route in
  check_route_weight route cfg;;
  refuse_if (negb (bool_decide (Route.priority route = Normal))
             && Priorities.is_uniform (Origin.priorities (Config.origin cfg)))
    (PriorityUniform id (priority_name (Route.priority route)));;
  check_route_concurrency route;;
  check_route_cache route;;
  check_route_coalesce route;;
  if_some (c ← Route.cache route; RouteCache.vary c) (λ vary,
    check_vary_names id [] (VaryPolicy.headers vary)).

(** The routes in file order, each id new. *)
Fixpoint check_routes (cfg : Config.Config) (seen : list string) (rs : list Route.Route) : Check :=
  match rs with
  | [] => Ok tt
  | route :: rest =>
      refuse_if (bool_decide (Route.id route ∈ seen)) (DuplicateRoute (Route.id route));;
      check_route route cfg;;
      check_routes cfg (Route.id route :: seen) rest
  end.

(** The checks of the scalar blocks, before any block's own function runs. *)
Definition validate_basics (cfg : Config.Config) : Check :=
  let max := Concurrency.max (Origin.concurrency (Config.origin cfg)) in
  let cache := Config.cache cfg in
  let deployment := Config.deployment cfg in
  refuse_if (negb (Config.version cfg =? SCHEMA_VERSION))
    (UnsupportedVersion (Config.version cfg) SCHEMA_VERSION);;
  refuse_if (bool_decide (Origin.upstreams (Config.origin cfg) = [])) NoUpstreams;;
  refuse_if (max =? 0) ConcurrencyZero;;
  check_concurrency_max max "origin.concurrency.max";;
  validate_capacity_group cfg;;
  refuse_if (get (CacheDefaults.max_memory cache) =? 0) MaxMemoryZero;;
  refuse_if (get (CacheDefaults.max_body_size cache) =? 0) MaxBodyZero;;
  refuse_if (get (CacheDefaults.max_memory cache) <? get (CacheDefaults.max_body_size cache))
    (BodyExceedsMemory (get (CacheDefaults.max_body_size cache)) (get (CacheDefaults.max_memory cache)));;
  refuse_if (negb ((400 <=? Overload.status (Config.overload cfg))
                   && (Overload.status (Config.overload cfg) <=? 599)))
    (StatusNotError (Overload.status (Config.overload cfg)));;
  refuse_if (match Deployment.id deployment, Deployment.id_header deployment with
             | Some _, Some _ => true | _, _ => false end) TwoDeploymentIds;;
  refuse_if (match Deployment.id deployment with
             | Some id => existsb (λ c, contains_char c id) [chr 29; chr 30; chr 31]
             | None => false
             end) DeploymentSeparator.

Definition validate (cfg : Config.Config) : Check :=
  validate_basics cfg;;
  validate_listen (Server.listen (Config.server cfg)) "server.listen";;
  validate_server_tls cfg;;
  validate_trusted_proxies cfg;;
  validate_origin_tls cfg;;
  validate_spool cfg;;
  validate_upgrade cfg;;
  if_some (Telemetry.prometheus (Config.telemetry cfg)) (λ prometheus,
    validate_listen (Prometheus.listen prometheus) "telemetry.prometheus.listen");;
  validate_graceful cfg;;
  validate_admin cfg;;
  validate_tracing cfg;;
  try_each validate_upstream (Origin.upstreams (Config.origin cfg));;
  validate_health cfg;;
  check_unimplemented cfg;;
  check_coalesce_wait cfg;;
  check_queue (Origin.concurrency (Config.origin cfg)) "origin.concurrency";;
  validate_purge cfg;;
  validate_tag_header cfg;;
  validate_breaker cfg;;
  validate_retry cfg;;
  validate_priorities cfg;;
  check_routes cfg [] (Config.routes cfg).
End Checks.
