(* ===== verification/ValidationTheorems.v ===== *)
(** * What a validated configuration guarantees

    Facts the other components rely on once [validate] has accepted a
    configuration: disjoint listeners, a trust list that compiles, distinct
    routes, overrides with a ceiling, a bounded fleet. *)

From S2P Require Import Prelude Words Text Units Schema Semaphores Limiter Classifier CachePolicy Admission Otlp Net Forwarded Validation.
Local Open Scope string_scope.
Local Open Scope list_scope.
Local Open Scope N_scope.

(** ** Taking a check apart *)

Lemma then_ok {A} (m : result ValidationError A) (k : Check) :
  (m;; k) = Ok tt ↔ (∃ a, m = Ok a) ∧ k = Ok tt.
Proof. rewrite bind_ok. naive_solver. Qed.

Lemma check_then (m k : Check) : (m;; k) = Ok tt ↔ m = Ok tt ∧ k = Ok tt.
Proof. rewrite then_ok. split; [intros [[[] ?] ?]; done|intros [? ?]; split; [by exists tt|done]]. Qed.

Lemma if_some_ok {A} (o : option A) f : if_some o f = Ok tt ↔ ∀ a, o = Some a → f a = Ok tt.
Proof. destruct o; simpl; [|done]. split; [by intros ? ? [= <-]|auto]. Qed.

Ltac checks H :=
  repeat match type of H with
  | (_;; _) = Ok tt => let G := fresh "G" in apply check_then in H as [G H]
  end.

(** Every guard that did not fire. *)
Ltac refused :=
  repeat match goal with G : refuse_if _ _ = Ok _ |- _ => apply refuse_if_ok in G end; to_prop.

(** ** Listeners *)

(** A socket bound to [s] takes connections to the address [x]: its own, every
    IPv4 address for the IPv4 wildcard, and every address for the IPv6 one,
    which is dual-stack on some platforms. *)
Definition accepts (s : SocketAddr) (x : IpAddr) : Prop :=
  ip s = x ∨ is_unspecified (ip s) = true ∧ (is_ipv6 (ip s) = true ∨ is_ipv4 x = true).

Lemma listeners_overlap_spec a b :
  listeners_overlap a b = true ↔ Net.port a = Net.port b ∧ ∃ x, accepts a x ∧ accepts b x.
Proof.
  unfold listeners_overlap, accepts, is_ipv6.
  destruct (N.eqb_spec (Net.port a) (Net.port b)) as [Hp|Hp]; simpl; [|by split; [|intros []]].
  case_bool_decide as Hip; [by rewrite Hip; split; [intros _; split; [done|exists (ip b); auto]|]|].
  rewrite orb_true_iff, !andb_true_iff, !orb_true_iff. split.
  - intros [[Hu Hk]|[Hu Hk]]; (split; [done|]);
      [exists (ip b)|exists (ip a)]; naive_solver.
  - intros [_ (x & Ha & Hb)].
    destruct Ha as [Ha|[Ua Ka]], Hb as [Hb|[Ub Kb]]; subst; [done|naive_solver..|].
    destruct (ip a), (ip b), x; naive_solver.
Qed.

Section Validated.
Context {Sem : Type} `{S : !Semaphore Sem} (P : Platform).
Implicit Types (cfg : Config.Config) (r : Route.Route).

(** Every check of the list, in order. *)
Record Accepted cfg : Prop := {
  acc_basics : validate_basics (Sem := Sem) cfg = Ok tt;
  acc_listen : validate_listen (Server.listen (Config.server cfg)) "server.listen" = Ok tt;
  acc_server_tls : validate_server_tls P cfg = Ok tt;
  acc_proxies : validate_trusted_proxies cfg = Ok tt;
  acc_origin_tls : validate_origin_tls P cfg = Ok tt;
  acc_spool : validate_spool cfg = Ok tt;
  acc_upgrade : validate_upgrade (Sem := Sem) cfg = Ok tt;
  acc_prometheus : ∀ p, Telemetry.prometheus (Config.telemetry cfg) = Some p →
    validate_listen (Prometheus.listen p) "telemetry.prometheus.listen" = Ok tt;
  acc_graceful : validate_graceful cfg = Ok tt;
  acc_admin : validate_admin cfg = Ok tt;
  acc_tracing : validate_tracing cfg = Ok tt;
  acc_upstreams : Forall (λ u, validate_upstream u = Ok tt) (Origin.upstreams (Config.origin cfg));
  acc_health : validate_health cfg = Ok tt;
  acc_unimplemented : check_unimplemented cfg = Ok tt;
  acc_wait : check_coalesce_wait cfg = Ok tt;
  acc_queue : check_queue (Origin.concurrency (Config.origin cfg)) "origin.concurrency" = Ok tt;
  acc_purge : validate_purge cfg = Ok tt;
  acc_tag : validate_tag_header P cfg = Ok tt;
  acc_breaker : validate_breaker cfg = Ok tt;
  acc_retry : validate_retry cfg = Ok tt;
  acc_priorities : validate_priorities cfg = Ok tt;
  acc_routes : check_routes (Sem := Sem) P cfg [] (Config.routes cfg) = Ok tt }.

Lemma validate_accepted cfg : validate (Sem := Sem) P cfg = Ok tt → Accepted cfg.
Proof.
  unfold validate. intros H. checks H.
  split; try assumption; [by apply if_some_ok|by apply try_each_ok].
Qed.

Lemma check_routes_ok cfg seen rs :
  check_routes (Sem := Sem) P cfg seen rs = Ok tt ↔
  NoDup (Route.id <$> rs) ∧ Forall (λ r, Route.id r ∉ seen) rs
  ∧ Forall (λ r, check_route (Sem := Sem) P r cfg = Ok tt) rs.
Proof.
  revert seen. induction rs as [|r rs IH]; intros seen; simpl.
  { split; [intros _; split; [constructor|done]|done]. }
  rewrite !check_then, refuse_if_ok, bool_decide_eq_false, IH, NoDup_cons, !Forall_cons.
  assert (Forall (λ r0, Route.id r0 ∉ Route.id r :: seen) rs ↔
          (Route.id r ∉ Route.id <$> rs) ∧ Forall (λ r0, Route.id r0 ∉ seen) rs) as ->; [|naive_solver].
  rewrite !Forall_forall, list_elem_of_fmap. split.
  - intros H. split; [intros (r' & E & Hr'); apply (H r' Hr'); rewrite E; by constructor|].
    intros r' Hr' Hin. apply (H r' Hr'). by constructor.
  - intros [H1 H2] r' Hr' [E|Hin]%elem_of_cons; [apply H1; by exists r'|by apply (H2 r')].
Qed.

Lemma accepted_route cfg r :
  Accepted cfg → r ∈ Config.routes cfg → check_route (Sem := Sem) P r cfg = Ok tt.
Proof.
  intros H Hr. apply acc_routes in H. apply check_routes_ok in H as (_ & _ & H).
  by eapply Forall_forall in H.
Qed.

Lemma validate_listen_ok address path :
  validate_listen address path = Ok tt → ∃ a, parse_socket address = Some a.
Proof. unfold validate_listen. destruct (parse_socket address); [by eexists|done]. Qed.

Lemma taken_parse cfg name address :
  Accepted cfg → (name, address) ∈ taken cfg → ∃ a, parse_socket address = Some a.
Proof.
  intros H. unfold taken. rewrite elem_of_cons, elem_of_app. intros [[= -> ->]|[Hin|Hin]].
  - apply acc_listen in H. by eapply validate_listen_ok.
  - destruct (Server.tls (Config.server cfg)) as [tls|] eqn:E; [|by inversion Hin].
    apply list_elem_of_singleton in Hin as [= -> ->]. apply acc_server_tls in H. unfold validate_server_tls in H. rewrite if_some_ok in H.
    specialize (H tls E). checks H. by eapply validate_listen_ok.
  - destruct (Telemetry.prometheus (Config.telemetry cfg)) as [p|] eqn:E; [|by inversion Hin].
    apply list_elem_of_singleton in Hin as [= -> ->]. eapply acc_prometheus in H; [|exact E]. by eapply validate_listen_ok.
Qed.

(** The admin surface is alone: in a validated configuration its listener and
    each of the others (cleartext, TLS, metrics) are well-formed socket
    addresses, and no connection could reach both, wildcard and dual-stack
    listeners included. *)
Theorem admin_listener_isolated cfg admin name address :
  validate (Sem := Sem) P cfg = Ok tt →
  Telemetry.admin (Config.telemetry cfg) = Some admin →
  (name, address) ∈ taken cfg →
  ∃ a t, parse_socket (Admin.listen admin) = Some a ∧ parse_socket address = Some t ∧
    (Net.port a = Net.port t → ¬ ∃ x, accepts a x ∧ accepts t x).
Proof.
  intros H%validate_accepted Ea Hin. destruct (taken_parse _ _ _ H Hin) as [t Ht].
  apply acc_admin in H. unfold validate_admin in H. rewrite if_some_ok in H.
  specialize (H admin Ea). apply check_then in H as [Hl H].
  apply validate_listen_ok in Hl as [a Ha]. exists a, t. split; [done|]. split; [done|].
  rewrite try_each_ok, Forall_forall in H. specialize (H _ Hin). simpl in H.
  rewrite Ha, Ht in H. apply refuse_if_ok in H.
  intros Hp Hx. by rewrite (proj2 (listeners_overlap_spec a t) (conj Hp Hx)) in H.
Qed.

(** ** Trust *)

(** The trust list of a validated configuration compiles, into as many blocks
    as it has entries, so start-up cannot fail on it; and unless it is empty
    only when no forwarded header is asked for, or the block is the default. *)
Theorem trust_policy_compiles cfg :
  validate (Sem := Sem) P cfg = Ok tt →
  let proxies := Server.trusted_proxies (Config.server cfg) in
  (∃ p, build proxies = Ok p ∧ length (blocks p) = length (TrustedProxies.from proxies)
        ∧ Forall valid_cidr (blocks p)) ∧
  (TrustedProxies.from proxies = [] →
   proxies = TrustedProxies.default_TrustedProxies ∨
   TrustedProxies.client_ip proxies = NoForwarded ∧ TrustedProxies.scheme proxies = NoForwarded).
Proof.
  intros H%validate_accepted%acc_proxies. unfold validate_trusted_proxies in H.
  apply check_then in H as [Hb H]. apply refuse_if_ok in H. cbv zeta. split.
  - apply try_each_ok in Hb. unfold build.
    assert (∃ bs, try_map parse_Cidr (TrustedProxies.from (Server.trusted_proxies (Config.server cfg)))
                  = Ok bs) as [bs E].
    { revert Hb. generalize (TrustedProxies.from (Server.trusted_proxies (Config.server cfg))).
      induction 1 as [|raw raws Hraw Hraws [bs IH]]; [by exists []|].
      apply then_ok in Hraw as [[c Hc] _]. apply map_err_ok in Hc. exists (c :: bs).
      cbn [try_map mbind result_bind]. by rewrite Hc, IH. }
    rewrite E. eexists. split; [reflexivity|]. apply try_map_ok in E. simpl.
    split; [symmetry; by eapply Forall2_length|].
    apply Forall_forall. intros c Hc. apply list_elem_of_lookup in Hc as [i Hi].
    destruct (Forall2_lookup_r _ _ _ _ _ E Hi) as (raw & _ & Hraw). by eapply parse_Cidr_valid.
  - intros Hnil. rewrite bool_decide_eq_true_2 in H by done. simpl in H.
    apply andb_false_iff in H as [H|H].
    + right. apply orb_false_iff in H as [H1 H2]. by to_prop.
    + left. by to_prop.
Qed.

(** ** Routes *)

Lemma route_cache_ok cfg r rc :
  Accepted cfg → r ∈ Config.routes cfg → Route.cache r = Some rc → check_route_cache r = Ok tt.
Proof.
  intros H Hr _. pose proof (accepted_route _ _ H Hr) as Hc. unfold check_route in Hc.
  by checks Hc.
Qed.

Lemma vary_names_ok id seen names :
  check_vary_names P id seen names = Ok tt →
  NoDup (from_bytes P <$> names) ∧
  Forall (λ n, ∃ h, from_bytes P n = Some h ∧ h ∉ seen) names.
Proof.
  revert seen. induction names as [|n names IH]; intros seen; simpl.
  { intros _. split; [constructor|done]. }
  rewrite bind_ok. intros (h & Hh & H). apply ok_or_ok in Hh.
  apply check_then in H as [Hseen H]. apply refuse_if_ok, bool_decide_eq_false in Hseen.
  destruct (IH _ H) as [Hnd Hall]. split.
  - apply NoDup_cons. split; [|done]. rewrite list_elem_of_fmap.
    intros (n' & E & Hn'). rewrite Forall_forall in Hall. destruct (Hall n' Hn') as (h' & Hh' & Hin).
    rewrite Hh, Hh' in E. injection E as ->. apply Hin. by constructor.
  - constructor; [by exists h|]. eapply Forall_impl; [exact Hall|].
    intros n' (h' & Hh' & Hin). exists h'. split; [done|]. intros Hs. apply Hin. by constructor.
Qed.

(** A route whose [vary] list passed validation partitions its entries by
    headers that exist and differ from one another, none of them a credential
    and none of unbounded cardinality. *)
Theorem vary_headers_sound cfg r rc v :
  validate (Sem := Sem) P cfg = Ok tt → r ∈ Config.routes cfg →
  Route.cache r = Some rc → RouteCache.vary rc = Some v →
  NoDup (from_bytes P <$> VaryPolicy.headers v) ∧
  (∀ h, h ∈ VaryPolicy.headers v →
     is_Some (from_bytes P h) ∧
     to_ascii_lowercase h ∉ ["cookie"; "authorization"; "user-agent"; "*"]).
Proof.
  intros H%validate_accepted Hr Ec Ev. pose proof (route_cache_ok _ _ _ H Hr Ec) as Hcache.
  pose proof (accepted_route _ _ H Hr) as Hc. unfold check_route in Hc. checks Hc.
  rewrite Ec in Hc. simpl in Hc. rewrite Ev in Hc. apply vary_names_ok in Hc as [Hnd Hall].
  split; [done|]. unfold check_route_cache in Hcache. rewrite Ec in Hcache. simpl in Hcache.
  checks Hcache. rewrite Ev in G6. simpl in G6. apply try_each_ok in G6.
  rewrite Forall_forall in Hall, G6. intros h Hh. destruct (Hall h Hh) as (n & Hn & _).
  split; [by exists n|]. specialize (G6 h Hh). unfold check_vary_header in G6.
  apply check_then in G6 as [G7 G8]. apply refuse_if_ok in G7, G8. to_prop. set_solver.
Qed.

(** An override of the origin has an owner and a bound.  In a validated
    configuration a route that sets [cache.override_origin] declares a class,
    not the private one, and what is stored under it lives exactly the ceiling
    the route declares; and no private route shares a response by
    [coalesce.override_origin]. *)
Theorem override_is_bounded cfg r rc :
  validate (Sem := Sem) P cfg = Ok tt → r ∈ Config.routes cfg →
  Route.cache r = Some rc →
  (RouteCache.override_origin rc = true →
   (∃ c, Route.class r = Some c ∧ c ≠ CoPrivateDynamic) ∧
   ∀ res ks co cov ttl swr sie,
     evaluate_response res (Some rc) ks co cov = Shareable ttl swr sie →
     ∃ d, (t ← RouteCache.ttl rc; Ttl.max t) = Some d ∧ ttl = as_duration d) ∧
  (Route.class r = Some CoPrivateDynamic →
   RouteCache.override_origin rc = false ∧ RouteCache.enabled rc ≠ Some true ∧
   ∀ co, Route.coalesce r = Some co → RouteCoalesce.override_origin co = false).
Proof.
  intros H%validate_accepted Hr Ec. pose proof (route_cache_ok _ _ _ H Hr Ec) as Hcache.
  pose proof (accepted_route _ _ H Hr) as Hc. unfold check_route in Hc. checks Hc.
  unfold check_route_cache in Hcache. rewrite Ec in Hcache. simpl in Hcache. checks Hcache.
  clear G6 Hcache. split.
  - intros Ho. rewrite Ho in G5. checks G5. apply refuse_if_ok in G6, G7, G5. to_prop. split.
    { destruct (Route.class r) as [c|]; [|done]. exists c. split; [done|congruence]. }
    intros res ks co cov ttl swr sie. unfold evaluate_response. simpl. rewrite Ho. simpl.
    destruct (t ← RouteCache.ttl rc; Ttl.max t) as [d|] eqn:Ed; [|done]. simpl.
    repeat (case_match; try done). intros [= <- _ _]. exists d. split; reflexivity.
  - intros Hp. rewrite (bool_decide_eq_true_2 _ Hp) in G4, G5. apply refuse_if_ok in G4.
    simpl in G4. to_prop. split; [|split; [done|]].
    + destruct (RouteCache.override_origin rc); [|done]. by checks G5.
    + intros co Eco. unfold check_route_coalesce in G3. rewrite Eco, (bool_decide_eq_true_2 _ Hp) in G3.
      simpl in G3.
      apply check_then in G3 as [G3 _]. apply refuse_if_ok in G3.
      by rewrite andb_true_r in G3.
Qed.

(** ** Capacity *)

Lemma accepted_max cfg :
  Accepted cfg →
  let max := Concurrency.max (Origin.concurrency (Config.origin cfg)) in
  1 <= max ∧ max <= max_permits Sem.
Proof.
  intros H%acc_basics. unfold validate_basics in H. checks H.
  unfold check_concurrency_max in *. refused. cbv zeta. lia.
Qed.

Lemma accepted_group cfg g :
  Accepted cfg → Config.capacity cfg = Some g →
  CapacityGroup.replicas g * Concurrency.max (Origin.concurrency (Config.origin cfg)) <= CapacityGroup.global_max g
  ∧ CapacityGroup.replicas g * Concurrency.max (Origin.concurrency (Config.origin cfg)) <= U64_MAX.
Proof.
  intros H Eg. apply acc_basics in H. unfold validate_basics in H. checks H.
  unfold validate_capacity_group in G3. rewrite Eg in G3. simpl in G3. checks G3.
  apply bind_ok in G3 as (a & Ha & G3). apply ok_or_ok, checked_mul_some in Ha as [-> Hle].
  apply refuse_if_ok in G3. to_prop. lia.
Qed.

Lemma accepted_percent cfg p :
  Accepted cfg →
  let percent := Priorities.percent_for (Origin.priorities (Config.origin cfg)) p in
  1 <= percent ∧ percent <= 100.
Proof.
  intros H%acc_priorities. unfold validate_priorities in H. apply try_each_ok in H.
  rewrite !Forall_cons in H. destruct H as (Hh & Hn & Hl & _).
  apply check_then in Hh as [Hh _], Hn as [Hn _], Hl as [Hl _].
  apply refuse_if_ok in Hh, Hn, Hl. to_prop. cbv zeta. destruct p; simpl; lia.
Qed.

Lemma accepted_route_weight cfg r :
  Accepted cfg → r ∈ Config.routes cfg →
  let max := Concurrency.max (Origin.concurrency (Config.origin cfg)) in
  1 <= Route.weight r ∧ Route.weight r <= max ∧
  Route.weight r <= tier_ceiling max
    (Priorities.percent_for (Origin.priorities (Config.origin cfg)) (Route.priority r)) ∧
  ∀ c, Route.concurrency r = Some c → Route.weight r <= Concurrency.max c.
Proof.
  intros H Hr. pose proof (accepted_route _ _ H Hr) as Hc. unfold check_route in Hc. checks Hc.
  unfold check_route_weight in G. checks G. refused.
  unfold tier_ceiling. cbv zeta. split; [lia|]. split; [done|]. split; [done|]. intros c Ec.
  rewrite Ec in G. simpl in G. by refused.
Qed.

Lemma accepted_route_max cfg r c :
  Accepted cfg → r ∈ Config.routes cfg → Route.concurrency r = Some c →
  Concurrency.max c <= max_permits Sem.
Proof.
  intros H Hr Ec. pose proof (accepted_route _ _ H Hr) as Hc. unfold check_route in Hc. checks Hc.
  unfold check_route_concurrency in G1. rewrite Ec in G1. simpl in G1. checks G1.
  unfold check_concurrency_max in *. by refused.
Qed.

(** C27: A validated configuration bounds the fleet and starves nobody: the
    replicas' ceilings add up to at most the fleet's, every tier's ceiling is
    between one permit and the global ceiling, and every route's weight fits
    under the global, the tier's and its own ceiling. *)
Theorem capacity_is_consistent cfg :
  validate (Sem := Sem) P cfg = Ok tt →
  let max := Concurrency.max (Origin.concurrency (Config.origin cfg)) in
  let tier p := tier_ceiling max (Priorities.percent_for (Origin.priorities (Config.origin cfg)) p) in
  (1 <= max ∧ max <= max_permits Sem) ∧
  (∀ g, Config.capacity cfg = Some g →
     CapacityGroup.replicas g * max <= CapacityGroup.global_max g) ∧
  (∀ p, 1 <= tier p ∧ tier p <= max) ∧
  (∀ r, r ∈ Config.routes cfg →
     1 <= Route.weight r ∧ Route.weight r <= max ∧ Route.weight r <= tier (Route.priority r) ∧
     ∀ c, Route.concurrency r = Some c →
       Route.weight r <= Concurrency.max c ∧ Concurrency.max c <= max_permits Sem).
Proof.
  intros H%validate_accepted. pose proof (accepted_max _ H) as Hmax. cbv zeta in *.
  split; [done|]. split; [|split].
  - intros g Eg. by apply (accepted_group cfg).
  - intros p. pose proof (accepted_percent _ p H) as [_ Hp]. apply tier_ceiling_bound; [apply Hmax|exact Hp].
  - intros r Hr. destruct (accepted_route_weight _ _ H Hr) as (H1 & H2 & H3 & H4).
    split; [done|]. split; [done|]. split; [done|]. intros c Ec.
    split; [by apply H4|by eapply accepted_route_max].
Qed.
End Validated.

(** ** A configuration that validates *)

Definition sample_platform : Platform :=
  mkPlatform true (λ _, true) unit (λ _ _, Ok (Some tt)) (λ _, Ok tt) string _
    (λ s, if is_empty s || negb (all_chars is_ascii_graphic s) then None
          else Some (to_ascii_lowercase s)).

Definition public_route : Route.Route :=
  Route.mk "products" (Path "/products/**") (Some CoPublicSsr) Low 3
    (Some (RouteCache.mk None (Some (Ttl.mk (Some d_30s))) None None None
             (Some (VaryPolicy.mk ["X-Country"; "Accept-Language"])) true))
    None (Some (Concurrency.mk 8 (Queue.mk 4 d_1s))) None.

Definition private_route : Route.Route :=
  Route.mk "account" (Path "/account/**") (Some CoPrivateDynamic) Normal 1
    (Some (RouteCache.mk (Some false) None None None None None false))
    (Some (RouteCoalesce.mk (Some true) false)) None None.

Definition sample_config : Config.Config :=
  Config.mk 1 Protect Server.default_Server
    (Origin.mk ["127.0.0.1:3000"; "[::1]:3001"] ZERO RoundRobin
       (Concurrency.mk 100 (Queue.mk 50 d_2s)) None Http1
       (Breaker.mk true d_10s 20 50 d_30s 50) (Retry.mk true 2 d_10s 10 3)
       (Priorities.mk 100 90 50))
    (Some (CapacityGroup.mk 500 5))
    (Some (Health.mk "/healthz" d_5s d_1s 2 3))
    (CacheDefaults.mk true Memory default_max_memory default_max_body true Clock
       default_tag_header (Purge.mk (Some "0123456789abcdef01234567")))
    CoalesceDefaults.default_CoalesceDefaults Timeouts.default_Timeouts
    Overload.default_Overload Spool.default_Spool Upgrade.default_Upgrade
    (Deployment.mk (Some "build-7") None) [public_route; private_route]
    (Telemetry.mk (Some (Prometheus.mk "127.0.0.1:9090"))
       (Some (Admin.mk "127.0.0.1:9091" true))
       (Tracing.mk None (Some (Otlp.mk "http://collector:4318/v1/traces" d_1s 2048 256 d_5s))
          Sample.default_Sample TrustNever)
       Logging.default_Logging)
    false.

Import CountingSemaphore.
Abbreviation validate_sample := (validate (Sem := counter) sample_platform).

Lemma sample_validates : validate_sample sample_config = Ok tt.
Proof. vm_compute. reflexivity. Qed.

(** ** Witnesses *)

Lemma admin_listener_isolated_witness :
  validate_sample sample_config = Ok tt ∧
  ∃ a t, parse_socket "127.0.0.1:9091" = Some a ∧ parse_socket "127.0.0.1:9090" = Some t ∧
    (Net.port a = Net.port t → ¬ ∃ x, accepts a x ∧ accepts t x).
Proof.
  split; [exact sample_validates|].
  apply (admin_listener_isolated (Sem := counter) sample_platform sample_config
           (Admin.mk "127.0.0.1:9091" true) "telemetry.prometheus.listen");
    [exact sample_validates|reflexivity|].
  right. left.
Defined.

Lemma trust_policy_compiles_witness :
  validate_sample sample_config = Ok tt ∧ ∃ p, build TrustedProxies.default_TrustedProxies = Ok p.
Proof.
  split; [exact sample_validates|].
  destruct (trust_policy_compiles (Sem := counter) sample_platform sample_config sample_validates)
    as [(p & Hp & _) _].
  exists p. exact Hp.
Defined.

Lemma vary_headers_sound_witness :
  NoDup (from_bytes sample_platform <$> ["X-Country"; "Accept-Language"]).
Proof.
  apply (vary_headers_sound (Sem := counter) sample_platform sample_config public_route
           (default RouteCache.default_RouteCache (Route.cache public_route))
           (VaryPolicy.mk ["X-Country"; "Accept-Language"]));
    [exact sample_validates|left|reflexivity..].
Defined.

Lemma override_is_bounded_witness :
  (∃ c, Route.class public_route = Some c ∧ c ≠ CoPrivateDynamic) ∧
  (∀ co, Route.coalesce private_route = Some co → RouteCoalesce.override_origin co = false).
Proof.
  split.
  - apply (override_is_bounded (Sem := counter) sample_platform sample_config public_route
             (default RouteCache.default_RouteCache (Route.cache public_route)));
      [exact sample_validates|left|reflexivity..].
  - apply (override_is_bounded (Sem := counter) sample_platform sample_config private_route
             (default RouteCache.default_RouteCache (Route.cache private_route)));
      [exact sample_validates|right; left|reflexivity..].
Defined.

Lemma capacity_is_consistent_witness :
  validate_sample sample_config = Ok tt ∧ 5 * 100 <= 500 ∧ tier_ceiling 100 50 <= 100.
Proof.
  split; [exact sample_validates|].
  destruct (capacity_is_consistent (Sem := counter) sample_platform sample_config sample_validates)
    as (_ & Hg & Ht & _).
  split; [exact (Hg (CapacityGroup.mk 500 5) eq_refl)|apply (Ht Low)].
Defined.
