(* ===== verification/Ceilings.v ===== *)
(** * What a reload leaves in force ([src/src/admission/mod.rs])

    The controller's references never alias, and after [apply_limits] every
    limiter it holds has the ceiling and the queue the new configuration asks
    for, whatever was in flight. *)

From S2P Require Import Prelude Words Text Units Schema Semaphores Limiter Classifier Admission.
Local Open Scope string_scope.
Local Open Scope list_scope.
Local Open Scope N_scope.

Section Ceilings.
Context {Sem : Type} `{S : !Semaphore Sem} {laws : SemaphoreLaws Sem S}.
Implicit Types (h : Heap Sem) (s : System Sem) (c : AdmissionController).

(** ** References never alias *)

Definition refs c : list nat := global c :: tiers c.

Record Distinct c : Prop := {
  dist_length : length (tiers c) = 3%nat;
  dist_refs : NoDup (refs c);
  dist_routes : ∀ id l, routes c !! id = Some l → l ∉ refs c;
  dist_inj : ∀ id id' l, routes c !! id = Some l → routes c !! id' = Some l → id = id' }.

Lemma ctl_ok_refs c h l : ctl_ok c h → l ∈ refs c → (l < next h)%nat.
Proof.
  intros (Hg & Ht & _) [->|Hl]%elem_of_cons; [done|]. by eapply Forall_forall in Ht.
Qed.

Lemma ctl_ok_route c h id l : ctl_ok c h → routes c !! id = Some l → (l < next h)%nat.
Proof. intros (_ & _ & Hr) Hl. by eapply Hr. Qed.

(** A fresh reference extends the registry. *)
Lemma Distinct_insert c h id l :
  Distinct c → ctl_ok c h → l = next h →
  Distinct (mkController (global c) (tiers c) (<[id := l]> (routes c))).
Proof.
  intros [Hlen Hrefs Hr Hinj] Hc ->. split; simpl; [done|done| |].
  - intros id' l'. rewrite lookup_insert_Some. intros [[_ <-]|[_ Hl]]; [|by eapply Hr].
    intros Hin. pose proof (ctl_ok_refs _ _ _ Hc Hin). lia.
  - intros id1 id2 l'. rewrite !lookup_insert_Some.
    intros [[<- <-]|[Hn1 H1]] [[<- Heq]|[Hn2 H2]]; try done.
    + pose proof (ctl_ok_route _ _ _ _ Hc H2). lia.
    + pose proof (ctl_ok_route _ _ _ _ Hc H1). lia.
    + by eapply Hinj.
Qed.

Lemma Distinct_filter c (P : string * nat → Prop) `{!∀ x, Decision (P x)} :
  Distinct c → Distinct (mkController (global c) (tiers c) (filter P (routes c))).
Proof.
  intros [Hlen Hrefs Hr Hinj]. split; simpl; [done|done| |].
  - intros id l [Hl _]%map_lookup_filter_Some. by eapply Hr.
  - intros id id' l [H1 _]%map_lookup_filter_Some [H2 _]%map_lookup_filter_Some. by eapply Hinj.
Qed.

(** ** What a limiter is set to *)

Definition configured (x : Limiter Sem) (max queue_max : N) (queue_timeout : Duration) : Prop :=
  limit x = max ∧ Limiter.queue_max x = queue_max ∧ queue_timeout_ms x = millis queue_timeout.

Lemma configured_resize x max qm qt : configured (resize_queue max qm qt x) max qm qt.
Proof.
  unfold resize_queue, configured, set_queue. simpl.
  by destruct (limit_resize (S := S) max x) as [-> _].
Qed.

Lemma configured_new nm max qm qt : configured (Limiter.new nm max qm qt) max qm qt.
Proof. done. Qed.

(** The routes reloaded so far, each exactly as asked, on references apart. *)
Definition route_set c h (r : RouteLimits) : Prop :=
  ∃ l, routes c !! r.1.1.1 = Some l ∧ configured (cell h l) r.1.1.2 r.1.2 r.2.

(** What one step of the reload over the routes keeps. *)
Definition Kept (base : list nat) (h0 : Heap Sem) (st : AdmissionController * Heap Sem) : Prop :=
  Distinct st.1 ∧ ctl_ok st.1 st.2 ∧ refs st.1 = base ∧
  (∀ l, l ∈ base → cell st.2 l = cell h0 l).

Lemma apply_route_kept base h0 c h r :
  Kept base h0 (c, h) → Kept base h0 (apply_route (c, h) r).
Proof.
  intros (Hd & Hc & Hb & Hk). destruct r as [[[id max] qm] qt]. simpl in *.
  destruct (routes c !! id) as [l|] eqn:E.
  - split; [done|]. split; [done|]. split; [done|]. intros k Hin. simpl.
    rewrite decide_False; [by apply Hk|]. intros ->. subst base. by eapply dist_routes.
  - split; [by eapply Distinct_insert|]. split; [|split; [done|]].
    + assert (ctl_ok c (alloc (Limiter.new id max qm qt) h).2) as Hc'.
      { eapply ctl_ok_mono; [|exact Hc]. simpl. lia. }
      destruct Hc' as (Hg & Ht & Hr). split; [done|]. split; [done|].
      apply map_Forall_insert_2; [simpl; lia|done].
    + intros k Hin. simpl. rewrite decide_False; [by apply Hk|]. intros ->. subst base.
      pose proof (ctl_ok_refs _ _ _ Hc Hin). lia.
Qed.

(** The route itself ends up as asked. *)
Lemma apply_route_sets c h r : route_set (apply_route (c, h) r).1 (apply_route (c, h) r).2 r.
Proof.
  destruct r as [[[id max] qm] qt]. simpl. destruct (routes c !! id) as [l|] eqn:E.
  - exists l. split; [done|]. simpl. rewrite decide_True by done. apply configured_resize.
  - eexists. split; [apply lookup_insert_eq|]. simpl. rewrite decide_True by done.
    apply configured_new.
Qed.

(** And another route stays as it was. *)
Lemma apply_route_other c h r r' :
  Distinct c → ctl_ok c h → r'.1.1.1 ≠ r.1.1.1 →
  route_set c h r → route_set (apply_route (c, h) r').1 (apply_route (c, h) r').2 r.
Proof.
  intros Hd Hc Hne (l & Hl & Hset). destruct r' as [[[id max] qm] qt]. simpl in *.
  destruct (routes c !! id) as [k|] eqn:E; simpl.
  - exists l. split; [done|]. simpl. rewrite decide_False; [done|]. intros ->.
    apply Hne. by eapply dist_inj.
  - exists l. split; [simpl; by rewrite lookup_insert_ne|]. simpl. rewrite decide_False; [done|].
    pose proof (ctl_ok_route _ _ _ _ Hc Hl). lia.
Qed.

Lemma apply_routes_set base h0 rs c h :
  Kept base h0 (c, h) → NoDup ((λ r : RouteLimits, r.1.1.1) <$> rs) →
  let st := foldl apply_route (c, h) rs in
  Kept base h0 st ∧ Forall (route_set st.1 st.2) rs ∧
  (∀ r, r.1.1.1 ∉ (λ r : RouteLimits, r.1.1.1) <$> rs → route_set c h r → route_set st.1 st.2 r).
Proof.
  revert c h. induction rs as [|r rs IH]; intros c h HK Hnd; cbn [foldl].
  { split; [done|]. split; [constructor|done]. }
  rewrite fmap_cons in Hnd. apply NoDup_cons in Hnd as [Hr Hnd].
  pose proof (apply_route_kept _ _ _ _ r HK) as HK'.
  pose proof (apply_route_sets c h r) as Hset.
  pose proof (λ r0, apply_route_other c h r0 r) as Hother.
  destruct (apply_route (c, h) r) as [c' h'] eqn:E. cbn [fst snd] in *.
  destruct (IH c' h' HK' Hnd) as (HK'' & Hall & Hkeep). split; [done|]. split.
  - constructor; [|done]. by apply Hkeep.
  - intros r0 Hn H0. rewrite fmap_cons in Hn. apply not_elem_of_cons in Hn as [Hn1 Hn2]. apply Hkeep; [done|].
    apply Hother; [apply HK|apply HK| |done]. congruence.
Qed.

(** ** The tiers and the global ceiling *)

Lemma tier_limiter_lookup c p :
  Distinct c →
  ∃ (i : nat) l, tiers c !! i = Some l ∧ all_priorities !! i = Some p ∧ tier_limiter c p = Some l.
Proof.
  intros [Hlen _ _ _]. unfold tier_limiter, all_priorities.
  destruct (tiers c) as [|t0 [|t1 [|t2 [|]]]]; try done.
  destruct p; [exists 0%nat, t0|exists 1%nat, t1|exists 2%nat, t2]; done.
Qed.

(** Resizing the tiers one by one. *)
Definition resize_tiers (gmax gq : N) (gt : Duration) (priorities : Priorities.Priorities) c h :=
  foldl (λ h ip,
      match tiers c !! ip.1 with
      | Some tier => modify tier
          (resize_queue (tier_ceiling gmax (Priorities.percent_for priorities ip.2)) gq gt) h
      | None => h
      end) h (imap pair all_priorities).

Lemma resize_tiers_spec gmax gq gt priorities c h :
  Distinct c →
  let h' := resize_tiers gmax gq gt priorities c h in
  next h' = next h ∧ cell h' (global c) = cell h (global c) ∧
  ∀ p l, tier_limiter c p = Some l →
    configured (cell h' l) (tier_ceiling gmax (Priorities.percent_for priorities p)) gq gt.
Proof.
  intros [Hlen Hrefs _ _]. unfold resize_tiers, tier_limiter, refs in *.
  destruct (tiers c) as [|t0 [|t1 [|t2 [|]]]]; try done.
  rewrite !NoDup_cons, !not_elem_of_cons in Hrefs.
  destruct Hrefs as ((Hg0 & Hg1 & Hg2 & _) & (H01 & H02 & _) & (H12 & _) & _).
  set (f p := resize_queue (tier_ceiling gmax (Priorities.percent_for priorities p)) gq gt).
  change (foldl _ h _) with (modify t2 (f Low) (modify t1 (f Normal) (modify t0 (f High) h))).
  cbv zeta. split; [done|]. split; [by rewrite !cell_modify_ne|].
  intros p l Hp.
  destruct p; simpl in Hp; injection Hp as <-;
    rewrite ?cell_modify_ne by congruence; rewrite cell_modify; apply configured_resize.
Qed.

(** ** Reachable controllers *)

Lemma Distinct_boot gmax gq gt priorities h :
  Distinct (ctl (boot gmax gq gt priorities h)).
Proof.
  split; simpl; [done| |done|done]. unfold refs; simpl.
  rewrite !NoDup_cons, !not_elem_of_cons. repeat split; try lia; try apply not_elem_of_nil.
  constructor.
Qed.

Lemma Distinct_route_limiter c h id max qm qt l c' h' :
  Distinct c → ctl_ok c h → route_limiter id max qm qt c h = (l, (c', h')) → Distinct c'.
Proof.
  intros Hd Hc. unfold route_limiter. destruct (routes c !! id); [by intros [= _ <- _]|].
  intros [= _ <- _]. by eapply Distinct_insert.
Qed.

Lemma Kept_self c h : Distinct c → ctl_ok c h → Kept (refs c) h (c, h).
Proof. intros Hd Hc. split; [exact Hd|]. split; [exact Hc|]. by split. Qed.

Lemma ctl_ok_next c h h' : next h' = next h → ctl_ok c h → ctl_ok c h'.
Proof. intros Hn. apply ctl_ok_mono. lia. Qed.

(** The whole of [apply_limits]. *)
Lemma apply_limits_spec gmax gq gt priorities rs c h c' h' :
  Distinct c → ctl_ok c h → NoDup ((λ r : RouteLimits, r.1.1.1) <$> rs) →
  apply_limits gmax gq gt priorities rs c h = (c', h') →
  Distinct c' ∧ refs c' = refs c ∧
  configured (cell h' (global c')) gmax gq gt ∧
  (∀ p l, tier_limiter c' p = Some l →
     configured (cell h' l) (tier_ceiling gmax (Priorities.percent_for priorities p)) gq gt) ∧
  Forall (route_set c' h') rs ∧
  (∀ id l, routes c' !! id = Some l → id ∈ (λ r : RouteLimits, r.1.1.1) <$> rs).
Proof.
  intros Hd Hc Hnd. unfold apply_limits.
  set (h1 := modify (global c) _ h). fold (resize_tiers gmax gq gt priorities c h1).
  destruct (resize_tiers_spec gmax gq gt priorities c h1 Hd) as (Hn & Hg & Ht).
  assert (cell h1 (global c) = resize_queue gmax gq gt (cell h (global c))) as Hg1 by apply cell_modify.
  assert (next h1 = next h) as Hn1 by done. clearbody h1. set (h2 := resize_tiers gmax gq gt priorities c h1) in *.
  assert (ctl_ok c h2) as Hc2 by (eapply ctl_ok_next; [|exact Hc]; congruence).
  destruct (apply_routes_set _ _ rs c h2 (Kept_self _ _ Hd Hc2) Hnd) as ((Hd3 & Hc3 & Hr3 & Hk3) & Hall & _).
  destruct (foldl apply_route (c, h2) rs) as [c3 h3]. simpl in *. intros [= <- <-].
  split; [by apply (Distinct_filter c3)|]. split; [done|].
  assert (global c3 = global c ∧ tiers c3 = tiers c) as [Eg Et].
  { unfold refs in Hr3. by injection Hr3. }
  split; [|split; [|split]]; simpl.
  - rewrite Eg, Hk3 by (unfold refs; left). rewrite Hg, Hg1.
    apply configured_resize.
  - intros p l Hp. unfold tier_limiter in Hp. simpl in Hp. rewrite Et in Hp.
    rewrite Hk3; [by apply Ht|]. unfold refs. right. eapply (tier_limiter_some c). exact Hp.
  - rewrite Forall_forall in Hall |- *. intros r Hr. destruct (Hall r Hr) as (l & Hl & Hset).
    exists l. split; [|done]. apply map_lookup_filter_Some. split; [done|].
    simpl. apply list_elem_of_fmap. by exists r.
  - intros id l [_ Hin]%map_lookup_filter_Some. done.
Qed.

(** The reloads a system goes through name each route once, as validation
    requires of the configuration they come from. *)
Definition unique_ids (rs : list RouteLimits) : Prop := NoDup ((λ r : RouteLimits, r.1.1.1) <$> rs).

Lemma Distinct_apply_limits gmax gq gt priorities rs c h c' h' :
  Distinct c → ctl_ok c h →
  apply_limits gmax gq gt priorities rs c h = (c', h') → Distinct c'.
Proof.
  intros Hd Hc. unfold apply_limits.
  set (h1 := modify (global c) _ h). fold (resize_tiers gmax gq gt priorities c h1).
  destruct (resize_tiers_spec gmax gq gt priorities c h1 Hd) as (Hn & _).
  assert (ctl_ok c (resize_tiers gmax gq gt priorities c h1)) as Hc2 by by eapply ctl_ok_next.
  pose proof (Kept_self _ _ Hd Hc2) as HK. revert HK.
  generalize (resize_tiers gmax gq gt priorities c h1) at 2 3 as h2.
  generalize (refs c), (resize_tiers gmax gq gt priorities c h1). intros base h0 h2 HK.
  assert (Kept base h0 (foldl apply_route (c, h2) rs)) as HK'.
  { clear -HK laws. revert HK. generalize c, h2. induction rs as [|r rs IH]; intros c0 h3 HK; [done|].
    cbn [foldl]. pose proof (apply_route_kept _ _ _ _ r HK) as HK'.
    destruct (apply_route (c0, h3) r). by apply IH. }
  destruct (foldl apply_route (c, h2) rs) as [c3 h3]. intros [= <- <-].
  apply (Distinct_filter c3), HK'.
Qed.

Lemma reachable_distinct s : sys_reachable s → Distinct (ctl s).
Proof.
  induction 1 as [gmax gq gt pr h Hz Hok|s s' HR IH Hs]; [apply Distinct_boot|].
  apply sys_reachable_inv in HR as (_ & Hc & _).
  destruct Hs as [s now cls route pr wt Hr|s now i p x Hi Hx|s now i p Hi|s i p Hi|s i ps Hi
                 |s id max qm qt l c h Hm Hq Hroute|s gmax gq gt pr rs c h Hok Happly]; simpl.
  - by destruct (admit_request now cls route pr wt (ctl s) (heap s)) as [[]|].
  - by destruct (admit_resume now p (Woken x) (heap s)) as [[]|].
  - by destruct (admit_resume now p Elapsed (heap s)) as [[]|].
  - done.
  - done.
  - by eapply Distinct_route_limiter.
  - by eapply Distinct_apply_limits.
Qed.

(** A reload takes effect completely, whatever is in flight: right after it
    the global limiter, every priority tier and every configured route have
    exactly the ceiling and the queue the new configuration asks for, and no
    other route is left in the registry. *)
Theorem reload_sets_ceilings s gmax gq gt priorities rs c h :
  sys_reachable s → unique_ids rs →
  apply_limits gmax gq gt priorities rs (ctl s) (heap s) = (c, h) →
  configured (cell h (global c)) gmax gq gt ∧
  (∀ p, ∃ l, tier_limiter c p = Some l ∧
     configured (cell h l) (tier_ceiling gmax (Priorities.percent_for priorities p)) gq gt) ∧
  (∀ id max queue_max queue_timeout, (id, max, queue_max, queue_timeout) ∈ rs →
     ∃ l, routes c !! id = Some l ∧ configured (cell h l) max queue_max queue_timeout) ∧
  (∀ id, is_Some (routes c !! id) → id ∈ (λ r : RouteLimits, r.1.1.1) <$> rs).
Proof.
  intros HR Hu Ha. pose proof (reachable_distinct s HR) as Hd.
  apply sys_reachable_inv in HR as (_ & Hc & _).
  destruct (apply_limits_spec _ _ _ _ _ _ _ _ _ Hd Hc Hu Ha) as (Hd' & _ & Hg & Ht & Hrs & Hid).
  split; [done|]. split; [|split].
  - intros p. destruct (tier_limiter_lookup c p Hd') as (i & l & _ & _ & Hl). exists l. auto.
  - intros id max qm qt Hin. rewrite Forall_forall in Hrs. by apply (Hrs _ Hin).
  - intros id [l Hl]. by eapply Hid.
Qed.

(** ** An idle system *)

(** The limiters of a request are three different ones. *)
Lemma ceilings_NoDup c id route p :
  Distinct c → (∀ l, route = Some l → routes c !! id = Some l) → NoDup (ceilings c route p).
Proof.
  intros Hd Hr. destruct (tier_limiter_lookup c p Hd) as (i & t & Ht & _ & El).
  unfold ceilings. rewrite El. destruct Hd as [_ Hrefs Hroutes _].
  apply list_elem_of_lookup_2 in Ht. unfold refs in *. apply NoDup_cons in Hrefs as [Hg _].
  assert (NoDup [t; global c]) as Htg.
  { apply NoDup_cons. split; [|apply NoDup_singleton]. intros E%list_elem_of_singleton. congruence. }
  destruct route as [l|]; [|done]. simpl. apply NoDup_cons. split; [|done].
  specialize (Hroutes id l (Hr l eq_refl)). intros [->|Hl]%elem_of_cons; apply Hroutes.
  - by right.
  - apply list_elem_of_singleton in Hl as ->. by left.
Qed.

(** With nothing in flight a request is admitted when its weight fits under
    each of its ceilings, and holds exactly its weight on each. *)
Lemma idle_admits s now cls id route p weight :
  sys_reachable s → live s = [] → waiting s = [] →
  (∀ l, route = Some l → routes (ctl s) !! id = Some l) →
  consumes_origin_permit cls = true → 1 <= weight →
  Forall (λ l, weight <= limit (cell (heap s) l)) (ceilings (ctl s) route p) →
  ∃ h, admit_request now cls route p weight (ctl s) (heap s)
       = Decided (AdmittedWith (rev ((λ l, (l, weight)) <$> ceilings (ctl s) route p))) h.
Proof.
  intros HR Hlive Hwait Hroute Hcls Hw Hfit.
  pose proof (ceilings_NoDup _ id route p (reachable_distinct s HR) Hroute) as Hnd.
  pose proof (sys_reachable_inv s HR) as HI.
  assert (∀ l, route = Some l → (l < next (heap s))%nat) as Hlt.
  { intros l Hl. eapply ctl_ok_route; [apply HI|]. by apply Hroute. }
  unfold admit_request. rewrite Hcls. cbn [negb]. set (dl := fmap _ _).
  pose proof (go_outcome s now weight dl (ceilings (ctl s) route p) [] (heap s)
    (λ _ _, eq_refl) Hnd (ceilings_bound _ _ _ _ (proj1 (proj2 HI)) Hlt) HI) as Ho.
  unfold decide_by_ceilings in Ho. rewrite N.max_l in Ho by lia.
  assert (list_find (λ l, fits_on s weight l = false) (ceilings (ctl s) route p) = None) as E.
  { apply list_find_None, Forall_forall. intros l Hl Hno.
    pose proof (proj1 (Forall_forall _ _) (ceilings_bound _ _ _ _ (proj1 (proj2 HI)) Hlt) l Hl) as Hb.
    destruct (drained_system_is_full s l HR Hlive Hwait Hb) as (_ & Hq & _).
    unfold fits_on, fits in Hno. rewrite Hq in Hno.
    unfold in_flight, permits in Hno. rewrite Hlive, Hwait in Hno. apply (proj1 (Forall_forall _ _) Hfit) in Hl.
    unfold units_of in Hno. cbn in Hno, Hl. to_prop. lia. }
  rewrite E, app_nil_r in Ho.
  destruct (admit_go now weight dl _ [] (heap s)) as [[ps| |]h|]; simpl in Ho; try done.
  injection Ho as ->. by exists h.
Qed.
End Ceilings.

(** ** Witness *)

Import CountingSemaphore.

Lemma reload_sets_ceilings_witness :
  let '(c, h) := apply_limits 40 5 1000000000 (Priorities.mk 100 50 25)
                   [("search", 6, 2, 0); ("cart", 9, 0, 0)] (ctl s2) (heap s2) in
  configured (cell h (global c)) 40 5 1000000000.
Proof.
  destruct (apply_limits 40 5 1000000000 (Priorities.mk 100 50 25)
              [("search", 6, 2, 0); ("cart", 9, 0, 0)] (ctl s2) (heap s2)) as [c h] eqn:E.
  eapply (reload_sets_ceilings s2); [apply reach_s2| |exact E].
  apply (bool_decide_unpack _). vm_compute. exact I.
Defined.
