(* ===== verification/Policy.v ===== *)
(** * Policy snapshots and reloads
      ([src/src/policy/matcher.rs], [src/src/policy/mod.rs], [src/src/policy/reload.rs])

    Routes compiled from the configuration, the first that matches a request,
    and the reload that swaps them: refused as a whole, or applied to the
    limiters, the cache and the snapshot. *)

From S2P Require Import Prelude Words Text Units Schema Semaphores Limiter Classifier CachePolicy Admission Ceilings Store Validation.
Local Open Scope string_scope.
Local Open Scope list_scope.
Local Open Scope N_scope.

(** The glob library, http's method parser, and Rust's derived [Debug] of a
    configuration, which the source only hashes. *)
Record Matching := mkMatching {
  Glob : Type;
  Glob_new : string → result string Glob;
  is_match : Glob → string → bool;
  parse_method : string → option Method;
  debug_config : Config.Config → string }.

(** ** [matcher.rs] *)

Inductive MatcherMessage :=
| BadGlob (path error : string)
| BadMethod (m : string).
Record MatcherError := mkMatcherError { error_route : string; message : MatcherMessage }.

Definition is_known_method (m : Method) : bool :=
  match m with Extension _ => false | _ => true end.

(** ** Loading a file ([src/src/config/mod.rs])

    The file system and the YAML deserialiser are parameters. *)

Record Files := mkFiles {
  read_to_string : string → result string string;
  from_str : string → result string Config.Config }.

Inductive LoadError :=
| Io (path source : string)
| Parse (path source : string)
| Invalid (path : string) (source : ValidationError).

Definition load {Sem} `{S : !Semaphore Sem} (P : Platform) (F : Files) (path : string) :
    result LoadError Config.Config :=
  text ← map_err (Io path) (read_to_string F path);
  cfg ← map_err (Parse path) (from_str F text);
  map_err (Invalid path) (validate (Sem := Sem) P cfg);;
  Ok cfg.

Section Policy.
Context (M : Matching).

Record CompiledMatcher := mkMatcher {
  m_host : option string;
  m_path : Glob M;
  m_methods : option (list Method) }.

Definition known_method (m : string) : option Method :=
  parsed ← parse_method M m; if is_known_method parsed then Some parsed else None.

Definition compile (route_id : string) (m : Matcher) : result MatcherError CompiledMatcher :=
  let '(host, path, methods) :=
    match m with
    | Path p => (None, p, None)
    | Detailed d => (DetailedMatcher.host d, DetailedMatcher.path d, DetailedMatcher.methods d)
    end in
  glob ← map_err (λ e, mkMatcherError route_id (BadGlob path e)) (Glob_new M path);
  methods ←
    match methods with
    | None => Ok None
    | Some l =>
        Some <$> try_map (λ m, ok_or (known_method m) (mkMatcherError route_id (BadMethod m))) l
    end;
  Ok (mkMatcher (to_ascii_lowercase <$> host) glob methods).

Definition matches (m : CompiledMatcher) (host path : string) (method : Method) : bool :=
  if match m_host m with Some want => negb (eq_ignore_ascii_case host want) | None => false end
  then false
  else if match m_methods m with Some allowed => negb (bool_decide (method ∈ allowed)) | None => false end
  then false
  else is_match M (m_path m) path.

(** ** [mod.rs] *)

Record ResolvedRoute := mkResolved {
  r_id : string;
  r_matcher : CompiledMatcher;
  r_config : Route.Route }.

Definition declared_class (r : ResolvedRoute) : option RequestClass :=
  (λ c, match c with
        | CoStatic => Static
        | CoPublicSsr => PublicDocument
        | CoPublicDynamic => PublicDynamic
        | CoPrivateDynamic => PrivateDynamic
        | CoStreaming => Streaming
        end) <$> Route.class (r_config r).

Record PolicySnapshot := mkSnapshot {
  p_routes : list ResolvedRoute;
  p_config : Config.Config;
  p_generation : N;
  p_fingerprint : N }.

(** FNV-1a over the rendered configuration, kept below 2^53. *)
Definition fnv1a_step (hash : N) (a : ascii) : N :=
  wrapping_mul (N.lxor hash (code a)) 1099511628211.
Fixpoint fnv1a (hash : N) (s : string) : N :=
  match s with EmptyString => hash | String a s => fnv1a (fnv1a_step hash a) s end.

Definition config_fingerprint (config : Config.Config) : N :=
  N.land (fnv1a 14695981039346656037 (debug_config M config)) (N.shiftl 1 53 - 1).

Definition resolve_route (r : Route.Route) : result MatcherError ResolvedRoute :=
  m ← compile (Route.id r) (Route.matcher r); Ok (mkResolved (Route.id r) m r).

Definition build (config : Config.Config) (generation : N) : result MatcherError PolicySnapshot :=
  let fingerprint := config_fingerprint config in
  routes ← try_map resolve_route (Config.routes config);
  Ok (mkSnapshot routes config generation fingerprint).

Definition resolve (p : PolicySnapshot) (host path : string) (method : Method) :
    option ResolvedRoute :=
  snd <$> list_find (λ r, matches (r_matcher r) host path method = true) (p_routes p).

Definition coalesce_wait (p : PolicySnapshot) : Duration :=
  match CoalesceDefaults.wait_timeout (Config.coalesce (p_config p)) with
  | Some d => as_duration d
  | None => as_duration (Timeouts.origin (Config.timeouts (p_config p)))
  end.

(** The limiter of a route, created on first use ([src/src/proxy/mod.rs]). *)
Definition limiter_for {Sem} `{S : !Semaphore Sem} (p : PolicySnapshot) (route_id : string)
    (c : AdmissionController) (h : Heap Sem) : option nat * (AdmissionController * Heap Sem) :=
  match '(_, route) ← list_find (λ r, r_id r = route_id) (p_routes p);
        Route.concurrency (r_config route) with
  | Some cc =>
      let q := Concurrency.queue cc in
      let '(l, st) := route_limiter route_id (Concurrency.max cc) (Queue.max q)
                        (as_duration (Queue.timeout q)) c h in
      (Some l, st)
  | None => (None, (c, h))
  end.

(** ** [reload.rs] *)

Section Reload.
Context {Sem : Type} `{S : !Semaphore Sem}.

Record Reloader := mkReloader {
  policy : PolicySnapshot;
  admission : AdmissionController;
  limiters : Heap Sem;
  store : option Store;
  generation : N }.

Inductive ReloadError :=
| LoadFailed (why : LoadError)
| ListenChanged (from to : string)
| UpstreamsChanged
| LoadBalancingChanged
| HealthChanged
| PrometheusChanged
| StoreChanged
| PurgeTokenChanged
| OriginTimeoutChanged
| TrustedProxiesChanged
| ListenersChanged
| OriginProtocolChanged
| BreakerChanged
| RetryChanged
| SpoolMemoryChanged
| GracefulChanged
| AdminChanged
| TracingChanged
| UpgradeChanged
| BuildFailed (e : MatcherError).

Definition changed {A} `{EqDecision A} (f : Config.Config → A) (cfg current : Config.Config) : bool :=
  negb (bool_decide (f cfg = f current)).

(** What a running server cannot change, in the order it is compared. *)
Definition check_unchanged (cfg current : Config.Config) : result ReloadError unit :=
  refuse_if (changed (λ c, Server.listen (Config.server c)) cfg current)
    (ListenChanged (Server.listen (Config.server current)) (Server.listen (Config.server cfg)));;
  refuse_if (changed (λ c, Origin.upstreams (Config.origin c)) cfg current) UpstreamsChanged;;
  refuse_if (changed (λ c, Origin.load_balancing (Config.origin c)) cfg current) LoadBalancingChanged;;
  refuse_if (changed Config.health cfg current) HealthChanged;;
  refuse_if (changed (λ c, Telemetry.prometheus (Config.telemetry c)) cfg current) PrometheusChanged;;
  refuse_if (changed (λ c, CacheDefaults.max_memory (Config.cache c)) cfg current
             || changed (λ c, CacheDefaults.store (Config.cache c)) cfg current
             || changed (λ c, CacheDefaults.eviction (Config.cache c)) cfg current
             || changed (λ c, CacheDefaults.tag_header (Config.cache c)) cfg current) StoreChanged;;
  refuse_if (changed (λ c, Purge.token (CacheDefaults.purge (Config.cache c))) cfg current)
    PurgeTokenChanged;;
  refuse_if (changed (λ c, Timeouts.origin (Config.timeouts c)) cfg current) OriginTimeoutChanged;;
  refuse_if (changed (λ c, Server.trusted_proxies (Config.server c)) cfg current)
    TrustedProxiesChanged;;
  refuse_if (changed (λ c, Server.h2c (Config.server c)) cfg current
             || changed (λ c, Server.tls (Config.server c)) cfg current) ListenersChanged;;
  refuse_if (changed (λ c, Origin.tls (Config.origin c)) cfg current
             || changed (λ c, Origin.http_version (Config.origin c)) cfg current)
    OriginProtocolChanged;;
  refuse_if (changed (λ c, Origin.breaker (Config.origin c)) cfg current) BreakerChanged;;
  refuse_if (changed (λ c, Origin.retry (Config.origin c)) cfg current) RetryChanged;;
  refuse_if (changed (λ c, Spool.max_memory (Config.spool c)) cfg current) SpoolMemoryChanged;;
  refuse_if (changed (λ c, Server.graceful (Config.server c)) cfg current) GracefulChanged;;
  refuse_if (changed (λ c, Telemetry.admin (Config.telemetry c)) cfg current) AdminChanged;;
  refuse_if (changed (λ c, Tracing.otlp (Telemetry.tracing (Config.telemetry c))) cfg current
             || changed (λ c, Tracing.service_name (Telemetry.tracing (Config.telemetry c))) cfg current)
    TracingChanged;;
  refuse_if (changed (λ c, Upgrade.max_concurrent (Config.upgrade c)) cfg current) UpgradeChanged.

Definition route_limits (cfg : Config.Config) : list RouteLimits :=
  omap (λ r, (λ c, (Route.id r, Concurrency.max c, Queue.max (Concurrency.queue c),
                    as_duration (Queue.timeout (Concurrency.queue c)))) <$> Route.concurrency r)
    (Config.routes cfg).

(** [apply_limits] with the limits of a configuration. *)
Definition apply_config (cfg : Config.Config) (c : AdmissionController) (h : Heap Sem) :
    AdmissionController * Heap Sem :=
  let global := Origin.concurrency (Config.origin cfg) in
  apply_limits (Concurrency.max global) (Queue.max (Concurrency.queue global))
    (as_duration (Queue.timeout (Concurrency.queue global)))
    (Origin.priorities (Config.origin cfg)) (route_limits cfg) c h.

(** What the process starts with ([src/src/main.rs]): the controller, then every
    configured route's limiter. *)
Definition startup (cfg : Config.Config) (h : Heap Sem) : AdmissionController * Heap Sem :=
  let concurrency := Origin.concurrency (Config.origin cfg) in
  let '(c, h) := new_controller (Concurrency.max concurrency) (Queue.max (Concurrency.queue concurrency))
                   (as_duration (Queue.timeout (Concurrency.queue concurrency)))
                   (Origin.priorities (Config.origin cfg)) h in
  apply_config cfg c h.

(** [Reloader::reload]; [loaded] is what reading, parsing and validating the
    file gave. *)
Definition reload (loaded : result LoadError Config.Config) (s : Reloader) :
    result ReloadError N * Reloader :=
  match
    cfg ← map_err LoadFailed loaded;
    check_unchanged cfg (p_config (policy s));;
    let next_generation := wrapping_add (generation s) 1 in
    snapshot ← map_err BuildFailed (build cfg next_generation);
    Ok (cfg, snapshot)
  with
  | Err why => (Err why, s)
  | Ok (cfg, snapshot) =>
      let deployment_changed := changed (λ c, Deployment.id (Config.deployment c)) cfg (p_config (policy s)) in
      let generation := wrapping_add (generation s) 1 in
      let '(c, h) := apply_config (p_config snapshot) (admission s) (limiters s) in
      let store :=
        if deployment_changed then (λ st, (purge_all st).2) <$> store s else store s in
      (Ok generation, mkReloader snapshot c h store generation)
  end.
End Reload.
End Policy.
