(* ===== verification/PolicyTheorems.v ===== *)
(** * What a reload guarantees

    A reload is refused as a whole or takes effect as a whole, the routes it
    installs can be served, and a new deployment starts with an empty cache. *)

From S2P Require Import Prelude Words Text Units Schema Semaphores Limiter Classifier CachePolicy Admission Ceilings Store StoreFacts StoreSafety Validation ValidationTheorems Policy.
Local Open Scope string_scope.
Local Open Scope list_scope.
Local Open Scope N_scope.

(** ** Matching *)

Section Matching.
Context (M : Matching).

(** The first route in file order that matches a request is the one that
    applies: nothing before it matches, and none applies only when none
    matches. *)
Theorem first_match_wins (p : PolicySnapshot M) host path method :
  match resolve M p host path method with
  | Some r => ∃ before after, p_routes M p = before ++ r :: after
      ∧ matches M (r_matcher M r) host path method = true
      ∧ Forall (λ r', matches M (r_matcher M r') host path method = false) before
  | None => Forall (λ r, matches M (r_matcher M r) host path method = false) (p_routes M p)
  end.
Proof.
  unfold resolve. destruct (list_find _ (p_routes M p)) as [[i r]|] eqn:E; simpl.
  - apply list_find_Some in E as (Hi & Hm & Hb).
    exists (take i (p_routes M p)), (drop (S i) (p_routes M p)). split; [|split; [done|]].
    + by rewrite <-(take_drop_middle _ _ _ Hi) at 1.
    + apply Forall_lookup. intros j r' Hj. apply lookup_take_Some in Hj as [Hj Hlt].
      apply not_true_is_false. by eapply Hb.
  - apply list_find_None in E. eapply Forall_impl; [exact E|].
    intros r Hr. by apply not_true_is_false.
Qed.

Lemma resolved_configs config n p :
  build M config n = Ok p → p_config M p = config ∧ p_generation M p = n
  ∧ r_config M <$> p_routes M p = Config.routes config
  ∧ Forall (λ r, r_id M r = Route.id (r_config M r)) (p_routes M p).
Proof.
  unfold build. rewrite bind_ok. intros (rs & Hrs & [= <-]). simpl. split; [done|]. split; [done|].
  apply try_map_ok in Hrs. induction Hrs as [|r r' l l' Hr _ [IH1 IH2]]; [done|].
  unfold resolve_route in Hr. apply bind_ok in Hr as (m & _ & [= <-]).
  split; [rewrite fmap_cons; cbn [r_config]; by rewrite IH1|]. by constructor.
Qed.
End Matching.

(** ** Limits *)

Lemma route_limits_elem cfg id max qm qt :
  (id, max, qm, qt) ∈ route_limits cfg ↔
  ∃ r c, r ∈ Config.routes cfg ∧ Route.concurrency r = Some c ∧
    id = Route.id r ∧ max = Concurrency.max c ∧ qm = Queue.max (Concurrency.queue c)
    ∧ qt = as_duration (Queue.timeout (Concurrency.queue c)).
Proof.
  unfold route_limits. rewrite list_elem_of_omap. split.
  - intros (r & Hr & H). destruct (Route.concurrency r) as [c|] eqn:E; [|done].
    injection H as <- <- <- <-. by exists r, c.
  - intros (r & c & Hr & E & -> & -> & -> & ->). exists r. by rewrite E.
Qed.

Lemma route_limits_unique cfg :
  NoDup (Route.id <$> Config.routes cfg) → unique_ids (route_limits cfg).
Proof.
  unfold unique_ids, route_limits. induction (Config.routes cfg) as [|r rs IH]; [constructor|].
  rewrite fmap_cons, NoDup_cons. intros [Hr Hnd]. simpl.
  destruct (Route.concurrency r) as [c|]; simpl; [|by apply IH].
  apply NoDup_cons. split; [|by apply IH]. intros Hin. apply Hr.
  apply list_elem_of_fmap in Hin as ([[[id max] qm] qt] & -> & Hin).
  apply list_elem_of_omap in Hin as (r' & Hr' & H). apply list_elem_of_fmap. exists r'.
  split; [|done]. simpl. destruct (Route.concurrency r'); [|done]. by injection H.
Qed.

(** What the field types say: queue bounds are [usize]. *)
Definition typed (cfg : Config.Config) : Prop :=
  Queue.max (Concurrency.queue (Origin.concurrency (Config.origin cfg))) <= USIZE_MAX ∧
  Forall (λ r, ∀ c, Route.concurrency r = Some c → Queue.max (Concurrency.queue c) <= USIZE_MAX)
    (Config.routes cfg).

Section Reloads.
Context {Sem : Type} `{S : !Semaphore Sem} {laws : SemaphoreLaws Sem S}.
Context (P : Platform) (F : Files) (M : Matching).

Lemma load_ok path cfg :
  load (Sem := Sem) P F path = Ok cfg →
  validate (Sem := Sem) P cfg = Ok tt ∧ ∃ text, from_str F text = Ok cfg.
Proof.
  unfold load. rewrite bind_ok. intros (text & _ & H). apply bind_ok in H as (cfg' & Hp & H).
  apply bind_ok in H as ([] & Hv & [= ->]). apply map_err_ok in Hp, Hv. by split; [|exists text].
Qed.

(** Validation guarantees what the admission controller assumes. *)
Lemma validated_limits_ok cfg :
  validate (Sem := Sem) P cfg = Ok tt → typed cfg →
  let global := Origin.concurrency (Config.origin cfg) in
  limits_ok (Sem := Sem) (Concurrency.max global) (Queue.max (Concurrency.queue global))
    (Origin.priorities (Config.origin cfg)) (route_limits cfg) = true.
Proof.
  intros HV [Hq Hrs]. pose proof (validate_accepted _ _ HV) as HA.
  pose proof (accepted_max _ _ HA) as [H1 Hm]. cbv zeta. unfold limits_ok.
  rewrite !andb_true_iff, !N.leb_le. split; [split; [split; [split|]|]|]; try done.
  - apply forallb_forall. intros p _. apply N.leb_le. apply (accepted_percent _ _ p HA).
  - apply forallb_forall. intros [[[id max] qm] qt] Hin. rewrite <-list_elem_of_In in Hin.
    apply route_limits_elem in Hin as (r & c & Hr & Ec & -> & -> & -> & ->). simpl.
    rewrite andb_true_iff, !N.leb_le. rewrite Forall_forall in Hrs. split; [|by eapply Hrs].
    by eapply accepted_route_max.
Qed.

(** A reload that succeeded, taken apart. *)
Lemma reload_inv loaded (s s' : Reloader M) g :
  reload M loaded s = (Ok g, s') →
  ∃ cfg snapshot, loaded = Ok cfg ∧ check_unchanged cfg (p_config M (policy M s)) = Ok tt ∧
    build M cfg (wrapping_add (generation M s) 1) = Ok snapshot ∧
    g = wrapping_add (generation M s) 1 ∧
    policy M s' = snapshot ∧ generation M s' = g ∧
    apply_config cfg (admission M s) (limiters M s) = (admission M s', limiters M s') ∧
    store M s' =
      if changed (λ c, Deployment.id (Config.deployment c)) cfg (p_config M (policy M s))
      then (λ st, (purge_all st).2) <$> store M s else store M s.
Proof.
  unfold reload.
  destruct (_ ≫= _) as [[cfg snapshot]|e] eqn:E; [|done].
  apply bind_ok in E as (cfg' & Hl & E). apply map_err_ok in Hl.
  apply bind_ok in E as ([] & Hc & E). apply bind_ok in E as (sn & Hb & [= -> ->]).
  apply map_err_ok in Hb. destruct (resolved_configs M _ _ _ Hb) as (Hcfg & _). rewrite Hcfg.
  destruct (apply_config cfg (admission M s) (limiters M s)) as [c h] eqn:Ea.
  intros [= <- <-]. by exists cfg, snapshot.
Qed.

Lemma reload_err loaded (s s' : Reloader M) e :
  reload M loaded s = (Err e, s') → s' = s.
Proof.
  unfold reload. destruct (_ ≫= _) as [[cfg snapshot]|e'].
  - by destruct (apply_config _ _ _).
  - by intros [= _ <-].
Qed.

(** The admission half of a running server, with the work it has in flight. *)
Definition in_service (s : Reloader M) (lv : list (list Permit)) (wt : list Admission.Pending) : System Sem :=
  mkSystem (admission M s) (limiters M s) lv wt.

Lemma reload_reachable path (s s' : Reloader M) g lv wt :
  (∀ text cfg, from_str F text = Ok cfg → typed cfg) →
  sys_reachable (in_service s lv wt) →
  reload M (load (Sem := Sem) P F path) s = (Ok g, s') →
  sys_reachable (in_service s' lv wt).
Proof.
  intros Hty HR Hrel. apply reload_inv in Hrel as (cfg & sn & Hl & _ & _ & _ & _ & _ & Ha & _).
  apply load_ok in Hl as (HV & text & Htext). eapply sys_trans; [exact HR|].
  unfold in_service. unfold apply_config in Ha.
  eapply (sys_reload (in_service s lv wt)); [|exact Ha].
  apply validated_limits_ok; [exact HV|by eapply Hty].
Qed.

(** C19: A reload is all or nothing.  Refused (the file does not load, asks for
    something that needs a restart, or does not compile), it leaves the policy,
    the limiters, the cache and the generation exactly as they were.  Accepted,
    the policy is the new file's with its routes in order, the generation has
    advanced, and the limiters in force, whatever is in flight, are the new
    file's: the global one, every tier's and every route's. *)
Theorem reload_all_or_nothing path (s s' : Reloader M) r lv wt :
  sys_reachable (in_service s lv wt) →
  reload M (load (Sem := Sem) P F path) s = (r, s') →
  match r with
  | Err _ => s' = s
  | Ok g => ∃ cfg, load (Sem := Sem) P F path = Ok cfg ∧ p_config M (policy M s') = cfg ∧
      r_config M <$> p_routes M (policy M s') = Config.routes cfg ∧
      g = wrapping_add (generation M s) 1 ∧ generation M s' = g ∧ p_generation M (policy M s') = g ∧
      let conc := Origin.concurrency (Config.origin cfg) in
      let q c := Concurrency.queue c in
      let set l c max := configured (cell (limiters M s') l) max (Queue.max (q c)) (as_duration (Queue.timeout (q c))) in
      set (global (admission M s')) conc (Concurrency.max conc) ∧
      (∀ p, ∃ l, tier_limiter (admission M s') p = Some l ∧
         set l conc (tier_ceiling (Concurrency.max conc)
                       (Priorities.percent_for (Origin.priorities (Config.origin cfg)) p))) ∧
      (∀ route c, route ∈ Config.routes cfg → Route.concurrency route = Some c →
         ∃ l, routes (admission M s') !! Route.id route = Some l ∧ set l c (Concurrency.max c))
  end.
Proof.
  intros HR Hrel. destruct r as [g|e]; [|by apply reload_err in Hrel].
  apply reload_inv in Hrel as (cfg & sn & Hl & _ & Hb & -> & -> & -> & Ha & _).
  destruct (resolved_configs M _ _ _ Hb) as (Hcfg & Hgen & Hroutes & _).
  exists cfg. do 6 (split; [done|]). cbv zeta.
  pose proof (reachable_distinct _ HR) as Hd. apply sys_reachable_inv in HR as (_ & Hc & _).
  apply load_ok in Hl as (HV & _).
  pose proof (acc_routes _ _ (validate_accepted _ _ HV)) as Hids.
  apply check_routes_ok in Hids as (Hnd & _).
  destruct (apply_limits_spec _ _ _ _ _ _ _ _ _ Hd Hc (route_limits_unique _ Hnd) Ha)
    as (Hd' & _ & Hg & Ht & Hrs & _).
  split; [exact Hg|]. split.
  - intros p. destruct (tier_limiter_lookup _ p Hd') as (i & l & _ & _ & El). exists l. auto.
  - intros route c Hin Ec. rewrite Forall_forall in Hrs.
    apply (Hrs (Route.id route, Concurrency.max c, Queue.max (Concurrency.queue c),
                as_duration (Queue.timeout (Concurrency.queue c)))).
    apply route_limits_elem. by exists route, c.
Qed.

(** A new deployment starts with an empty cache: when a reload changes
    [deployment.id], no entry of the previous build is left, the index is empty
    of them, and every fill still running for it is marked so that it will not
    be stored; when the id stays, the cache is untouched. *)
Theorem rollover_empties_cache loaded (s s' : Reloader M) g st p :
  reload M loaded s = (Ok g, s') → store M s = Some st → shape st → books st p →
  let id (x : Reloader M) := Deployment.id (Config.deployment (p_config M (policy M x))) in
  if decide (id s' = id s) then store M s' = Some st
  else ∃ st', store M s' = Some st' ∧ cached st' = ∅
    ∧ ∀ key n t, fill st' key n = Some t → invalidated t = true.
Proof.
  intros Hrel Hst Hs Hb. apply reload_inv in Hrel as (cfg & sn & _ & _ & Hbd & _ & Hp & _ & _ & Hstore).
  destruct (resolved_configs M _ _ _ Hbd) as (Hcfg & _). cbv zeta beta. rewrite Hp, Hcfg.
  unfold changed in Hstore. rewrite Hst in Hstore. case_decide as Hid.
  - by rewrite bool_decide_eq_true_2 in Hstore.
  - rewrite bool_decide_eq_false_2 in Hstore by done. simpl in Hstore.
    destruct (run_purge_ok Everything st p Hs Hb) as (_ & _ & _ & _ & Hc & Hf).
    exists (purge_all st).2. split; [done|]. split.
    + simpl in Hc. rewrite Hc. apply map_empty. intros k.
      destruct (filter _ (cached st) !! k) eqn:E; [|done].
      apply map_lookup_filter_Some in E as [_ E]. done.
    + intros key n t. simpl in Hf. rewrite Hf. destruct (fill st key n); [|done].
      by intros [= <-].
Qed.

Lemma find_route (rs : list (ResolvedRoute M)) r :
  NoDup (Route.id <$> (r_config M <$> rs)) →
  Forall (λ x, r_id M x = Route.id (r_config M x)) rs →
  r ∈ r_config M <$> rs →
  ∃ i x, list_find (λ x, r_id M x = Route.id r) rs = Some (i, x) ∧ r_config M x = r.
Proof.
  intros Hnd Hid Hr. apply list_elem_of_fmap in Hr as (x & -> & Hx).
  apply list_elem_of_lookup in Hx as [i Hi]. exists i, x. split; [|done].
  apply list_find_Some. split; [done|]. rewrite Forall_forall in Hid.
  split; [apply Hid; by eapply list_elem_of_lookup_2|].
  intros j y Hj Hlt E. rewrite Hid in E by by eapply list_elem_of_lookup_2.
  assert (i = j) as ->; [|lia]. eapply NoDup_lookup; [exact Hnd|..];
    rewrite !list_lookup_fmap; [rewrite Hi|rewrite Hj]; simpl; [done|by f_equal].
Qed.

(** The process starts in a state the controller's invariants cover. *)
Lemma startup_reachable cfg h c h' :
  validate (Sem := Sem) P cfg = Ok tt → typed cfg → next h = 0%nat →
  startup cfg h = (c, h') → sys_reachable (mkSystem c h' [] []).
Proof.
  intros HV Hty Hz. unfold startup.
  set (conc := Origin.concurrency (Config.origin cfg)).
  destruct (new_controller _ _ _ _ h) as [c0 h0] eqn:E. intros Ha.
  pose proof (validated_limits_ok _ HV Hty) as Hok. cbv zeta in Hok. fold conc in Hok.
  eapply sys_trans.
  - apply (sys_boot (Concurrency.max conc) (Queue.max (Concurrency.queue conc))
             (as_duration (Queue.timeout (Concurrency.queue conc)))
             (Origin.priorities (Config.origin cfg)) h Hz).
    unfold limits_ok in Hok |- *. by apply andb_true_iff in Hok as [-> _].
  - unfold Admission.boot. rewrite E. by eapply (sys_reload (mkSystem c0 h0 [] [])).
Qed.

(** C13: No configuration that loads can starve one of its routes.  After a
    reload of an idle server, a request on any configured route, in a class
    that needs a permit, is admitted at once and holds exactly the route's
    weight on its route's limiter (if it has one), its tier's and the global
    one. *)
Theorem loaded_routes_are_served path (s s' : Reloader M) g route now cls l c h :
  (∀ text cfg, from_str F text = Ok cfg → typed cfg) →
  sys_reachable (in_service s [] []) →
  reload M (load (Sem := Sem) P F path) s = (Ok g, s') →
  route ∈ Config.routes (p_config M (policy M s')) →
  consumes_origin_permit cls = true →
  limiter_for M (policy M s') (Route.id route) (admission M s') (limiters M s') = (l, (c, h)) →
  (is_Some l ↔ is_Some (Route.concurrency route)) ∧
  ∃ h', admit_request now cls l (Route.priority route) (Route.weight route) c h
        = Decided (AdmittedWith (rev ((λ x, (x, Route.weight route))
                                   <$> ceilings c l (Route.priority route)))) h'.
Proof.
  intros Hty HR Hrel Hin Hcls Hlim.
  pose proof (reload_reachable _ _ _ _ _ _ Hty HR Hrel) as HR'.
  pose proof (reachable_distinct _ HR) as Hd. apply sys_reachable_inv in HR as (_ & Hc & _).
  apply reload_inv in Hrel as (cfg & sn & Hl & _ & Hb & _ & Hp & _ & Ha & _).
  destruct (resolved_configs M _ _ _ Hb) as (Hcfg & _ & Hroutes & Hids). rewrite <-Hp in *.
  rewrite Hcfg in Hin. apply load_ok in Hl as (HV & _). pose proof (validate_accepted _ _ HV) as HA.
  pose proof (acc_routes _ _ HA) as Hnd. apply check_routes_ok in Hnd as (Hnd & _).
  destruct (apply_limits_spec _ _ _ _ _ _ _ _ _ Hd Hc (route_limits_unique _ Hnd) Ha)
    as (Hd' & _ & (Hg & _) & Ht & Hrs & _).
  rewrite <-Hroutes in Hnd, Hin.
  destruct (find_route _ _ Hnd Hids Hin) as (i & x & Efind & Ex). rewrite Hroutes in Hin.
  destruct (accepted_route_weight _ _ _ HA Hin) as (H1 & H2 & H3 & H4).
  unfold limiter_for in Hlim. rewrite Efind in Hlim. cbn [mbind option_bind] in Hlim. rewrite Ex in Hlim.
  assert ((c, h) = (admission M s', limiters M s') ∧
          (∀ k, l = Some k → routes (admission M s') !! Route.id route = Some k ∧
             Route.weight route <= limit (cell (limiters M s') k)) ∧
          (is_Some l ↔ is_Some (Route.concurrency route))) as ([= -> ->] & Hk & Hsome).
  { destruct (Route.concurrency route) as [cc|] eqn:Ec; [|by injection Hlim as <- <- <-].
    rewrite Forall_forall in Hrs.
    destruct (Hrs (Route.id route, Concurrency.max cc, Queue.max (Concurrency.queue cc),
                as_duration (Queue.timeout (Concurrency.queue cc)))) as (k & Hk & Hset & _).
    { apply route_limits_elem. by exists route, cc. }
    unfold route_limiter in Hlim. simpl in Hk, Hset. rewrite Hk in Hlim. injection Hlim as <- <- <-.
    split; [done|]. split; [|split; intros _; by eexists].
    intros k' [= <-]. split; [done|]. rewrite Hset. by apply H4. }
  split; [done|].
  apply (idle_admits (in_service s' [] []) now cls (Route.id route)); try done.
  - intros k Hl'. by apply Hk.
  - apply Forall_forall. intros k Hin'. unfold ceilings in Hin'. simpl in Hin'.
    rewrite !elem_of_app in Hin'. destruct Hin' as [Hin'|[Hin'|Hin']].
    + destruct l as [k'|]; [|by inversion Hin']. apply list_elem_of_singleton in Hin' as ->.
      by apply Hk.
    + destruct (tier_limiter (admission M s') (Route.priority route)) as [k'|] eqn:E;
        [|by inversion Hin'].
      apply list_elem_of_singleton in Hin' as ->. simpl. destruct (Ht _ _ E) as (-> & _). exact H3.
    + apply list_elem_of_singleton in Hin' as ->. simpl. by rewrite Hg.
Qed.
End Reloads.

(** ** Witnesses *)

Import CountingSemaphore.

(** Globs that are literal paths ending in [**]. *)
Definition sample_matching : Matching :=
  mkMatching string (λ p, match strip_suffix "**" p with Some g => Ok g | None => Err "not a prefix" end)
    starts_with (λ m, if bool_decide (m = "GET") then Some GET else None) (λ _, "config").

Definition next_config : Config.Config :=
  let c := sample_config in let o := Config.origin c in
  Config.mk (Config.version c) (Config.mode c) (Config.server c)
    (Origin.mk (Origin.upstreams o) d_30s (Origin.load_balancing o)
       (Concurrency.mk 60 (Queue.mk 10 d_1s)) (Origin.tls o) (Origin.http_version o)
       (Origin.breaker o) (Origin.retry o) (Origin.priorities o))
    (Config.capacity c) (Config.health c) (Config.cache c) (Config.coalesce c) (Config.timeouts c)
    (Config.overload c) (Config.spool c) (Config.upgrade c) (Deployment.mk (Some "build-8") None)
    (Config.routes c) (Config.telemetry c) (Config.debug_headers c).

Definition sample_files : Files :=
  mkFiles (λ p, Ok p) (λ text, if bool_decide (text = "next.yaml") then Ok next_config else Err "no").

Definition empty_heap : Heap counter := mkHeap (λ _, Limiter.new "none" 0 0 0) 0.
Definition started := startup sample_config empty_heap.
Definition sample_snapshot : PolicySnapshot sample_matching :=
  match build sample_matching sample_config 1 with
  | Ok p => p | Err _ => mkSnapshot _ [] sample_config 0 0 end.
Definition running : Reloader sample_matching :=
  mkReloader _ sample_snapshot started.1 started.2 (Some (new_store (Config.cache sample_config))) 1.

Abbreviation load_next := (load (Sem := counter) sample_platform sample_files "next.yaml").
Definition reloaded := reload sample_matching load_next running.

Lemma sample_config_typed : typed sample_config.
Proof.
  split; [vm_compute; discriminate|]. apply Forall_forall.
  intros r [->|[->|Hr]%elem_of_cons]%elem_of_cons c Hc;
    [injection Hc as <-; vm_compute; discriminate|discriminate Hc|by inversion Hr].
Qed.

Lemma running_reachable : sys_reachable (in_service sample_matching running [] []).
Proof.
  eapply (startup_reachable sample_platform sample_config empty_heap);
    [exact sample_validates|exact sample_config_typed|reflexivity|].
  unfold running, started. by destruct (startup sample_config empty_heap).
Qed.

Lemma sample_typed text cfg : from_str sample_files text = Ok cfg → typed cfg.
Proof.
  simpl. case_bool_decide; [|done]. intros [= <-]. split; [vm_compute; discriminate|].
  apply Forall_forall.
  intros r [->|[->|Hr]%elem_of_cons]%elem_of_cons c Hc;
    [injection Hc as <-; vm_compute; discriminate|discriminate Hc|by inversion Hr].
Qed.

Lemma reloaded_ok : reload sample_matching load_next running = (Ok 2, reloaded.2).
Proof.
  change (reloaded = (Ok 2, reloaded.2)). rewrite (surjective_pairing reloaded) at 1.
  f_equal.
Qed.

Lemma reload_all_or_nothing_witness :
  limit (cell (limiters _ reloaded.2) (global (admission _ reloaded.2))) = 60.
Proof.
  destruct (reload_all_or_nothing sample_platform sample_files sample_matching "next.yaml"
    running _ (Ok 2) [] [] running_reachable reloaded_ok)
    as (cfg & Hl & _ & _ & _ & _ & _ & (Hg & _) & _).
  rewrite Hg. assert (load_next = Ok next_config) as E by (vm_compute; reflexivity).
  rewrite Hl in E. injection E as ->. reflexivity.
Defined.

Lemma new_store_ok (cfg : CacheDefaults.CacheDefaults) :
  as_usize (CacheDefaults.max_memory cfg) < USIZE_MAX →
  shape (new_store cfg) ∧ ∃ p, books (new_store cfg) p.
Proof. intros H. destruct (Winv_boot cfg H) as (Hs & Hb & _). split; [exact Hs|by eexists]. Qed.

Lemma rollover_empties_cache_witness :
  ∃ st', store _ reloaded.2 = Some st' ∧ cached st' = ∅.
Proof.
  destruct (new_store_ok (Config.cache sample_config)) as [Hs [p Hb]]; [vm_compute; reflexivity|].
  pose proof reloaded_ok as E.
  pose proof (rollover_empties_cache sample_matching load_next running _ 2 _ p E eq_refl Hs Hb) as H.
  cbv zeta in H.
  destruct (decide _) as [Hid|_] in H.
  { assert (Some "build-8" = Some "build-7") as Hne by exact Hid. discriminate Hne. }
  destruct H as (st' & H1 & H2 & _). exists st'. split; [exact H1|exact H2].
Defined.

Lemma loaded_routes_are_served_witness :
  let '(l, (c, h)) := limiter_for sample_matching (policy _ reloaded.2) "products"
                        (admission _ reloaded.2) (limiters _ reloaded.2) in
  ∃ h', admit_request 0 PublicDocument l Low 3 c h
        = Decided (AdmittedWith [(0%nat, 3); (3%nat, 3); (4%nat, 3)]) h'.
Proof.
  pose proof reloaded_ok as E.
  destruct (limiter_for _ _ _ _ _) as [l [c h]] eqn:El.
  destruct (loaded_routes_are_served sample_platform sample_files sample_matching "next.yaml"
    running reloaded.2 2 public_route 0 PublicDocument l c h sample_typed running_reachable E)
    as (_ & h' & H); [vm_compute; left|reflexivity|exact El|].
  exists h'. assert ((λ x, ceilings x.2.1 x.1 Low) (l, (c, h)) = [4%nat; 3%nat; 0%nat]) as Hc
    by (rewrite <-El; vm_compute; reflexivity).
  cbn in Hc. change (Route.priority public_route) with Low in H. rewrite Hc in H. exact H.
Defined.

(** The reload above also moved [origin.resolve_interval] from zero to thirty
    seconds.  It is accepted, although the resolver is started, or not, once
    with the process. *)
Lemma resolve_interval_reloads_silently :
  reloaded.1 = Ok 2 ∧
  changed (λ c, Origin.resolve_interval (Config.origin c)) next_config sample_config = true.
Proof. split; [exact (f_equal fst reloaded_ok)|reflexivity]. Qed.
