(* ===== verification/Window.v ===== *)
(** * A ratio over a sliding window ([src/src/upstream/window.rs])

    A ring of ten buckets, each labelled with the slice of time it counts.  A
    method is one step here: the source's updates are atomic per counter, and
    two threads either side of a rollover may place one observation in the
    neighbouring bucket, which its documentation accepts.  The theorem at the
    end says what the ring computes: the events of the last ten slices. *)

From S2P Require Import Prelude Words Units.
Local Open Scope list_scope.
Local Open Scope N_scope.

Definition BUCKETS : N := 10.

(** [Duration] to milliseconds, saturating. *)
Definition millis (d : Duration) : N := clamp U64_MAX (as_millis d).

Record Bucket := mkBucket { epoch : N; total : N; flagged : N }.
Record RollingRatio := mkRatio { bucket_ms : N; buckets : list Bucket }.

Definition new (window : Duration) : RollingRatio :=
  mkRatio (N.max (millis window / BUCKETS) 1) (replicate (N.to_nat BUCKETS) (mkBucket 0 0 0)).

(** The bucket for [now_ms], cleared first if it holds another slice. *)
Definition current (now_ms : N) (w : RollingRatio) : option (nat * Bucket) :=
  let e := now_ms / bucket_ms w in
  let i := N.to_nat (e mod BUCKETS) in
  b ← buckets w !! i;
  Some (i, if negb (epoch b =? e) then mkBucket e 0 0 else b).

Definition set_bucket (i : nat) (b : Bucket) (w : RollingRatio) : RollingRatio :=
  mkRatio (bucket_ms w) (<[i := b]> (buckets w)).

Definition record (now_ms : N) (is_flagged : bool) (w : RollingRatio) : RollingRatio :=
  match current now_ms w with
  | None => w
  | Some (i, b) =>
      set_bucket i (mkBucket (epoch b) (wrapping_add32 (total b) 1)
        (if is_flagged then wrapping_add32 (flagged b) 1 else flagged b)) w
  end.

(** [e >= oldest && e <= epoch]. *)
Definition in_window (now_ms : N) (w : RollingRatio) (b : Bucket) : bool :=
  let e := now_ms / bucket_ms w in
  let oldest := saturating_sub e (BUCKETS - 1) in
  (oldest <=? epoch b) && (epoch b <=? e).

Definition totals (now_ms : N) (w : RollingRatio) : N * N :=
  foldl (λ acc b,
    if in_window now_ms w b then (acc.1 + total b, acc.2 + flagged b) else acc)
    (0, 0) (buckets w).

Definition flag (now_ms : N) (w : RollingRatio) : N * RollingRatio :=
  match current now_ms w with
  | None => (U64_MAX, w)
  | Some (i, b) =>
      let w := set_bucket i (mkBucket (epoch b) (total b) (wrapping_add32 (flagged b) 1)) w in
      ((totals now_ms w).2, w)
  end.

Definition unflag (now_ms : N) (w : RollingRatio) : RollingRatio :=
  match current now_ms w with
  | None => w
  | Some (i, b) =>
      set_bucket i (mkBucket (epoch b) (total b) (saturating_sub (flagged b) 1)) w
  end.

Definition reset (w : RollingRatio) : RollingRatio :=
  mkRatio (bucket_ms w) ((λ _, mkBucket 0 0 0) <$> buckets w).

(** ** What it stands for: how many events each slice of time saw *)

Definition History : Type := N → N * N.

Definition no_history : History := λ _, (0, 0).

Definition upd (e : N) (f : N * N → N * N) (h : History) : History :=
  λ k, if decide (k = e) then f (h k) else h k.

(** The sum over the last ten slices, the present one included. *)
Definition last_slices (e : N) : list N :=
  (λ d, e - N.of_nat d) <$> filter (λ d, N.of_nat d <= e) (seq 0 10).

Definition window_sum (h : History) (e : N) : N * N :=
  (sum_N ((λ k, (h k).1) <$> last_slices e), sum_N ((λ k, (h k).2) <$> last_slices e)).

#[local] Ltac Zify.zify_post_hook ::= Z.to_euclidean_division_equations.

(** One bucket against the history: it holds the counts of its own slice, and
    the later slices that share its slot saw nothing. *)
Definition bucket_ok (h : History) (cur : N) (i : nat) (b : Bucket) : Prop :=
  epoch b <= cur ∧
  (epoch b mod 10 = N.of_nat i ∧ h (epoch b) = (total b, flagged b)
   ∨ N.of_nat i ≠ 0 ∧ epoch b = 0 ∧ total b = 0 ∧ flagged b = 0) ∧
  ∀ k, k mod 10 = N.of_nat i → epoch b < k → h k = (0, 0).

(** The ring stands for the history [h], the last operation having been in slice
    [cur]. *)
Definition stands_for (w : RollingRatio) (h : History) (cur : N) : Prop :=
  bucket_ms w ≠ 0 ∧ length (buckets w) = 10%nat ∧
  ∀ i b, buckets w !! i = Some b → bucket_ok h cur i b.

Definition contribution (f : Bucket → N) (now : N) (w : RollingRatio) (b : Bucket) : N :=
  if in_window now w b then f b else 0.

Lemma totals_sum now w :
  totals now w = (sum_N (contribution total now w <$> buckets w),
                  sum_N (contribution flagged now w <$> buckets w)).
Proof.
  unfold totals, contribution.
  assert (∀ l a c, foldl (λ acc b, if in_window now w b
      then (acc.1 + total b, acc.2 + flagged b) else acc) (a, c) l =
    (a + sum_N ((λ b, if in_window now w b then total b else 0) <$> l),
     c + sum_N ((λ b, if in_window now w b then flagged b else 0) <$> l))) as H.
  { induction l as [|b l IH]; intros a c; cbn [foldl fmap list_fmap sum_N foldr].
    - by rewrite !N.add_0_r.
    - destruct (in_window now w b); cbn [fst snd]; rewrite IH; f_equal; unfold sum_N; lia. }
  by rewrite H.
Qed.

Lemma slot_of (e d i k : N) :
  d < 10 → i = (e + 10 - d) mod 10 →
  (d <= e → (e - d) mod 10 = i) ∧ (k mod 10 = i → k <= e → e - (10 - 1) <= k → d <= e ∧ k = e - d)
  ∧ (¬ d <= e → k mod 10 = i → e < k).
Proof.
  intros Hd Hi. split; [|split].
  - intros Hde. lia.
  - intros Hk Hle Hge. assert (d <= e) by lia. split; [done|]. lia.
  - intros Hde Hk. lia.
Qed.

(** What the slot of slice [e - d] contributes. *)
Lemma slot_contribution (f : Bucket → N) (g : N * N → N) h cur now w (d i : nat) b :
  (∀ b, g (total b, flagged b) = f b) → g (0, 0) = 0 →
  stands_for w h cur → cur <= now / bucket_ms w →
  let e := now / bucket_ms w in
  (d < 10)%nat → N.of_nat i = (e + 10 - N.of_nat d) mod 10 → buckets w !! i = Some b →
  contribution f now w b = if decide (N.of_nat d <= e) then g (h (e - N.of_nat d)) else 0.
Proof.
  intros Hg Hg0 (Hms & _ & Hb) Hcur e Hd Hi Hib.
  destruct (Hb i b Hib) as (Hle & Hcase & Hlater).
  unfold contribution, in_window, BUCKETS, saturating_sub. fold e in Hcur |- *. clearbody e.
  destruct (slot_of e (N.of_nat d) (N.of_nat i) (epoch b)) as (H1 & H2 & H3); [lia|done|].
  assert (total b = 0 → flagged b = 0 → f b = 0) as Hzero.
  { intros Ht Hf. by rewrite <-Hg, Ht, Hf. }
  destruct Hcase as [[Hmod Hcounts]|(Hi0 & H0 & Ht & Hf)].
  - rewrite (proj2 (N.leb_le (epoch b) e)) by lia. rewrite andb_true_r.
    destruct (N.leb_spec (e - (10 - 1)) (epoch b)) as [Hin|Hout].
    + destruct (H2 Hmod ltac:(lia) Hin) as [Hde Heq]. rewrite decide_True by done.
      by rewrite <-Heq, Hcounts, Hg.
    + case_decide as Hde; [|done]. rewrite Hlater; [done|by apply H1|lia].
  - transitivity 0; [destruct (_ && _); auto|]. case_decide as Hde; [|done].
    rewrite Hlater; [done|by apply H1|]. specialize (H1 Hde). rewrite H0.
    destruct (decide (e - N.of_nat d = 0)) as [Hz|Hz]; [|lia].
    rewrite Hz in H1. change (0 mod 10) with 0 in H1. lia.
Qed.

Lemma sum_slots (l : list N) (c : nat → N) (r : nat) :
  length l = 10%nat → (r < 10)%nat →
  (∀ d i x, (d < 10)%nat → i = ((r + 10 - d) mod 10)%nat → l !! i = Some x → x = c d) →
  sum_N l = sum_N (c <$> seq 0 10).
Proof.
  intros Hl Hr Hc. do 10 (destruct l as [|? l]; [done|]). destruct l; [|done].
  assert (∀ d, (d < 10)%nat → c d = default 0 ([n; n0; n1; n2; n3; n4; n5; n6; n7; n8] !! ((r + 10 - d) mod 10)%nat)) as H.
  { intros d Hd. destruct (_ !! ((r + 10 - d) mod 10)%nat) eqn:E; [by apply (Hc d) in E|].
    apply lookup_ge_None in E. simpl in E. pose proof (Nat.mod_upper_bound (r + 10 - d) 10). lia. }
  cbn [seq fmap list_fmap sum_N foldr]. rewrite !H by lia. unfold sum_N.
  do 10 (destruct r as [|r]; [cbn; lia|]). lia.
Qed.

Lemma sum_filter (c : nat → N) (P : nat → Prop) `{!∀ d, Decision (P d)} (l : list nat) :
  sum_N (c <$> filter P l) = sum_N ((λ d, if decide (P d) then c d else 0) <$> l).
Proof.
  induction l as [|d l IH]; [done|]. rewrite filter_cons, (fmap_cons _ d l).
  destruct (decide (P d)); rewrite ?fmap_cons; unfold sum_N in *; cbn [foldr]; by rewrite IH.
Qed.

Lemma totals_stand_for now w h cur :
  stands_for w h cur → cur <= now / bucket_ms w →
  totals now w = window_sum h (now / bucket_ms w).
Proof.
  intros Hs Hcur. rewrite totals_sum. unfold window_sum, last_slices.
  pose proof Hs as (Hms & Hl & _).
  assert (∀ (f : Bucket → N) (g : N * N → N), (∀ b, g (total b, flagged b) = f b) → g (0, 0) = 0 →
    sum_N (contribution f now w <$> buckets w) =
    sum_N ((λ k, g (h k)) <$> ((λ d, now / bucket_ms w - N.of_nat d)
      <$> filter (λ d, N.of_nat d <= now / bucket_ms w) (seq 0 10)))) as H.
  { intros f g Hg Hg0. rewrite <-list_fmap_compose, sum_filter.
    apply (sum_slots _ _ (N.to_nat ((now / bucket_ms w) mod 10))).
    - by rewrite length_fmap.
    - generalize (now / bucket_ms w). intros e. lia.
    - intros d i x Hd Hi Hx. rewrite list_lookup_fmap in Hx.
      destruct (buckets w !! i) as [b|] eqn:Eb; [|done]. injection Hx as <-.
      rewrite (slot_contribution f g h cur now w d i b); try done.
      rewrite Hi, Nat2N.inj_mod. generalize (now / bucket_ms w). intros e.
      replace (N.of_nat (N.to_nat (e mod 10) + 10 - d)) with (e mod 10 + 10 - N.of_nat d) by lia.
      change (N.of_nat 10) with 10. lia. }
  f_equal; [by apply (H total fst)|by apply (H flagged snd)].
Qed.

(** ** Every operation is the same operation on the history *)

Lemma current_spec now w h cur :
  stands_for w h cur → cur <= now / bucket_ms w →
  let e := now / bucket_ms w in
  current now w = Some (N.to_nat (e mod 10), mkBucket e (h e).1 (h e).2).
Proof.
  intros (Hms & Hl & Hb) Hcur. unfold current, BUCKETS. cbv zeta.
  set (e := now / bucket_ms w) in *. clearbody e.
  assert (N.to_nat (e mod 10) < 10)%nat as Hi by lia.
  destruct (buckets w !! N.to_nat (e mod 10)) as [b|] eqn:Eb.
  2: { apply lookup_ge_None in Eb. lia. }
  destruct (Hb _ _ Eb) as (Hle & Hcase & Hlater). simpl. do 2 f_equal.
  destruct (N.eqb_spec (epoch b) e) as [He|He]; simpl.
  - destruct Hcase as [[_ Hc]|(Hi0 & H0 & Ht & Hf)].
    + rewrite He in Hc. rewrite Hc. simpl. rewrite <-He. by destruct b.
    + subst e. rewrite H0 in Hi0. change (0 mod 10) with 0 in Hi0. lia.
  - rewrite Hlater; [done|lia|lia].
Qed.

Lemma set_bucket_spec w h cur e t f :
  stands_for w h cur → cur <= e →
  stands_for (set_bucket (N.to_nat (e mod 10)) (mkBucket e t f) w) (upd e (λ _, (t, f)) h) e.
Proof.
  intros (Hms & Hl & Hb) Hcur. split; [done|]. split; [simpl; by rewrite length_insert|].
  intros i b Hi. simpl in Hi. apply list_lookup_insert_Some in Hi as [(<- & <- & Hlt)|[Hne Hi]].
  - unfold bucket_ok, upd; simpl. split; [lia|]. split.
    + left. split; [lia|]. by rewrite decide_True.
    + intros k Hk Hlt'. rewrite decide_False by lia.
      destruct (buckets w !! N.to_nat (e mod 10)) as [b|] eqn:Eb.
      2: { apply lookup_ge_None in Eb. lia. }
      destruct (Hb _ _ Eb) as (Hle & _ & Hlater). apply Hlater; [done|lia].
  - destruct (Hb _ _ Hi) as (Hle & Hcase & Hlater). unfold bucket_ok, upd. split; [lia|]. split.
    + destruct Hcase as [[Hmod Hc]|Hs]; [|by right]. left. split; [done|].
      rewrite decide_False; [done|]. intros Heq. apply Hne. rewrite <-Heq. lia.
    + intros k Hk Hlt. rewrite decide_False; [by apply Hlater|]. intros ->. apply Hne. lia.
Qed.

(** The operations on a history: 32-bit counters, one slice at a time. *)
Inductive Op := ORecord (is_flagged : bool) | OFlag | OUnflag | OReset.

Definition apply_op (o : Op) (c : N * N) : N * N :=
  match o with
  | ORecord is_flagged =>
      (wrapping_add32 c.1 1, if is_flagged then wrapping_add32 c.2 1 else c.2)
  | OFlag => (c.1, wrapping_add32 c.2 1)
  | OUnflag => (c.1, saturating_sub c.2 1)
  | OReset => c
  end.

Definition run_history (e : N) (o : Op) (h : History) : History :=
  match o with OReset => no_history | _ => upd e (apply_op o) h end.

Definition run_op (now : N) (o : Op) (w : RollingRatio) : RollingRatio :=
  match o with
  | ORecord is_flagged => record now is_flagged w
  | OFlag => (flag now w).2
  | OUnflag => unflag now w
  | OReset => reset w
  end.

Lemma upd_eq e f g (h : History) : f (h e) = g (h e) → ∀ k, upd e f h k = upd e g h k.
Proof. intros H k. unfold upd. case_decide; congruence. Qed.

Lemma stands_for_ext w h h' cur :
  (∀ k, h k = h' k) → stands_for w h cur → stands_for w h' cur.
Proof.
  intros He (H1 & H2 & H3). split; [done|]. split; [done|]. intros i b Hi.
  destruct (H3 i b Hi) as (Ha & Hc & Hl). split; [done|]. rewrite <-He. split; [done|].
  intros k Hk Hlt. rewrite <-He. by apply Hl.
Qed.

Lemma bucket_ms_op now o w : bucket_ms (run_op now o w) = bucket_ms w.
Proof.
  destruct o; simpl; unfold record, flag, unflag; try done;
    by destruct (current now w) as [[]|].
Qed.

Lemma stands_for_empty ms n : ms ≠ 0 → stands_for (mkRatio ms (replicate 10 (mkBucket 0 0 0))) no_history n.
Proof.
  intros Hms. split; [done|]. split; [done|]. intros i b Hi.
  apply lookup_replicate in Hi as [-> Hlt]. unfold bucket_ok. cbn [epoch total flagged].
  split; [lia|]. split; [|done].
  destruct i; [left|right]; [by split|]. split; [lia|done].
Qed.

Lemma stands_for_new window : stands_for (new window) no_history 0.
Proof. apply stands_for_empty. lia. Qed.

Lemma run_op_stands_for now o w h cur :
  stands_for w h cur → cur <= now / bucket_ms w →
  stands_for (run_op now o w) (run_history (now / bucket_ms w) o h) (now / bucket_ms w).
Proof.
  intros Hs Hcur. pose proof (current_spec now w h cur Hs Hcur) as Hc. cbv zeta in Hc.
  assert (∀ t f o', o' ≠ OReset → (t, f) = apply_op o' (h (now / bucket_ms w)) →
    stands_for (set_bucket (N.to_nat ((now / bucket_ms w) mod 10)) (mkBucket (now / bucket_ms w) t f) w)
      (run_history (now / bucket_ms w) o' h) (now / bucket_ms w)) as Hset.
  { intros t f o' Hne Heq. eapply stands_for_ext; [|by eapply set_bucket_spec].
    intros k. destruct o'; try done; by apply upd_eq. }
  destruct o; simpl run_op; unfold record, flag, unflag; rewrite ?Hc; cbn [epoch total flagged snd].
  - apply (Hset _ _ (ORecord is_flagged)); done.
  - apply (Hset _ _ OFlag); done.
  - apply (Hset _ _ OUnflag); done.
  - destruct Hs as (Hms & Hl & _). unfold reset.
    assert ((λ _ : Bucket, mkBucket 0 0 0) <$> buckets w = replicate 10 (mkBucket 0 0 0)) as ->.
    { rewrite <-Hl. clear. induction (buckets w) as [|b l IH]; [done|]. simpl. by rewrite <-IH. }
    by apply stands_for_empty.
Qed.

(** ** Counting a log

    Clients state what they guarantee in terms of a log of timed events, latest
    first. *)

Definition count_events {E} (P : N * E → Prop) `{!∀ x, Decision (P x)} (log : list (N * E)) : N :=
  N.of_nat (length (filter P log)).

Lemma count_cons {E} (P : N * E → Prop) `{!∀ x, Decision (P x)} (te : N * E) (log : list (N * E)) :
  count_events P (te :: log) = (if decide (P te) then 1 else 0) + count_events P log.
Proof. unfold count_events. rewrite filter_cons. case_decide; simpl length; lia. Qed.

Lemma count_le {E} (P : N * E → Prop) `{!∀ x, Decision (P x)} (log : list (N * E)) :
  count_events P log <= N.of_nat (length log).
Proof. unfold count_events. pose proof (length_filter P log). lia. Qed.

Lemma wrapping_add32_small a : a + 1 < 4294967296 → wrapping_add32 a 1 = a + 1.
Proof. intros H. unfold wrapping_add32. by apply N.mod_small. Qed.

(** Counting one more in the present slice adds one to the window's sum. *)
Lemma window_sum_upd e f (h : History) :
  window_sum (upd e f h) e =
  ((window_sum h e).1 - (h e).1 + (f (h e)).1, (window_sum h e).2 - (h e).2 + (f (h e)).2).
Proof.
  assert (last_slices e = e :: ((λ d, e - N.of_nat d) <$> filter (λ d, N.of_nat d <= e) (seq 1 9))) as Hl.
  { unfold last_slices. change (seq 0 10) with (0%nat :: seq 1 9).
    rewrite filter_cons_True by lia. rewrite fmap_cons. f_equal. lia. }
  assert (∀ d, d ∈ filter (λ d, N.of_nat d <= e) (seq 1 9) → upd e f h (e - N.of_nat d) = h (e - N.of_nat d)) as Hrest.
  { intros d Hd. apply list_elem_of_filter in Hd as [Hle Hin]. apply elem_of_seq in Hin.
    unfold upd. rewrite decide_False by lia. done. }
  set (L := filter (λ d, N.of_nat d <= e) (seq 1 9)) in *.
  assert (∀ g : N * N → N, (λ k, g (upd e f h k)) <$> ((λ d, e - N.of_nat d) <$> L)
            = (λ k, g (h k)) <$> ((λ d, e - N.of_nat d) <$> L)) as Hsame.
  { intros g. rewrite <-!list_fmap_compose. apply list_fmap_ext. intros i d Hd. simpl.
    rewrite Hrest; [done|]. by eapply list_elem_of_lookup_2. }
  unfold window_sum. rewrite Hl, !fmap_cons, (Hsame fst), (Hsame snd).
  unfold sum_N. cbn [foldr fst snd]. unfold upd. rewrite decide_True by done. f_equal; lia.
Qed.

(** The slice's own count is part of the window's. *)
Lemma window_sum_present (h : History) e :
  (h e).1 <= (window_sum h e).1 ∧ (h e).2 <= (window_sum h e).2.
Proof.
  assert (e ∈ last_slices e) as Hin.
  { unfold last_slices. apply list_elem_of_fmap. exists 0%nat. split; [lia|].
    apply list_elem_of_filter. split; [lia|]. apply elem_of_seq. lia. }
  split; apply sum_N_elem, list_elem_of_fmap; by exists e.
Qed.

Lemma stands_for_later w h cur cur' : stands_for w h cur → cur <= cur' → stands_for w h cur'.
Proof.
  intros (H1 & H2 & H3) Hle. split; [done|]. split; [done|]. intros i b Hi.
  destruct (H3 i b Hi) as (Ha & Hr). split; [lia|done].
Qed.

(** No slice of time sees so many events that a 32-bit counter wraps. *)
Definition fits32 (h : History) : Prop := ∀ k, (h k).1 + 1 < 4294967296 ∧ (h k).2 + 1 < 4294967296.

(** ** The window, over a whole run *)

Definition run_ops (w : RollingRatio) (ops : list (N * Op)) : RollingRatio :=
  foldl (λ w to, run_op to.1 to.2 w) w ops.

Definition history (ms : N) (ops : list (N * Op)) : History :=
  foldl (λ h to, run_history (to.1 / ms) to.2 h) no_history ops.

(** Time does not go backwards. *)
Fixpoint in_order (from : N) (ops : list (N * Op)) (now : N) : Prop :=
  match ops with
  | [] => from <= now
  | (t, _) :: ops => from <= t ∧ in_order t ops now
  end.

Lemma run_ops_stand_for w h from ops now :
  stands_for w h (from / bucket_ms w) → in_order from ops now →
  bucket_ms (run_ops w ops) = bucket_ms w ∧
  ∃ last, last <= now ∧
    stands_for (run_ops w ops) (foldl (λ h to, run_history (to.1 / bucket_ms w) to.2 h) h ops)
      (last / bucket_ms w).
Proof.
  revert w h from. induction ops as [|[t o] ops IH]; intros w h from Hs Ho; simpl in *.
  - split; [done|]. by exists from.
  - destruct Ho as [Hle Ho]. assert (from / bucket_ms w <= t / bucket_ms w) as Hdiv.
    { destruct Hs as (Hms & _). by apply N.Div0.div_le_mono. }
    pose proof (run_op_stands_for t o w h _ Hs Hdiv) as Hs'.
    assert (stands_for (run_op t o w) (run_history (t / bucket_ms w) o h)
              (t / bucket_ms (run_op t o w))) as Hs2 by by rewrite bucket_ms_op.
    destruct (IH _ _ _ Hs2 Ho) as [Hms Hlast]. rewrite bucket_ms_op in *. by split.
Qed.

(** The ring counts what the window saw: after any operations in time order,
    the totals at [now] are the sums, over the present slice of time and the
    nine before it, of what the operations counted in those slices since the
    last reset, and nothing older, however the ring wrapped around. *)
Theorem window_counts_exact window ops now :
  in_order 0 ops now →
  let w := new window in
  totals now (run_ops w ops) = window_sum (history (bucket_ms w) ops) (now / bucket_ms w).
Proof.
  intros Ho. cbv zeta. set (w := new window).
  pose proof (stands_for_new window) as Hs.
  assert (0 = 0 / bucket_ms w) as H0 by (symmetry; apply N.Div0.div_0_l).
  rewrite H0 in Hs.
  destruct (run_ops_stand_for w _ 0 ops now Hs Ho) as (Hms & last & Hle & Hlast).
  rewrite <-Hms. erewrite (totals_stand_for now); [|exact Hlast|].
  - by rewrite Hms.
  - rewrite Hms. by apply N.Div0.div_le_mono.
Qed.

(** ** Witness *)

Lemma window_counts_exact_witness :
  totals 1950 (run_ops (new (from_secs 1))
    [(0, ORecord true); (990, ORecord false); (1010, ORecord true); (1500, OFlag)]) = (1, 2).
Proof.
  rewrite (window_counts_exact (from_secs 1)); [vm_compute; reflexivity|].
  vm_compute. repeat split; discriminate.
Defined.
