(* ===== verification/Retries.v ===== *)
(** * Bounded retries ([src/src/upstream/retry.rs])

    Which requests may be sent twice, and the origin-wide budget.  [charge] is
    one step: it flags, reads the allowance and gives the flag back when it does
    not fit.  The theorem gives the budget's answer in terms of the log of what
    happened, not of the ring that counts it. *)

From S2P Require Import Prelude Words Units Schema Classifier Window.
Local Open Scope string_scope.
Local Open Scope list_scope.
Local Open Scope N_scope.

Inductive RetryDecision := Allowed | Ineligible | AttemptsExhausted | BudgetExhausted.
#[export] Instance RetryDecision_eq_dec : EqDecision RetryDecision.
Proof. solve_decision. Defined.

Definition decision_as_str (d : RetryDecision) : string :=
  match d with
  | Allowed => "allowed"
  | Ineligible => "ineligible"
  | AttemptsExhausted => "attempts_exhausted"
  | BudgetExhausted => "budget_exhausted"
  end.

Definition allowed (d : RetryDecision) : bool := bool_decide (d = Allowed).

Definition eligible (method : Method) (class : RequestClass) : bool :=
  match method with GET | HEAD | OPTIONS | TRACE => true | _ => false end &&
  match class with Mutation | Streaming | Upgrade => false | _ => true end.

Record RetryBudget := mkBudget {
  enabled : bool;
  max_attempts : N;
  percent : N;
  minimum : N;
  window : RollingRatio }.

Definition new_budget (cfg : Retry.Retry) : RetryBudget :=
  mkBudget (Retry.enabled cfg) (Retry.max_attempts cfg) (Retry.budget_percent cfg)
    (clamp U64_MAX (Retry.budget_min cfg)) (Window.new (as_duration (Retry.window cfg))).

Definition with_window (w : RollingRatio) (b : RetryBudget) : RetryBudget :=
  mkBudget (enabled b) (max_attempts b) (percent b) (minimum b) w.

Definition record_attempt (now_ms : N) (b : RetryBudget) : RetryBudget :=
  if enabled b then with_window (record now_ms false (window b)) b else b.

Definition allowance (now_ms : N) (b : RetryBudget) : N :=
  let '(total, _) := totals now_ms (window b) in
  N.max (saturating_mul total (percent b) / 100) (minimum b).

Definition charge (now_ms attempts_used : N) (b : RetryBudget) : RetryDecision * RetryBudget :=
  if negb (enabled b) then (Ineligible, b)
  else if max_attempts b <=? attempts_used then (AttemptsExhausted, b)
  else
    let '(spent, w) := flag now_ms (window b) in
    let b := with_window w b in
    if allowance now_ms b <? spent then (BudgetExhausted, with_window (unflag now_ms w) b)
    else (Allowed, b).

Definition retry_counts (now_ms : N) (b : RetryBudget) : N * N := totals now_ms (window b).

(** ** The log *)

(** What happened, latest first: an origin request sent, or a retry granted. *)
Inductive Event := Sent | Granted.
#[export] Instance Event_eq_dec : EqDecision Event.
Proof. solve_decision. Defined.
Abbreviation Log := (list (N * Event)).

(** How many of each kind a slice of time saw. *)
Definition tally (ms : N) (log : Log) : History := λ k,
  (count_events (λ te, te.1 / ms = k ∧ te.2 = Sent) log,
   count_events (λ te, te.1 / ms = k ∧ te.2 = Granted) log).

(** A budget in use since it was made, time never going backwards. *)
Inductive in_use (b0 : RetryBudget) : RetryBudget → Log → N → Prop :=
| use_new : in_use b0 b0 [] 0
| use_attempt b log last now :
    in_use b0 b log last → last <= now →
    in_use b0 (record_attempt now b) ((now, Sent) :: log) now
| use_charge b log last now used d b' :
    in_use b0 b log last → last <= now → charge now used b = (d, b') →
    in_use b0 b' (if decide (d = Allowed) then (now, Granted) :: log else log) now.

(** ** The ring and the log agree *)

Lemma tally_sent ms t log k :
  tally ms ((t, Sent) :: log) k = upd (t / ms) (λ c, (c.1 + 1, c.2)) (tally ms log) k.
Proof.
  unfold tally, upd. rewrite !count_cons. simpl.
  case_decide as H1; case_decide as H2; case_decide as H3; simpl; naive_solver (f_equal; lia).
Qed.

Lemma tally_granted ms t log k :
  tally ms ((t, Granted) :: log) k = upd (t / ms) (λ c, (c.1, c.2 + 1)) (tally ms log) k.
Proof.
  unfold tally, upd. rewrite !count_cons. simpl.
  case_decide as H1; case_decide as H2; case_decide as H3; simpl; naive_solver (f_equal; lia).
Qed.

Definition settings (b : RetryBudget) := (enabled b, max_attempts b, percent b, minimum b).

(** The state of a budget in use, against its log. *)
Definition agrees (b0 b : RetryBudget) (log : Log) (last : N) : Prop :=
  settings b = settings b0 ∧ bucket_ms (window b) = bucket_ms (window b0) ∧
  (enabled b = true →
   stands_for (window b) (tally (bucket_ms (window b0)) log) (last / bucket_ms (window b0))).

(** What [charge] reads, and what it leaves. *)
Lemma charge_spec b h cur now used :
  enabled b = true → stands_for (window b) h cur → cur <= now / bucket_ms (window b) →
  (h (now / bucket_ms (window b))).2 + 1 < 4294967296 →
  let e := now / bucket_ms (window b) in
  let '(sent, granted) := window_sum h e in
  let fits := granted + 1 <=? N.max (saturating_mul sent (percent b) / 100) (minimum b) in
  let '(d, b') := charge now used b in
  settings b' = settings b ∧ bucket_ms (window b') = bucket_ms (window b) ∧
  d = (if max_attempts b <=? used then AttemptsExhausted
       else if fits then Allowed else BudgetExhausted) ∧
  stands_for (window b')
    (if decide (d = Allowed) then upd e (λ c, (c.1, c.2 + 1)) h else h) e.
Proof.
  intros He Hs Hcur Hsmall. cbv zeta. set (e := now / bucket_ms (window b)) in *.
  destruct (window_sum h e) as [sent granted] eqn:Ews.
  unfold charge. rewrite He. cbn [negb].
  destruct (max_attempts b <=? used) eqn:Eused.
  { split; [done|]. split; [done|]. split; [done|]. rewrite decide_False by done.
    by eapply stands_for_later. }
  pose proof (run_op_stands_for now OFlag (window b) h cur Hs Hcur) as Hf.
  pose proof (bucket_ms_op now OFlag (window b)) as Hms. simpl in Hf, Hms. fold e in Hf.
  assert (∀ k, upd e (apply_op OFlag) h k = upd e (λ c, (c.1, c.2 + 1)) h k) as Hup.
  { apply upd_eq. simpl. by rewrite wrapping_add32_small. }
  assert ((flag now (window b)).1 = granted + 1 ∧
          (totals now (flag now (window b)).2).1 = sent) as [Hspent Htotal].
  { assert ((flag now (window b)).1 = (totals now (flag now (window b)).2).2) as ->.
    { unfold flag. pose proof (current_spec now _ _ _ Hs Hcur) as Hc. cbv zeta in Hc. by rewrite Hc. }
    rewrite (totals_stand_for now _ _ _ Hf) by (rewrite Hms; done). rewrite Hms. fold e.
    pose proof (window_sum_present h e) as [H1 H2]. rewrite window_sum_upd, Ews in *. simpl in *.
    rewrite wrapping_add32_small by done. lia. }
  destruct (flag now (window b)) as [spent w] eqn:Efl. simpl in Hf, Hms, Hspent, Htotal. subst spent.
  unfold allowance. cbn [window with_window percent minimum].
  destruct (totals now w) as [sent' f']. simpl in Htotal. subst sent'.
  rewrite N.leb_antisym.
  destruct (N.ltb_spec (N.max (saturating_mul sent (percent b) / 100) (minimum b)) (granted + 1)) as [Hlt|Hge];
    cbn [negb fst snd window].
  - split; [done|]. split; [pose proof (bucket_ms_op now OUnflag w); simpl in *; congruence|].
    split; [done|]. rewrite decide_False by done.
    assert (e <= now / bucket_ms w) as Hcur' by (rewrite Hms; done).
    pose proof (run_op_stands_for now OUnflag w _ e Hf Hcur') as Hu. simpl in Hu.
    rewrite Hms in Hu. fold e in Hu. eapply stands_for_ext; [|exact Hu].
    intros k. unfold upd. case_decide as Hk; [|done]. subst k. simpl.
    rewrite wrapping_add32_small by done. unfold saturating_sub.
    replace ((h e).2 + 1 - 1) with (h e).2 by lia. by destruct (h e).
  - split; [done|]. split; [done|]. split; [done|]. rewrite decide_True by done.
    eapply stands_for_ext; [exact Hup|exact Hf].
Qed.

Lemma fits32_tail ms te log : fits32 (tally ms (te :: log)) → fits32 (tally ms log).
Proof.
  intros H k. destruct (H k) as [H1 H2]. unfold tally in *. rewrite !count_cons in H1, H2. simpl in *.
  split; [clear -H1|clear -H2]; lia.
Qed.

Lemma agrees_inv cfg b log last :
  in_use (new_budget cfg) b log last →
  fits32 (tally (bucket_ms (window (new_budget cfg))) log) →
  agrees (new_budget cfg) b log last.
Proof.
  intros Hin. induction Hin as [|b log last now _ IH Hle|b log last now used d b' _ IH Hle Hc]; intros Hlen.
  - split; [done|]. split; [done|]. intros _. simpl.
    eapply stands_for_ext; [|eapply stands_for_later; [apply stands_for_new|apply N.le_0_l]]. done.
  - apply fits32_tail in Hlen. destruct (IH Hlen) as (Hset & Hms & Hs). unfold record_attempt.
    destruct (enabled b) eqn:He; [|by split; [|split; [|congruence]]].
    split; [done|]. cbn [window with_window].
    split; [pose proof (bucket_ms_op now (ORecord false) (window b)); simpl in *; congruence|].
    intros _. rewrite <-Hms in *. set (ms := bucket_ms (window b)) in *.
    assert (last / ms <= now / ms) as Hdiv.
    { apply N.Div0.div_le_mono. done. }
    pose proof (run_op_stands_for now (ORecord false) (window b) _ _ (Hs eq_refl) Hdiv) as Hr.
    simpl in Hr. fold ms in Hr. eapply stands_for_ext; [|exact Hr]. intros k. rewrite tally_sent.
    unfold upd. case_decide; [|done]. subst k. cbn [apply_op].
    by rewrite (wrapping_add32_small _ (proj1 (Hlen (now / ms)))).
  - assert (fits32 (tally (bucket_ms (window (new_budget cfg))) log)) as Hlen'.
    { destruct (decide (d = Allowed)); [by eapply fits32_tail|done]. }
    destruct (IH Hlen') as (Hset & Hms & Hs).
    destruct (enabled b) eqn:He.
    2: { unfold charge in Hc. rewrite He in Hc. injection Hc as <- <-. simpl. by split; [|split; [|congruence]]. }
    rewrite <-Hms in *. set (ms := bucket_ms (window b)) in *.
    assert (last / ms <= now / ms) as Hdiv by by apply N.Div0.div_le_mono.
    pose proof (proj2 (Hlen' (now / ms))) as Hsmall.
    pose proof (charge_spec b _ _ now used He (Hs eq_refl) Hdiv Hsmall) as Hsp.
    cbv zeta in Hsp. fold ms in Hsp. rewrite Hc in Hsp.
    destruct (window_sum _ _) as [sent granted]. destruct Hsp as (Hset' & Hms' & _ & Hs').
    split; [congruence|]. split; [congruence|]. rewrite <-Hms. intros _. case_decide; [|done].
    eapply stands_for_ext; [|exact Hs']. intros k. by rewrite tally_granted.
Qed.

Lemma in_use_ms cfg b log last :
  in_use (new_budget cfg) b log last → bucket_ms (window b) = bucket_ms (window (new_budget cfg)).
Proof.
  induction 1 as [|b log last now _ IH _|b log last now used d b' _ IH _ Hc]; [done|..]; rewrite <-IH.
  - unfold record_attempt. destruct (enabled b); [|done].
    apply (bucket_ms_op now (ORecord false) (window b)).
  - unfold charge in Hc. destruct (negb (enabled b)); [by injection Hc as _ <-|].
    destruct (_ <=? _); [by injection Hc as _ <-|].
    pose proof (bucket_ms_op now OFlag (window b)) as Hf. simpl in Hf.
    destruct (flag now (window b)) as [spent w]. simpl in Hf.
    destruct (_ <? _); injection Hc as _ <-; simpl; [|done].
    rewrite <-Hf. apply (bucket_ms_op now OUnflag w).
Qed.

(** The retry budget holds whatever the traffic.  A charge is allowed exactly
    when retries are on, the request has attempts left, and the retries granted
    in the window, this one included, stay within the configured share of the
    requests sent in it (or the configured minimum); a denied charge spends
    nothing. *)
Theorem charge_exact cfg b log last now used :
  in_use (new_budget cfg) b log last → last <= now → fits32 (tally (bucket_ms (window b)) log) →
  let e := now / bucket_ms (window b) in
  let '(sent, granted) := window_sum (tally (bucket_ms (window b)) log) e in
  (charge now used b).1 =
    if negb (Retry.enabled cfg) then Ineligible
    else if Retry.max_attempts cfg <=? used then AttemptsExhausted
    else if granted + 1 <=? N.max (saturating_mul sent (Retry.budget_percent cfg) / 100)
                              (clamp U64_MAX (Retry.budget_min cfg))
    then Allowed else BudgetExhausted.
Proof.
  intros Hin Hle Hlen. rewrite (in_use_ms _ _ _ _ Hin) in Hlen.
  destruct (agrees_inv _ _ _ _ Hin Hlen) as (Hset & Hms & Hs). cbv zeta.
  rewrite <-Hms in Hs. set (ms := bucket_ms (window b)) in *.
  injection Hset as He Hmax Hpct Hmin.
  destruct (window_sum _ _) as [sent granted] eqn:Ews. rewrite <-He, <-Hmax, <-Hpct, <-Hmin.
  destruct (enabled b) eqn:Eb; [|by unfold charge; rewrite Eb].
  rewrite <-Hms in Hlen. pose proof (proj2 (Hlen (now / ms))) as Hsmall.
  assert (last / ms <= now / ms) as Hdiv by by apply N.Div0.div_le_mono.
  pose proof (charge_spec b _ _ now used Eb (Hs eq_refl) Hdiv Hsmall) as Hsp.
  cbv zeta in Hsp. fold ms in Hsp. rewrite Ews in Hsp.
  destruct (charge now used b) as [d b']. by destruct Hsp as (_ & _ & -> & _).
Qed.

(** ** Witness *)

Definition sample_retry : Retry.Retry := Retry.mk true 2 d_10s 50 1.

Lemma charge_exact_witness :
  ∃ b log, in_use (new_budget sample_retry) b log 1500 ∧ length log = 3%nat
    ∧ (charge 2000 1 b).1 = BudgetExhausted.
Proof.
  set (b2 := record_attempt 1000 (record_attempt 500 (new_budget sample_retry))).
  exists (charge 1500 1 b2).2, [(1500, Granted); (1000, Sent); (500, Sent)].
  assert (in_use (new_budget sample_retry) (charge 1500 1 b2).2
            [(1500, Granted); (1000, Sent); (500, Sent)] 1500) as Hin.
  { apply (use_charge _ b2 [(1000, Sent); (500, Sent)] 1000 1500 1 Allowed);
      [|discriminate|vm_compute; reflexivity].
    apply (use_attempt _ (record_attempt 500 (new_budget sample_retry)) [(500, Sent)] 500);
      [|discriminate].
    apply (use_attempt _ (new_budget sample_retry) [] 0); [apply use_new|discriminate]. }
  split; [exact Hin|]. split; [reflexivity|].
  pose proof (charge_exact sample_retry _ _ 1500 2000 1 Hin) as H. cbv zeta in H.
  destruct (window_sum _ _) as [sent granted] eqn:E. rewrite H; [|discriminate|].
  2: { intros k. unfold tally. cbn [fst snd].
       split; (eapply N.le_lt_trans; [apply N.add_le_mono_r, count_le|]); vm_compute; reflexivity. }
  vm_compute in E. injection E as <- <-. vm_compute. reflexivity.
Defined.
