(* ===== verification/Breakers.v ===== *)
(** * Circuit breaking ([src/src/upstream/breaker.rs])

    One breaker per backend: closed, it watches the real traffic in a window and
    ejects the backend past a failure ratio; open, it lets one identified probe
    through per period, whose success alone closes it.  Each method is one step:
    the transitions are serialised by the probe lock and a compare-exchange. *)

From S2P Require Import Prelude Words Units Schema Window.
Local Open Scope string_scope.
Local Open Scope list_scope.
Local Open Scope N_scope.

Inductive BreakerState := Closed | Open.
#[export] Instance BreakerState_eq_dec : EqDecision BreakerState.
Proof. solve_decision. Defined.

Definition state_as_str (s : BreakerState) : string :=
  match s with Closed => "closed" | Open => "open" end.

(** A token is its number. *)
Abbreviation ProbeToken := N (only parsing).

Inductive BreakerAllowance := Denied | Normal | Probe (token : ProbeToken).
#[export] Instance BreakerAllowance_eq_dec : EqDecision BreakerAllowance.
Proof. solve_decision. Defined.

Record Breaker := mkBreaker {
  enabled : bool;
  min_requests : N;
  failure_percent : N;
  open_for_ms : N;
  window : RollingRatio;
  open_until_ms : N;
  next_probe : N;
  active_probe : N;
  trips : N }.

Definition new_breaker (cfg : Schema.Breaker.Breaker) : Breaker :=
  mkBreaker (Schema.Breaker.enabled cfg) (Schema.Breaker.min_requests cfg)
    (Schema.Breaker.failure_percent cfg) (millis (as_duration (Schema.Breaker.open_for cfg)))
    (Window.new (as_duration (Schema.Breaker.window cfg))) 0 0 0 0.

(** Field updates. *)
Definition with_window (w : RollingRatio) (b : Breaker) : Breaker :=
  mkBreaker (enabled b) (min_requests b) (failure_percent b) (open_for_ms b) w
    (open_until_ms b) (next_probe b) (active_probe b) (trips b).
Definition with_until (t : N) (b : Breaker) : Breaker :=
  mkBreaker (enabled b) (min_requests b) (failure_percent b) (open_for_ms b) (window b)
    t (next_probe b) (active_probe b) (trips b).
Definition with_probe (next active : N) (b : Breaker) : Breaker :=
  mkBreaker (enabled b) (min_requests b) (failure_percent b) (open_for_ms b) (window b)
    (open_until_ms b) next active (trips b).
Definition count_trip (b : Breaker) : Breaker :=
  mkBreaker (enabled b) (min_requests b) (failure_percent b) (open_for_ms b) (window b)
    (open_until_ms b) (next_probe b) (active_probe b) (wrapping_add (trips b) 1).

Definition counts (now_ms : N) (b : Breaker) : N * N :=
  let '(total, failed) := totals now_ms (window b) in
  (total - N.min failed total, failed).

Definition state (b : Breaker) : BreakerState :=
  if open_until_ms b =? 0 then Closed else Open.

(** Never zero, which means closed. *)
Definition deadline (now_ms : N) (b : Breaker) : N :=
  N.max (saturating_add now_ms (open_for_ms b)) 1.

Definition allowance (now_ms : N) (b : Breaker) : BreakerAllowance * Breaker :=
  if negb (enabled b) then (Normal, b)
  else if open_until_ms b =? 0 then (Normal, b)
  else if now_ms <? open_until_ms b then (Denied, b)
  else
    let b := with_until (deadline now_ms b) b in
    let token := wrapping_add (next_probe b) 1 in
    (Probe token, with_probe token token b).

Definition trip_if_over_threshold (now_ms : N) (b : Breaker) : Breaker :=
  let '(total, failed) := totals now_ms (window b) in
  if total <? min_requests b then b
  else if failed * 100 <? total * failure_percent b then b
  else if open_until_ms b =? 0 then
    with_window (reset (window b)) (count_trip (with_until (deadline now_ms b) b))
  else b.

Definition record_outcome (now_ms : N) (ok : bool) (b : Breaker) : Breaker :=
  if negb (enabled b) then b
  else if negb (open_until_ms b =? 0) then b
  else
    let b := with_window (record now_ms (negb ok) (window b)) b in
    if negb ok then trip_if_over_threshold now_ms b else b.

Definition record_probe (now_ms : N) (token : ProbeToken) (ok : bool) (b : Breaker) : Breaker :=
  if negb (enabled b) then b
  else if negb (active_probe b =? token) then b
  else
    let b := with_probe (next_probe b) 0 b in
    if ok then with_until 0 (with_window (reset (window b)) b)
    else with_until (deadline now_ms b) b.

(** ** Runs *)

(** The requests seen since the window was last forgotten, latest first, and
    whether each was served. *)
Abbreviation Outcomes := (list (N * bool)).

Definition tally (log : Outcomes) (ms : N) : History := λ k,
  (count_events (λ te, te.1 / ms = k) log, count_events (λ te, te.1 / ms = k ∧ te.2 = false) log).

Inductive Event :=
| Allow (a : BreakerAllowance)
| Outcome (ok : bool)
| ProbeResult (token : ProbeToken) (ok : bool).

(** One event at a time [now]; a probe's result carries a token that was handed
    out, and the tokens do not run out (there is at most one per period). *)
Inductive bstep (now : N) : Breaker → Event → Breaker → Prop :=
| step_allow b a b' :
    next_probe b < U64_MAX → allowance now b = (a, b') → bstep now b (Allow a) b'
| step_outcome b ok : bstep now b (Outcome ok) (record_outcome now ok b)
| step_probe b token ok :
    1 <= token → token <= next_probe b → bstep now b (ProbeResult token ok) (record_probe now token ok b).

(** The window's log after an event: outcomes count while the breaker is closed,
    and a change of state forgets them. *)
Definition log_after (now : N) (b : Breaker) (e : Event) (b' : Breaker) (log : Outcomes) : Outcomes :=
  match e with
  | Outcome ok => match state b, state b' with
                  | Closed, Closed => (now, ok) :: log
                  | Closed, Open => []
                  | Open, _ => log
                  end
  | ProbeResult _ _ => match state b, state b' with Open, Closed => [] | _, _ => log end
  | Allow _ => log
  end.

Inductive lives (cfg : Schema.Breaker.Breaker) : Breaker → Outcomes → N → Prop :=
| lives_new : lives cfg (new_breaker cfg) [] 0
| lives_step b log last now e b' :
    lives cfg b log last → last <= now → fits32 (tally log (bucket_ms (window b))) →
    bstep now b e b' →
    lives cfg b' (log_after now b e b' log) now.

(** ** Invariants *)

Definition settings (b : Breaker) :=
  (enabled b, min_requests b, failure_percent b, open_for_ms b, bucket_ms (window b)).

Lemma open_spec b : state b = Open ↔ open_until_ms b ≠ 0.
Proof. unfold state. by destruct (N.eqb_spec (open_until_ms b) 0). Qed.

Lemma closed_spec b : state b = Closed ↔ open_until_ms b = 0.
Proof. unfold state. by destruct (N.eqb_spec (open_until_ms b) 0). Qed.

Lemma deadline_nonzero now b : deadline now b ≠ 0.
Proof. unfold deadline. lia. Qed.

(** What [trip_if_over_threshold] does to a closed breaker. *)
Lemma trip_spec now b :
  open_until_ms b = 0 →
  let '(total, failed) := totals now (window b) in
  let over := (min_requests b <=? total) && (total * failure_percent b <=? failed * 100) in
  trip_if_over_threshold now b =
    if over then with_window (reset (window b)) (count_trip (with_until (deadline now b) b)) else b.
Proof.
  intros H0. unfold trip_if_over_threshold. destruct (totals now (window b)) as [total failed].
  rewrite H0. cbv zeta. rewrite !N.ltb_antisym.
  by destruct (min_requests b <=? total), (total * failure_percent b <=? failed * 100).
Qed.

Lemma trip_settings now b : settings (trip_if_over_threshold now b) = settings b.
Proof.
  unfold trip_if_over_threshold. destruct (totals now (window b)).
  destruct (_ <? _); [done|]. destruct (_ <? _); [done|]. by destruct (_ =? _).
Qed.

Lemma step_settings now b e b' : bstep now b e b' → settings b' = settings b.
Proof.
  destruct 1 as [b a b' _ Ha|b ok|b token ok _ _].
  - unfold allowance in Ha. destruct (enabled b) eqn:E; simpl in Ha; [|by injection Ha as _ <-].
    destruct (_ =? _); [by injection Ha as _ <-|]. destruct (_ <? _); by injection Ha as _ <-.
  - unfold record_outcome. destruct (negb (enabled b)); [done|].
    destruct (negb _); [done|]. pose proof (bucket_ms_op now (ORecord (negb ok)) (window b)) as Hms.
    simpl in Hms. destruct (negb ok); rewrite ?trip_settings; unfold settings; simpl; by rewrite Hms.
  - unfold record_probe. destruct (negb (enabled b)); [done|]. destruct (negb _); [done|].
    by destruct ok.
Qed.

Lemma tally_cons t (ok : bool) log ms k :
  tally ((t, ok) :: log) ms k =
  upd (t / ms) (λ c, (c.1 + 1, if ok then c.2 else c.2 + 1)) (tally log ms) k.
Proof.
  unfold tally, upd. rewrite !count_cons. simpl. destruct ok;
    case_decide as H1; case_decide as H2; case_decide as H3; simpl; naive_solver (f_equal; lia).
Qed.

(** The probe identities: the active one is the last handed out, and only an
    open breaker has one. *)
Definition probes_ok (b : Breaker) : Prop :=
  (active_probe b = 0 ∨ active_probe b = next_probe b ∧ 1 <= next_probe b)
  ∧ (active_probe b ≠ 0 → open_until_ms b ≠ 0).

Lemma trip_probes now b :
  open_until_ms b = 0 → probes_ok b → probes_ok (trip_if_over_threshold now b).
Proof.
  intros H0 Hp. pose proof (trip_spec now b H0) as Ht. destruct (totals now (window b)).
  cbv zeta in Ht. rewrite Ht. destruct (_ && _); [|done]. destruct Hp as [H1 H2]. split; [done|].
  intros _. apply deadline_nonzero.
Qed.

Lemma step_probes now b e b' : bstep now b e b' → probes_ok b → probes_ok b'.
Proof.
  destruct 1 as [b a b' Hn Ha|b ok|b token ok _ _]; intros Hp.
  - unfold allowance in Ha. destruct (enabled b) eqn:E; simpl in Ha; [|by injection Ha as _ <-].
    destruct (N.eqb_spec (open_until_ms b) 0); [by injection Ha as _ <-|].
    destruct (_ <? _); injection Ha as _ <-; [done|]. unfold probes_ok; simpl.
    rewrite wrapping_add_small by lia. split; [right; lia|]. intros _. apply deadline_nonzero.
  - unfold record_outcome. destruct (negb (enabled b)); [done|].
    destruct (N.eqb_spec (open_until_ms b) 0) as [H0|]; simpl; [|done].
    destruct (negb ok); [|done]. by apply trip_probes.
  - unfold record_probe. destruct (negb (enabled b)); [done|]. destruct (negb _); [done|].
    destruct ok; split; simpl; auto; done.
Qed.

Lemma lives_settings cfg b log last : lives cfg b log last → settings b = settings (new_breaker cfg).
Proof. induction 1 as [|b log last now e b' _ IH _ _ Hs]; [done|]. by rewrite (step_settings _ _ _ _ Hs). Qed.

Lemma lives_probes cfg b log last : lives cfg b log last → probes_ok b.
Proof.
  induction 1 as [|b log last now e b' _ IH _ _ Hs]; [by split; [left|]|]. by eapply step_probes.
Qed.

(** The window stands for the log. *)
Definition watched (b : Breaker) (log : Outcomes) (last : N) : Prop :=
  enabled b = true →
  stands_for (window b) (tally log (bucket_ms (window b))) (last / bucket_ms (window b)).

Lemma reset_stands w h cur ms n :
  stands_for w h cur → bucket_ms w = ms → stands_for (reset w) (tally [] ms) n.
Proof.
  intros Hs <-. pose proof (run_op_stands_for (cur * bucket_ms w) OReset w h cur Hs) as H.
  assert (cur * bucket_ms w / bucket_ms w = cur) as Hdiv.
  { apply N.div_mul. apply Hs. }
  rewrite Hdiv in H. specialize (H ltac:(lia)). simpl in H. destruct H as (H1 & H2 & H3).
  split; [done|]. split; [done|]. intros i b Hi. destruct Hs as (Hms & Hl & _).
  unfold reset in Hi. simpl in Hi. rewrite list_lookup_fmap in Hi.
  destruct (buckets w !! i) as [b0|] eqn:Eb; [|done]. injection Hi as <-.
  apply lookup_lt_Some in Eb. unfold bucket_ok. simpl. split; [lia|]. split; [|done].
  destruct i; [left|right]; [by split|]. split; [lia|done].
Qed.

(** What recording an outcome does to a closed, enabled breaker. *)
Lemma record_watched b log last now ok :
  enabled b = true → watched b log last → last <= now →
  fits32 (tally log (bucket_ms (window b))) →
  let w := record now (negb ok) (window b) in
  bucket_ms w = bucket_ms (window b) ∧
  stands_for w (tally ((now, ok) :: log) (bucket_ms (window b))) (now / bucket_ms (window b)).
Proof.
  intros He Hw Hle Hlen. cbv zeta. specialize (Hw He). set (ms := bucket_ms (window b)) in *.
  assert (last / ms <= now / ms) as Hdiv by by apply N.Div0.div_le_mono.
  pose proof (run_op_stands_for now (ORecord (negb ok)) (window b) _ _ Hw Hdiv) as Hr.
  pose proof (bucket_ms_op now (ORecord (negb ok)) (window b)) as Hms. simpl in Hr, Hms.
  split; [done|]. fold ms in Hr. eapply stands_for_ext; [|exact Hr]. intros k. rewrite tally_cons.
  destruct (Hlen (now / ms)) as [H1 H2].
  unfold upd. case_decide; [|done]. subst k. cbn [apply_op].
  rewrite (wrapping_add32_small _ H1). destruct ok; cbn [negb]; [done|].
  by rewrite (wrapping_add32_small _ H2).
Qed.

Lemma watched_later b log last now : watched b log last → last <= now → watched b log now.
Proof.
  intros Hw Hle He. eapply stands_for_later; [by apply Hw|]. by apply N.Div0.div_le_mono.
Qed.

Lemma watched_same b b' log last :
  enabled b' = enabled b → window b' = window b → watched b log last → watched b' log last.
Proof. unfold watched. by intros -> ->. Qed.

Lemma watched_reset b b' log log' last now :
  enabled b' = enabled b → window b' = reset (window b) → watched b log last → log' = [] →
  watched b' log' now.
Proof.
  unfold watched. intros -> -> Hw -> He. simpl. eapply reset_stands; [by apply Hw|done].
Qed.

Lemma outcome_watched now b ok log last :
  watched b log last → last <= now → fits32 (tally log (bucket_ms (window b))) →
  watched (record_outcome now ok b)
    (log_after now b (Outcome ok) (record_outcome now ok b) log) now.
Proof.
  intros Hw Hle Hf. unfold record_outcome.
  destruct (enabled b) eqn:He; simpl.
  2: { intros He'. congruence. }
  unfold state at 1. destruct (N.eqb_spec (open_until_ms b) 0) as [H0|H0]; simpl.
  2: { by eapply watched_later. }
  destruct (record_watched b log last now ok He Hw Hle Hf) as [Hms Hs].
  set (b1 := with_window (record now (negb ok) (window b)) b).
  assert (watched b1 ((now, ok) :: log) now) as Hw1.
  { intros _. unfold b1; simpl. by rewrite Hms. }
  assert (state b1 = Closed) as Hcl by by apply closed_spec.
  destruct ok; simpl; [by rewrite Hcl|].
  pose proof (trip_spec now b1 H0) as Ht. destruct (totals now (window b1)) as [total failed].
  cbv zeta in Ht. rewrite Ht. destruct (_ && _); [|by rewrite Hcl].
  assert (state (with_window (reset (window b1)) (count_trip (with_until (deadline now b1) b1))) = Open)
    as ->. { apply open_spec, deadline_nonzero. }
  eapply (watched_reset b1); [done|done|exact Hw1|done].
Qed.

Lemma lives_watched cfg b log last : lives cfg b log last → watched b log last.
Proof.
  induction 1 as [|b log last now e b' Hl IH Hle Hf Hs].
  - intros _. simpl. eapply stands_for_ext; [|eapply stands_for_later; [apply stands_for_new|]]; [done|].
    apply N.le_0_l.
  - destruct Hs as [b a b' _ Ha|b ok|b token ok H1 _].
    + simpl. eapply watched_later; [|exact Hle]. unfold allowance in Ha.
      destruct (negb (enabled b)); [by injection Ha as _ <-|].
      destruct (_ =? 0); [by injection Ha as _ <-|].
      destruct (_ <? _); injection Ha as _ <-; [done|by eapply watched_same].
    + by eapply outcome_watched.
    + pose proof (lives_probes _ _ _ _ Hl) as [_ Hp]. unfold log_after, record_probe.
      destruct (negb (enabled b)) eqn:He; [destruct (state b); by eapply watched_later|].
      destruct (N.eqb_spec (active_probe b) token) as [Ht|Ht]; cbn [negb];
        [|destruct (state b); by eapply watched_later].
      assert (state b = Open) as -> by (apply open_spec, Hp; lia).
      destruct ok.
      * eapply (watched_reset b); [done|done|exact IH|done].
      * assert (state (with_until (deadline now (with_probe (next_probe b) 0 b))
                  (with_probe (next_probe b) 0 b)) = Open) as -> by apply open_spec, deadline_nonzero.
        eapply watched_same; [..|eapply watched_later; [exact IH|exact Hle]]; done.
Qed.

(** ** What the breaker promises *)

(** C29: A closed breaker ejects its backend on exactly the failures that matter:
    when it is enabled, this request failed, and among the requests of the last
    window, this one included, at least [min_requests] were seen and at least
    [failure_percent] of them failed. *)
Theorem breaker_trips_exactly cfg b log last now ok :
  lives cfg b log last → last <= now → fits32 (tally log (bucket_ms (window b))) →
  state b = Closed →
  let ms := bucket_ms (window b) in
  let '(total, failed) := window_sum (tally ((now, ok) :: log) ms) (now / ms) in
  state (record_outcome now ok b) = Open ↔
    Schema.Breaker.enabled cfg = true ∧ ok = false ∧ Schema.Breaker.min_requests cfg <= total ∧
    total * Schema.Breaker.failure_percent cfg <= failed * 100.
Proof.
  intros Hl Hle Hf Hc. cbv zeta. destruct (window_sum _ _) as [total failed] eqn:Ews.
  pose proof (lives_settings _ _ _ _ Hl) as Hset. injection Hset as He Hmin Hpct _ _.
  rewrite <-He, <-Hmin, <-Hpct. pose proof (lives_watched _ _ _ _ Hl) as Hw.
  apply closed_spec in Hc as H0. unfold record_outcome.
  destruct (enabled b) eqn:Eb; simpl; [|rewrite Hc; naive_solver].
  rewrite H0. simpl. destruct (record_watched b log last now ok Eb Hw Hle Hf) as [Hms Hs].
  destruct ok; simpl; [rewrite open_spec; simpl; naive_solver|]. simpl in Hs, Hms.
  pose proof (trip_spec now (with_window (record now true (window b)) b) H0) as Ht.
  cbn [window with_window] in Ht. rewrite (totals_stand_for now _ _ _ Hs) in Ht by by rewrite Hms.
  rewrite Hms, Ews in Ht. cbv zeta in Ht. rewrite Ht. simpl.
  destruct (N.leb_spec (min_requests b) total), (N.leb_spec (total * failure_percent b) (failed * 100));
    simpl; rewrite open_spec; simpl; try (split; [naive_solver|lia || naive_solver lia]).
  split; [done|]. intros _. apply deadline_nonzero.
Qed.

(** A run during which the breaker stays open. *)
Inductive stays_open : N → Breaker → N → Breaker → Prop :=
| open_here t b : state b = Open → stays_open t b t b
| open_step t b t' b' now e b'' :
    stays_open t b t' b' → t' <= now → bstep now b' e b'' → state b'' = Open →
    stays_open t b now b''.

Lemma open_keeps_deadline t b now b' :
  stays_open t b now b' → deadline t b <= open_until_ms b →
  deadline t b <= open_until_ms b' ∧ t <= now ∧ next_probe b <= next_probe b'
  ∧ open_for_ms b' = open_for_ms b ∧ enabled b' = enabled b.
Proof.
  induction 1 as [t b Ho|t b t' b' now e b'' Hr IH Hle Hs Ho]; intros Hd; [by repeat split|].
  destruct (IH Hd) as (Hu & Ht & Hn & Hof & Hen).
  pose proof (step_settings _ _ _ _ Hs) as Hset. injection Hset as He _ _ Hofor _.
  assert (deadline t b <= deadline now b') as Hmono.
  { unfold deadline. rewrite Hof. unfold saturating_add. lia. }
  split; [|split; [lia|split; [|split; congruence]]].
  - destruct Hs as [b' a b'' _ Ha|b' ok|b' token ok _ _].
    + unfold allowance in Ha. destruct (negb (enabled b')); [by injection Ha as _ <-|].
      destruct (_ =? 0); [by injection Ha as _ <-|]. destruct (_ <? _); by injection Ha as _ <-.
    + assert (open_until_ms b' ≠ 0) as Hne by (pose proof (deadline_nonzero t b); lia).
      unfold record_outcome. destruct (negb (enabled b')); [done|].
      by rewrite (proj2 (N.eqb_neq _ 0) Hne).
    + unfold record_probe in Ho |- *. destruct (negb (enabled b')); [done|].
      destruct (negb _); [done|]. destruct ok; [|done]. by apply open_spec in Ho.
  - destruct Hs as [b' a b'' Hb Ha|b' ok|b' token ok _ _].
    + unfold allowance in Ha. destruct (negb (enabled b')); [by injection Ha as _ <-|].
      destruct (_ =? 0); [by injection Ha as _ <-|]. destruct (_ <? _); injection Ha as _ <-; [done|].
      simpl. rewrite wrapping_add_small; lia.
    + unfold record_outcome. destruct (negb (enabled b')); [done|]. destruct (negb _); [done|].
      destruct (negb ok); [|done]. unfold trip_if_over_threshold. destruct (totals _ _).
      destruct (_ <? _); [done|]. destruct (_ <? _); [done|]. by destruct (_ =? 0).
    + unfold record_probe. destruct (negb (enabled b')); [done|]. destruct (negb _); [done|].
      by destruct ok.
Qed.

Lemma allowance_probe now b token b' :
  allowance now b = (Probe token, b') →
  enabled b = true ∧ open_until_ms b ≠ 0 ∧ open_until_ms b <= now ∧
  token = wrapping_add (next_probe b) 1 ∧ b' = with_probe token token (with_until (deadline now b) b).
Proof.
  unfold allowance. destruct (enabled b); simpl; [|done].
  destruct (N.eqb_spec (open_until_ms b) 0); [done|].
  destruct (N.ltb_spec now (open_until_ms b)); [done|]. by intros [= <- <-].
Qed.

(** At most one recovery probe per period reaches an ejected backend: two
    probes granted while it stayed ejected are at least [open_for] apart, and
    they have different identities. *)
Theorem one_probe_per_period t1 b k1 b1 t2' b2 t2 k2 b3 :
  allowance t1 b = (Probe k1, b1) → stays_open t1 b1 t2' b2 → t2' <= t2 →
  next_probe b < U64_MAX → next_probe b2 < U64_MAX →
  allowance t2 b2 = (Probe k2, b3) →
  saturating_add t1 (open_for_ms b) <= t2 ∧ k1 < k2.
Proof.
  intros H1 Hr Hle Hb Hb2 H2.
  apply allowance_probe in H1 as (_ & _ & _ & -> & ->).
  apply allowance_probe in H2 as (_ & _ & Hu & -> & _).
  destruct (open_keeps_deadline _ _ _ _ Hr) as (Hd & _ & Hn & _ & _); [simpl; done|].
  simpl in Hd, Hn. unfold deadline in Hd. simpl in Hd.
  rewrite wrapping_add_small in Hn |- * by lia. rewrite wrapping_add_small by lia. lia.
Qed.

(** Recovery is possible and belongs to the current probe.  An ejected
    backend is given a probe as soon as its period is over, with an identity
    never used before; the success of that probe closes the breaker; and
    nothing else does: whatever step closes an open breaker is the success of
    the latest probe handed out. *)
Theorem recovery_by_the_current_probe cfg b log last now :
  lives cfg b log last → state b = Open → Schema.Breaker.enabled cfg = true →
  next_probe b < U64_MAX →
  (open_until_ms b <= now →
   ∃ token b1, allowance now b = (Probe token, b1) ∧ next_probe b < token ∧
     ∀ later, state (record_probe later token true b1) = Closed) ∧
  (∀ e b', bstep now b e b' → state b' = Closed →
   ∃ token, e = ProbeResult token true ∧ token = next_probe b).
Proof.
  intros Hl Ho He Hn. pose proof (lives_settings _ _ _ _ Hl) as Hset. injection Hset as Heb _ _ _ _.
  rewrite <-Heb in He. apply open_spec in Ho as Hu. split.
  - intros Hnow. exists (wrapping_add (next_probe b) 1). eexists. unfold allowance.
    rewrite He, (proj2 (N.eqb_neq _ 0) Hu), (proj2 (N.ltb_ge _ _) Hnow). simpl.
    split; [done|]. split; [rewrite wrapping_add_small; lia|]. intros later.
    unfold record_probe. simpl. rewrite He, N.eqb_refl. done.
  - intros e b' Hs Hc. apply closed_spec in Hc.
    destruct Hs as [b a b' _ Ha|b ok|b token ok H1 _].
    + unfold allowance in Ha. rewrite He, (proj2 (N.eqb_neq _ 0) Hu) in Ha. simpl in Ha.
      destruct (_ <? _); injection Ha as _ <-; [done|]. by pose proof (deadline_nonzero now b).
    + unfold record_outcome in Hc. rewrite He, (proj2 (N.eqb_neq _ 0) Hu) in Hc. done.
    + unfold record_probe in Hc. rewrite He in Hc. simpl in Hc.
      destruct (N.eqb_spec (active_probe b) token) as [<-|]; [|done]. simpl in Hc.
      destruct ok; [|by pose proof (deadline_nonzero now (with_probe (next_probe b) 0 b))].
      exists (active_probe b). split; [done|].
      destruct (lives_probes _ _ _ _ Hl) as [[H0|[H0 _]] _]; [lia|done].
Qed.

(** ** Witnesses *)

Definition sample_breaker : Schema.Breaker.Breaker := Schema.Breaker.mk true d_10s 2 50 d_30s 50.

Definition tripped : Breaker :=
  record_outcome 2000 false (record_outcome 1000 true (new_breaker sample_breaker)).

Lemma fits_short log ms :
  N.of_nat (length log) < 4294967295 → fits32 (tally log ms).
Proof.
  intros H k. unfold tally. simpl. pose proof (count_le (λ te : N * bool, te.1 / ms = k) log).
  pose proof (count_le (λ te : N * bool, te.1 / ms = k ∧ te.2 = false) log). lia.
Qed.

Lemma lives_once : lives sample_breaker (record_outcome 1000 true (new_breaker sample_breaker)) [(1000, true)] 1000.
Proof.
  apply (lives_step sample_breaker (new_breaker sample_breaker) [] 0 1000 (Outcome true));
    [constructor|done|by apply fits_short|constructor].
Qed.

Lemma lives_tripped : lives sample_breaker tripped [] 2000.
Proof.
  apply (lives_step sample_breaker _ _ 1000 2000 (Outcome false) tripped lives_once);
    [done|by apply fits_short|constructor].
Qed.

Lemma breaker_trips_exactly_witness : state tripped = Open.
Proof.
  pose proof (breaker_trips_exactly sample_breaker _ _ _ 2000 false lives_once) as H. cbv zeta in H.
  destruct (window_sum _ _) as [total failed] eqn:E. vm_compute in E. injection E as <- <-.
  apply H; [done|by apply fits_short|reflexivity|]. repeat split; vm_compute; discriminate.
Defined.

Lemma one_probe_per_period_witness : 32000 + 30000 <= 62000 ∧ 1 < 2.
Proof.
  apply (one_probe_per_period 32000 tripped 1 (allowance 32000 tripped).2 32000
           (allowance 32000 tripped).2 62000 2 (allowance 62000 (allowance 32000 tripped).2).2);
    [vm_compute; reflexivity|constructor; vm_compute; reflexivity|discriminate|vm_compute; reflexivity..].
Defined.

Lemma recovery_by_the_current_probe_witness :
  ∃ token b1, allowance 32000 tripped = (Probe token, b1) ∧
    state (record_probe 33000 token true b1) = Closed.
Proof.
  destruct (recovery_by_the_current_probe sample_breaker tripped [] 2000 32000 lives_tripped)
    as [(token & b1 & H1 & _ & H2) _]; [vm_compute; reflexivity..|vm_compute; discriminate|].
  exists token, b1. split; [exact H1|exact (H2 33000)].
Defined.
