(* ===== verification/Upstream.v ===== *)
(** * Upstream selection ([src/src/upstream/mod.rs], [health.rs], [resolver.rs])

    The pool of backends: the addresses each name resolves to, what has been
    learned about each (health, load, latency, breaker), and the choice of one
    for a request.  A method is one step on the pool; the clock and the answers
    of the name service are arguments.  A backend is referred to by its index,
    its [id].  The laws are in [UpstreamTheorems]. *)

From S2P Require Import Prelude Words Text Units Schema Orders Net Window.
From S2P Require Import Breakers.
Local Open Scope string_scope.
Local Open Scope list_scope.
Local Open Scope N_scope.

(** ** Resolving a name *)

(** [Ord for SocketAddr]: IPv4 before IPv6, then the address, then the port. *)
Definition addr_key (a : SocketAddr) : N * (N * N) :=
  match ip a with V4 n => (4, (n, port a)) | V6 n => (6, (n, port a)) end.

Definition addr_le (a b : SocketAddr) : Prop :=
  pair_le N.le (pair_le N.le N.le) (addr_key a) (addr_key b).

#[export] Instance addr_le_dec : RelDecision addr_le.
Proof. intros a b. unfold addr_le. apply _. Defined.

#[export] Instance N_le_order : TotalOrder N.le.
Proof. split; [split|..]; intros ?; intros; lia. Qed.

Lemma addr_key_inj a b : addr_key a = addr_key b → a = b.
Proof. destruct a as [[m|m] p], b as [[n|n] q]; unfold addr_key; simpl; congruence. Qed.

#[export] Instance addr_le_order : TotalOrder addr_le.
Proof.
  split; [split| |].
  - intros a. unfold addr_le. reflexivity.
  - intros a b c. unfold addr_le. apply transitivity.
  - intros a b H1 H2. apply addr_key_inj. by apply (anti_symm (pair_le N.le (pair_le N.le N.le))).
  - intros a b. apply (base.total (pair_le N.le (pair_le N.le N.le))).
Qed.

Inductive ResolveError :=
| CouldNotResolve (address error : string)
| NoAddresses (address : string).

(** [ToSocketAddrs] for [str]: the name service's answer. *)
Abbreviation Lookup := (string → result string (list SocketAddr)) (only parsing).

Definition resolve (to_socket_addrs : Lookup) (address : string) : result ResolveError (list SocketAddr) :=
  sockets ← map_err (CouldNotResolve address) (to_socket_addrs address);
  let sockets := dedup (sort addr_le sockets) in
  refuse_if (bool_decide (sockets = [])) (NoAddresses address);;
  Ok sockets.

(** ** Hashing a path *)

Fixpoint fnv1a_from (hash : N) (s : string) : N :=
  match s with
  | EmptyString => hash
  | String b s' => fnv1a_from (wrapping_mul (N.lxor hash (code b)) 0x1000000001b3) s'
  end.
Definition fnv1a (s : string) : N := fnv1a_from 0xcbf29ce484222325 s.

(** ** One backend *)

Record Backend := mkBackend {
  id : nat;
  address : string;
  sockets : list SocketAddr;
  rotation : N }.

Definition new_backend (dns : Lookup) (id : nat) (address : string) : result ResolveError Backend :=
  sockets ← resolve dns address; Ok (mkBackend id address sockets 0).

(** [None] is the panic of indexing an empty set. *)
Definition socket_for (key : option string) (b : Backend) : option SocketAddr * Backend :=
  let len := N.max (N.of_nat (length (sockets b))) 1 in
  let '(index, b') :=
    match key with
    | Some key => (fnv1a key mod len, b)
    | None => (rotation b mod len,
               mkBackend (id b) (address b) (sockets b) (wrapping_add (rotation b) 1))
    end in
  (match sockets b with
   | [] => None
   | _ => sockets b !! Nat.min (N.to_nat index) (length (sockets b) - 1)
   end, b').

Definition refresh (dns : Lookup) (b : Backend) : result ResolveError bool * Backend :=
  match resolve dns (address b) with
  | Err e => (Err e, b)
  | Ok fresh =>
      if decide (sockets b = fresh) then (Ok false, b)
      else (Ok true, mkBackend (id b) (address b) fresh (rotation b))
  end.

(** ** The pool *)

Record BackendState := mkState {
  healthy : bool;
  in_flight : N;
  ewma_micros : N;
  breaker : Breaker }.

Record SelectedBackend := mkSelected { backend : Backend; probe : option ProbeToken }.

Record UpstreamPool := mkPool {
  backends : list Backend;
  states : list BackendState;
  strategy : LoadBalancing;
  cursor : N;
  max_ejected : N }.

Fixpoint new_backends (dns : Lookup) (n : nat) (addresses : list string) : result ResolveError (list Backend) :=
  match addresses with
  | [] => Ok []
  | a :: rest => b ← new_backend dns n a; bs ← new_backends dns (S n) rest; Ok (b :: bs)
  end.

Definition new (dns : Lookup) (addresses : list string) (strategy : LoadBalancing)
    (cfg : Schema.Breaker.Breaker) : result ResolveError UpstreamPool :=
  backends ← new_backends dns 0 addresses;
  let states := (λ _, mkState false 0 0 (new_breaker cfg)) <$> backends in
  let max_ejected :=
    if Schema.Breaker.enabled cfg
    then saturating_mul (N.of_nat (length backends)) (Schema.Breaker.max_ejected_percent cfg) / 100
    else 0 in
  Ok (mkPool backends states strategy 0 max_ejected).

(** [if let Some(state) = self.state(id)]: an index out of range does nothing. *)
Definition update (id : nat) (f : BackendState → BackendState) (p : UpstreamPool) : UpstreamPool :=
  mkPool (backends p) (alter f id (states p)) (strategy p) (cursor p) (max_ejected p).
Definition set_backend (b : Backend) (p : UpstreamPool) : UpstreamPool :=
  mkPool (<[id b := b]> (backends p)) (states p) (strategy p) (cursor p) (max_ejected p).
Definition advance (p : UpstreamPool) : UpstreamPool :=
  mkPool (backends p) (states p) (strategy p) (wrapping_add (cursor p) 1) (max_ejected p).

Definition set_healthy (id : nat) (h : bool) : UpstreamPool → UpstreamPool :=
  update id (λ s, mkState h (in_flight s) (ewma_micros s) (breaker s)).

Definition assume_healthy (p : UpstreamPool) : UpstreamPool :=
  foldl (λ p b, set_healthy (id b) true p) p (backends p).

Definition is_healthy (p : UpstreamPool) (id : nat) : bool :=
  match states p !! id with Some s => healthy s | None => false end.

Definition healthy_count (p : UpstreamPool) : N :=
  N.of_nat (length (filter (λ b, is_healthy p (id b) = true) (backends p))).

Definition breaker_state (p : UpstreamPool) (id : nat) : BreakerState :=
  match states p !! id with Some s => state (breaker s) | None => Closed end.

Definition breaker_counts (now_ms : N) (p : UpstreamPool) (id : nat) : N * N * N :=
  match states p !! id with
  | Some s => let '(ok, fail) := counts now_ms (breaker s) in (ok, fail, trips (breaker s))
  | None => (0, 0, 0)
  end.

Definition ejected_count (p : UpstreamPool) : N :=
  N.of_nat (length (filter (λ s, state (breaker s) = Open) (states p))).

Definition flights (p : UpstreamPool) (id : nat) : N :=
  match states p !! id with Some s => in_flight s | None => 0 end.
Definition latency (p : UpstreamPool) (id : nat) : N :=
  match states p !! id with Some s => ewma_micros s | None => 0 end.

Definition set_breaker (id : nat) (br : Breaker) : UpstreamPool → UpstreamPool :=
  update id (λ s, mkState (healthy s) (in_flight s) (ewma_micros s) br).

Definition record_outcome (now_ms : N) (id : nat) (probe : option ProbeToken) (ok : bool) :
    UpstreamPool → UpstreamPool :=
  update id (λ s, mkState (healthy s) (in_flight s) (ewma_micros s)
    match probe with
    | Some token => record_probe now_ms token ok (breaker s)
    | None => Breakers.record_outcome now_ms ok (breaker s)
    end).

(** One eighth of the new sample, in integers. *)
Definition blend (previous micros : N) : N :=
  if previous =? 0 then micros
  else saturating_add (previous - previous / 8) (micros / 8).

Definition observe_latency (id : nat) (micros : N) : UpstreamPool → UpstreamPool :=
  update id (λ s, mkState (healthy s) (in_flight s) (blend (ewma_micros s) micros) (breaker s)).

(** ** In-flight guards *)

Record InFlightGuard := mkGuard { backend_id : nat; probe_token : option ProbeToken }.
#[export] Instance InFlightGuard_eq_dec : EqDecision InFlightGuard.
Proof. solve_decision. Defined.

Definition enter_attempt (id : nat) (probe : option ProbeToken) (p : UpstreamPool) :
    InFlightGuard * UpstreamPool :=
  (mkGuard id probe,
   update id (λ s, mkState (healthy s) (wrapping_add (in_flight s) 1) (ewma_micros s) (breaker s)) p).
Definition enter (id : nat) := enter_attempt id None.
Definition enter_selected (s : SelectedBackend) := enter_attempt (id (backend s)) (probe s).

Definition drop_guard (g : InFlightGuard) : UpstreamPool → UpstreamPool :=
  update (backend_id g)
    (λ s, mkState (healthy s) (wrapping_sub (in_flight s) 1) (ewma_micros s) (breaker s)).

(** ** Choosing *)

Definition score (p : UpstreamPool) (id : nat) : N :=
  saturating_mul (saturating_add (clamp U64_MAX (flights p id)) 1) (N.max (latency p id) 1).

(** One round of the scan: a strictly better score wins. *)
Definition better (p : UpstreamPool) (best : option (Backend * N)) (candidate : option Backend) :
    option (Backend * N) :=
  match candidate with
  | None => best
  | Some b =>
      let score := score p (id b) in
      if match best with None => true | Some (_, previous) => score <? previous end
      then Some (b, score) else best
  end.

Definition least_loaded (pool : list Backend) (p : UpstreamPool) : option Backend * UpstreamPool :=
  let len := N.of_nat (length pool) in
  let offset := cursor p in
  let p := advance p in
  let best := foldl (λ best step,
      better p best (pool !! N.to_nat (wrapping_add offset (N.of_nat step) mod len)))
    None (seq 0 (length pool)) in
  (fst <$> best, p).

Definition pick (pool : list Backend) (path : string) (p : UpstreamPool) : option Backend * UpstreamPool :=
  let len := N.of_nat (length pool) in
  if len =? 0 then (None, p)
  else match strategy p with
       | RoundRobin => (pool !! N.to_nat (cursor p mod len), advance p)
       | HashByPath => (pool !! N.to_nat (fnv1a path mod len), p)
       | LeastLoaded => least_loaded pool p
       end.

Definition ordinary (r : option Backend * UpstreamPool) : option SelectedBackend * UpstreamPool :=
  ((λ b, mkSelected b None) <$> r.1, r.2).

Definition healthy_backends (p : UpstreamPool) : list Backend :=
  filter (λ b, is_healthy p (id b) = true) (backends p).
Definition ejected_backends (p : UpstreamPool) : list Backend :=
  filter (λ b, breaker_state p (id b) = Open) (healthy_backends p).
Definition available_backends (p : UpstreamPool) : list Backend :=
  filter (λ b, breaker_state p (id b) = Closed) (healthy_backends p).

(** The loop that spends a recovery probe if one is due. *)
Fixpoint spend_probe (now_ms : N) (ejected : list Backend) (p : UpstreamPool) :
    option SelectedBackend * UpstreamPool :=
  match ejected with
  | [] => (None, p)
  | b :: rest =>
      match states p !! id b with
      | None => spend_probe now_ms rest p
      | Some s =>
          let '(a, br) := allowance now_ms (breaker s) in
          let p := set_breaker (id b) br p in
          match a with
          | Probe token => (Some (mkSelected b (Some token)), p)
          | Normal => (Some (mkSelected b None), p)
          | Denied => spend_probe now_ms rest p
          end
      end
  end.

Definition select_at (path : string) (now_ms : N) (p : UpstreamPool) :
    option SelectedBackend * UpstreamPool :=
  if bool_decide (backends p = []) then (None, p)
  else
    let healthy := healthy_backends p in
    if bool_decide (healthy = []) then ordinary (pick (backends p) path p)
    else if max_ejected p =? 0 then ordinary (pick healthy path p)
    else
      let ejected := ejected_backends p in
      match spend_probe now_ms ejected p with
      | (Some selected, p) => (Some selected, p)
      | (None, p) =>
          if max_ejected p <? N.of_nat (length ejected) then ordinary (pick healthy path p)
          else
            let available := available_backends p in
            if bool_decide (available = []) then ordinary (pick healthy path p)
            else ordinary (pick available path p)
      end.

(** ** Health checks *)

Record HealthChecker := mkChecker {
  path : string;
  healthy_after : N;
  unhealthy_after : N;
  streak_ok : list N;
  streak_fail : list N }.

Definition new_checker (pool : UpstreamPool) (cfg : Schema.Health.Health) : HealthChecker :=
  let n := length (backends pool) in
  mkChecker (Schema.Health.path cfg) (N.max (Schema.Health.healthy_after cfg) 1)
    (N.max (Schema.Health.unhealthy_after cfg) 1) (replicate n 0) (replicate n 0).

(** The result is [None] where indexing panics, and otherwise the source's. *)
Definition record (id : nat) (ok : bool) (c : HealthChecker) (p : UpstreamPool) :
    option (option bool * HealthChecker * UpstreamPool) :=
  s_ok ← streak_ok c !! id;
  s_fail ← streak_fail c !! id;
  let streaks a b := mkChecker (path c) (healthy_after c) (unhealthy_after c)
                       (<[id := a]> (streak_ok c)) (<[id := b]> (streak_fail c)) in
  Some
    (if ok then
       let n := wrapping_add32 s_ok 1 in
       if n =? healthy_after c then (Some true, streaks n 0, set_healthy id true p)
       else (None, streaks n 0, p)
     else
       let n := wrapping_add32 s_fail 1 in
       if n =? unhealthy_after c then (Some false, streaks 0 n, set_healthy id false p)
       else (None, streaks 0 n, p)).

Definition CRLF : string := String (chr 13) (str1 (chr 10)).
Definition has_crlf (s : string) : bool := match index 0 CRLF s with Some _ => true | None => false end.

(** Reading the status line: [reads] is what each [read] into the 128-byte
    buffer gives, an empty one being the end of the stream; running out of them
    is the timeout or the error that ends the attempt. *)
Fixpoint read_status (status : string) (reads : list string) : option string :=
  match reads with
  | [] => None
  | chunk :: rest =>
      if is_empty chunk then None
      else
        let status := status +:+ chunk in
        if has_crlf status then Some status
        else if 1024 <=? len status then None
        else read_status status rest
  end.

Definition probe_request (c : HealthChecker) (address : string) : string :=
  let host := match rsplit_once ":"%char address with
              | Some (host, _) => trim_pats ["["; "]"] host
              | None => address
              end in
  "GET " +:+ path c +:+ " HTTP/1.1" +:+ CRLF +:+ "Host: " +:+ host +:+ CRLF
    +:+ "User-Agent: harmost-health" +:+ CRLF +:+ "Connection: close" +:+ CRLF +:+ CRLF.

Definition probe_verdict (reads : list string) : bool :=
  match read_status EmptyString reads with
  | Some line => starts_with "HTTP/1.1 2" line || starts_with "HTTP/1.0 2" line
  | None => false
  end.

(** One round over the backends; [answers] is what each probe reads. *)
Definition check_round (answers : Backend → list string) (c : HealthChecker) (p : UpstreamPool) :
    option (HealthChecker * UpstreamPool) :=
  foldl (λ acc b,
    '(c, p) ← acc;
    '(_, c, p) ← record (id b) (probe_verdict (answers b)) c p;
    Some (c, p)) (Some (c, p)) (backends p).

(** ** The resolver *)

(** One pass over every backend; [dns] is the name service of each lookup, and
    [None] is a lookup task that did not finish. *)
Definition refresh_all (dns : Backend → option Lookup) (p : UpstreamPool) : N * UpstreamPool :=
  foldl (λ acc b,
    match dns b with
    | None => acc
    | Some lookup =>
        match refresh lookup b with
        | (Ok true, b') => (acc.1 + 1, set_backend b' acc.2)
        | (_, b') => (acc.1, set_backend b' acc.2)
        end
    end) (0, p) (backends p).
