(* ===== verification/UpstreamTheorems.v ===== *)
(** * What upstream selection promises

    The address sets, the strategies, the moving mean, the layers of [select],
    the books of the in-flight guards and of the breakers over whole runs, and
    the streaks of the health checker. *)

From stdpp Require Import sorting.
From S2P Require Import Prelude Words Text Units Schema Orders Net Window Breakers Upstream.
Local Open Scope string_scope.
Local Open Scope list_scope.
Local Open Scope N_scope.

(** ** Taking turns

    [offset], [offset + 1], ..., modulo [n], visits each of [0 .. n-1] once. *)

Lemma turns_perm (o n : nat) : (λ s, ((o + s) mod n)%nat) <$> seq 0 n ≡ₚ seq 0 n.
Proof.
  destruct n as [|n]; [done|]. induction o as [|o IH].
  - assert ((λ s, ((0 + s) mod S n)%nat) <$> seq 0 (S n) = seq 0 (S n)) as ->; [|done].
    rewrite <-(list_fmap_id (seq 0 (S n))) at 2. apply list_fmap_ext. intros i x Hx.
    apply lookup_seq in Hx as [-> Hi]. rewrite Nat.mod_small; simpl; lia.
  - etrans; [|exact IH].
    assert ((λ s, ((S o + s) mod S n)%nat) <$> seq 0 (S n) = (λ s, ((o + s) mod S n)%nat) <$> seq 1 (S n)) as ->.
    { rewrite <-(fmap_S_seq 0 (S n)), <-list_fmap_compose. apply list_fmap_ext.
      intros i x _. unfold compose. f_equal. lia. }
    rewrite (seq_S n 1), fmap_app, Permutation_app_comm. cbn [seq]. rewrite !fmap_cons, fmap_nil.
    assert (((o + S n) mod S n)%nat = ((o + 0) mod S n)%nat) as <-; [|done].
    replace (o + S n)%nat with (o + 0 + 1 * S n)%nat by lia. apply Nat.Div0.mod_add.
Qed.

(** The indices as the source computes them, on counters that do not wrap. *)
Lemma turn_index {A} (l : list A) o (s : nat) :
  o + N.of_nat s < two64 → l ≠ [] →
  N.to_nat (wrapping_add o (N.of_nat s) mod N.of_nat (length l))
  = ((N.to_nat o + s) mod length l)%nat.
Proof.
  intros H Hl. rewrite wrapping_add_small by (rewrite two64_eq in H; lia).
  rewrite N2Nat.inj_mod, N2Nat.inj_add, !Nat2N.id. done.
Qed.

Lemma lookup_all {A} (l : list A) : (λ i, l !! i) <$> seq 0 (length l) = Some <$> l.
Proof.
  apply list_eq. intros i. rewrite !list_lookup_fmap.
  destruct (decide (i < length l)%nat) as [Hi|Hi].
  - rewrite lookup_seq_lt by done. simpl. destruct (l !! i) eqn:E; [done|].
    apply lookup_ge_None in E. lia.
  - rewrite lookup_seq_ge, (lookup_ge_None_2 l i) by lia. done.
Qed.

Lemma turns_lookup {A} (l : list A) (o : nat) :
  (λ s, l !! ((o + s) mod length l)%nat) <$> seq 0 (length l) ≡ₚ Some <$> l.
Proof.
  rewrite <-lookup_all.
  rewrite <-(turns_perm o (length l)) at 2. by rewrite <-list_fmap_compose.
Qed.

(** ** Resolved address sets *)

Lemma resolve_ok dns address l :
  resolve dns address = Ok l →
  l ≠ [] ∧ NoDup l ∧ Sorted addr_le l ∧
  ∃ answer, dns address = Ok answer ∧ (∀ a, a ∈ l ↔ a ∈ answer).
Proof.
  unfold resolve. intros H. apply bind_ok in H as (answer & Ha & H).
  apply map_err_ok in Ha. apply bind_ok in H as ([] & Hr & [= <-]).
  apply refuse_if_ok, bool_decide_eq_false in Hr.
  destruct (dedup_sorted addr_le _ (sort_sorted addr_le answer)) as [Hn Hs].
  repeat split; [done..|]. exists answer. split; [done|].
  intros a. by rewrite dedup_elem, sort_perm.
Qed.

(** ** The moving mean *)

Lemma eighth x : ∃ q r, x / 8 = q ∧ x = 8 * q + r ∧ r < 8.
Proof.
  exists (x / 8), (x mod 8). split; [done|]. split; [apply N.Div0.div_mod|by apply N.mod_lt].
Qed.

Lemma blend_bounds lo hi p m :
  p = 0 ∨ lo <= p <= hi → lo <= m <= hi → hi <= U64_MAX → lo <= blend p m <= hi.
Proof.
  intros Hp Hm Hh. unfold blend. destruct (N.eqb_spec p 0); [done|].
  destruct Hp as [|Hp]; [done|]. unfold saturating_add.
  destruct (eighth p) as (q & r & -> & ? & ?), (eighth m) as (q' & r' & -> & ? & ?).
  destruct (eighth lo) as (ql & rl & _ & ? & ?), (eighth hi) as (qh & rh & _ & ? & ?). lia.
Qed.

(** One observation brings the mean closer, until it is within seven. *)
Lemma blend_closer p m n :
  0 < m → m <= U64_MAX → 0 < p → p <= U64_MAX →
  (p <= m + 7 + N.succ n ∧ m <= p + 7 + N.succ n) →
  let q := blend p m in 0 < q ∧ q <= U64_MAX ∧ q <= m + 7 + n ∧ m <= q + 7 + n.
Proof.
  intros Hm Hmx Hp Hpx [H1 H2]. unfold blend, saturating_add.
  destruct (N.eqb_spec p 0); [lia|]. cbv zeta.
  destruct (eighth p) as (q & r & -> & ? & ?), (eighth m) as (q' & r' & -> & ? & ?). lia.
Qed.

(** ** Updating one backend's state *)

Lemma states_update id f p i :
  states (update id f p) !! i = (if decide (i = id) then f else λ s, s) <$> states p !! i.
Proof.
  unfold update; simpl. case_decide as H.
  - subst. by rewrite list_lookup_alter_eq.
  - rewrite list_lookup_alter_ne by done. by destruct (states p !! i).
Qed.

Lemma states_length id f p : length (states (update id f p)) = length (states p).
Proof. apply length_alter. Qed.

Lemma latency_observe id m p s :
  states p !! id = Some s →
  latency (observe_latency id m p) id = blend (latency p id) m
  ∧ is_Some (states (observe_latency id m p) !! id).
Proof.
  intros Hs. unfold latency, observe_latency. rewrite states_update, decide_True, Hs by done. by split.
Qed.

Definition observe_all (id : nat) (samples : list N) (p : UpstreamPool) : UpstreamPool :=
  foldl (λ p m, observe_latency id m p) p samples.

Lemma observe_all_cons id m ms p :
  observe_all id (m :: ms) p = observe_all id ms (observe_latency id m p).
Proof. done. Qed.

Lemma observe_all_bounds lo hi id samples p :
  hi <= U64_MAX → is_Some (states p !! id) → Forall (λ m, lo <= m <= hi) samples →
  lo <= latency p id <= hi → lo <= latency (observe_all id samples p) id <= hi.
Proof.
  intros Hh Hs Hall. revert p Hs. induction Hall as [|m ms Hm _ IH]; intros p [s Hs] Hl; [done|].
  destruct (latency_observe id m p s Hs) as [He Hs']. rewrite observe_all_cons.
  apply IH; [done|]. rewrite He. apply blend_bounds; auto.
Qed.

Lemma observe_all_closer id m (n : nat) p :
  0 < m → m <= U64_MAX → is_Some (states p !! id) → 0 < latency p id → latency p id <= U64_MAX →
  latency p id <= m + 7 + N.of_nat n → m <= latency p id + 7 + N.of_nat n →
  let q := latency (observe_all id (replicate n m) p) id in q <= m + 7 ∧ m <= q + 7.
Proof.
  intros Hm Hmx. revert p. induction n as [|n IH]; intros p [s Hs] H0 Hx H1 H2; [simpl; lia|].
  destruct (latency_observe id m p s Hs) as [He Hs'].
  rewrite Nat2N.inj_succ in H1, H2.
  destruct (blend_closer _ m (N.of_nat n) Hm Hmx H0 Hx (conj H1 H2)) as (? & ? & ? & ?).
  change (replicate (S n) m) with (m :: replicate n m). rewrite observe_all_cons.
  apply IH; rewrite ?He; done.
Qed.

(** The moving mean is a mean: after any samples of a backend's time to first
    byte, it lies between the least and the greatest of them, and it catches up:
    once a backend settles at [m] microseconds, its mean is within seven of [m]
    after at most as many samples as it was away. *)
Theorem latency_tracks_samples id p s :
  states p !! id = Some s → ewma_micros s = 0 →
  (∀ lo hi samples, samples ≠ [] → Forall (λ m, lo <= m <= hi) samples → hi <= U64_MAX →
    lo <= latency (observe_all id samples p) id <= hi) ∧
  (∀ samples m (n : nat), samples ≠ [] → Forall (λ x, 0 < x <= U64_MAX) samples → 0 < m <= U64_MAX →
    let before := latency (observe_all id samples p) id in
    before <= m + 7 + N.of_nat n → m <= before + 7 + N.of_nat n →
    let after := latency (observe_all id (samples ++ replicate n m) p) id in
    after <= m + 7 ∧ m <= after + 7).
Proof.
  intros Hs H0.
  assert (∀ lo hi samples, samples ≠ [] → Forall (λ m, lo <= m <= hi) samples → hi <= U64_MAX →
    lo <= latency (observe_all id samples p) id <= hi) as Hb.
  { intros lo hi [|m ms] Hne Hall Hh; [done|]. inversion Hall as [|? ? Hm Hms]; subst.
    destruct (latency_observe id m p s Hs) as [He Hs'].
    rewrite observe_all_cons. apply observe_all_bounds; [done..|].
    rewrite He. unfold latency. rewrite Hs. apply blend_bounds; [by left|done|done]. }
  split; [done|]. intros samples m n Hne Hall [Hm Hmx]. cbv zeta. intros H1 H2.
  destruct (Hb 1 U64_MAX samples) as [Hl Hu]; [done|by eapply Forall_impl; [exact Hall|simpl; lia]|done|].
  unfold observe_all at 1 2. rewrite foldl_app. apply observe_all_closer; try done; [|fold (observe_all id samples p); lia].
  clear -Hs. revert p s Hs. induction samples as [|x xs IH]; intros p s Hs; [by eexists|].
  destruct (latency_observe id x p s Hs) as [_ [s' Hs']]. by eapply IH.
Qed.

(** ** The strategies *)

Lemma advance_same p i :
  latency (advance p) i = latency p i ∧ flights (advance p) i = flights p i.
Proof. done. Qed.

(** [best] is the first of the candidates with the least score. *)
Definition least (p : UpstreamPool) (best : option (Backend * N)) (seen : list (option Backend)) : Prop :=
  match best with
  | None => ∀ b, Some b ∉ seen
  | Some (b, s) => Some b ∈ seen ∧ s = score p (id b) ∧ ∀ c, Some c ∈ seen → s <= score p (id c)
  end.

Lemma elem_snoc {A} (x : A) l c : x ∈ l ++ [c] ↔ x ∈ l ∨ x = c.
Proof. by rewrite elem_of_app, list_elem_of_singleton. Qed.

Lemma better_least p best seen c :
  least p best seen → least p (better p best c) (seen ++ [c]).
Proof.
  intros H. unfold better. destruct c as [c|]; [destruct best as [[b s]|]|].
  - simpl in H. destruct H as (Hin & -> & Hmin).
    destruct (N.ltb_spec (score p (id c)) (score p (id b))); simpl; setoid_rewrite elem_snoc.
    + split; [by right|]. split; [done|]. intros d [Hd|[= ->]]; [specialize (Hmin d Hd)|]; lia.
    + split; [by left|]. split; [done|]. intros d [Hd|[= ->]]; [by apply Hmin|done].
  - simpl in *. setoid_rewrite elem_snoc. split; [by right|]. split; [done|].
    intros d [Hd|[= ->]]; [by destruct (H d)|done].
  - destruct best as [[b s]|]; simpl in *; setoid_rewrite elem_snoc; naive_solver.
Qed.

Lemma scan_least {X} p (f : X → option Backend) steps best seen :
  least p best seen →
  least p (foldl (λ best x, better p best (f x)) best steps) (seen ++ (f <$> steps)).
Proof.
  revert best seen. induction steps as [|x xs IH]; intros best seen H.
  - by rewrite fmap_nil, app_nil_r.
  - rewrite fmap_cons, cons_middle, app_assoc. apply IH, better_least, H.
Qed.

(** The candidates a scan looks at are all of them. *)
Lemma scanned {A} (l : list A) o :
  o + N.of_nat (length l) <= two64 →
  (λ s, l !! N.to_nat (wrapping_add o (N.of_nat s) mod N.of_nat (length l))) <$> seq 0 (length l)
  ≡ₚ Some <$> l.
Proof.
  intros Ho. rewrite <-(turns_lookup l (N.to_nat o)).
  match goal with |- ?a ≡ₚ ?b => assert (a = b) as ->; [|done] end. apply list_fmap_ext.
  intros i s Hs. apply lookup_seq in Hs as [-> Hi]. simpl. rewrite turn_index; [done|lia|].
  by destruct l; simpl in Hi; [lia|].
Qed.

Lemma least_loaded_spec pool p :
  pool ≠ [] → cursor p + N.of_nat (length pool) <= two64 →
  ∃ b, (least_loaded pool p).1 = Some b ∧ b ∈ pool ∧ ∀ c, c ∈ pool → score p (id b) <= score p (id c).
Proof.
  intros Hne Ho. unfold least_loaded. simpl.
  pose proof (scan_least (advance p)
    (λ s, pool !! N.to_nat (wrapping_add (cursor p) (N.of_nat s) mod N.of_nat (length pool)))
    (seq 0 (length pool)) None [] ltac:(by intros ? ?%not_elem_of_nil)) as H.
  assert (∀ x, Some x ∈ [] ++ ((λ s, pool !! N.to_nat (wrapping_add (cursor p) (N.of_nat s)
            mod N.of_nat (length pool))) <$> seq 0 (length pool)) ↔ x ∈ pool) as Hm.
  { intros x. simpl. rewrite (scanned pool _ Ho). split; [|by apply list_elem_of_fmap_2].
    by intros (? & [= ->] & ?)%list_elem_of_fmap. }
  destruct (foldl _ _ _) as [[b s]|].
  - destruct H as (Hin & -> & Hmin). exists b. split; [done|]. split; [by apply Hm|].
    intros c Hc. by apply Hmin, Hm.
  - destruct pool as [|c pool]; [done|]. exfalso. apply (H c), Hm. by left.
Qed.

Lemma mod_in_range {A} (l : list A) x : l ≠ [] → ∃ a, l !! N.to_nat (x mod N.of_nat (length l)) = Some a ∧ a ∈ l.
Proof.
  intros Hl. assert (N.of_nat (length l) ≠ 0) as Hn by (destruct l; [done|simpl; lia]).
  pose proof (N.mod_lt x _ Hn). destruct (lookup_lt_is_Some_2 l (N.to_nat (x mod N.of_nat (length l)))) as [a Ha];
    [lia|]. exists a. split; [done|]. by eapply list_elem_of_lookup_2.
Qed.

Lemma least_loaded_in pool p b : (least_loaded pool p).1 = Some b → b ∈ pool.
Proof.
  unfold least_loaded. simpl. intros H.
  pose proof (scan_least (advance p)
    (λ s, pool !! N.to_nat (wrapping_add (cursor p) (N.of_nat s) mod N.of_nat (length pool)))
    (seq 0 (length pool)) None [] ltac:(by intros ? ?%not_elem_of_nil)) as Hl.
  simpl in Hl. destruct (foldl _ _ _) as [[c s]|]; [|done]. simpl in H. injection H as ->.
  destruct Hl as (Hin & _). apply list_elem_of_fmap in Hin as (s' & Hs & _). symmetry in Hs.
  by eapply list_elem_of_lookup_2.
Qed.

Lemma least_loaded_some pool p : pool ≠ [] → is_Some (least_loaded pool p).1.
Proof.
  intros Hne. unfold least_loaded. simpl.
  pose proof (scan_least (advance p)
    (λ s, pool !! N.to_nat (wrapping_add (cursor p) (N.of_nat s) mod N.of_nat (length pool)))
    (seq 0 (length pool)) None [] ltac:(by intros ? ?%not_elem_of_nil)) as Hl.
  simpl in Hl. destruct (foldl _ _ _) as [[c s]|]; [by eexists|]. exfalso.
  destruct (mod_in_range pool (wrapping_add (cursor p) 0) Hne) as (a & Ha & _).
  apply (Hl a). apply list_elem_of_fmap. exists 0%nat. split; [exact (eq_sym Ha)|].
  apply elem_of_seq. destruct pool; [done|simpl; lia].
Qed.

(** Every strategy picks one of the candidates, and touches only the cursor. *)
Lemma pick_in pool path p :
  pool ≠ [] → ∃ b, (pick pool path p).1 = Some b ∧ b ∈ pool.
Proof.
  intros Hne. unfold pick. assert (N.of_nat (length pool) ≠ 0) as Hn%N.eqb_neq.
  { destruct pool; [done|simpl; lia]. }
  rewrite Hn. destruct (strategy p); simpl; [by apply mod_in_range..|].
  destruct (least_loaded_some pool p Hne) as [b Hb]. exists b. split; [done|].
  by eapply least_loaded_in.
Qed.

Lemma pick_states pool path p :
  states (pick pool path p).2 = states p ∧ backends (pick pool path p).2 = backends p
  ∧ max_ejected (pick pool path p).2 = max_ejected p.
Proof. unfold pick. destruct (_ =? 0); [done|]. by destruct (strategy p). Qed.

(** A counter that moves on by one selects the entries of a list in turn. *)
Fixpoint in_turn {A} (n : nat) (l : list A) (o : N) : list (option A) :=
  match n with
  | O => []
  | S n => l !! N.to_nat (o mod N.of_nat (length l)) :: in_turn n l (wrapping_add o 1)
  end.

Lemma in_turn_eq {A} n (l : list A) o :
  o + N.of_nat n <= two64 →
  in_turn n l o = (λ s, l !! N.to_nat (wrapping_add o (N.of_nat s) mod N.of_nat (length l))) <$> seq 0 n.
Proof.
  revert o. induction n as [|n IH]; intros o Hr; [done|].
  change (seq 0 (S n)) with (0%nat :: seq 1 n). rewrite fmap_cons, <-fmap_S_seq. cbn [in_turn]. f_equal.
  - assert (wrapping_add o (N.of_nat 0) = o) as ->; [|done].
    unfold wrapping_add. change (N.of_nat 0) with 0. rewrite N.add_0_r. apply N.mod_small. lia.
  - rewrite (IH (wrapping_add o 1)).
    + rewrite <-list_fmap_compose. apply list_fmap_ext. intros i s Hi.
      apply lookup_seq in Hi as [-> Hi]. unfold compose. f_equal. f_equal. f_equal.
      unfold wrapping_add. rewrite N.Div0.add_mod_idemp_l. f_equal. lia.
    + destruct (decide (n = 0%nat)) as [->|]; [pose proof (wrapping_add_bound o 1); rewrite two64_eq; lia|].
      rewrite wrapping_add_small by (rewrite two64_eq in Hr; lia). lia.
Qed.

Lemma in_turn_fair {A} (l : list A) o :
  o + N.of_nat (length l) <= two64 → in_turn (length l) l o ≡ₚ Some <$> l.
Proof. intros Ho. rewrite in_turn_eq by done. by apply scanned. Qed.

(** [n] picks in a row from the same candidates, with nothing in between, and
    [n] connections in a row to one backend. *)
Fixpoint picks (n : nat) (pool : list Backend) (path : string) (p : UpstreamPool) : list (option Backend) :=
  match n with
  | O => []
  | S n => let '(b, p') := pick pool path p in b :: picks n pool path p'
  end.

Fixpoint connections (n : nat) (b : Backend) : list (option SocketAddr) :=
  match n with
  | O => []
  | S n => let '(a, b') := socket_for None b in a :: connections n b'
  end.

Lemma nonempty_length {A} (l : list A) : l ≠ [] → (N.of_nat (length l) =? 0) = false.
Proof. intros Hl. apply N.eqb_neq. destruct l; [done|simpl; lia]. Qed.

Lemma picks_in_turn n pool path p :
  strategy p = RoundRobin → pool ≠ [] → picks n pool path p = in_turn n pool (cursor p).
Proof.
  intros Hs Hne. revert p Hs. induction n as [|n IH]; intros p Hs; [done|].
  cbn [picks in_turn]. unfold pick. rewrite nonempty_length, Hs by done. f_equal. by apply IH.
Qed.

Lemma socket_in_turn b :
  sockets b ≠ [] →
  socket_for None b = (sockets b !! N.to_nat (rotation b mod N.of_nat (length (sockets b))),
    mkBackend (id b) (address b) (sockets b) (wrapping_add (rotation b) 1)).
Proof.
  intros Hne. unfold socket_for. pose proof (nonempty_length _ Hne) as Hn%N.eqb_neq.
  rewrite N.max_l by lia. pose proof (N.mod_lt (rotation b) _ Hn).
  destruct (sockets b) as [|a l] eqn:E; [done|]. rewrite Nat.min_l by (simpl in *; lia). done.
Qed.

Lemma connections_in_turn n b :
  sockets b ≠ [] → connections n b = in_turn n (sockets b) (rotation b).
Proof.
  revert b. induction n as [|n IH]; intros b Hne; [done|]. cbn [connections in_turn].
  rewrite socket_in_turn by done. f_equal. by rewrite IH.
Qed.

(** Turns are fair: under [round_robin], as many picks in a row as there are
    candidates reach each candidate once; and as many connections in a row as a
    backend's name has addresses reach each address once. *)
Theorem turns_are_fair :
  (∀ pool path p, strategy p = RoundRobin → pool ≠ [] → cursor p + N.of_nat (length pool) <= two64 →
     picks (length pool) pool path p ≡ₚ Some <$> pool) ∧
  (∀ b, sockets b ≠ [] → rotation b + N.of_nat (length (sockets b)) <= two64 →
     connections (length (sockets b)) b ≡ₚ Some <$> sockets b).
Proof.
  split.
  - intros pool path p Hs Hne Hr. rewrite picks_in_turn by done. by apply in_turn_fair.
  - intros b Hne Hr. rewrite connections_in_turn by done. by apply in_turn_fair.
Qed.

(** [least_loaded] sends a request where it is expected to wait least: to one
    of the candidates, and to one no other candidate scores below. *)
Theorem least_loaded_is_minimal pool path p :
  strategy p = LeastLoaded → pool ≠ [] → cursor p + N.of_nat (length pool) <= two64 →
  ∃ b, (pick pool path p).1 = Some b ∧ b ∈ pool ∧ ∀ c, c ∈ pool → score p (id b) <= score p (id c).
Proof.
  intros Hs Hne Hr. unfold pick. rewrite nonempty_length, Hs by done. by apply least_loaded_spec.
Qed.

(** ** The layers of [select] *)

Record pool_ok (p : UpstreamPool) : Prop := mkPoolOk {
  one_state_each : length (states p) = length (backends p);
  indexed : ∀ i b, backends p !! i = Some b → id b = i ∧ sockets b ≠ [];
  breaking : max_ejected p ≠ 0 → ∀ i s, states p !! i = Some s → Breakers.enabled (breaker s) = true }.

Lemma update_id id f p : (∀ s, states p !! id = Some s → f s = s) → update id f p = p.
Proof.
  intros H. destruct p as [bs ss st c m]. unfold update; simpl in *. f_equal.
  apply list_eq. intros i. destruct (decide (i = id)) as [->|].
  - rewrite list_lookup_alter_eq. destruct (ss !! id) eqn:E; [|done]. simpl. by rewrite H.
  - by rewrite list_lookup_alter_ne.
Qed.

(** An ejected backend that may not be probed yet. *)
Definition denied (now : N) (p : UpstreamPool) (b : Backend) : Prop :=
  ∃ s, states p !! id b = Some s ∧ now < open_until_ms (breaker s).

Definition ejected_ok (p : UpstreamPool) (b : Backend) : Prop :=
  ∃ s, states p !! id b = Some s ∧ Breakers.enabled (breaker s) = true ∧ open_until_ms (breaker s) ≠ 0.

Lemma allowance_open now br :
  Breakers.enabled br = true → open_until_ms br ≠ 0 →
  (now < open_until_ms br ∧ allowance now br = (Denied, br)) ∨
  (open_until_ms br <= now ∧ ∃ token br', allowance now br = (Probe token, br')).
Proof.
  intros He Hu. unfold allowance. rewrite He, (proj2 (N.eqb_neq _ _) Hu). simpl.
  destruct (N.ltb_spec now (open_until_ms br)); [by left|right]. split; [done|]. by do 2 eexists.
Qed.

Lemma spend_probe_spec now l p :
  Forall (ejected_ok p) l →
  match spend_probe now l p with
  | (Some sel, p') => ∃ token s br,
      backend sel ∈ l ∧ probe sel = Some token ∧ states p !! id (backend sel) = Some s ∧
      allowance now (breaker s) = (Probe token, br) ∧ p' = set_breaker (id (backend sel)) br p
  | (None, p') => p' = p ∧ Forall (denied now p) l
  end.
Proof.
  induction l as [|b l IH]; intros Hall; [by split|].
  apply Forall_cons in Hall as [(s & Hs & He & Hu) Hall]. simpl. rewrite Hs.
  destruct (allowance_open now (breaker s) He Hu) as [[Hlt Ha]|[_ (token & br & Ha)]]; rewrite Ha.
  - assert (set_breaker (id b) (breaker s) p = p) as ->.
    { apply update_id. intros s'. rewrite Hs. intros [= <-]. by destruct s. }
    specialize (IH Hall). destruct (spend_probe now l p) as [[sel|] p'].
    + destruct IH as (token & s' & br & Hin & IH). exists token, s', br. split; [by right|done].
    + destruct IH as [-> IH]. split; [done|]. constructor; [|done]. by exists s.
  - exists token, s, br. split; [by left|done].
Qed.

Lemma ejected_are_ok p : pool_ok p → max_ejected p ≠ 0 → Forall (ejected_ok p) (ejected_backends p).
Proof.
  intros Hok Hm. apply Forall_forall. intros b Hb. unfold ejected_backends in Hb.
  apply list_elem_of_filter in Hb as [Ho _]. unfold breaker_state in Ho.
  destruct (states p !! id b) as [s|] eqn:E; [|done]. exists s. split; [done|].
  split; [by eapply breaking|by apply open_spec].
Qed.

Lemma healthy_in p b : b ∈ healthy_backends p → b ∈ backends p ∧ is_healthy p (id b) = true.
Proof. intros H. by apply list_elem_of_filter in H as [? ?]. Qed.

(** Ordinary traffic goes to one of the candidates. *)
Lemma ordinary_pick l path p : l ≠ [] →
  ∃ b p', ordinary (pick l path p) = (Some (mkSelected b None), p') ∧ b ∈ l.
Proof.
  intros Hne. destruct (pick_in l path p Hne) as (b & Hb & Hin). unfold ordinary. rewrite Hb. by do 2 eexists.
Qed.

(** What a selection owes to the three signals. *)
Definition honours (now : N) (p : UpstreamPool) (sel : SelectedBackend) (p' : UpstreamPool) : Prop :=
  let b := backend sel in
  b ∈ backends p ∧
  (healthy_backends p ≠ [] → is_healthy p (id b) = true) ∧
  match probe sel with
  | Some token =>
      b ∈ ejected_backends p ∧ max_ejected p ≠ 0 ∧
      ∃ s br, states p !! id b = Some s ∧ open_until_ms (breaker s) <= now ∧
        allowance now (breaker s) = (Probe token, br) ∧ p' = set_breaker (id b) br p
  | None =>
      (max_ejected p ≠ 0 → Forall (denied now p) (ejected_backends p)) ∧
      (breaker_state p (id b) = Open →
         healthy_backends p = [] ∨ max_ejected p = 0 ∨
         max_ejected p < N.of_nat (length (ejected_backends p)) ∨ available_backends p = [])
  end.

(** C28: A pool with a backend always serves, and the choice honours the three
    signals in order.  A backend failing its probe is chosen only when all are;
    an ejected one is chosen as ordinary traffic only when breaking is off, more
    are ejected than the configured share, or no healthy one is left; and it is
    given a recovery probe exactly when its period is over, before any other
    traffic is placed. *)
Theorem select_honours_signals path now p :
  pool_ok p →
  match select_at path now p with
  | (None, _) => backends p = []
  | (Some sel, p') => honours now p sel p'
  end.
Proof.
  intros Hok. unfold select_at. case_bool_decide as Hb; [done|]. case_bool_decide as Hh.
  { destruct (ordinary_pick (backends p) path p Hb) as (b & p' & -> & Hin). unfold honours. cbn [backend probe].
    unfold ejected_backends. rewrite Hh. split_and!; [done..|by intros; constructor|by left]. }
  assert (∀ l b p', l ≠ [] → (∀ b, b ∈ l → b ∈ healthy_backends p) →
    (max_ejected p ≠ 0 → Forall (denied now p) (ejected_backends p)) →
    (b ∈ l → breaker_state p (id b) = Open → max_ejected p = 0 ∨
         max_ejected p < N.of_nat (length (ejected_backends p)) ∨ available_backends p = []) →
    b ∈ l → honours now p (mkSelected b None) p') as Hord.
  { intros l b p' _ Hl Hd Ho Hin. pose proof (healthy_in _ _ (Hl _ Hin)) as Hbh. unfold honours; cbn [backend probe].
    split_and!; [apply Hbh|intros _; apply Hbh|done|]. intros Hopen. right. by apply Ho. }
  destruct (N.eqb_spec (max_ejected p) 0) as [Hm|Hm].
  { destruct (ordinary_pick (healthy_backends p) path p Hh) as (b & p' & -> & Hin).
    apply (Hord (healthy_backends p)); auto. by intros. }
  pose proof (spend_probe_spec now _ p (ejected_are_ok p Hok Hm)) as Hsp.
  destruct (spend_probe now (ejected_backends p) p) as [[sel|] p1].
  { destruct Hsp as (token & s & br & Hin & Hpr & Hs & Ha & ->). unfold honours. rewrite Hpr.
    assert (backend sel ∈ healthy_backends p) as Hbh by by apply list_elem_of_filter in Hin as [_ ?].
    apply healthy_in in Hbh as [? ?]. split_and!; try done. exists s, br. split_and!; try done.
    by apply allowance_probe in Ha as (_ & _ & ? & _). }
  destruct Hsp as [-> Hd]. destruct (N.ltb_spec (max_ejected p) (N.of_nat (length (ejected_backends p)))).
  { destruct (ordinary_pick (healthy_backends p) path p Hh) as (b & p' & -> & Hin).
    apply (Hord (healthy_backends p)); auto. }
  case_bool_decide as Hav.
  { destruct (ordinary_pick (healthy_backends p) path p Hh) as (b & p' & -> & Hin).
    apply (Hord (healthy_backends p)); auto. }
  destruct (ordinary_pick (available_backends p) path p Hav) as (b & p' & -> & Hin).
  apply (Hord (available_backends p)); auto.
  - by intros c [_ ?]%list_elem_of_filter.
  - intros [Hc _]%list_elem_of_filter. congruence.
Qed.

(** ** Whole runs

    The pool, the selections that were made and the guards that are held.  Each
    method is a step at a time that does not go back; a result is recorded for a
    guard that is held. *)

Record Run := mkRun { pool : UpstreamPool; chosen : list SelectedBackend; guards : list InFlightGuard }.

Inductive pool_step (now : N) : Run → Run → Prop :=
| do_select r path sel p :
    select_at path now (pool r) = (Some sel, p) →
    pool_step now r (mkRun p (sel :: chosen r) (guards r))
| do_enter r sel :
    sel ∈ chosen r →
    let '(g, p) := enter_selected sel (pool r) in
    pool_step now r (mkRun p (chosen r) (g :: guards r))
| do_outcome r g ok :
    g ∈ guards r →
    pool_step now r
      (mkRun (record_outcome now (backend_id g) (probe_token g) ok (pool r)) (chosen r) (guards r))
| do_drop r (i : nat) g :
    guards r !! i = Some g →
    pool_step now r (mkRun (drop_guard g (pool r)) (chosen r) (delete i (guards r)))
| do_latency r id micros :
    pool_step now r (mkRun (observe_latency id micros (pool r)) (chosen r) (guards r))
| do_health r id h :
    pool_step now r (mkRun (set_healthy id h (pool r)) (chosen r) (guards r))
| do_refresh r dns :
    pool_step now r (mkRun (refresh_all dns (pool r)).2 (chosen r) (guards r)).

(** [n] steps, the last at time [last]. *)
Inductive pool_run (p0 : UpstreamPool) : Run → N → N → Prop :=
| run_start : pool_run p0 (mkRun p0 [] []) 0 0
| run_step r n last now r' :
    pool_run p0 r n last → last <= now → pool_step now r r' → pool_run p0 r' (n + 1) now.

Definition held (id : nat) (gs : list InFlightGuard) : N :=
  N.of_nat (length (filter (λ g, backend_id g = id) gs)).

(** What holds of each backend's state: its slots are the guards held, and its
    breaker is one that has lived through at most [n] events. *)
Record state_ok (cfg : Schema.Breaker.Breaker) (n last : N) (gs : list InFlightGuard)
    (id : nat) (s : BackendState) : Prop := mkStateOk {
  slots_held : in_flight s = held id gs;
  breaker_lives : ∃ log t, lives cfg (breaker s) log t ∧ t <= last ∧
                    N.of_nat (length log) <= n ∧ next_probe (breaker s) <= n }.

(** A probe token that travels was handed out by its backend's breaker. *)
Definition token_ok (p : UpstreamPool) (id : nat) (probe : option ProbeToken) : Prop :=
  match probe with
  | None => True
  | Some t => ∀ s, states p !! id = Some s → 1 <= t ∧ t <= next_probe (breaker s)
  end.

Record run_ok (cfg : Schema.Breaker.Breaker) (n last : N) (r : Run) : Prop := mkRunOk {
  run_pool_ok : pool_ok (pool r);
  run_states : ∀ id s, states (pool r) !! id = Some s → state_ok cfg n last (guards r) id s;
  run_chosen : Forall (λ sel, token_ok (pool r) (id (backend sel)) (probe sel)) (chosen r);
  run_guards : Forall (λ g, token_ok (pool r) (backend_id g) (probe_token g)) (guards r);
  run_held : N.of_nat (length (guards r)) <= n }.

Lemma ordinary_effect l path p sel p' :
  ordinary (pick l path p) = (Some sel, p') →
  probe sel = None ∧ states p' = states p ∧ backends p' = backends p ∧ max_ejected p' = max_ejected p.
Proof.
  unfold ordinary. pose proof (pick_states l path p) as Hp. destruct (pick l path p) as [[b|] p1]; [|done].
  simpl. intros [= <- <-]. done.
Qed.

Lemma select_effect path now p sel p' :
  pool_ok p → select_at path now p = (Some sel, p') →
  backends p' = backends p ∧ max_ejected p' = max_ejected p ∧
  match probe sel with
  | None => states p' = states p
  | Some token => ∃ s br, states p !! id (backend sel) = Some s ∧
      allowance now (breaker s) = (Probe token, br) ∧
      states p' = states (set_breaker (id (backend sel)) br p)
  end.
Proof.
  intros Hok. unfold select_at. case_bool_decide; [done|].
  assert (∀ l, ordinary (pick l path p) = (Some sel, p') →
    backends p' = backends p ∧ max_ejected p' = max_ejected p ∧
    match probe sel with
    | None => states p' = states p
    | Some token => ∃ s br, states p !! id (backend sel) = Some s ∧
        allowance now (breaker s) = (Probe token, br) ∧
        states p' = states (set_breaker (id (backend sel)) br p)
    end) as Hord.
  { intros l H'. apply ordinary_effect in H' as (-> & -> & -> & ->). done. }
  case_bool_decide; [by apply Hord|]. destruct (N.eqb_spec (max_ejected p) 0) as [|Hm]; [by apply Hord|].
  pose proof (spend_probe_spec now _ p (ejected_are_ok p Hok Hm)) as Hsp.
  destruct (spend_probe now (ejected_backends p) p) as [[sel'|] p1].
  - intros [= <- <-]. destruct Hsp as (token & s & br & _ & -> & Hs & Ha & ->).
    split; [done|]. split; [done|]. by exists s, br.
  - destruct Hsp as [-> _]. destruct (_ <? _); [by apply Hord|]. case_bool_decide; by apply Hord.
Qed.

(** ** Breakers over a run *)

Definition evolves (now : N) (b b' : Breaker) : Prop := b' = b ∨ ∃ e, bstep now b e b'.

Lemma next_probe_step now b e b' :
  bstep now b e b' → next_probe b <= next_probe b' ∧ next_probe b' <= next_probe b + 1.
Proof.
  destruct 1 as [b a b' Hn Ha|b ok|b token ok _ _].
  - unfold allowance in Ha. destruct (negb (Breakers.enabled b)); [injection Ha as _ <-; lia|].
    destruct (_ =? _); [injection Ha as _ <-; lia|]. destruct (_ <? _); injection Ha as _ <-; [lia|].
    simpl. rewrite wrapping_add_small; lia.
  - unfold Breakers.record_outcome. destruct (negb _); [lia|]. destruct (negb _); [lia|].
    destruct (negb ok); [|simpl; lia]. unfold trip_if_over_threshold. destruct (totals _ _).
    destruct (_ <? _); [simpl; lia|]. destruct (_ <? _); [simpl; lia|]. destruct (_ =? _); simpl; lia.
  - unfold record_probe. destruct (negb _); [lia|]. destruct (negb _); [lia|]. destruct ok; simpl; lia.
Qed.

Lemma log_after_length now b e b' log :
  N.of_nat (length (log_after now b e b' log)) <= N.of_nat (length log) + 1.
Proof.
  destruct e as [a|ok|token ok]; simpl; [lia|..]; destruct (state b), (state b'); cbn [length]; lia.
Qed.

Definition breaker_ok (cfg : Schema.Breaker.Breaker) (n last : N) (b : Breaker) : Prop :=
  ∃ log t, lives cfg b log t ∧ t <= last ∧ N.of_nat (length log) <= n ∧ next_probe b <= n.

Lemma breaker_evolves cfg n last now b b' :
  breaker_ok cfg n last b → last <= now → n < U32_MAX → evolves now b b' → breaker_ok cfg (n + 1) now b'.
Proof.
  unfold U32_MAX. intros (log & t & Hl & Ht & Hlen & Hn) Hnow Hmax [->|[e Hs]].
  - exists log, t. repeat split; [done|lia..].
  - exists (log_after now b e b' log), now. pose proof (next_probe_step _ _ _ _ Hs).
    pose proof (log_after_length now b e b' log). split_and!; [|lia..].
    eapply lives_step; [exact Hl|lia|apply fits_short; lia|done].
Qed.

(** What a step does to the states, slots apart. *)
Record steady (now : N) (p p' : UpstreamPool) : Prop := mkSteady {
  same_max : max_ejected p' = max_ejected p;
  same_length : length (states p') = length (states p);
  same_backends : length (backends p') = length (backends p);
  same_indexed : (∀ i b, backends p !! i = Some b → id b = i ∧ sockets b ≠ []) →
                 ∀ i b, backends p' !! i = Some b → id b = i ∧ sockets b ≠ [];
  each_evolves : ∀ i s', states p' !! i = Some s' →
                 ∃ s, states p !! i = Some s ∧ evolves now (breaker s) (breaker s') }.

Lemma steady_states now p p' :
  states p' = states p → backends p' = backends p → max_ejected p' = max_ejected p → steady now p p'.
Proof.
  intros H1 H2 H3. split; rewrite ?H1, ?H2; try done. intros i s' Hs. exists s'. split; [done|by left].
Qed.

Lemma steady_update now id f p :
  (∀ s, states p !! id = Some s → evolves now (breaker s) (breaker (f s))) → steady now p (update id f p).
Proof.
  intros Hf. split; try done; [apply states_length|].
  intros i s'. rewrite states_update. case_decide as Hi; subst.
  - destruct (states p !! id) as [s|]; [|done]. intros [= <-]. exists s. by split; [|apply Hf].
  - destruct (states p !! i) as [s|]; [|done]. intros [= <-]. exists s. by split; [|left].
Qed.

Lemma pool_ok_steady now p p' :
  pool_ok p → steady now p p' →
  (∀ i s', states p' !! i = Some s' → ∀ s, states p !! i = Some s → Breakers.enabled (breaker s') = Breakers.enabled (breaker s)) →
  pool_ok p'.
Proof.
  intros [H1 H2 H3] [S1 S2 S3 S4 S5] He. split.
  - congruence.
  - by apply S4.
  - intros Hm i s' Hs'. destruct (S5 i s' Hs') as (s & Hs & _).
    rewrite (He i s' Hs' s Hs). apply (H3 ltac:(congruence) i s Hs).
Qed.

Lemma evolves_enabled now b b' : evolves now b b' → Breakers.enabled b' = Breakers.enabled b.
Proof. intros [->|[e Hs]]; [done|]. pose proof (step_settings _ _ _ _ Hs) as H. by injection H. Qed.

Lemma evolves_probe now b b' : evolves now b b' → next_probe b <= next_probe b'.
Proof. intros [->|[e Hs]]; [done|]. by apply next_probe_step in Hs as [? _]. Qed.

Lemma token_steady now p p' i t : steady now p p' → token_ok p i t → token_ok p' i t.
Proof.
  intros Hs. destruct t as [t|]; [|done]. simpl. intros Ht s' Hs'.
  destruct (each_evolves _ _ _ Hs _ _ Hs') as (s & Hs0 & He). apply evolves_probe in He.
  destruct (Ht s Hs0). lia.
Qed.

(** ** Refreshing addresses *)

Lemma refresh_same dns b :
  id (refresh dns b).2 = id b ∧ address (refresh dns b).2 = address b ∧ rotation (refresh dns b).2 = rotation b.
Proof. unfold refresh. destruct (resolve dns (address b)); [|done]. by case_decide. Qed.

Lemma refresh_sockets dns b :
  sockets b ≠ [] → sockets (refresh dns b).2 ≠ [].
Proof.
  unfold refresh. destruct (resolve dns (address b)) as [l|e] eqn:E; [|done].
  apply resolve_ok in E as (? & _). by case_decide.
Qed.

Definition indexed_by (bs : list Backend) : Prop :=
  ∀ i b, bs !! i = Some b → id b = i ∧ sockets b ≠ [].

Definition refresh_one (dns : Backend → option Lookup) (acc : N * UpstreamPool) (b : Backend) : N * UpstreamPool :=
  match dns b with
  | None => acc
  | Some lookup =>
      match refresh lookup b with
      | (Ok true, b') => (acc.1 + 1, set_backend b' acc.2)
      | (_, b') => (acc.1, set_backend b' acc.2)
      end
  end.

Lemma refresh_one_pool dns acc b :
  (refresh_one dns acc b).2 = acc.2 ∨
  ∃ lookup, dns b = Some lookup ∧ (refresh_one dns acc b).2 = set_backend (refresh lookup b).2 acc.2.
Proof.
  unfold refresh_one. destruct (dns b) as [lookup|]; [|by left]. right. exists lookup. split; [done|].
  by destruct (refresh lookup b) as [[[]|] b'].
Qed.

Lemma refresh_all_eq dns p : refresh_all dns p = foldl (refresh_one dns) (0, p) (backends p).
Proof. done. Qed.

Lemma refresh_states dns p : states (refresh_all dns p).2 = states p.
Proof.
  rewrite refresh_all_eq. change (states p) with (states (0, p).2). generalize (0, p). intros acc. generalize (backends p). intros l.
  revert acc. induction l as [|b l IH]; intros acc; [done|]. cbn [foldl]. rewrite IH.
  destruct (refresh_one_pool dns acc b) as [->|(lookup & _ & ->)]; done.
Qed.

Lemma refresh_all_shape dns l acc :
  Forall (λ b, sockets b ≠ []) l →
  let p' := (foldl (refresh_one dns) acc l).2 in
  states p' = states acc.2 ∧ max_ejected p' = max_ejected acc.2 ∧
  length (backends p') = length (backends acc.2) ∧
  (indexed_by (backends acc.2) → indexed_by (backends p')).
Proof.
  intros Hl. revert acc. induction Hl as [|b l Hb _ IH]; intros acc; [done|]. simpl.
  destruct (IH (refresh_one dns acc b)) as (-> & -> & -> & Hi).
  destruct (refresh_one_pool dns acc b) as [E|(lookup & _ & E)].
  - rewrite E in *. done.
  - rewrite E in *. split; [done|]. split; [done|]. split; [apply length_insert|].
    intros Hx. apply Hi. intros i c Hc. destruct (refresh_same lookup b) as (Hid & _).
    pose proof (refresh_sockets lookup b Hb) as Hne. simpl in Hc.
    apply list_lookup_insert_Some in Hc as [(<- & <- & _)|(_ & Hc)]; [by split|by apply Hx].
Qed.

Lemma refresh_steady now dns p : pool_ok p → steady now p (refresh_all dns p).2.
Proof.
  intros Hok. rewrite refresh_all_eq.
  assert (Forall (λ b, sockets b ≠ []) (backends p)) as Hall.
  { apply Forall_lookup. intros i b Hb. by eapply indexed. }
  destruct (refresh_all_shape dns _ (0, p) Hall) as (H1 & H2 & H3 & H4). simpl in *.
  split; [done|by rewrite H1|done|done|].
  intros i s' Hs. rewrite H1 in Hs. exists s'. split; [done|by left].
Qed.

(** ** The books over a run *)

Definition slots (gs gs' : list InFlightGuard) (p p' : UpstreamPool) : Prop :=
  ∀ i s s', states p !! i = Some s → states p' !! i = Some s' →
    in_flight s = held i gs → in_flight s' = held i gs'.

Lemma slots_same gs p p' :
  (∀ i s s', states p !! i = Some s → states p' !! i = Some s' → in_flight s' = in_flight s) →
  slots gs gs p p'.
Proof. intros H i s s' Hs Hs' <-. by eapply H. Qed.

Lemma slots_update gs id f p :
  (∀ s, in_flight (f s) = in_flight s) → slots gs gs p (update id f p).
Proof.
  intros Hf. apply slots_same. intros i s s' Hs. rewrite states_update, Hs. intros [= <-].
  by case_decide.
Qed.

Lemma held_cons i g gs : held i (g :: gs) = (if decide (backend_id g = i) then 1 else 0) + held i gs.
Proof. unfold held. rewrite filter_cons. case_decide; cbn [length]; lia. Qed.

Lemma held_delete i j g gs :
  gs !! j = Some g → held i gs = (if decide (backend_id g = i) then 1 else 0) + held i (delete j gs).
Proof.
  intros H. rewrite <-held_cons. unfold held. f_equal. apply Permutation_length, filter_Permutation.
  by apply delete_Permutation.
Qed.

Lemma held_le i gs : held i gs <= N.of_nat (length gs).
Proof. unfold held. pose proof (length_filter (λ g, backend_id g = i) gs). lia. Qed.

Lemma slots_enter gs sel p :
  N.of_nat (length gs) < U64_MAX →
  slots gs ((enter_selected sel p).1 :: gs) p (enter_selected sel p).2.
Proof.
  intros Hm i s s' Hs. unfold enter_selected, enter_attempt. cbn [fst snd].
  rewrite states_update, Hs, held_cons. simpl. intros [= <-] Hh. pose proof (held_le i gs).
  destruct (decide (i = id (backend sel))) as [->|Hne].
  - rewrite decide_True by done. simpl. rewrite Hh, wrapping_add_small by lia. lia.
  - by rewrite decide_False.
Qed.

Lemma slots_drop gs j g p :
  gs !! j = Some g → N.of_nat (length gs) < U64_MAX → slots gs (delete j gs) p (drop_guard g p).
Proof.
  intros Hj Hm i s s' Hs. unfold drop_guard. rewrite states_update, Hs. intros [= <-] Hh.
  pose proof (held_le i gs). pose proof (held_delete i j g gs Hj) as Hd.
  destruct (decide (i = backend_id g)) as [->|Hne].
  - rewrite decide_True in Hd by done. simpl. rewrite wrapping_sub_small; lia.
  - rewrite decide_False in Hd by done. simpl. lia.
Qed.

Lemma run_ok_next cfg n last now r r' :
  run_ok cfg n last r → last <= now → n < U32_MAX →
  steady now (pool r) (pool r') → slots (guards r) (guards r') (pool r) (pool r') →
  (∀ sel, sel ∈ chosen r' → sel ∈ chosen r ∨ token_ok (pool r') (id (backend sel)) (probe sel)) →
  (∀ g, g ∈ guards r' → g ∈ guards r ∨ token_ok (pool r') (backend_id g) (probe_token g)) →
  N.of_nat (length (guards r')) <= N.of_nat (length (guards r)) + 1 →
  run_ok cfg (n + 1) now r'.
Proof.
  intros [H1 H2 H3 H4 H5] Hnow Hn Hst Hsl Hc Hg Hlen. split.
  - eapply pool_ok_steady; [done|exact Hst|]. intros i s' Hs' s Hs.
    destruct (each_evolves _ _ _ Hst _ _ Hs') as (s0 & Hs0 & He). simplify_eq. by eapply evolves_enabled.
  - intros i s' Hs'. destruct (each_evolves _ _ _ Hst _ _ Hs') as (s & Hs & He).
    destruct (H2 _ _ Hs) as [Hf Hb]. split; [by eapply Hsl|]. by eapply breaker_evolves.
  - apply Forall_forall. intros sel Hin. destruct (Hc sel Hin) as [Ho|]; [|done].
    eapply token_steady; [exact Hst|]. by apply (proj1 (Forall_forall _ _) H3).
  - apply Forall_forall. intros g Hin. destruct (Hg g Hin) as [Ho|]; [|done].
    eapply token_steady; [exact Hst|]. by apply (proj1 (Forall_forall _ _) H4).
  - lia.
Qed.

Lemma select_steady path now p sel p' n :
  pool_ok p → (∀ i s, states p !! i = Some s → next_probe (breaker s) <= n) → n < U32_MAX →
  select_at path now p = (Some sel, p') →
  steady now p p' ∧ token_ok p' (id (backend sel)) (probe sel) ∧
  (∀ i s s', states p !! i = Some s → states p' !! i = Some s' → in_flight s' = in_flight s).
Proof.
  intros Hok Hn Hmax Hsel. apply select_effect in Hsel as (Hb & Hm & He); [|done].
  destruct (probe sel) as [token|]; simpl.
  - destruct He as (s & br & Hs & Ha & Hst).
    assert (next_probe (breaker s) < U64_MAX) as Hlt by (pose proof (Hn _ _ Hs); unfold U32_MAX, U64_MAX in *; lia).
    assert (steady now p (set_breaker (id (backend sel)) br p)) as [S1 S2 S3 S4 S5].
    { apply steady_update. intros s' Hs'. simplify_eq. right. exists (Allow (Probe token)). by constructor. }
    split; [split; rewrite ?Hst, ?Hb, ?Hm; done|]. unfold set_breaker in Hst. split.
    + intros s'. rewrite Hst, states_update, decide_True, Hs by done. intros [= <-]. simpl.
      apply allowance_probe in Ha as (_ & _ & _ & -> & ->). simpl. rewrite wrapping_add_small; lia.
    + intros i s1 s2 Hs1. rewrite Hst, states_update, Hs1. intros [= <-]. by case_decide.
  - split; [by apply steady_states|]. split; [done|]. intros i s s' Hs. rewrite He. congruence.
Qed.

Lemma run_ok_step cfg n last now r r' :
  run_ok cfg n last r → last <= now → n < U32_MAX → pool_step now r r' → run_ok cfg (n + 1) now r'.
Proof.
  intros Hok Hnow Hn Hs. pose proof Hok as [H1 H2 H3 H4 H5].
  assert (N.of_nat (length (guards r)) < U64_MAX) as Hgl by (unfold U32_MAX, U64_MAX in *; lia).
  assert (∀ i s, states (pool r) !! i = Some s → next_probe (breaker s) <= n) as Hnp.
  { intros i s Hi. by destruct (H2 i s Hi) as [_ (? & ? & ? & ? & ? & ?)]. }
  destruct Hs as [r path sel p Hsel|r sel Hin|r g ok Hin|r i g Hi|r id micros|r id h|r dns];
    simpl in *; (eapply run_ok_next; [exact Hok|done|done|..]; simpl; [..|try lia]); auto.
  - by eapply select_steady.
  - apply slots_same. by eapply select_steady.
  - intros sel' [->|?]%elem_of_cons; [right|by left].
    by eapply select_steady.
  - apply steady_update. by left.
  - by apply slots_enter.
  - intros g [->|?]%elem_of_cons; [right|by left]. simpl.
    apply (token_steady now (pool r)); [apply steady_update; by left|].
    by apply (proj1 (Forall_forall _ _) H3).
  - apply steady_update. intros s Hs. right. simpl.
    pose proof (proj1 (Forall_forall _ _) H4 g Hin) as Ht. simpl in Ht. destruct (probe_token g) as [t|].
    + exists (ProbeResult t ok). destruct (Ht s Hs). by apply step_probe.
    + exists (Outcome ok). constructor.
  - by apply slots_update.
  - apply steady_update. by left.
  - by apply slots_drop.
  - intros g' Hg'. left. by eapply list_elem_of_delete_inv.
  - rewrite length_delete by done. lia.
  - apply steady_update. by left.
  - by apply slots_update.
  - apply steady_update. by left.
  - by apply slots_update.
  - by apply refresh_steady.
  - apply slots_same. intros i s s' Hs. rewrite refresh_all_eq.
    destruct (refresh_all_shape dns (backends (pool r)) (0, pool r)) as (-> & _); [|simpl; congruence].
    apply Forall_lookup. intros j b Hb. by eapply indexed.
Qed.

Lemma new_backends_ok dns n addresses bs :
  new_backends dns n addresses = Ok bs →
  length bs = length addresses ∧
  ∀ i b, bs !! i = Some b → id b = (n + i)%nat ∧ sockets b ≠ [] ∧ NoDup (sockets b) ∧ addresses !! i = Some (address b).
Proof.
  revert n bs. induction addresses as [|a rest IH]; intros n bs H; [injection H as <-; by split|].
  simpl in H. apply bind_ok in H as (b0 & Hb0 & H). apply bind_ok in H as (bs' & Hbs & [= <-]).
  unfold new_backend in Hb0. apply bind_ok in Hb0 as (l & Hl & [= <-]).
  apply resolve_ok in Hl as (Hne & Hnd & _). destruct (IH _ _ Hbs) as [Hlen Hi].
  split; [by simpl; rewrite Hlen|]. intros [|i] b Hb; simpl in Hb.
  - injection Hb as <-. simpl. by rewrite Nat.add_0_r.
  - destruct (Hi i b Hb) as (-> & ?). split; [lia|done].
Qed.

Lemma new_ok dns addresses strat cfg p0 :
  new dns addresses strat cfg = Ok p0 → run_ok cfg 0 0 (mkRun p0 [] []).
Proof.
  unfold new. intros H. apply bind_ok in H as (bs & Hbs & [= <-]).
  destruct (new_backends_ok _ _ _ _ Hbs) as [_ Hi].
  assert (∀ (i : nat) (s : BackendState), ((λ _ : Backend, mkState false 0 0 (new_breaker cfg)) <$> bs) !! i = Some s →
            s = mkState false 0 0 (new_breaker cfg)) as Hst.
  { intros i s. rewrite list_lookup_fmap. destruct (bs !! i); [|done]. by intros [= <-]. }
  split; simpl.
  - split; simpl.
    + by rewrite length_fmap.
    + intros i b Hb. destruct (Hi i b Hb) as (-> & ? & _). by split.
    + destruct (Schema.Breaker.enabled cfg) eqn:E; [|done]. by intros _ i s ->%Hst.
  - intros i s ->%Hst. split; [done|]. exists [], 0. by repeat split; [constructor|..].
  - constructor.
  - constructor.
  - done.
Qed.

Lemma run_books dns addresses strat cfg p0 r n last :
  new dns addresses strat cfg = Ok p0 → pool_run p0 r n last → n <= U32_MAX → run_ok cfg n last r.
Proof.
  intros Hnew. induction 1 as [|r n last now r' _ IH Hle Hs]; intros Hn; [by eapply new_ok|].
  eapply run_ok_step; [apply IH|exact Hle| |exact Hs]; lia.
Qed.

(** The pool's books balance in every run of selections, guards, outcomes,
    samples, health verdicts and address refreshes: a backend's load is exactly
    the guards held for it; every backend keeps an address and its place; and
    each breaker is one that has lived through a history of its own, so that what
    [Breakers] shows of one breaker holds of every backend's. *)
Theorem pool_keeps_its_books dns addresses strat cfg p0 r n last :
  new dns addresses strat cfg = Ok p0 → pool_run p0 r n last → n <= U32_MAX →
  (∀ i b, backends (pool r) !! i = Some b → id b = i ∧ sockets b ≠ [] ∧ flights (pool r) i = held i (guards r)) ∧
  (∀ i s, states (pool r) !! i = Some s → ∃ log t, lives cfg (breaker s) log t ∧ t <= last).
Proof.
  intros Hnew Hr Hn. destruct (run_books _ _ _ _ _ _ _ _ Hnew Hr Hn) as [[H1 H2 _] Hst _ _ _]. split.
  - intros i b Hb. destruct (H2 i b Hb) as [Hi Hs]. split; [done|]. split; [done|]. unfold flights.
    apply lookup_lt_Some in Hb. rewrite <-H1 in Hb. apply lookup_lt_is_Some in Hb as [s Hs'].
    rewrite Hs'. by destruct (Hst i s Hs').
  - intros i s Hs. destruct (Hst i s Hs) as [_ (log & t & Hl & Ht & _)]. by exists log, t.
Qed.

(** The selection that finds an ejected backend's period over. *)
Lemma probe_selected path now p b sel p' :
  max_ejected p ≠ 0 → b ∈ ejected_backends p → spend_probe now (ejected_backends p) p = (Some sel, p') →
  select_at path now p = (Some sel, p').
Proof.
  intros Hm Hb E. unfold select_at. assert (healthy_backends p ≠ []) as Hh.
  { intros Hn. unfold ejected_backends in Hb. rewrite Hn in Hb. by apply elem_of_nil in Hb. }
  rewrite bool_decide_false.
  2: { intros Hn. unfold healthy_backends in Hh. by rewrite Hn in Hh. }
  rewrite bool_decide_false by done. apply N.eqb_neq in Hm. by rewrite Hm, E.
Qed.

(** *** While a probe is out

    Anything the pool does between handing out the probe [token] of backend [i]
    and hearing of it, with selections before the time [until]: it enters the
    attempts of this and of other requests, sees their latencies, drops their
    guards, hears the outcomes of all other attempts, and follows health checks
    and the resolver. *)
Inductive meanwhile (i : nat) (token until : N) (p : UpstreamPool) : UpstreamPool → Prop :=
| meanwhile_nothing : meanwhile i token until p p
| meanwhile_select q path t : t < until → meanwhile i token until p q → meanwhile i token until p (select_at path t q).2
| meanwhile_socket q b : meanwhile i token until p q → meanwhile i token until p (set_backend b q)
| meanwhile_enter q k pr : meanwhile i token until p q → meanwhile i token until p (enter_attempt k pr q).2
| meanwhile_latency q k micros : meanwhile i token until p q → meanwhile i token until p (observe_latency k micros q)
| meanwhile_outcome q t k pr ok :
    ¬ (k = i ∧ pr = Some token) → meanwhile i token until p q → meanwhile i token until p (record_outcome t k pr ok q)
| meanwhile_drop q g : meanwhile i token until p q → meanwhile i token until p (drop_guard g q)
| meanwhile_health q k h : meanwhile i token until p q → meanwhile i token until p (set_healthy k h q)
| meanwhile_refresh q dns : meanwhile i token until p q → meanwhile i token until p (refresh_all dns q).2.

(** Backend [i] has this breaker. *)
Definition breaks (i : nat) (br : Breaker) (p : UpstreamPool) : Prop := ∃ s, states p !! i = Some s ∧ breaker s = br.

Lemma breaks_update i br k f p :
  (∀ s, k = i → breaker s = br → breaker (f s) = br) → breaks i br p → breaks i br (update k f p).
Proof.
  intros Hf (s & Hs & Hb). unfold breaks. rewrite states_update, Hs. case_decide; subst; eexists; (split; [done|]); [by apply Hf|done].
Qed.

Lemma breaks_spend i br t l p :
  Breakers.enabled br = true → t < open_until_ms br → breaks i br p → breaks i br (spend_probe t l p).2.
Proof.
  intros He Hu. revert p. induction l as [|b l IH]; intros p H; [done|]. cbn [spend_probe].
  destruct (states p !! id b) as [s|] eqn:Es; [|by apply IH]. destruct (allowance t (breaker s)) as [a br'] eqn:Ea.
  assert (breaks i br (set_breaker (id b) br' p)) as Hb; [|destruct a; [by apply IH|done|done]].
  destruct (decide (id b = i)) as [<-|Hne]; [|by apply breaks_update].
  destruct H as (s' & Hs' & <-). rewrite Es in Hs'. injection Hs' as <-. destruct (allowance_open t (breaker s) He ltac:(lia)) as [[_ E]|[? _]]; [|lia].
  rewrite Ea in E. injection E as _ ->. exists (mkState (healthy s) (in_flight s) (ewma_micros s) (breaker s)).
  unfold set_breaker. by rewrite states_update, decide_True, Es by done.
Qed.

Lemma breaks_select i br path t p :
  Breakers.enabled br = true → t < open_until_ms br → breaks i br p → breaks i br (select_at path t p).2.
Proof.
  intros He Hu H. assert (∀ l q, breaks i br q → breaks i br (ordinary (pick l path q)).2) as Hp.
  { intros l q Hq. unfold breaks, ordinary. cbn [snd]. by rewrite (proj1 (pick_states l path q)). }
  unfold select_at. case_bool_decide; [done|]. case_bool_decide; [by apply Hp|]. destruct (_ =? 0); [by apply Hp|].
  pose proof (breaks_spend i br t (ejected_backends p) p He Hu H) as Hs.
  destruct (spend_probe _ _ _) as [[sel|] q]; [done|]. cbn [snd] in Hs.
  destruct (_ <? _); [by apply Hp|]. case_bool_decide; by apply Hp.
Qed.

Lemma breaks_meanwhile i token until p q br :
  Breakers.enabled br = true → 1 <= until → until <= open_until_ms br → active_probe br = token →
  breaks i br p → meanwhile i token until p q → breaks i br q.
Proof.
  intros He Hu Hle Ht Hp. induction 1 as [|q path t Hlt _ IH|q b _ IH|q k pr _ IH|q k micros _ IH|q t k pr ok Hno _ IH|q g _ IH|q k h _ IH|q dns _ IH].
  - done.
  - apply breaks_select; [done|lia|done].
  - exact IH.
  - by apply breaks_update.
  - by apply breaks_update.
  - apply breaks_update; [|done]. intros s -> Hb. cbn [breaker]. rewrite Hb.
    assert (open_until_ms br ≠ 0) as Hn by lia. destruct pr as [token'|].
    + unfold record_probe. rewrite He. destruct (N.eqb_spec (active_probe br) token') as [E|]; [|done].
      destruct Hno. split; [done|congruence].
    + unfold Breakers.record_outcome. by rewrite He, (proj2 (N.eqb_neq _ _) Hn).
  - by apply breaks_update.
  - by apply breaks_update.
  - unfold breaks. by rewrite refresh_states.
Qed.

(** C30: Ejection is not for ever: once some healthy ejected backend's period is
    over, the next selection is a recovery probe of such a backend; and whatever
    the pool does while that probe is out, as long as its own period is not over
    when others are selected for, its success closes the backend's breaker, so
    that the backend is available again whenever its health checks say so. *)
Theorem ejected_backend_recovers path now p b s :
  pool_ok p → max_ejected p ≠ 0 → b ∈ ejected_backends p →
  states p !! id b = Some s → open_until_ms (breaker s) <= now →
  ∃ sel p' token s', select_at path now p = (Some sel, p') ∧ backend sel ∈ ejected_backends p ∧
    probe sel = Some token ∧ states p !! id (backend sel) = Some s' ∧
    ∀ q later, meanwhile (id (backend sel)) token (deadline now (breaker s')) p' q →
      let q' := record_outcome later (id (backend sel)) (probe sel) true q in
      breaker_state q' (id (backend sel)) = Closed
      ∧ ∀ b', b' ∈ backends q' → id b' = id (backend sel) → is_healthy q' (id b') = true → b' ∈ available_backends q'.
Proof.
  intros Hok Hm Hb Hs Hu.
  pose proof (spend_probe_spec now _ p (ejected_are_ok p Hok Hm)) as Hsp.
  destruct (spend_probe now (ejected_backends p) p) as [[sel|] p1] eqn:E.
  2: { destruct Hsp as [_ Hd]. destruct (proj1 (Forall_forall _ _) Hd b Hb) as (s' & Hs' & Hlt). simplify_eq. lia. }
  destruct Hsp as (token & s1 & br & Hin & Hpr & Hs1 & Ha & ->).
  exists sel, (set_breaker (id (backend sel)) br p), token, s1. split; [by apply probe_selected with (b := b)|].
  split; [done|]. split; [done|]. split; [done|]. intros q later Hmw q'.
  apply allowance_probe in Ha as (He & _ & _ & Etok & Ebr).
  assert (breaks (id (backend sel)) br q) as (sq & Hsq & Hbq).
  { eapply breaks_meanwhile; [..|exact Hmw]; subst br; cbn; try done; [pose proof (deadline_nonzero now (breaker s1)); lia|].
    eexists. unfold set_breaker. by rewrite states_update, decide_True, Hs1 by done. }
  assert (breaker_state q' (id (backend sel)) = Closed) as Hc.
  { unfold q', breaker_state, record_outcome. rewrite states_update, decide_True, Hsq, Hpr by done. cbn [fmap option_fmap option_map breaker].
    rewrite Hbq. subst br. unfold record_probe. cbn. by rewrite He, Etok, N.eqb_refl. }
  split; [done|]. intros b' Hb' Eid Hh. unfold available_backends, healthy_backends.
  apply list_elem_of_filter. split; [by rewrite Eid|]. by apply list_elem_of_filter.
Qed.

(** ** Health checks *)

(** How many of the latest verdicts agree with [b]. *)
Fixpoint streak (b : bool) (h : list bool) : nat :=
  match h with
  | [] => 0
  | x :: h' => if Bool.eqb x b then S (streak b h') else 0
  end.

Lemma streak_prefix b h n : (n <= streak b h)%nat ↔ ∃ h', h = replicate n b ++ h'.
Proof.
  revert n. induction h as [|x h IH]; intros n; simpl.
  - split; [intros H; assert (n = 0%nat) as -> by lia; by exists []|].
    intros (h' & E). destruct n; [lia|done].
  - destruct (Bool.eqb x b) eqn:Ex; [apply Bool.eqb_prop in Ex as ->|].
    + destruct n as [|n]; [split; [by exists (b :: h)|lia]|].
      rewrite <-Nat.succ_le_mono, IH. split; intros (h' & E); exists h'; simpl in *; congruence.
    + split; [intros H; assert (n = 0%nat) as -> by lia; by exists (x :: h)|].
      intros (h' & E). destruct n as [|n]; [lia|]. injection E as -> _. by rewrite Bool.eqb_reflx in Ex.
Qed.

Lemma streak_le b h : (streak b h <= length h)%nat.
Proof. induction h as [|x h IH]; simpl; [lia|]. case_match; lia. Qed.

(** The verdicts that decide: [up] successes in a row, not followed by [down]
    failures in a row. *)
Definition passing (up down : nat) (h : list bool) : Prop :=
  ∃ h1 h2, h = h1 ++ replicate up true ++ h2 ∧ ¬ ∃ a c, h1 = a ++ replicate down false ++ c.

Lemma passing_nil up down : (0 < up)%nat → ¬ passing up down [].
Proof. intros Hu (h1 & h2 & E & _). destruct h1, up; simpl in E; try lia; discriminate. Qed.

Lemma passing_true up down h :
  (0 < up)%nat → (0 < down)%nat →
  passing up down (true :: h) ↔ (streak true (true :: h) = up ∨ passing up down h).
Proof.
  intros Hu Hd. split.
  - intros ([|x h1] & h2 & E & Hn).
    + assert (up <= streak true (true :: h))%nat as Hle by (apply streak_prefix; by exists h2).
      destruct (decide (streak true (true :: h) = up)) as [|Hne]; [by left|right].
      assert (up <= streak true h)%nat as (h' & ->)%streak_prefix by (simpl in *; lia).
      exists [], h'. split; [done|]. intros (a & c & Ha). destruct a, down; simpl in Ha; try lia; discriminate.
    + injection E as <- E. right. exists h1, h2. split; [done|]. intros (a & c & ->). apply Hn. by exists (true :: a), c.
  - intros [H|(h1 & h2 & -> & Hn)].
    + destruct (proj1 (streak_prefix true (true :: h) up)) as (h' & E); [lia|].
      exists [], h'. split; [done|]. intros (a & c & Ha). destruct a, down; simpl in Ha; try lia; discriminate.
    + exists (true :: h1), h2. split; [done|]. intros ([|x a] & c & Ha).
      * destruct down; [lia|discriminate].
      * injection Ha as _ Ha. apply Hn. by exists a, c.
Qed.

Lemma passing_false up down h :
  (0 < up)%nat → (0 < down)%nat →
  passing up down (false :: h) ↔ (streak false (false :: h) ≠ down ∧ passing up down h).
Proof.
  intros Hu Hd. split.
  - intros ([|x h1] & h2 & E & Hn); [destruct up; [lia|discriminate]|].
    injection E as <- ->. split.
    + intros Hs. apply Hn. exists [].
      destruct (proj1 (streak_prefix false (false :: h1) down)) as (c & Hc); [|by exists c].
      clear Hn. rewrite <-Hs. simpl. apply le_n_S. clear Hs. induction h1 as [|y h1 IH]; simpl.
      * destruct up; [lia|simpl; lia].
      * case_match; lia.
    + exists h1, h2. split; [done|]. intros (a & c & ->). apply Hn. by exists (false :: a), c.
  - intros [Hs (h1 & h2 & -> & Hn)]. exists (false :: h1), h2. split; [done|]. intros ([|x a] & c & Ha).
    + apply Hs. assert (down <= streak false (false :: h1))%nat as Hle by (apply streak_prefix; by exists c).
      destruct (decide (streak false (false :: h1) = down)) as [Heq|Hne].
      * rewrite <-Heq. simpl. f_equal. clear -Hu. induction h1 as [|y h1 IH]; simpl.
        -- destruct up; [lia|done].
        -- case_match; lia.
      * exfalso. apply Hn. assert (down <= streak false h1)%nat as (c' & ->)%streak_prefix by (simpl in *; lia).
        by exists [], c'.
    + injection Ha as _ Ha. apply Hn. by exists a, c.
Qed.

(** A checker at work on a pool: its own records, latest first, interleaved with
    anything else that leaves the health of the backends alone. *)
Inductive checked (c0 : HealthChecker) (p0 : UpstreamPool) :
    HealthChecker → UpstreamPool → list (nat * bool) → Prop :=
| checked_new : checked c0 p0 c0 p0 []
| checked_record c p log id ok flip c' p' :
    checked c0 p0 c p log → record id ok c p = Some (flip, c', p') → checked c0 p0 c' p' ((id, ok) :: log)
| checked_other c p log p' :
    checked c0 p0 c p log → length (states p') = length (states p) →
    (∀ i, is_healthy p' i = is_healthy p i) → checked c0 p0 c p' log.

Definition verdicts (id : nat) (log : list (nat * bool)) : list bool :=
  snd <$> filter (λ v, v.1 = id) log.

Lemma verdicts_cons id i ok log :
  verdicts id ((i, ok) :: log) = if decide (i = id) then ok :: verdicts id log else verdicts id log.
Proof. unfold verdicts. rewrite filter_cons. repeat case_decide; simpl in *; by try congruence. Qed.

Lemma set_healthy_healthy i b p id :
  (id < length (states p))%nat →
  is_healthy (set_healthy i b p) id = if decide (id = i) then b else is_healthy p id.
Proof.
  intros [s Hs]%lookup_lt_is_Some. unfold is_healthy, set_healthy. rewrite states_update, Hs.
  by case_decide.
Qed.

Record checker_ok (cfg : Schema.Health.Health) (n : nat) (c : HealthChecker) (p : UpstreamPool)
    (log : list (nat * bool)) : Prop := mkCheckerOk {
  thresholds : healthy_after c = N.max (Schema.Health.healthy_after cfg) 1 ∧
               unhealthy_after c = N.max (Schema.Health.unhealthy_after cfg) 1;
  sizes : length (states p) = n ∧ length (streak_ok c) = n ∧ length (streak_fail c) = n;
  oks : ∀ i v, streak_ok c !! i = Some v → v = N.of_nat (streak true (verdicts i log));
  fails : ∀ i v, streak_fail c !! i = Some v → v = N.of_nat (streak false (verdicts i log));
  verdict : ∀ i, (i < n)%nat → is_healthy p i = true ↔
      passing (N.to_nat (healthy_after c)) (N.to_nat (unhealthy_after c)) (verdicts i log) }.

Lemma streak_fits b id log :
  N.of_nat (length log) < 4294967295 → wrapping_add32 (N.of_nat (streak b (verdicts id log))) 1
    = N.of_nat (S (streak b (verdicts id log))).
Proof.
  intros H. unfold wrapping_add32. rewrite N.mod_small; [lia|].
  pose proof (streak_le b (verdicts id log)). unfold verdicts in *. rewrite length_fmap in *.
  pose proof (length_filter (λ v : nat * bool, v.1 = id) log). lia.
Qed.

(** Both counters after a verdict. *)
Lemma streaks_next id ok (log : list (nat * bool)) (l : list N) x b :
  (∀ i v, l !! i = Some v → v = N.of_nat (streak b (verdicts i log))) →
  x = N.of_nat (streak b (ok :: verdicts id log)) →
  ∀ i v, <[id := x]> l !! i = Some v → v = N.of_nat (streak b (verdicts i ((id, ok) :: log))).
Proof.
  intros Hl -> i v Hv. rewrite verdicts_cons.
  apply list_lookup_insert_Some in Hv as [(-> & <- & _)|[Hne Hv]].
  - by rewrite decide_True.
  - rewrite decide_False by done. by apply Hl.
Qed.

Lemma passing_next up down (id : nat) (ok : bool) log i (P : bool) :
  (0 < up)%nat → (0 < down)%nat →
  (P = true ↔ passing up down (verdicts i log)) →
  (if decide (i = id)
   then if ok then bool_decide (streak true (ok :: verdicts id log) = up) || P
        else negb (bool_decide (streak false (ok :: verdicts id log) = down)) && P
   else P) = true ↔ passing up down (verdicts i ((id, ok) :: log)).
Proof.
  intros Hu Hd HP. rewrite verdicts_cons. destruct (decide (i = id)) as [->|Hne].
  - rewrite decide_True by done. destruct ok.
    + rewrite passing_true, orb_true_iff, bool_decide_eq_true by done. tauto.
    + rewrite passing_false, andb_true_iff, negb_true_iff, bool_decide_eq_false by done. tauto.
  - rewrite decide_False by done. done.
Qed.

Lemma record_checker_ok cfg n c p log id ok flip c' p' :
  checker_ok cfg n c p log → N.of_nat (length log) < 4294967295 →
  record id ok c p = Some (flip, c', p') → checker_ok cfg n c' p' ((id, ok) :: log).
Proof.
  intros [[T1 T2] (S1 & S2 & S3) Ho Hf Hv] Hlen. unfold record.
  destruct (streak_ok c !! id) as [so|] eqn:Eo; [|done]. simpl.
  destruct (streak_fail c !! id) as [sf|] eqn:Ef; [|done]. simpl.
  rewrite (Ho _ _ Eo), (Hf _ _ Ef), !streak_fits by done.
  assert (id < n)%nat as Hid by (apply lookup_lt_Some in Eo; lia).
  set (up := N.to_nat (healthy_after c)) in *. set (down := N.to_nat (unhealthy_after c)) in *.
  assert (0 < up)%nat as Hup by (unfold up; lia). assert (0 < down)%nat as Hdown by (unfold down; lia).
  pose proof (λ i (Hi : (i < n)%nat), passing_next up down id ok log i _ Hup Hdown (Hv i Hi)) as Hp.
  destruct ok; cbv zeta; match goal with |- context [?a =? ?b] => destruct (N.eqb_spec a b) as [E|E] end;
    intros [= <- <- <-].
  all: split; cbn [healthy_after unhealthy_after streak_ok streak_fail];
    [done|rewrite !length_insert; unfold set_healthy; by rewrite ?states_length| | |].
  all: try (apply streaks_next; [done|simpl; lia]).
  all: intros i Hi; specialize (Hp i Hi); rewrite ?set_healthy_healthy by lia.
  all: destruct (decide (i = id)) as [->|Hne]; [|done].
  - rewrite bool_decide_true in Hp by (unfold up; simpl; lia). exact Hp.
  - rewrite bool_decide_false in Hp by (unfold up; simpl; lia). exact Hp.
  - rewrite bool_decide_true in Hp by (unfold down; simpl; lia). exact Hp.
  - rewrite bool_decide_false in Hp by (unfold down; simpl; lia). exact Hp.
Qed.

Lemma checked_ok dns addresses strat bcfg p0 cfg c p log :
  new dns addresses strat bcfg = Ok p0 → checked (new_checker p0 cfg) p0 c p log →
  N.of_nat (length log) < 4294967295 → checker_ok cfg (length (backends p0)) c p log.
Proof.
  intros Hnew Hc. induction Hc as [|c p log id ok flip c' p' _ IH Hr|c p log p' _ IH Hl Hh]; intros Hlen.
  - pose proof (new_ok _ _ _ _ _ Hnew) as [[H1 _ _] _ _ _ _]. simpl in H1.
    split; simpl; [done|by rewrite !length_replicate| | |].
    + intros i v Hv. by apply lookup_replicate in Hv as [-> _].
    + intros i v Hv. by apply lookup_replicate in Hv as [-> _].
    + intros i Hi. split; [|intros H; exfalso; revert H; apply passing_nil; lia].
      unfold new in Hnew. apply bind_ok in Hnew as (bs & _ & [= <-]). unfold is_healthy. simpl.
      rewrite list_lookup_fmap. by destruct (bs !! i).
  - eapply record_checker_ok; [apply IH| |exact Hr]; cbn [length] in Hlen; lia.
  - destruct (IH Hlen) as [T (S1 & S2) Ho Hf Hv]. split; [done|by split; [congruence|]|done|done|].
    intros i Hi. by rewrite Hh, Hv.
Qed.

(** A backend changes state on streaks alone.  However its probes interleave
    with the others', it is in rotation exactly when at some moment the latest
    [healthy_after] probes had all succeeded, and the latest [unhealthy_after]
    have not all failed at any moment since. *)
Theorem health_follows_streaks dns addresses strat bcfg p0 cfg c p log id :
  new dns addresses strat bcfg = Ok p0 → checked (new_checker p0 cfg) p0 c p log →
  N.of_nat (length log) < 4294967295 → (id < length (backends p0))%nat →
  is_healthy p id = true ↔
  ∃ since before,
    verdicts id log = since ++ replicate (N.to_nat (N.max (Schema.Health.healthy_after cfg) 1)) true ++ before ∧
    ¬ ∃ a c, since = a ++ replicate (N.to_nat (N.max (Schema.Health.unhealthy_after cfg) 1)) false ++ c.
Proof.
  intros Hnew Hc Hlen Hid. destruct (checked_ok _ _ _ _ _ _ _ _ _ Hnew Hc Hlen) as [[<- <-] _ _ _ Hv].
  by apply Hv.
Qed.

(** A name that stops resolving does not take its backend away: whatever the
    name service answers, a backend keeps at least one address, each once; a
    connection to it never fails for want of one and goes to one of its
    addresses; with a key it goes to the same one as long as the set stays. *)
Theorem refresh_keeps_serving dns b key :
  sockets b ≠ [] → NoDup (sockets b) →
  let b' := (refresh dns b).2 in
  sockets b' ≠ [] ∧ NoDup (sockets b') ∧
  (sockets b' = sockets b ∨ ∃ answer, dns (address b) = Ok answer ∧ ∀ a, a ∈ sockets b' ↔ a ∈ answer) ∧
  (∃ a, (socket_for key b').1 = Some a ∧ a ∈ sockets b') ∧
  (∀ k c, key = Some k → sockets c = sockets b' → (socket_for key c).1 = (socket_for key b').1).
Proof.
  intros Hne Hnd. cbv zeta. pose proof (refresh_sockets dns b Hne) as Hne'.
  split; [done|]. split_and!.
  - unfold refresh. destruct (resolve dns (address b)) as [l|e] eqn:E; [|done].
    apply resolve_ok in E as (_ & ? & _). by case_decide.
  - unfold refresh. destruct (resolve dns (address b)) as [l|e] eqn:E; [|by left].
    apply resolve_ok in E as (_ & _ & _ & ans & Ha & He). case_decide; [by left|]. right. by exists ans.
  - set (b' := (refresh dns b).2) in *. destruct key as [k|].
    + unfold socket_for. pose proof (nonempty_length _ Hne') as Hn%N.eqb_neq.
      rewrite N.max_l by lia. pose proof (N.mod_lt (fnv1a k) _ Hn).
      destruct (mod_in_range (sockets b') (fnv1a k) Hne') as (a & Ha & Hin). exists a.
      destruct (sockets b') as [|x l] eqn:E; [done|]. rewrite Nat.min_l by (simpl in *; lia). done.
    + rewrite socket_in_turn by done. by apply mod_in_range.
  - intros k c -> Hc. unfold socket_for. by rewrite Hc.
Qed.

(** ** Witnesses *)

Definition instances (n : N) : list SocketAddr :=
  [mkSocket (V4 (n + 1)) 8080; mkSocket (V4 n) 8080; mkSocket (V4 (n + 1)) 8080].
Definition sample_dns : Lookup := λ name,
  if String.eqb name "a:8080" then Ok (instances 10)
  else if String.eqb name "b:8080" then Ok (instances 20) else Err "no such name".

Definition sample_strategy (s : LoadBalancing) : result ResolveError UpstreamPool :=
  new sample_dns ["a:8080"; "b:8080"] s sample_breaker.

Definition two_backends : list Backend :=
  [mkBackend 0 "a:8080" [mkSocket (V4 10) 8080; mkSocket (V4 11) 8080] 0;
   mkBackend 1 "b:8080" [mkSocket (V4 20) 8080; mkSocket (V4 21) 8080] 0].
Definition fresh : BackendState := mkState false 0 0 (new_breaker sample_breaker).
Definition sample_pool (s : LoadBalancing) : UpstreamPool := mkPool two_backends [fresh; fresh] s 0 1.

Lemma sample_new s : sample_strategy s = Ok (sample_pool s).
Proof. vm_compute. reflexivity. Qed.

Lemma sample_pool_ok s : pool_ok (sample_pool s).
Proof. by destruct (new_ok _ _ _ _ _ (sample_new s)). Qed.

Lemma latency_tracks_samples_witness :
  latency (observe_all 1 [800; 1600] (sample_pool LeastLoaded)) 1 = 900 ∧
  800 <= latency (observe_all 1 [800; 1600] (sample_pool LeastLoaded)) 1 <= 1600.
Proof.
  split; [vm_compute; reflexivity|].
  apply (proj1 (latency_tracks_samples 1 (sample_pool LeastLoaded) fresh eq_refl eq_refl)); [done| |done].
  repeat constructor; discriminate.
Defined.

Lemma turns_are_fair_witness :
  picks 2 two_backends "/" (sample_pool RoundRobin) ≡ₚ Some <$> two_backends.
Proof. exact (proj1 turns_are_fair two_backends "/" (sample_pool RoundRobin) eq_refl ltac:(discriminate) ltac:(discriminate)). Defined.

Lemma least_loaded_is_minimal_witness :
  ∃ b, (pick two_backends "/" (enter 0 (sample_pool LeastLoaded)).2).1 = Some b ∧ b ∈ two_backends ∧
    ∀ c, c ∈ two_backends → score (enter 0 (sample_pool LeastLoaded)).2 (id b)
                         <= score (enter 0 (sample_pool LeastLoaded)).2 (id c).
Proof. apply least_loaded_is_minimal; [reflexivity|discriminate|discriminate]. Defined.

Lemma select_honours_signals_witness :
  ∃ sel p', select_at "/" 0 (sample_pool RoundRobin) = (Some sel, p') ∧ honours 0 (sample_pool RoundRobin) sel p'.
Proof.
  pose proof (select_honours_signals "/" 0 _ (sample_pool_ok RoundRobin)) as H.
  destruct (select_at "/" 0 (sample_pool RoundRobin)) as [[sel|] p'] eqn:E; [by exists sel, p'|].
  vm_compute in E. discriminate.
Defined.

Lemma pool_keeps_its_books_witness :
  ∃ r, pool_run (sample_pool RoundRobin) r 1 500 ∧
    ∀ i b, backends (pool r) !! i = Some b → flights (pool r) i = held i (guards r).
Proof.
  assert (pool_run (sample_pool RoundRobin)
    (mkRun (observe_latency 0 700 (sample_pool RoundRobin)) [] []) 1 500) as Hr.
  { apply (run_step _ (mkRun (sample_pool RoundRobin) [] []) 0 0 500); [constructor|discriminate|].
    apply (do_latency 500 (mkRun (sample_pool RoundRobin) [] [])). }
  eexists. split; [exact Hr|]. intros i b Hb.
  by apply (pool_keeps_its_books _ _ _ _ _ _ _ _ (sample_new RoundRobin) Hr ltac:(discriminate)) in Hb as (_ & _ & ?).
Defined.

(** Both backends pass their probe; the first has been ejected. *)
Definition one_ejected : UpstreamPool :=
  set_breaker 0 tripped (assume_healthy (sample_pool RoundRobin)).

Lemma one_ejected_ok : pool_ok one_ejected.
Proof.
  split; [reflexivity| |].
  - intros i b. apply (indexed _ (sample_pool_ok RoundRobin)).
  - intros _ [|[|i]] s Hs; [injection Hs as <-; reflexivity..|discriminate].
Qed.

(** The probe's request takes its slot and is measured before its outcome, while
    another request is sent to the other backend. *)
Lemma ejected_backend_recovers_witness :
  ∃ sel p', select_at "/" 40000 one_ejected = (Some sel, p') ∧
    let q := observe_latency 0 900 (select_at "/" 40500 (enter_selected sel p').2).2 in
    flights q (id (backend sel)) = 1
    ∧ breaker_state (record_outcome 41000 (id (backend sel)) (probe sel) true q) (id (backend sel)) = Closed.
Proof.
  destruct (ejected_backend_recovers "/" 40000 one_ejected (mkBackend 0 "a:8080" (sockets (nth 0 two_backends (mkBackend 0 "a:8080" [] 0))) 0)
    (mkState true 0 0 tripped)) as (sel & p' & token & s & H1 & _ & _ & Hs & H2).
  - exact one_ejected_ok.
  - discriminate.
  - assert (∃ l, ejected_backends one_ejected = l ∧ l = [nth 0 two_backends (mkBackend 0 "a:8080" [] 0)]) as (l & -> & ->).
    { eexists. split; [reflexivity|]. vm_compute. reflexivity. }
    by left.
  - vm_compute. reflexivity.
  - vm_compute. discriminate.
  - exists sel, p'. split; [exact H1|].
    assert (id (backend sel) = 0%nat ∧ flights (enter_selected sel p').2 0 = 1
            ∧ flights (observe_latency 0 900 (select_at "/" 40500 (enter_selected sel p').2).2) 0 = 1) as (Eid & _ & Ef).
    { vm_compute in H1. injection H1 as <- <-. by vm_compute. }
    split; [by rewrite Eid|]. apply H2. apply meanwhile_latency, meanwhile_select; [|apply meanwhile_enter, meanwhile_nothing].
    rewrite Eid in Hs. vm_compute in Hs. injection Hs as <-. vm_compute. reflexivity.
Defined.

Definition sample_health : Schema.Health.Health := Schema.Health.mk "/healthz" d_10s d_10s 2 3.

Lemma health_follows_streaks_witness :
  ∃ c p, checked (new_checker (sample_pool RoundRobin) sample_health) (sample_pool RoundRobin) c p [(1%nat, true); (1%nat, true)]
    ∧ is_healthy p 1 = true.
Proof.
  set (p0 := sample_pool RoundRobin).
  destruct (record 1 true (new_checker p0 sample_health) p0) as [[[f1 c1] p1]|] eqn:E1; [|vm_compute in E1; discriminate].
  destruct (record 1 true c1 p1) as [[[f2 c2] p2]|] eqn:E2.
  2: { vm_compute in E1. injection E1 as <- <- <-. vm_compute in E2. discriminate. }
  assert (checked (new_checker p0 sample_health) p0 c2 p2 [(1%nat, true); (1%nat, true)]) as Hc.
  { eapply checked_record; [|exact E2]. eapply checked_record; [|exact E1]. constructor. }
  exists c2, p2. split; [exact Hc|].
  apply (health_follows_streaks _ _ _ _ _ _ _ _ _ 1 (sample_new RoundRobin) Hc); [reflexivity|simpl; lia|].
  exists [], []. split; [reflexivity|]. intros (a & c & H). destruct a; discriminate.
Defined.

Lemma refresh_keeps_serving_witness :
  ∃ a, (socket_for (Some "/p") (refresh (λ _, Err "timeout") (mkBackend 0 "a:8080" [mkSocket (V4 10) 8080] 3)).2).1 = Some a.
Proof.
  destruct (refresh_keeps_serving (λ _, Err "timeout") (mkBackend 0 "a:8080" [mkSocket (V4 10) 8080] 3) (Some "/p"))
    as (_ & _ & _ & (a & Ha & _) & _); [discriminate|apply NoDup_singleton|by exists a].
Defined.
