(* ===== verification/PoolFacts.v ===== *)
(** * What operators see of a pool

    A backend keeps its place and its address whatever happens to its pool; and
    what each operation changes of the things the gauges show: health, load,
    latency, and whether and how often its breaker opened. *)

From S2P Require Import Prelude Words Text Units Schema Orders Net Window Breakers Upstream UpstreamTheorems.
Local Open Scope string_scope.
Local Open Scope list_scope.
Local Open Scope N_scope.

(** Where the backends are, and where each can be reached. *)
Definition places (p : UpstreamPool) : list (nat * string) := (λ b, (id b, address b)) <$> backends p.
Definition numbered (p : UpstreamPool) : Prop := ∀ i x, places p !! i = Some x → x.1 = i.
Definition addresses (p : UpstreamPool) : list string := (places p).*2.

Record Vitals := mkVitals { up : bool; load : N; pace : N; broken : BreakerState; openings : N }.
Definition vitals (s : BackendState) : Vitals :=
  mkVitals (healthy s) (in_flight s) (ewma_micros s) (state (breaker s)) (trips (breaker s)).
Definition shape (p : UpstreamPool) : list Vitals := vitals <$> states p.

(** ** Places *)

Lemma numbered_elem p b : numbered p → b ∈ backends p → backends p !! id b = Some b.
Proof.
  intros Hn [i Hi]%list_elem_of_lookup. assert (places p !! i = Some (id b, address b)) as Hx.
  { unfold places. by rewrite list_lookup_fmap, Hi. }
  apply Hn in Hx. simpl in Hx. by subst.
Qed.

Lemma numbered_same p p' : places p' = places p → numbered p → numbered p'.
Proof. intros E H i x. rewrite E. apply H. Qed.

(** Writing back a backend that is in its place. *)
Lemma places_set_backend b b0 p :
  backends p !! id b = Some b0 → id b0 = id b → address b0 = address b → places (set_backend b p) = places p.
Proof.
  intros Hb Hi Ha. unfold places, set_backend. cbn [backends]. rewrite list_fmap_insert.
  apply list_insert_id. rewrite list_lookup_fmap, Hb. simpl. by rewrite Hi, Ha.
Qed.

Lemma socket_place key b : let b' := (socket_for key b).2 in
  id b' = id b ∧ address b' = address b ∧ sockets b' = sockets b.
Proof. unfold socket_for. by destruct key. Qed.

Lemma shape_here i f p : shape (update i f p) !! i = (λ s, vitals (f s)) <$> states p !! i.
Proof.
  unfold shape. rewrite list_lookup_fmap, states_update.
  rewrite decide_True by done.
  by destruct (states p !! i) as [s|].
Qed.

(** An update that shows in no gauge. *)
Lemma shape_quiet i f p : (∀ s, states p !! i = Some s → vitals (f s) = vitals s) → shape (update i f p) = shape p.
Proof.
  intros H. unfold shape. apply list_eq. intros j. rewrite !list_lookup_fmap, states_update. case_decide as E; [subst|by destruct (states p !! j)].
  destruct (states p !! i) as [s|] eqn:Es; [|done]. simpl. by rewrite H.
Qed.

(** An update shows at its own place only. *)
Lemma shape_elsewhere i j f p : j ≠ i → shape (update i f p) !! j = shape p !! j.
Proof. intros Hne. unfold shape. rewrite !list_lookup_fmap, states_update. rewrite decide_False by done. by destruct (states p !! j). Qed.

(** ** Choosing shows nowhere *)

Lemma allowance_quiet now br a br' :
  allowance now br = (a, br') → state br' = state br ∧ trips br' = trips br.
Proof.
  unfold allowance. destruct (negb _); [by intros [= _ <-]|]. destruct (N.eqb_spec (open_until_ms br) 0) as [E|E]; [by intros [= _ <-]|].
  destruct (_ <? _); intros [= _ <-]; [done|]. unfold state. cbn [open_until_ms with_probe with_until trips]. split; [|done].
  rewrite (proj2 (N.eqb_neq (deadline now br) 0)) by (unfold deadline; lia). by rewrite (proj2 (N.eqb_neq _ _) E).
Qed.

Lemma spend_probe_quiet now l p :
  let '(sel, p') := spend_probe now l p in
  backends p' = backends p ∧ shape p' = shape p ∧ strategy p' = strategy p
  ∧ ∀ s, sel = Some s → backend s ∈ l.
Proof.
  revert p. induction l as [|b l IH]; intros p; [done|]. cbn [spend_probe].
  destruct (states p !! id b) as [s|] eqn:Es.
  - destruct (allowance now (breaker s)) as [a br] eqn:Ea. apply allowance_quiet in Ea as [H1 H2].
    assert (shape (set_breaker (id b) br p) = shape p) as Hs.
    { apply shape_quiet. intros s'. rewrite Es. intros [= <-]. unfold vitals. simpl. by rewrite H1, H2. }
    destruct a as [| |token].
    + specialize (IH (set_breaker (id b) br p)). destruct (spend_probe _ _ _) as [sel p'].
      destruct IH as (E1 & E2 & E3 & Hin). rewrite E1, E2, E3. split_and!; [done|done|done|]. intros s' ->. right. by apply Hin.
    + split_and!; [done|done|done|]. intros s' [= <-]. by left.
    + split_and!; [done|done|done|]. intros s' [= <-]. by left.
  - specialize (IH p). destruct (spend_probe _ _ _) as [sel p']. destruct IH as (E1 & E2 & E3 & Hin).
    split_and!; [done|done|done|]. intros s' ->. right. by apply Hin.
Qed.

Lemma pick_quiet pool path p :
  let '(b, p') := pick pool path p in
  backends p' = backends p ∧ shape p' = shape p ∧ strategy p' = strategy p ∧ ∀ x, b = Some x → x ∈ pool.
Proof.
  destruct (pick_states pool path p) as (E1 & E2 & _).
  assert (strategy (pick pool path p).2 = strategy p) as E3.
  { unfold pick. destruct (_ =? 0); [done|]. by destruct (strategy p) eqn:E. }
  assert (∀ x, (pick pool path p).1 = Some x → x ∈ pool) as Hin.
  { intros x Hx. destruct (decide (pool = [])) as [->|Hne]; [by unfold pick in Hx|].
    destruct (pick_in pool path p Hne) as (b & Hb & ?). congruence. }
  destruct (pick pool path p) as [b p']. cbn [fst snd] in *. split_and!; [done|unfold shape; by rewrite E1|done|done].
Qed.

Lemma select_quiet path now p :
  let '(sel, p') := select_at path now p in
  backends p' = backends p ∧ shape p' = shape p ∧ strategy p' = strategy p ∧ ∀ s, sel = Some s → backend s ∈ backends p.
Proof.
  unfold select_at. case_bool_decide; [done|].
  assert (∀ pool q, backends q = backends p → shape q = shape p → strategy q = strategy p → (∀ b, b ∈ pool → b ∈ backends p) →
    let '(sel, p') := ordinary (pick pool path q) in
    backends p' = backends p ∧ shape p' = shape p ∧ strategy p' = strategy p ∧ ∀ s, sel = Some s → backend s ∈ backends p) as Ho.
  { intros pool q Q1 Q2 Q3 Hsub. pose proof (pick_quiet pool path q) as Hp. unfold ordinary.
    destruct (pick pool path q) as [b p']. destruct Hp as (E1 & E2 & E3 & Hin). cbn [fst snd].
    split_and!; [congruence..|]. intros s Hs. destruct b as [b|]; [|done]. injection Hs as <-. by apply Hsub, Hin. }
  assert (∀ b, b ∈ healthy_backends p → b ∈ backends p) as Hh.
  { intros b Hb. by apply healthy_in in Hb as []. }
  case_bool_decide; [by apply Ho|]. destruct (_ =? 0); [by apply Ho|].
  pose proof (spend_probe_quiet now (ejected_backends p) p) as Hs.
  destruct (spend_probe now (ejected_backends p) p) as [[sel|] q]; destruct Hs as (E1 & E2 & E3 & Hin).
  - split_and!; [done|done|done|]. intros s [= <-]. apply Hh. specialize (Hin sel eq_refl).
    by apply list_elem_of_filter in Hin as [_ ?].
  - assert (∀ b, b ∈ healthy_backends q → b ∈ backends p) as Hq by (intros b Hb; apply healthy_in in Hb as []; congruence).
    destruct (_ <? _); [by apply Ho|]. case_bool_decide; [by apply Ho|]. apply Ho; [done..|].
    intros b Hb. apply list_elem_of_filter in Hb as [_ Hb]. by apply Hq.
Qed.

(** ** What each operation shows *)

Lemma places_update i f p : places (update i f p) = places p.
Proof. done. Qed.

(** A selection leaves what is shown; its socket may turn its backend's rotation. *)
Lemma chosen_quiet path key now p sel pool :
  numbered p → select_at path now p = (Some sel, pool) →
  let b := (socket_for key (backend sel)).2 in
  places (set_backend b pool) = places p ∧ shape (set_backend b pool) = shape p
  ∧ id b = id (backend sel) ∧ places p !! id b = Some (id b, address b)
  ∧ (sockets <$> backends (set_backend b pool)) = (sockets <$> backends p).
Proof.
  intros Hn Hs. cbv zeta. pose proof (select_quiet path now p) as H. rewrite Hs in H. destruct H as (E1 & E2 & _ & Hin).
  specialize (Hin sel eq_refl). apply numbered_elem in Hin; [|done].
  destruct (socket_place key (backend sel)) as (I & A & K). set (b := (socket_for key (backend sel)).2) in *.
  assert (places (set_backend b pool) = places pool) as Hp.
  { apply (places_set_backend b (backend sel)); [by rewrite I, E1|done|done]. }
  split_and!.
  - rewrite Hp. unfold places. by rewrite E1.
  - exact E2.
  - exact I.
  - unfold places. by rewrite list_lookup_fmap, I, Hin, A.
  - unfold set_backend. cbn [backends]. rewrite list_fmap_insert, E1, K, I. apply list_insert_id.
    by rewrite list_lookup_fmap, Hin.
Qed.

Lemma new_places dns addrs strat cfg p :
  Upstream.new dns addrs strat cfg = Ok p →
  numbered p ∧ addresses p = addrs
  ∧ ∀ i v, shape p !! i = Some v → v = mkVitals false 0 0 Closed 0.
Proof.
  unfold Upstream.new. rewrite bind_ok. intros (bs & Hbs & [= <-]).
  destruct (new_backends_ok _ _ _ _ Hbs) as [Hl Hi]. unfold numbered, addresses, places, shape. cbn [backends states].
  split_and!.
  - intros i x. rewrite list_lookup_fmap. destruct (bs !! i) as [b|] eqn:E; [|done]. intros [= <-].
    simpl. destruct (Hi _ _ E) as (-> & _). done.
  - rewrite <-list_fmap_compose. apply list_eq. intros i. rewrite list_lookup_fmap.
    destruct (bs !! i) as [b|] eqn:E; simpl; [by destruct (Hi _ _ E) as (_ & _ & _ & ->)|].
    symmetry. apply lookup_ge_None. rewrite <-Hl. by apply lookup_ge_None.
  - intros i v. rewrite !list_lookup_fmap. destruct (bs !! i); [|done]. by intros [= <-].
Qed.

(** The same but for health. *)
Definition but_up (v : Vitals) : N * N * BreakerState * N := (load v, pace v, broken v, openings v).

Lemma assume_healthy_places p :
  places (assume_healthy p) = places p ∧ backends (assume_healthy p) = backends p
  ∧ but_up <$> shape (assume_healthy p) = but_up <$> shape p.
Proof.
  unfold assume_healthy. generalize (backends p) at 1 2 4. intros bs. revert p.
  induction bs as [|b bs IH]; intros p; [done|]. cbn [foldl]. destruct (IH (set_healthy (id b) true p)) as (E1 & E2 & E3).
  split_and!; [by rewrite E1|by rewrite E2|]. rewrite E3. apply list_eq. intros i.
  rewrite !list_lookup_fmap. unfold set_healthy. destruct (decide (i = id b)) as [->|Hne]; [|by rewrite shape_elsewhere].
  rewrite shape_here. unfold shape. rewrite list_lookup_fmap. by destruct (states p !! id b).
Qed.
