(* ===== verification/BodySpool.v ===== *)
(** * The response spool ([src/src/proxy/spool.rs])

    A bounded buffer between the origin and a slow client: it absorbs a body at
    the origin's pace and hands it downstream when the origin is done, or gives
    up and streams.  Every request has its own [Spool]; they share one
    [SpoolBudget], which an operation takes and returns.  A chunk is a byte
    string, and a chunk that is present may be empty. *)

From S2P Require Import Prelude Words Text.
Local Open Scope string_scope.
Local Open Scope list_scope.
Local Open Scope N_scope.

Record SpoolBudget := mkBudget { limit : N; used : N }.

Definition new_budget (limit : N) : SpoolBudget := mkBudget limit 0.

(** The compare-and-swap loop decides on the value it replaces, so that it is one
    step. *)
Definition reserve (bytes : N) (b : SpoolBudget) : bool * SpoolBudget :=
  match checked_add (used b) bytes with
  | Some next => if next <=? limit b then (true, mkBudget (limit b) next) else (false, b)
  | None => (false, b)
  end.

Definition release (bytes : N) (b : SpoolBudget) : SpoolBudget :=
  mkBudget (limit b) (wrapping_sub (used b) bytes).

Inductive SpoolOutcome := Complete | BodyTooLarge | BudgetExhausted.
#[export] Instance SpoolOutcome_eq_dec : EqDecision SpoolOutcome.
Proof. solve_decision. Defined.

Definition outcome_as_str (o : SpoolOutcome) : string :=
  match o with
  | Complete => "complete"
  | BodyTooLarge => "body_too_large"
  | BudgetExhausted => "budget_exhausted"
  end.

Record Spool := mkSpool {
  buffer : string;
  reserved : N;
  max_body : N;
  gave_up : option SpoolOutcome }.

Definition RESERVE_STEP : N := 64 * 1024.

Definition new_spool (max_body : N) : Spool := mkSpool EmptyString 0 max_body None.

Definition is_active (s : Spool) : bool := bool_decide (gave_up s = None).

(** [(!out.is_empty()).then_some(out)]. *)
Definition nonempty (out : string) : option string := if is_empty out then None else Some out.

Definition drain (s : Spool) : option string * Spool :=
  (nonempty (buffer s), mkSpool EmptyString (reserved s) (max_body s) (gave_up s)).

Definition conclude (why : SpoolOutcome) (s : Spool) : Spool :=
  mkSpool (buffer s) (reserved s) (max_body s) (Some why).

Definition give_up_with (why : SpoolOutcome) (chunk : option string) (s : Spool) : option string * Spool :=
  let '(out, s) := drain (conclude why s) in
  let out := default EmptyString out in
  let out := match chunk with Some c => out +:+ c | None => out end in
  (nonempty out, s).

(** How much more to claim: whole steps, but no more than the body may hold. *)
Definition claim (needed : N) (s : Spool) : N :=
  let unreserved := needed - reserved s in
  let rounded := saturating_add unreserved (RESERVE_STEP - 1) / RESERVE_STEP * RESERVE_STEP in
  N.min rounded (saturating_sub (max_body s) (reserved s)).

Definition ensure_reserved (needed : N) (s : Spool) (b : SpoolBudget) : bool * Spool * SpoolBudget :=
  if needed <=? reserved s then (true, s, b)
  else
    let step := claim needed s in
    match reserve step b with
    | (false, b) => (false, s, b)
    | (true, b) => (true, mkSpool (buffer s) (reserved s + step) (max_body s) (gave_up s), b)
    end.

Definition absorb (c : string) (s : Spool) : Spool :=
  mkSpool (buffer s +:+ c) (reserved s) (max_body s) (gave_up s).

Definition finish (end_of_stream : bool) (s : Spool) : option string * Spool :=
  if end_of_stream then drain (conclude Complete s) else (None, s).

Definition offer (chunk : option string) (end_of_stream : bool) (s : Spool) (b : SpoolBudget) :
    option string * Spool * SpoolBudget :=
  match gave_up s with
  | Some _ => (chunk, s, b)
  | None =>
      let incoming := match chunk with Some c => len c | None => 0 end in
      if 0 <? incoming then
        if max_body s <? len (buffer s) + incoming then (give_up_with BodyTooLarge chunk s, b)
        else
          let '(ok, s, b) := ensure_reserved (len (buffer s) + incoming) s b in
          if ok then
            let s := match chunk with Some c => absorb c s | None => s end in
            (finish end_of_stream s, b)
          else (give_up_with BudgetExhausted chunk s, b)
      else (finish end_of_stream s, b)
  end.

(** [Drop for Spool]. *)
Definition release_all (s : Spool) (b : SpoolBudget) : Spool * SpoolBudget :=
  if 0 <? reserved s then (mkSpool (buffer s) 0 (max_body s) (gave_up s), release (reserved s) b)
  else (s, b).

(** ** One body *)

(** Offering the chunks of a body, the last with the end of the stream; what
    each step writes downstream, in order. *)
Fixpoint offer_all (chunks : list (option string)) (s : Spool) (b : SpoolBudget) :
    list (option string) * Spool * SpoolBudget :=
  match chunks with
  | [] => ([], s, b)
  | c :: rest =>
      let '(out, s, b) := offer c (bool_decide (rest = [])) s b in
      let '(outs, s, b) := offer_all rest s b in
      (out :: outs, s, b)
  end.

Definition text (c : option string) : string := default EmptyString c.
Definition concat (l : list (option string)) : string := foldr (λ c acc, text c +:+ acc) EmptyString l.

Lemma nonempty_text out : text (nonempty out) = out.
Proof. unfold nonempty. by destruct out. Qed.

Lemma is_empty_len s : is_empty s = (len s =? 0).
Proof. by destruct s. Qed.

Lemma len_zero s : len s = 0 → s = EmptyString.
Proof. by destruct s. Qed.

(** Each offer writes what it held and took, less what it keeps. *)
Lemma offer_text c eos s b :
  let '(out, s', b') := offer c eos s b in
  (gave_up s ≠ None → buffer s = EmptyString) →
  text out +:+ buffer s' = buffer s +:+ text c ∧
  (gave_up s' ≠ None → buffer s' = EmptyString) ∧ (eos = true → gave_up s' ≠ None).
Proof.
  unfold offer. destruct (gave_up s) as [o|] eqn:Eg.
  - intros Hb. rewrite Hb by done. rewrite str_app_nil_r. by rewrite Eg.
  - assert (∀ s1, gave_up s1 = None →
      let '(out, s') := finish eos s1 in
      text out +:+ buffer s' = buffer s1 ∧ (gave_up s' ≠ None → buffer s' = EmptyString)
      ∧ (eos = true → gave_up s' ≠ None)) as Hfin.
    { intros s1 H1. unfold finish. destruct eos; simpl; rewrite ?nonempty_text, ?str_app_nil_r; [done|].
      by rewrite H1. }
    assert (∀ why s1, buffer s1 = buffer s →
      let '(out, s') := give_up_with why c s1 in
      text out +:+ buffer s' = buffer s +:+ text c ∧ (gave_up s' ≠ None → buffer s' = EmptyString)
      ∧ (eos = true → gave_up s' ≠ None)) as Hgive.
    { intros why s1 H1. unfold give_up_with. simpl. fold (text (nonempty (buffer s1))).
      rewrite nonempty_text, str_app_nil_r, nonempty_text, H1. destruct c; simpl; by rewrite ?str_app_nil_r. }
    destruct (N.ltb_spec 0 (match c with Some c => len c | None => 0 end)) as [Hpos|Hzero].
    + destruct (_ <? _).
      { pose proof (Hgive BodyTooLarge s eq_refl) as H. destruct (give_up_with _ _ _). by intros _. }
      unfold ensure_reserved. destruct (_ <=? _).
      { destruct c as [c|]; [|done]. pose proof (Hfin (absorb c s) Eg) as H. destruct (finish _ _). by intros _. }
      destruct (reserve _ _) as [[] b'].
      * destruct c as [c|]; [|done].
        pose proof (Hfin (absorb c (mkSpool (buffer s) (reserved s + claim (len (buffer s) + len c) s) (max_body s) (gave_up s))) Eg) as H.
        destruct (finish _ _). by intros _.
      * pose proof (Hgive BudgetExhausted s eq_refl) as H. destruct (give_up_with _ _ _). by intros _.
    + pose proof (Hfin s Eg) as H. destruct (finish _ _) as [out s']. intros _. destruct H as (-> & H).
      split; [|done]. destruct c as [c|]; [|by rewrite str_app_nil_r].
      rewrite (len_zero c) by (simpl in *; lia). by rewrite str_app_nil_r.
Qed.

(** ** The bytes *)

Lemma offer_all_text chunks s b :
  chunks ≠ [] → (gave_up s ≠ None → buffer s = EmptyString) →
  let '(outs, s', b') := offer_all chunks s b in
  concat outs = buffer s +:+ concat chunks ∧ buffer s' = EmptyString.
Proof.
  revert s b. induction chunks as [|c rest IH]; intros s b Hne Hs; [done|]. cbn [offer_all].
  pose proof (offer_text c (bool_decide (rest = [])) s b) as Ho.
  destruct (offer c _ s b) as [[out s1] b1]. destruct (Ho Hs) as (Ht & Hg & He).
  destruct rest as [|c' rest].
  - simpl. rewrite bool_decide_true in He by done. rewrite Hg in Ht |- * by auto.
    rewrite str_app_nil_r in Ht. by rewrite Ht, !str_app_nil_r.
  - specialize (IH s1 b1 ltac:(done) Hg). destruct (offer_all (c' :: rest) s1 b1) as [[outs s2] b2].
    destruct IH as [IH ->]. cbn [concat foldr]. fold (concat outs) (concat (c' :: rest)).
    by rewrite IH, str_app_assoc, Ht, str_app_assoc.
Qed.

(** C31: The spool changes when bytes are written, never which: whatever the chunks
    of a body, the ceilings and the other requests' use of the budget, what is
    written downstream is the body, in order, and nothing is kept back at the
    end of the stream. *)
Theorem spool_preserves_body chunks max b :
  chunks ≠ [] →
  let '(outs, s, b') := offer_all chunks (new_spool max) b in
  concat outs = concat chunks ∧ buffer s = EmptyString.
Proof.
  intros Hne. pose proof (offer_all_text chunks (new_spool max) b Hne) as H.
  destruct (offer_all _ _ _) as [[outs s] b']. by apply H.
Qed.

(** ** The budget *)

(** No allocation is larger than [isize::MAX] bytes. *)
Definition ISIZE_MAX : N := 9223372036854775807.

Definition spool_ok (s : Spool) : Prop := len (buffer s) <= reserved s ∧ reserved s <= max_body s.

Lemma round_up x : x <= x + (RESERVE_STEP - 1) → x <= (x + (RESERVE_STEP - 1)) / RESERVE_STEP * RESERVE_STEP.
Proof.
  unfold RESERVE_STEP. change (64 * 1024) with 65536. intros _.
  pose proof (N.Div0.div_mod (x + (65536 - 1)) 65536). pose proof (N.mod_lt (x + (65536 - 1)) 65536 ltac:(done)).
  lia.
Qed.

Lemma claim_enough needed s :
  needed <= max_body s → needed <= ISIZE_MAX → needed <= reserved s + claim needed s.
Proof.
  intros Hm Hi. unfold claim, saturating_sub, saturating_add.
  rewrite (N.min_l (needed - reserved s + (RESERVE_STEP - 1)))
    by (unfold RESERVE_STEP, ISIZE_MAX, U64_MAX in *; lia).
  pose proof (round_up (needed - reserved s) ltac:(lia)). lia.
Qed.

Lemma claim_le needed s : claim needed s <= max_body s - reserved s.
Proof. unfold claim, saturating_sub. lia. Qed.

Lemma reserve_spec bytes b :
  limit b <= U64_MAX →
  reserve bytes b = if used b + bytes <=? limit b then (true, mkBudget (limit b) (used b + bytes)) else (false, b).
Proof.
  intros Hl. unfold reserve, checked_add.
  destruct (N.leb_spec (used b + bytes) U64_MAX), (N.leb_spec (used b + bytes) (limit b)); try done; lia.
Qed.

Lemma nonempty_len out : len (text (nonempty out)) = len out.
Proof. by rewrite nonempty_text. Qed.

(** An offer claims what its spool reserves, within the ceilings. *)
Lemma offer_budget c eos s b :
  spool_ok s → used b <= limit b → limit b <= U64_MAX → len (buffer s) + len (text c) <= ISIZE_MAX →
  let '(out, s', b') := offer c eos s b in
  spool_ok s' ∧ max_body s' = max_body s ∧ limit b' = limit b ∧ used b' <= limit b ∧
  used b' + reserved s = used b + reserved s'.
Proof.
  intros [Hb Hr] Hu Hl Hi. unfold offer. destruct (gave_up s) eqn:Eg; [done|].
  assert (∀ s1, spool_ok s1 → let '(_, s') := finish eos s1 in
    spool_ok s' ∧ max_body s' = max_body s1 ∧ reserved s' = reserved s1) as Hfin.
  { intros s1 [H1 H2]. destruct eos; [|done].
    split_and!; [split; [apply N.le_0_l|done]|done..]. }
  assert (∀ why s1, spool_ok s1 → let '(_, s') := give_up_with why c s1 in
    spool_ok s' ∧ max_body s' = max_body s1 ∧ reserved s' = reserved s1) as Hgive.
  { intros why s1 [H1 H2]. split_and!; [split; [apply N.le_0_l|done]|done..]. }
  destruct (N.ltb_spec 0 (match c with Some c => len c | None => 0 end)) as [Hpos|Hzero].
  2: { pose proof (Hfin s (conj Hb Hr)) as H. destruct (finish _ _) as [out s'].
       destruct H as (? & -> & ->). split_and!; simpl; try done; lia. }
  destruct c as [c|]; [|done]. simpl in Hi.
  destruct (N.ltb_spec (max_body s) (len (buffer s) + len c)) as [Hbig|Hfits].
  { pose proof (Hgive BodyTooLarge s (conj Hb Hr)) as H. destruct (give_up_with _ _ _) as [out s'].
    destruct H as (? & -> & ->). split_and!; simpl; try done; lia. }
  unfold ensure_reserved. destruct (N.leb_spec (len (buffer s) + len c) (reserved s)) as [Hin|Hmore].
  { pose proof (Hfin (absorb c s)) as H. destruct (finish _ _) as [out s'].
    destruct H as (? & -> & ->); [unfold spool_ok; simpl; rewrite len_app; lia|].
    split_and!; simpl; try done; lia. }
  rewrite reserve_spec by done.
  destruct (N.leb_spec (used b + claim (len (buffer s) + len c) s) (limit b)) as [Hroom|Hno].
  - set (s1 := mkSpool _ _ _ _). pose proof (Hfin (absorb c s1)) as H.
    pose proof (claim_enough (len (buffer s) + len c) s Hfits Hi).
    pose proof (claim_le (len (buffer s) + len c) s). destruct (finish _ _) as [out s'].
    destruct H as (? & -> & ->); [unfold spool_ok; simpl; rewrite len_app; lia|].
    split_and!; simpl; try done; lia.
  - pose proof (Hgive BudgetExhausted s (conj Hb Hr)) as H. destruct (give_up_with _ _ _) as [out s'].
    destruct H as (? & -> & ->). split_and!; simpl; try done; lia.
Qed.

(** Every request's spool over the one budget. *)
Record System := mkSystem { budget : SpoolBudget; spools : list Spool }.

Inductive sys_step : System → System → Prop :=
| sys_new y max : sys_step y (mkSystem (budget y) (new_spool max :: spools y))
| sys_offer y (i : nat) s c eos out s' b' :
    spools y !! i = Some s → len (buffer s) + len (text c) <= ISIZE_MAX →
    offer c eos s (budget y) = (out, s', b') →
    sys_step y (mkSystem b' (<[i := s']> (spools y)))
| sys_drop y (i : nat) s :
    spools y !! i = Some s →
    sys_step y (mkSystem (release_all s (budget y)).2 (delete i (spools y))).

Inductive sys_run (max : N) : System → Prop :=
| sys_start : sys_run max (mkSystem (new_budget max) [])
| sys_next y y' : sys_run max y → sys_step y y' → sys_run max y'.

Lemma delete_insert {A} (l : list A) i x : delete i (<[i:=x]> l) = delete i l.
Proof. revert i. induction l as [|a l IH]; intros [|i]; simpl; [done..|]. by rewrite IH. Qed.

Definition sys_ok (max : N) (y : System) : Prop :=
  limit (budget y) = max ∧ used (budget y) <= max ∧
  used (budget y) = sum_N (reserved <$> spools y) ∧ Forall spool_ok (spools y).

Lemma sys_step_ok max y y' : max <= U64_MAX → sys_ok max y → sys_step y y' → sys_ok max y'.
Proof.
  intros Hm (H1 & H2 & H3 & H4). destruct 1 as [y m|y i s c eos out s' b' Hs Hi Ho|y i s Hs]; simpl in *.
  - unfold sys_ok; simpl. split_and!; [done|done|exact H3|]. constructor; [|done].
    split; simpl; apply N.le_0_l.
  - pose proof (Forall_lookup_1 _ _ _ _ H4 Hs) as Hok.
    pose proof (offer_budget c eos s (budget y) Hok ltac:(lia) ltac:(lia) Hi) as Hb. rewrite Ho in Hb.
    destruct Hb as (Hok' & _ & Hl & Hu & He). unfold sys_ok; simpl.
    rewrite list_fmap_insert.
    assert ((reserved <$> spools y) !! i = Some (reserved s)) as Hri by by rewrite list_lookup_fmap, Hs.
    pose proof (sum_N_delete _ _ _ Hri).
    assert (<[i:=reserved s']> (reserved <$> spools y) !! i = Some (reserved s')) as Hri'.
    { apply list_lookup_insert_eq. by eapply lookup_lt_Some. }
    pose proof (sum_N_delete _ _ _ Hri') as Hd. rewrite delete_insert in Hd.
    split_and!; [lia..|]. by apply Forall_insert.
  - assert ((reserved <$> spools y) !! i = Some (reserved s)) as Hri by by rewrite list_lookup_fmap, Hs.
    pose proof (sum_N_delete _ _ _ Hri). unfold sys_ok, release_all, release; simpl.
    assert (reserved <$> delete i (spools y) = delete i (reserved <$> spools y)) as -> by apply list_fmap_delete.
    destruct (N.ltb_spec 0 (reserved s)); simpl; rewrite ?wrapping_sub_small by lia;
      (split_and!; [lia..|by apply Forall_delete]).
Qed.

(** The two ceilings hold: however the requests' chunks, ends and disconnects
    interleave, the budget is exactly what the live spools have reserved and
    never above [spool.max_memory], and every spool's buffer is within its
    reservation, which is within [spool.max_body]. *)
Theorem spool_budget_is_exact max y :
  max <= U64_MAX → sys_run max y →
  used (budget y) = sum_N (reserved <$> spools y) ∧ used (budget y) <= max ∧
  Forall (λ s, len (buffer s) <= reserved s ∧ reserved s <= max_body s) (spools y).
Proof.
  intros Hm Hr. assert (sys_ok max y) as (_ & ? & ? & ?); [|done].
  induction Hr as [|y y' _ IH Hs]; [|by eapply sys_step_ok].
  unfold sys_ok; simpl. split_and!; [done|lia|done|constructor].
Qed.

(** ** When the origin never waits *)

Definition has_room (s : Spool) (b : SpoolBudget) : Prop :=
  spool_ok s ∧ max_body s <= ISIZE_MAX ∧ limit b <= U64_MAX ∧ used b + (max_body s - reserved s) <= limit b.

Lemma offer_fits c eos s b :
  gave_up s = None → has_room s b → len (buffer s) + len (text c) <= max_body s →
  ∃ s' b', offer c eos s b = (finish eos s', b') ∧ gave_up s' = None ∧ has_room s' b' ∧
    buffer s' = buffer s +:+ text c ∧ max_body s' = max_body s.
Proof.
  intros Hg ([Hb Hr] & Hm & Hl & Hroom) Hfit. unfold offer. rewrite Hg.
  assert (text c = EmptyString → ∃ s' b', (finish eos s, b) = (finish eos s', b') ∧ gave_up s' = None ∧
     has_room s' b' ∧ buffer s' = buffer s +:+ text c ∧ max_body s' = max_body s) as Hempty.
  { intros ->. exists s, b. rewrite str_app_nil_r. by repeat split. }
  destruct c as [c|]; [|by apply Hempty]. simpl in Hfit. destruct (N.ltb_spec 0 (len c)).
  2: { apply Hempty, len_zero. simpl. lia. }
  rewrite (proj2 (N.ltb_ge _ _) Hfit). unfold ensure_reserved.
  destruct (N.leb_spec (len (buffer s) + len c) (reserved s)).
  { exists (absorb c s), b. split_and!; try done. split; [|done]. split; simpl; [rewrite len_app|]; lia. }
  rewrite reserve_spec by done. pose proof (claim_le (len (buffer s) + len c) s).
  pose proof (claim_enough (len (buffer s) + len c) s Hfit ltac:(lia)).
  rewrite (proj2 (N.leb_le _ _)) by lia. do 2 eexists. split; [reflexivity|]. split; [done|].
  split; [|done]. split_and!; simpl; [split; simpl; [rewrite len_app|]; lia|lia..].
Qed.

Lemma offer_inert chunks s b :
  is_Some (gave_up s) → offer_all chunks s b = (chunks, s, b).
Proof.
  intros [o Ho]. induction chunks as [|c rest IH]; [done|]. cbn [offer_all]. unfold offer at 1.
  by rewrite Ho, IH.
Qed.

Lemma offer_all_absorbs chunks s b :
  chunks ≠ [] → gave_up s = None → has_room s b →
  let '(outs, s', _) := offer_all chunks s b in
  let body := buffer s +:+ concat chunks in
  if len body <=? max_body s
  then gave_up s' = Some Complete ∧ outs = replicate (length chunks - 1) None ++ [nonempty body]
  else gave_up s' = Some BodyTooLarge.
Proof.
  revert s b. induction chunks as [|c rest IH]; intros s b Hne Hg Hroom; [done|].
  cbn [offer_all]. cbn [concat foldr]. fold (concat rest).
  destruct (N.le_gt_cases (len (buffer s) + len (text c)) (max_body s)) as [Hfit|Hbig].
  - destruct (offer_fits c (bool_decide (rest = [])) s b Hg Hroom Hfit) as (s1 & b1 & -> & Hg1 & Hr1 & Hb1 & Hm1).
    destruct rest as [|c' rest].
    + rewrite bool_decide_true by done.
      change (finish true s1) with
        (nonempty (buffer s1), mkSpool EmptyString (reserved s1) (max_body s1) (Some Complete)).
      cbn [offer_all length concat foldr]. rewrite str_app_nil_r, len_app, (proj2 (N.leb_le _ _) Hfit), Hb1.
      done.
    + rewrite bool_decide_false by done. cbn [finish]. specialize (IH s1 b1 ltac:(done) Hg1 Hr1).
      destruct (offer_all (c' :: rest) s1 b1) as [[outs s2] b2].
      cbv zeta in IH. rewrite Hb1, Hm1, <-str_app_assoc in IH. destruct (_ <=? _); [|done].
      destruct IH as [-> ->]. split; [done|]. simpl. by rewrite Nat.sub_0_r.
  - assert (is_Some (gave_up (give_up_with BodyTooLarge c s).2)) as Hi by by eexists.
    assert (offer c (bool_decide (rest = [])) s b = (give_up_with BodyTooLarge c s, b)) as ->.
    { destruct Hroom as ([H1 H2] & _). unfold offer. rewrite Hg. destruct c as [c|]; simpl in Hbig.
      - rewrite (proj2 (N.ltb_lt 0 (len c))) by lia. by rewrite (proj2 (N.ltb_lt _ _)).
      - change (len EmptyString) with 0 in Hbig. lia. }
    destruct (give_up_with BodyTooLarge c s) as [out s1] eqn:E. cbn [snd] in Hi.
    rewrite (offer_inert rest s1 b Hi). rewrite (proj2 (N.leb_gt _ _)) by (rewrite !len_app; lia).
    unfold give_up_with in E. simpl in E. by injection E as _ <-.
Qed.

(** The spool does its work: when the budget has room for [spool.max_body], a
    body that fits is held back entirely and written in one piece at the origin's
    end of stream, and a larger one makes the spool give up. *)
Theorem spool_absorbs_what_fits chunks max b :
  chunks ≠ [] → max <= ISIZE_MAX → limit b <= U64_MAX → used b + max <= limit b →
  let '(outs, s, _) := offer_all chunks (new_spool max) b in
  if len (concat chunks) <=? max
  then gave_up s = Some Complete ∧ outs = replicate (length chunks - 1) None ++ [nonempty (concat chunks)]
  else gave_up s = Some BodyTooLarge.
Proof.
  intros Hne Hm Hl Hroom. apply (offer_all_absorbs chunks (new_spool max) b Hne); [done|].
  split_and!; try done; [split; apply N.le_0_l|simpl; lia].
Qed.

(** ** Witnesses *)

Definition sample_body : list (option string) := [Some "<html>"; None; Some "</html>"].

Lemma spool_preserves_body_witness :
  ∃ outs s b', offer_all sample_body (new_spool 8) (new_budget 100) = (outs, s, b') ∧ concat outs = "<html></html>".
Proof.
  pose proof (spool_preserves_body sample_body 8 (new_budget 100) ltac:(discriminate)) as H.
  destruct (offer_all sample_body (new_spool 8) (new_budget 100)) as [[outs s] b'] eqn:E.
  exists outs, s, b'. split; [reflexivity|]. by destruct H as [-> _].
Defined.

Lemma spool_budget_is_exact_witness :
  ∃ y, sys_run 100 y ∧ used (budget y) = 50 ∧ used (budget y) = sum_N (reserved <$> spools y).
Proof.
  set (r := offer (Some "<html>") false (new_spool 50) (new_budget 100)).
  assert (sys_run 100 (mkSystem r.2 [r.1.2])) as Hr.
  { eapply sys_next; [eapply sys_next; [constructor|apply (sys_new _ 50)]|].
    apply (sys_offer (mkSystem (new_budget 100) [new_spool 50]) 0 (new_spool 50) (Some "<html>") false r.1.1 r.1.2 r.2);
      [reflexivity|vm_compute; discriminate|vm_compute; reflexivity]. }
  eexists. split; [exact Hr|]. split; [vm_compute; reflexivity|].
  by apply (spool_budget_is_exact 100 _ ltac:(discriminate) Hr).
Defined.

Lemma spool_absorbs_what_fits_witness :
  ∃ outs s b', offer_all sample_body (new_spool 20) (new_budget 100) = (outs, s, b') ∧
    outs = [None; None; Some "<html></html>"].
Proof.
  pose proof (spool_absorbs_what_fits sample_body 20 (new_budget 100) ltac:(discriminate)
    ltac:(discriminate) ltac:(discriminate) ltac:(discriminate)) as H.
  destruct (offer_all sample_body (new_spool 20) (new_budget 100)) as [[outs s] b'] eqn:E.
  exists outs, s, b'. split; [reflexivity|]. by destruct H as [_ ->].
Defined.
