(* ===== verification/Json.v ===== *)
(** * JSON text ([src/src/telemetry/json.rs])

    The one escaper every document goes through, and what is expected of it: a
    reference reader for JSON without insignificant white space (RFC 8259),
    which reads back every value that is written.  Strings are bytes: a
    character outside ASCII is written as it is. *)

From S2P Require Import Prelude Words Text.
Local Open Scope string_scope.
Local Open Scope list_scope.
Local Open Scope N_scope.

#[local] Arguments String.append _ _ : simpl nomatch.

Definition dquote : ascii := chr 34.
Definition backslash : ascii := chr 92.

(** ** The escaper *)

Definition hex_char (n : N) : ascii := chr (if n <? 10 then 48 + n else 87 + n).

(** [{:04x}] of a code below 256. *)
Definition hex4 (n : N) : string :=
  "00" +:+ String (hex_char (n / 16)) (str1 (hex_char (n mod 16))).

Definition escape_char (c : ascii) : string :=
  if decide (c = dquote) then String backslash (str1 dquote)
  else if decide (c = backslash) then String backslash (str1 backslash)
  else if decide (c = chr 10) then String backslash "n"
  else if decide (c = chr 13) then String backslash "r"
  else if decide (c = chr 9) then String backslash "t"
  else if code c <? 32 then String backslash ("u" +:+ hex4 (code c))
  else str1 c.

Fixpoint escape_into (out value : string) : string :=
  match value with
  | EmptyString => out
  | String c value' => escape_into (out +:+ escape_char c) value'
  end.

Definition field_str (out key value : string) : string :=
  let out := out +:+ str1 dquote in
  let out := out +:+ key in
  let out := out +:+ String dquote (String ":"%char (str1 dquote)) in
  let out := escape_into out value in
  out +:+ String dquote ",".

Definition quoted (out value : string) : string :=
  escape_into (out +:+ str1 dquote) value +:+ str1 dquote.

(** ** Values, as written *)

Inductive JSON :=
| JNull
| JBool (b : bool)
| JNum (z : Z)
| JStr (s : string)
| JArr (l : list JSON)
| JObj (l : list (string * JSON)).

Definition quote (s : string) : string := quoted EmptyString s.

Definition json_bool (b : bool) : string := if b then "true" else "false".

Fixpoint render (j : JSON) : string :=
  match j with
  | JNull => "null"
  | JBool b => json_bool b
  | JNum z => pretty z
  | JStr s => quote s
  | JArr l => "[" +:+ join "," (map render l) +:+ "]"
  | JObj l => "{" +:+ join "," (map (λ kv, quote kv.1 +:+ ":" +:+ render kv.2) l) +:+ "}"
  end.

(** ** The reference reader *)

(** The characters of a string after its opening quote. *)
Fixpoint read_chars (s : string) : option (string * string) :=
  match s with
  | EmptyString => None
  | String c r =>
      if decide (c = dquote) then Some (EmptyString, r)
      else if decide (c = backslash) then
        match r with
        | String e r =>
            let put a := '(x, r) ← read_chars r; Some (String a x, r) in
            if decide (e = dquote) then put dquote
            else if decide (e = backslash) then put backslash
            else if decide (e = "/"%char) then put "/"%char
            else if decide (e = "b"%char) then put (chr 8)
            else if decide (e = "f"%char) then put (chr 12)
            else if decide (e = "n"%char) then put (chr 10)
            else if decide (e = "r"%char) then put (chr 13)
            else if decide (e = "t"%char) then put (chr 9)
            else if decide (e = "u"%char) then
              match r with
              | String h1 (String h2 (String h3 (String h4 r))) =>
                  d1 ← to_digit 16 h1; d2 ← to_digit 16 h2; d3 ← to_digit 16 h3; d4 ← to_digit 16 h4;
                  let n := ((d1 * 16 + d2) * 16 + d3) * 16 + d4 in
                  if n <? 128 then '(x, r) ← read_chars r; Some (String (chr n) x, r) else None
              | _ => None
              end
            else None
        | EmptyString => None
        end
      else if code c <? 32 then None
      else '(x, r) ← read_chars r; Some (String c x, r)
  end.

(** The digits a number starts with. *)
Fixpoint read_nat (acc : N) (s : string) : N * string :=
  match s with
  | String c r => if is_digit c then read_nat (10 * acc + (code c - 48)) r else (acc, s)
  | EmptyString => (acc, s)
  end.

Definition read_num (s : string) : option (Z * string) :=
  match s with
  | String c r =>
      if decide (c = "-"%char) then
        match r with
        | String d _ => if is_digit d then let '(n, r) := read_nat 0 r in Some (- Z.of_N n, r)%Z else None
        | EmptyString => None
        end
      else if is_digit c then let '(n, r) := read_nat 0 s in Some (Z.of_N n, r) else None
  | EmptyString => None
  end.

Fixpoint read_value (fuel : nat) (s : string) : option (JSON * string) :=
  match fuel with
  | O => None
  | S fuel =>
      match s with
      | EmptyString => None
      | String c r =>
          if decide (c = dquote) then '(x, r) ← read_chars r; Some (JStr x, r)
          else if decide (c = "["%char) then
            match strip_prefix "]" r with
            | Some r => Some (JArr [], r)
            | None => '(l, r) ← read_items fuel r; Some (JArr l, r)
            end
          else if decide (c = "{"%char) then
            match strip_prefix "}" r with
            | Some r => Some (JObj [], r)
            | None => '(l, r) ← read_members fuel r; Some (JObj l, r)
            end
          else if decide (c = "n"%char) then r ← strip_prefix "ull" r; Some (JNull, r)
          else if decide (c = "t"%char) then r ← strip_prefix "rue" r; Some (JBool true, r)
          else if decide (c = "f"%char) then r ← strip_prefix "alse" r; Some (JBool false, r)
          else '(z, r) ← read_num s; Some (JNum z, r)
      end
  end
with read_items (fuel : nat) (s : string) : option (list JSON * string) :=
  match fuel with
  | O => None
  | S fuel =>
      '(j, r) ← read_value fuel s;
      match strip_prefix "]" r with
      | Some r => Some ([j], r)
      | None => r ← strip_prefix "," r; '(l, r) ← read_items fuel r; Some (j :: l, r)
      end
  end
with read_members (fuel : nat) (s : string) : option (list (string * JSON) * string) :=
  match fuel with
  | O => None
  | S fuel =>
      match s with
      | EmptyString => None
      | String c r =>
          if decide (c = dquote) then
            '(k, r) ← read_chars r; r ← strip_prefix ":" r; '(j, r) ← read_value fuel r;
            match strip_prefix "}" r with
            | Some r => Some ([(k, j)], r)
            | None => r ← strip_prefix "," r; '(l, r) ← read_members fuel r; Some ((k, j) :: l, r)
            end
          else None
      end
  end.

(** A whole document. *)
Definition parse (s : string) : option JSON :=
  match read_value (S (String.length s)) s with
  | Some (j, EmptyString) => Some j
  | _ => None
  end.

(** ** Strings *)

Fixpoint escape (value : string) : string :=
  match value with
  | EmptyString => EmptyString
  | String c value' => escape_char c +:+ escape value'
  end.

Lemma escape_into_eq out value : escape_into out value = out +:+ escape value.
Proof.
  revert out. induction value as [|c v IH]; intros out; simpl; [by rewrite str_app_nil_r|].
  by rewrite IH, str_app_assoc.
Qed.

Lemma quote_eq s : quote s = String dquote (escape s +:+ str1 dquote).
Proof. unfold quote, quoted. by rewrite escape_into_eq. Qed.

Lemma quoted_eq out s : quoted out s = out +:+ quote s.
Proof. unfold quoted. rewrite escape_into_eq, quote_eq. by rewrite <-!str_app_assoc. Qed.

Lemma field_str_eq out key value :
  field_str out key value = out +:+ String dquote (key +:+ String dquote (String ":"%char (quote value +:+ ","))).
Proof.
  unfold field_str. rewrite escape_into_eq, quote_eq, <-!str_app_assoc. simpl.
  by rewrite <-!str_app_assoc.
Qed.

(** Reading one escaped character. *)
Definition reads_back (c : ascii) : bool :=
  match read_chars (escape_char c +:+ str1 dquote) with
  | Some (x, EmptyString) => bool_decide (x = str1 c)
  | _ => false
  end.

Lemma read_escape_char c rest :
  read_chars (escape_char c +:+ rest) = '(x, r) ← read_chars rest; Some (String c x, r).
Proof. destruct c as [[] [] [] [] [] [] [] []]; reflexivity. Qed.

Lemma read_escape s rest : read_chars (escape s +:+ String dquote rest) = Some (s, rest).
Proof.
  induction s as [|c s IH]; [done|]. simpl. by rewrite <-str_app_assoc, read_escape_char, IH.
Qed.

(** The escaper is faithful and closed: whatever bytes a string holds, what is
    written is read back as that very string, and whatever follows it is read
    after it; so that no value can end its string early or forge another. *)
Theorem quoted_reads_back s rest :
  ∃ body, quote s +:+ rest = String dquote body ∧ read_chars body = Some (s, rest).
Proof.
  rewrite quote_eq. exists (escape s +:+ String dquote rest). split; [|apply read_escape].
  simpl. by rewrite <-str_app_assoc.
Qed.

(** What is written is free of control characters. *)
Definition no_control (s : string) : bool := all_chars (λ c, negb (code c <? 32)) s.

Lemma escape_char_clean c : no_control (escape_char c) = true.
Proof. destruct c as [[] [] [] [] [] [] [] []]; reflexivity. Qed.

Lemma escape_clean s : no_control (escape s) = true.
Proof.
  induction s as [|c s IH]; [done|]. simpl. unfold no_control in *.
  by rewrite all_chars_app, escape_char_clean, IH.
Qed.

(** ** Numbers *)

Definition digit_start (s : string) : bool :=
  match s with String a _ => is_digit a | EmptyString => false end.

Lemma to_digit_10 a d : to_digit 10 a = Some d → is_digit a = true ∧ d = code a - 48.
Proof. destruct a as [[] [] [] [] [] [] [] []]; by intros [= <-]. Qed.

Lemma read_nat_digits max acc s v rest :
  digit_start rest = false → digits_go 10 max acc s = Some v → read_nat acc (s +:+ rest) = (v, rest).
Proof.
  intros Hr. revert acc. induction s as [|a s IH]; intros acc; simpl.
  - intros [= ->]. destruct rest as [|b r]; [done|]. simpl in *. by rewrite Hr.
  - destruct (to_digit 10 a) as [d|] eqn:Ed; [|done]. apply to_digit_10 in Ed as [-> ->].
    destruct (_ <=? _); [|done]. rewrite (N.mul_comm 10 acc). apply IH.
Qed.

Lemma digits_print n : digits_go 10 n 0 (print_uint n) = Some n.
Proof.
  pose proof (parse_print_uint n n ltac:(lia)) as H. pose proof (print_uint_digits n) as Hd.
  unfold parse_uint in H. destruct (print_uint n) as [|a s] eqn:E; [done|].
  by rewrite decide_False in H by (by apply (digits_not_plus _ Hd a s)).
Qed.

Lemma print_uint_start n : ∃ a s, print_uint n = String a s ∧ is_digit a = true.
Proof.
  pose proof (print_uint_digits n) as Hd. pose proof (print_uint_nonempty n).
  destruct (print_uint n) as [|a s]; [done|]. exists a, s. split; [done|].
  simpl in Hd. by apply andb_true_iff in Hd as [? _].
Qed.

Lemma read_num_uint n rest :
  digit_start rest = false → read_num (print_uint n +:+ rest) = Some (Z.of_N n, rest).
Proof.
  intros Hr. pose proof (read_nat_digits n 0 _ n rest Hr (digits_print n)) as H.
  destruct (print_uint_start n) as (a & s & E & Ha). rewrite E in H |- *. simpl in H |- *.
  rewrite decide_False by (intros ->; done). rewrite Ha in H |- *. by rewrite H.
Qed.

Lemma pretty_num n : pretty (Z.of_N n) = print_uint n.
Proof. by destruct n. Qed.

Lemma read_num_print z rest :
  digit_start rest = false → read_num (pretty z +:+ rest) = Some (z, rest).
Proof.
  intros Hr. destruct z as [|p|p]; [by apply (read_num_uint 0)|by apply (read_num_uint (N.pos p))|].
  change (pretty (Z.neg p)) with ("-" +:+ print_uint (N.pos p)). rewrite <-str_app_assoc.
  pose proof (read_nat_digits (N.pos p) 0 _ (N.pos p) rest Hr (digits_print (N.pos p))) as H.
  destruct (print_uint_start (N.pos p)) as (a & s & E & Ha). rewrite E in H |- *. simpl in H |- *.
  rewrite Ha in H |- *. by rewrite H.
Qed.

(** A number starts with a digit or a minus sign. *)
Lemma num_start (z : Z) : ∃ a s, pretty z = String a s ∧
  (is_digit a = true ∨ a = "-"%char).
Proof.
  destruct z as [|p|p]; [by exists "0"%char, EmptyString; auto| |].
  - destruct (print_uint_start (N.pos p)) as (a & s & E & Ha). exists a, s. by auto.
  - exists "-"%char, (print_uint (N.pos p)). by auto.
Qed.

(** ** Reading back a value *)

Section Induction.
Context (P : JSON → Prop).
Context (Hnull : P JNull) (Hbool : ∀ b, P (JBool b)) (Hnum : ∀ z, P (JNum z)) (Hstr : ∀ s, P (JStr s)).
Context (Harr : ∀ l, Forall P l → P (JArr l)).
Context (Hobj : ∀ l, Forall (λ kv, P kv.2) l → P (JObj l)).

Fixpoint JSON_rec' (j : JSON) : P j :=
  match j with
  | JNull => Hnull
  | JBool b => Hbool b
  | JNum z => Hnum z
  | JStr s => Hstr s
  | JArr l => Harr l ((fix go l := match l return Forall P l with
                                   | [] => Forall_nil_2 _
                                   | j :: l => Forall_cons_2 _ _ _ (JSON_rec' j) (go l)
                                   end) l)
  | JObj l => Hobj l ((fix go l := match l return Forall (λ kv, P kv.2) l with
                                   | [] => Forall_nil_2 _
                                   | kv :: l => Forall_cons_2 _ _ _ (JSON_rec' kv.2) (go l)
                                   end) l)
  end.
End Induction.

(** How much fuel a value takes: enough for its nesting and its members. *)
Fixpoint weight (j : JSON) : nat :=
  match j with
  | JArr l => S (foldr (λ j n, S (weight j + n)) 0 l)
  | JObj l => S (foldr (λ kv n, S (weight kv.2 + n)) 0 l)
  | _ => 1
  end%nat.

Definition reads (j : JSON) : Prop :=
  ∀ fuel rest, (weight j <= fuel)%nat → digit_start rest = false →
    read_value fuel (render j +:+ rest) = Some (j, rest).

(** No value starts with a closing bracket or brace. *)
Lemma render_start j rest : strip_prefix "]" (render j +:+ rest) = None.
Proof.
  destruct j as [|[]|z|s|l|l]; try reflexivity.
  - destruct (num_start z) as (a & s & E & Ha). cbn [render]. rewrite E. simpl.
    rewrite decide_False; [done|]. intros <-. by destruct Ha.
  - cbn [render]. rewrite quote_eq. reflexivity.
Qed.

Lemma strip_char c s : strip_prefix (str1 c) (String c s) = Some s.
Proof. apply (strip_prefix_app (str1 c)). Qed.

Definition items (l : list JSON) : string := join "," (map render l).
Definition member (kv : string * JSON) : string := quote kv.1 +:+ ":" +:+ render kv.2.
Definition members (l : list (string * JSON)) : string := join "," (map member l).

Lemma join_more w w' ws : join "," (w :: w' :: ws) = w +:+ "," +:+ join "," (w' :: ws).
Proof. done. Qed.

Lemma read_items_back l fuel rest :
  l ≠ [] → Forall reads l → (foldr (λ j n, S (weight j + n)) 0 l <= fuel)%nat →
  read_items fuel (items l +:+ "]" +:+ rest) = Some (l, rest).
Proof.
  intros Hne Hall. revert fuel Hne. induction Hall as [|j l Hj _ IH]; intros fuel Hne Hf; [done|].
  destruct fuel as [|fuel]; [simpl in Hf; lia|]. cbn [foldr] in Hf. cbn [read_items].
  destruct l as [|j' l].
  - unfold items. cbn [map join]. rewrite Hj by (done || lia). reflexivity.
  - unfold items. cbn [map]. rewrite join_more, <-!str_app_assoc, Hj by (done || lia).
    cbn [mbind option_bind]. change (strip_prefix "]" ("," +:+ ?x)) with (@None string). cbn iota.
    rewrite strip_prefix_app. cbn [mbind option_bind].
    fold (map render (j' :: l)) (items (j' :: l)). by rewrite IH by (done || lia).
Qed.

Lemma read_members_back l fuel rest :
  l ≠ [] → Forall (λ kv, reads kv.2) l → (foldr (λ kv n, S (weight kv.2 + n)) 0 l <= fuel)%nat →
  read_members fuel (members l +:+ "}" +:+ rest) = Some (l, rest).
Proof.
  intros Hne Hall. revert fuel Hne. induction Hall as [|[k j] l Hj _ IH]; intros fuel Hne Hf; [done|].
  destruct fuel as [|fuel]; [simpl in Hf; lia|]. cbn [foldr snd] in Hf, Hj. cbn [read_members].
  assert (∀ tail, member (k, j) +:+ tail = String dquote (escape k +:+ String dquote (":" +:+ (render j +:+ tail)))) as Hm.
  { intros tail. unfold member. cbn [fst snd]. rewrite quote_eq. simpl. by rewrite <-!str_app_assoc. }
  destruct l as [|kv l].
  - unfold members. cbn [map join]. rewrite Hm. rewrite decide_True, read_escape by done.
    cbn [mbind option_bind]. rewrite strip_prefix_app. cbn [mbind option_bind].
    rewrite Hj by (done || lia). reflexivity.
  - unfold members. cbn [map]. rewrite join_more, <-!str_app_assoc, Hm, decide_True, read_escape by done.
    cbn [mbind option_bind]. rewrite strip_prefix_app. cbn [mbind option_bind].
    rewrite Hj by (done || lia). cbn [mbind option_bind].
    change (strip_prefix "}" ("," +:+ ?x)) with (@None string). cbn iota.
    rewrite strip_prefix_app. cbn [mbind option_bind].
    fold (map member (kv :: l)) (members (kv :: l)). by rewrite IH by (done || lia).
Qed.

Lemma render_members l : render (JObj l) = "{" +:+ members l +:+ "}".
Proof. reflexivity. Qed.

Lemma members_start kv l : ∃ x, members (kv :: l) = String dquote x.
Proof. unfold members. cbn [map]. destruct l; cbn [join map]; unfold member; rewrite quote_eq; by eexists. Qed.

Lemma items_start j l rest : strip_prefix "]" (items (j :: l) +:+ rest) = None.
Proof.
  unfold items. destruct l; cbn [map]; [|rewrite join_more, <-!str_app_assoc]; apply render_start.
Qed.

Lemma read_array fuel r :
  read_value (S fuel) (String "["%char r) =
    match strip_prefix "]" r with
    | Some r => Some (JArr [], r)
    | None => '(l, r) ← read_items fuel r; Some (JArr l, r)
    end.
Proof. reflexivity. Qed.

Lemma read_object fuel r :
  read_value (S fuel) (String "{"%char r) =
    match strip_prefix "}" r with
    | Some r => Some (JObj [], r)
    | None => '(l, r) ← read_members fuel r; Some (JObj l, r)
    end.
Proof. reflexivity. Qed.

Lemma reads_all j : reads j.
Proof.
  induction j as [|b|z|s|l IH|l IH] using JSON_rec'; intros fuel rest Hf Hr;
    (destruct fuel as [|fuel]; [simpl in Hf; lia|]).
  - reflexivity.
  - by destruct b.
  - cbn [render read_value]. pose proof (read_num_print z rest Hr) as H.
    destruct (num_start z) as (a & s & E & Ha). rewrite E in H |- *.
    change (String a s +:+ rest) with (String a (s +:+ rest)) in *.
    rewrite H. repeat rewrite decide_False by (intros ->; by destruct Ha). done.
  - cbn [render read_value]. rewrite quote_eq. simpl.
    by rewrite <-str_app_assoc, (read_escape s rest : read_chars (escape s +:+ (str1 dquote +:+ rest)) = _).
  - destruct l as [|j l]; [reflexivity|].
    change (render (JArr (j :: l)) +:+ rest) with (String "["%char ((items (j :: l) +:+ "]") +:+ rest)).
    rewrite read_array, <-str_app_assoc, items_start, read_items_back; [done|done|done|].
    simpl in Hf. simpl. lia.
  - destruct l as [|kv l]; [reflexivity|].
    change (render (JObj (kv :: l)) +:+ rest) with (String "{"%char ((members (kv :: l) +:+ "}") +:+ rest)).
    rewrite read_object, <-str_app_assoc.
    destruct (members_start kv l) as [x Hx].
    assert (strip_prefix "}" (members (kv :: l) +:+ "}" +:+ rest) = None) as -> by by rewrite Hx.
    rewrite read_members_back; [done|done|done|]. simpl in Hf. simpl. lia.
Qed.

Lemma weight_le j : (weight j <= String.length (render j))%nat.
Proof.
  assert (∀ a b : string, String.length (a +:+ b) = (String.length a + String.length b)%nat) as Hlen
    by apply str_length_app.
  induction j as [|[]|z|s|l IH|l IH] using JSON_rec'; try (simpl; lia).
  - destruct (num_start z) as (a & s & E & _). cbn [render weight]. rewrite E. simpl. lia.
  - cbn [render weight]. rewrite quote_eq. simpl. lia.
  - change (render (JArr l)) with ("[" +:+ items l +:+ "]"). rewrite !Hlen. cbn [weight String.length].
    assert (foldr (λ j n, S (weight j + n)) 0 l <= S (String.length (items l)))%nat; [|lia].
    induction IH as [|j l Hj _ IH]; [simpl; lia|]. destruct l as [|j' l]; [unfold items; simpl in *; lia|].
    unfold items in *. cbn [map] in *. rewrite join_more, !Hlen. cbn [foldr String.length] in *. lia.
  - rewrite render_members, !Hlen. cbn [weight String.length].
    assert (foldr (λ kv n, S (weight kv.2 + n)) 0 l <= S (String.length (members l)))%nat; [|lia].
    induction IH as [|kv l Hj _ IH]; [simpl; lia|].
    assert (weight kv.2 <= String.length (member kv))%nat as Hm by (unfold member; rewrite !Hlen; lia).
    destruct l as [|kv' l]; [unfold members; simpl in *; lia|].
    unfold members in *. cbn [map] in *. rewrite join_more, !Hlen. cbn [foldr String.length] in *. lia.
Qed.

(** Every rendered value is read back whole. *)
Lemma parse_render j : parse (render j) = Some j.
Proof.
  unfold parse. pose proof (reads_all j (S (String.length (render j))) EmptyString) as H.
  rewrite str_app_nil_r in H. rewrite H; [done| |done]. pose proof (weight_le j). lia.
Qed.

Lemma render_inj j k : render j = render k → j = k.
Proof. intros H. pose proof (parse_render j) as Hj. rewrite H, parse_render in Hj. by injection Hj. Qed.

(** ** Normalising a document

    Both sides of an equation between documents, as literal text between
    escaped parts. *)

Ltac flatten_text :=
  cbv zeta;
  repeat first [progress simpl | rewrite field_str_eq | rewrite quoted_eq | rewrite escape_into_eq
               | rewrite quote_eq | rewrite <-str_app_assoc].

(** Literal text of the source, with a single quote for the double one. *)
Definition lit (s : string) : string := map_chars (λ c, if decide (c = "'"%char) then dquote else c) s.

Lemma no_control_app a b : no_control (a +:+ b) = no_control a && no_control b.
Proof. apply all_chars_app. Qed.

Lemma quote_clean s : no_control (quote s) = true.
Proof.
  rewrite quote_eq. change (String dquote (escape s +:+ str1 dquote)) with (str1 dquote +:+ escape s +:+ str1 dquote).
  by rewrite !no_control_app, escape_clean.
Qed.

Lemma digits_clean n : no_control (print_uint n) = true.
Proof.
  apply (all_chars_impl is_digit); [|apply print_uint_digits].
  intros c. destruct c as [[] [] [] [] [] [] [] []]; (reflexivity || discriminate).
Qed.

Lemma join_clean l : Forall (λ s, no_control s = true) l → no_control (join "," l) = true.
Proof.
  induction 1 as [|w l Hw Hl IH]; [done|]. destruct l as [|w' l]; [done|].
  by rewrite join_more, !no_control_app, Hw, IH.
Qed.

(** A document is one line. *)
Lemma render_clean j : no_control (render j) = true.
Proof.
  induction j as [|[]|z|s|l IH|l IH] using JSON_rec'; try reflexivity.
  - destruct z as [|p|p]; [reflexivity|apply (digits_clean (N.pos p))|].
    change (render (JNum (Z.neg p))) with ("-" +:+ print_uint (N.pos p)).
    by rewrite no_control_app, digits_clean.
  - apply quote_clean.
  - change (render (JArr l)) with ("[" +:+ items l +:+ "]"). rewrite !no_control_app. unfold items.
    rewrite join_clean; [done|]. by apply Forall_map.
  - rewrite render_members, !no_control_app. unfold members. rewrite join_clean; [done|].
    apply Forall_map. eapply Forall_impl; [exact IH|]. intros [k j] Hj. unfold member; cbn [fst snd] in *.
    by rewrite !no_control_app, quote_clean, Hj.
Qed.

(** ** Lists *)

(** [for (i, x) in l.iter().enumerate() { if i > 0 { s.push(',') } f(s, x) }]. *)
Fixpoint comma_separated {A} (f : string → A → string) (first : bool) (s : string) (l : list A) : string :=
  match l with
  | [] => s
  | a :: l' => comma_separated f false (f (if first then s else s +:+ ",") a) l'
  end.

Lemma render_array l : render (JArr l) = "[" +:+ items l +:+ "]".
Proof. reflexivity. Qed.

Lemma items_more j k l : items (j :: k :: l) = render j +:+ "," +:+ items (k :: l).
Proof. done. Qed.

Lemma comma_separated_eq {A} (f : string → A → string) (g : A → JSON) (l : list A) s :
  Forall (λ a, ∀ s, f s a = s +:+ render (g a)) l →
  comma_separated f true s l = s +:+ items (g <$> l) ∧
  (l ≠ [] → comma_separated f false s l = s +:+ "," +:+ items (g <$> l)).
Proof.
  intros H. revert s. induction H as [|a l Ha _ IH]; intros s; cbn [comma_separated].
  - split; [|done]. unfold items. simpl. by rewrite str_app_nil_r.
  - rewrite !Ha. destruct l as [|a' l].
    + simpl comma_separated. unfold items. simpl. split; [done|intros _]. by rewrite <-str_app_assoc.
    + rewrite !(proj2 (IH _)) by done. rewrite !fmap_cons, items_more, <-!str_app_assoc. by split.
Qed.

Lemma comma_render {A} (f : string → A → string) (g : A → JSON) (l : list A) s :
  (∀ a s, f s a = s +:+ render (g a)) → comma_separated f true s l = s +:+ items (g <$> l).
Proof. intros H. apply comma_separated_eq. apply Forall_forall. intros a _ s'. apply H. Qed.
