(* ===== verification/Cli.v ===== *)
(** * The command line ([src/src/main.rs])

    What [harmost] makes of its arguments: the configuration file it takes, the
    options of [run] and [init], the file [init] writes, and the conversions of
    the configuration into Pingora's own settings.  The environment variable and
    the file system are arguments. *)

From S2P Require Import Prelude Words Text Units Schema Json.
Local Open Scope string_scope.
Local Open Scope list_scope.
Local Open Scope N_scope.

(** ** Conversions *)

(** Pingora counts whole seconds: rounded up. *)
Definition pingora_seconds (d : Duration) : N :=
  saturating_add (as_secs d) (if d mod 1000000000 =? 0 then 0 else 1).

Definition proxy_max_attempts (r : Retry.Retry) : N :=
  if Retry.enabled r then to_usize (Retry.max_attempts r) else 1.

(** ** The file *)

Inductive PathError := ConfigNeedsFile | NoConfigFound.

Definition is_option (s : string) : bool := starts_with "-" s.
Definition names_config (a : string) : bool := String.eqb a "--config" || String.eqb a "-c".
Definition DEFAULTS : list string :=
  ["harmost.yaml"; "harmost.yml"; "/etc/harmost/harmost.yaml"; "/etc/harmost/harmost.yml"].

Definition value_at (args : list string) (i : nat) : option string :=
  v ← args !! i; if is_option v then None else Some v.

Definition resolve_config_path (env : option string) (is_file : string → bool) (args : list string) :
    result PathError string :=
  match list_find (λ a, names_config a = true) args with
  | Some (i, _) => ok_or (value_at args (S i)) ConfigNeedsFile
  | None =>
      match env with
      | Some (String _ _ as path) => Ok path
      | _ => ok_or (snd <$> list_find (λ p, is_file p = true) DEFAULTS) NoConfigFound
      end
  end.

(** ** [run]'s options *)

Definition has_flag (args : list string) (flag : string) : bool := existsb (String.eqb flag) args.

Record RunFlags := mkFlags { upgrade : bool; daemon : bool; test : bool }.
Definition run_flags (args : list string) : RunFlags :=
  mkFlags (has_flag args "--upgrade") (has_flag args "--daemon") (has_flag args "--test").

Definition known : list string := ["--upgrade"; "--daemon"; "--test"; "--config"; "-c"; "run"].

Fixpoint unknown_from (skip_next : bool) (args : list string) : option string :=
  match args with
  | [] => None
  | a :: rest =>
      if skip_next then unknown_from false rest
      else if names_config a then unknown_from true rest
      else if is_option a && negb (existsb (String.eqb a) known) then Some a
      else unknown_from false rest
  end.
Definition unknown_run_flag (args : list string) : option string := unknown_from false args.

(** What [main] does with [run]. *)
Inductive RunCommand := RunRefused (why : PathError) | RunUnknown (flag : string) | Run (path : string) (flags : RunFlags).
Definition run_command env is_file (args : list string) : RunCommand :=
  match resolve_config_path env is_file args with
  | Err why => RunRefused why
  | Ok path => match unknown_run_flag args with Some flag => RunUnknown flag | None => Run path (run_flags args) end
  end.

(** ** [init] *)

Record InitOptions := mkInit { config : string; upstream : string; listen : string; concurrency : N; force : bool }.
Definition default_InitOptions : InitOptions := mkInit "harmost.yaml" "127.0.0.1:3000" "127.0.0.1:8080" 16 false.

Inductive InitError :=
| RequiresValue (option : string)
| ConcurrencyNotANumber
| ConcurrencyZero
| UnknownOption (o : string).

(** The value of an option and what follows it. *)
Definition option_value (rest : list string) (o : string) : result InitError (string * list string) :=
  match rest with
  | v :: rest => if is_option v then Err (RequiresValue o) else Ok (v, rest)
  | [] => Err (RequiresValue o)
  end.

(** One turn of the loop; the fuel is the number of arguments. *)
Fixpoint parse_options (fuel : nat) (args : list string) (o : InitOptions) : result InitError InitOptions :=
  match fuel, args with
  | Datatypes.S fuel, a :: rest =>
      if names_config a then
        '(v, rest) ← option_value rest "--config";
        parse_options fuel rest (mkInit v (upstream o) (listen o) (concurrency o) (force o))
      else if String.eqb a "--upstream" then
        '(v, rest) ← option_value rest "--upstream";
        parse_options fuel rest (mkInit (config o) v (listen o) (concurrency o) (force o))
      else if String.eqb a "--listen" then
        '(v, rest) ← option_value rest "--listen";
        parse_options fuel rest (mkInit (config o) (upstream o) v (concurrency o) (force o))
      else if String.eqb a "--concurrency" then
        '(v, rest) ← option_value rest "--concurrency";
        n ← ok_or (parse_uint USIZE_MAX v) ConcurrencyNotANumber;
        refuse_if (n =? 0) ConcurrencyZero;;
        parse_options fuel rest (mkInit (config o) (upstream o) (listen o) n (force o))
      else if String.eqb a "--force" then
        parse_options fuel rest (mkInit (config o) (upstream o) (listen o) (concurrency o) true)
      else Err (UnknownOption a)
  | _, _ => Ok o
  end.
(** The first argument is the command. *)
Definition parse_init_options (args : list string) : result InitError InitOptions :=
  parse_options (length args) (tail args) default_InitOptions.

(** ** The file [init] writes *)

Definition yaml_char (c : ascii) : string :=
  match code c with
  | 34 => String backslash (str1 dquote)
  | 92 => String backslash (str1 backslash)
  | 10 => String backslash "n"
  | 13 => String backslash "r"
  | 9 => String backslash "t"
  | _ => str1 c
  end.
Fixpoint yaml_chars (s : string) : string :=
  match s with EmptyString => EmptyString | String c s => yaml_char c +:+ yaml_chars s end.
Definition yaml_quote (value : string) : string := String dquote (yaml_chars value +:+ str1 dquote).

Definition lines (l : list string) : string := foldr (λ s acc, s +:+ str1 (chr 10) +:+ acc) EmptyString l.

Definition render_initial_config (o : InitOptions) : string :=
  let queue := saturating_mul (concurrency o) 2 in
  lines [
    "# Generated by `harmost init`. Add reviewed public routes above the private catch-all.";
    "version: 1";
    EmptyString;
    "server:";
    "  listen: " +:+ yaml_quote (listen o);
    "  # The generated setup expects a local TLS edge such as Caddy.";
    "  trusted_proxies:";
    lit "    from: ['127.0.0.1/32', '::1/128']";
    "    client_ip: x_forwarded";
    "    scheme: x_forwarded";
    EmptyString;
    "origin:";
    "  upstreams: [" +:+ yaml_quote (upstream o) +:+ "]";
    "  concurrency:";
    "    # Safe capacity depends on the application. Start here, measure, then tune.";
    "    max: " +:+ print_uint (concurrency o);
    "    queue:";
    "      max: " +:+ print_uint queue;
    "      timeout: 2s";
    EmptyString;
    "telemetry:";
    "  admin:";
    lit "    listen: '127.0.0.1:9091'";
    EmptyString;
    "routes:";
    "  - id: default-private";
    lit "    match: '/**'";
    "    class: private_dynamic";
    "    cache:";
    "      enabled: false";
    "    coalesce:";
    "      enabled: false"].

(** ** Proofs *)

(** A configured period reaches Pingora as whole seconds, never shorter than
    configured and longer by less than one. *)
Theorem pingora_seconds_covers d :
  d < U64_MAX * 1000000000 →
  d <= pingora_seconds d * 1000000000 ∧ pingora_seconds d * 1000000000 < d + 1000000000.
Proof.
  intros H. unfold pingora_seconds, as_secs, saturating_add.
  pose proof (N.div_mod d 1000000000 ltac:(discriminate)) as Hd.
  pose proof (N.mod_lt d 1000000000 ltac:(discriminate)).
  assert (d / 1000000000 < U64_MAX) by (apply N.Div0.div_lt_upper_bound; lia).
  revert Hd H0 H1. generalize (d / 1000000000) (d mod 1000000000). intros q r -> Hr Hq.
  destruct (N.eqb_spec r 0); rewrite N.min_l by lia; split; lia.
Qed.

(** *** Options of [run] *)

Lemma unknown_from_spec skip args i a :
  unknown_from skip args = None → args !! i = Some a → is_option a = true →
  a ∈ known ∨ (i = 0%nat ∧ skip = true) ∨ ∃ b, args !! (i - 1)%nat = Some b ∧ names_config b = true ∧ (1 <= i)%nat.
Proof.
  revert skip i. induction args as [|x args IH]; intros skip i Hu Hi Ho; [done|]. cbn [unknown_from] in Hu.
  destruct i as [|i].
  - injection Hi as ->. destruct skip; [auto|]. left.
    destruct (names_config a) eqn:En.
    { unfold names_config in En. apply orb_true_iff in En as [->%String.eqb_eq| ->%String.eqb_eq]; unfold known; set_solver. }
    rewrite Ho in Hu. destruct (existsb (String.eqb a) known) eqn:E; [|done].
    apply existsb_exists in E as (y & Hy & ->%String.eqb_eq). by apply list_elem_of_In.
  - simpl in Hi. assert (∃ skip', unknown_from skip' args = None ∧ (skip' = true → names_config x = true)) as (skip' & Hs & Hx).
    { destruct skip; [by exists false|]. destruct (names_config x) eqn:En; [by exists true|].
      exists false. split; [|done]. by destruct (_ && _). }
    destruct (IH skip' i Hs Hi Ho) as [H|[[-> ->]|(b & Hb & Hn & Hle)]]; [by left| |].
    + right. right. exists x. split; [done|]. split; [by apply Hx|lia].
    + right. right. exists b. split; [|split; [done|lia]]. destruct i as [|i]; [lia|].
      simpl in Hb |- *. by rewrite Nat.sub_0_r in Hb.
Qed.

Lemma find_config args i a :
  list_find (λ a, names_config a = true) args = Some (i, a) →
  args !! i = Some a ∧ names_config a = true ∧ ∀ j b, args !! j = Some b → names_config b = true → (i <= j)%nat.
Proof.
  intros (H1 & H2 & H3)%list_find_Some. split_and!; [done..|]. intros j b Hj Hb.
  destruct (decide (j < i)%nat) as [Hlt|]; [|lia]. by destruct (H3 j b Hj Hlt).
Qed.

(** [run] knows every option it accepts: when it starts, each argument that looks
    like an option is one of its own, or stands where a second [--config] would
    have its file; and the flags are those given. *)
Theorem run_knows_its_options env is_file args path flags :
  run_command env is_file args = Run path flags →
  flags = run_flags args ∧
  ∀ i a, args !! i = Some a → is_option a = true →
    a ∈ known ∨ ∃ first b, names_config b = true ∧ args !! (i - 1)%nat = Some b ∧ (first < i - 1)%nat
      ∧ (names_config <$> args !! first) = Some true.
Proof.
  unfold run_command. destruct (resolve_config_path env is_file args) as [p|] eqn:Er; [|done].
  destruct (unknown_run_flag args) eqn:Eu; [done|]. intros [= -> <-]. split; [done|]. intros i a Hi Ho.
  destruct (unknown_from_spec _ _ _ _ Eu Hi Ho) as [H|[[_ H]|(b & Hb & Hn & Hle)]]; [by left|done|].
  unfold resolve_config_path in Er. destruct (list_find _ args) as [[f c]|] eqn:Ef.
  - apply find_config in Ef as (Hf & Hc & Hfirst). pose proof (Hfirst _ _ Hb Hn) as Hle'.
    destruct (decide (f = i - 1)%nat) as [->|Hne].
    + unfold value_at in Er. replace (S (i - 1)) with i in Er by lia. rewrite Hi in Er. cbn in Er. by rewrite Ho in Er.
    + right. exists f, b. split_and!; [done|done|lia|]. rewrite Hf. simpl. by rewrite Hc.
  - apply list_find_None in Ef. rewrite Forall_lookup in Ef. by destruct (Ef _ _ Hb Hn).
Qed.

(** So an option [run] does not have is refused, unless it follows a second
    [--config]: then it is neither used nor refused. *)
Lemma swallowed_option is_file :
  run_command None is_file ["run"; "--config"; "a.yaml"; "--config"; "--bogus"]
  = Run "a.yaml" (mkFlags false false false).
Proof. reflexivity. Qed.

(** *** Options of [init] *)

Inductive InitOption := OConfig (v : string) | OUpstream (v : string) | OListen (v : string) | OConcurrency (n : N) | OForce.
Definition written (x : InitOption) : list string :=
  match x with
  | OConfig v => ["--config"; v]
  | OUpstream v => ["--upstream"; v]
  | OListen v => ["--listen"; v]
  | OConcurrency n => ["--concurrency"; print_uint n]
  | OForce => ["--force"]
  end.
Definition set_option (o : InitOptions) (x : InitOption) : InitOptions :=
  match x with
  | OConfig v => mkInit v (upstream o) (listen o) (concurrency o) (force o)
  | OUpstream v => mkInit (config o) v (listen o) (concurrency o) (force o)
  | OListen v => mkInit (config o) (upstream o) v (concurrency o) (force o)
  | OConcurrency n => mkInit (config o) (upstream o) (listen o) n (force o)
  | OForce => mkInit (config o) (upstream o) (listen o) (concurrency o) true
  end.
Definition writable (x : InitOption) : Prop :=
  match x with
  | OConfig v | OUpstream v | OListen v => is_option v = false
  | OConcurrency n => 1 <= n ∧ n <= USIZE_MAX
  | OForce => True
  end.

Lemma digits_no_option n : is_option (print_uint n) = false.
Proof.
  pose proof (print_uint_digits n) as Hd. unfold is_option, starts_with. destruct (print_uint n) as [|a s]; [done|].
  simpl in *. apply andb_true_iff in Hd as [Hd _]. by case_decide; subst.
Qed.

Lemma parse_options_step fuel x rest o :
  writable x → (length (written x ++ rest) <= fuel)%nat →
  ∃ fuel', (length rest <= fuel')%nat ∧ parse_options fuel (written x ++ rest) o = parse_options fuel' rest (set_option o x).
Proof.
  intros Hw Hf. destruct x as [v|v|v|n|]; simpl in Hw, Hf; destruct fuel as [|fuel]; simpl in Hf; try lia;
    exists fuel; (split; [lia|]); simpl; rewrite ?Hw, ?digits_no_option; try done.
  cbn [mbind result_bind].
  rewrite parse_print_uint by apply Hw. simpl. destruct (N.eqb_spec n 0); [lia|done].
Qed.

Lemma parse_options_all xs fuel o :
  Forall writable xs → (length (mjoin (written <$> xs)) <= fuel)%nat →
  parse_options fuel (mjoin (written <$> xs)) o = Ok (foldl set_option o xs).
Proof.
  revert fuel o. induction xs as [|x xs IH]; intros fuel o Hw Hf; [by destruct fuel|].
  apply Forall_cons in Hw as [Hx Hxs].
  change (mjoin (written <$> x :: xs)) with (written x ++ mjoin (written <$> xs)) in *. cbn [foldl].
  destruct (parse_options_step fuel x (mjoin (written <$> xs)) o Hx Hf) as (fuel' & Hf' & ->). by apply IH.
Qed.

(** [init] takes its options in any order, each as often as it is given, and the
    last one counts. *)
Theorem init_options_read_back xs :
  Forall writable xs →
  parse_init_options ("init" :: mjoin (written <$> xs)) = Ok (foldl set_option default_InitOptions xs).
Proof. intros H. unfold parse_init_options. apply parse_options_all; [done|]. simpl. lia. Qed.

(** *** The file *)

(** A double-quoted YAML scalar with the escapes [init] uses, as a reader takes
    it: [None] for anything else. *)
Fixpoint yaml_unquote (s : string) : option string :=
  match s with
  | EmptyString => None
  | String c s =>
      if Ascii.eqb c dquote then match s with EmptyString => Some EmptyString | _ => None end
      else if Ascii.eqb c backslash then
        match s with
        | String e s =>
            c ← (if Ascii.eqb e dquote then Some dquote else if Ascii.eqb e backslash then Some backslash
                 else if Ascii.eqb e "n"%char then Some (chr 10) else if Ascii.eqb e "r"%char then Some (chr 13)
                 else if Ascii.eqb e "t"%char then Some (chr 9) else None);
            String c <$> yaml_unquote s
        | EmptyString => None
        end
      else if (code c =? 10) || (code c =? 13) then None else String c <$> yaml_unquote s
  end.

(** Whatever the options hold, quoting cannot be escaped: the scalar written
    reads back as the value, on its one line. *)
Theorem yaml_quote_reads_back v :
  ∃ body, yaml_quote v = String dquote body ∧ yaml_unquote body = Some v.
Proof.
  exists (yaml_chars v +:+ str1 dquote). split; [done|].
  induction v as [|c v IH]; [done|]. cbn [yaml_chars].
  assert (∀ s, yaml_unquote (yaml_char c +:+ s) = String c <$> yaml_unquote s) as Hc.
  { intros s. destruct c as [[] [] [] [] [] [] [] []]; reflexivity. }
  rewrite <-str_app_assoc. rewrite Hc, IH. done.
Qed.

(** ** Witnesses *)

Lemma pingora_seconds_covers_witness : pingora_seconds 500000000 = 1 ∧ 500000000 <= 1 * 1000000000.
Proof. split; [reflexivity|]. apply (pingora_seconds_covers 500000000). reflexivity. Defined.

Lemma run_knows_its_options_witness :
  run_command None (λ p, String.eqb p "harmost.yaml") ["run"; "--upgrade"] = Run "harmost.yaml" (mkFlags true false false)
  ∧ mkFlags true false false = run_flags ["run"; "--upgrade"].
Proof.
  split; [reflexivity|].
  apply (run_knows_its_options None (λ p, String.eqb p "harmost.yaml") ["run"; "--upgrade"] "harmost.yaml"). reflexivity.
Defined.

Lemma init_options_read_back_witness :
  parse_init_options ["init"; "--listen"; "0.0.0.0:80"; "--concurrency"; "4"; "--force"]
  = Ok (mkInit "harmost.yaml" "127.0.0.1:3000" "0.0.0.0:80" 4 true).
Proof.
  apply (init_options_read_back [OListen "0.0.0.0:80"; OConcurrency 4; OForce]).
  constructor; [reflexivity|]. constructor; [split; discriminate|]. constructor; [exact I|constructor].
Defined.
