(* ===== verification/CheckCommand.v ===== *)
(** * [harmost check] and [harmost init] ([src/src/main.rs])

    What [check] answers for a configuration file: the notices it prints, in
    order, one constructor per message with the values in it.  The file must load
    and its routes compile, as for [run].  And what [init] does, message by
    message, with the file system as an argument. *)

From S2P Require Import Prelude Words Text Units Schema Net Semaphores Limiter Classifier Admission Validation ValidationTheorems.
From S2P Require Import Policy PolicyTheorems Json Cli.
Local Open Scope string_scope.
Local Open Scope list_scope.
Local Open Scope N_scope.

Inductive Notice :=
| ConfigOk (path : string)
| SchemaVersion (version : N)
| Counts (upstreams routes : N)
| ObserveMode | ProtectMode
| GlobalConcurrency (max : N)
| GroupCapacity (allocated global replicas : N)
| RouteOverrides (id : string)
| PriorityCeilings (max high normal low : N)
| BreakersOn (failure_percent min_requests : N) (window open_for : Duration) (max_ejected_percent : N)
| RetriesOn (max_attempts budget_percent : N) (window : Duration) (budget_min : N)
| PurgeEnabled
| NextTags
| NoTrustedProxies
| TrustingBlocks (n : N)
| OriginUnverified
| AdminEndpoints (listen : string)
| ReadinessNeedsUpstream
| AdminExposed
| NoAdmin
| ExportingSpans (endpoint : string) (interval : Duration) (max_batch : N)
| NoExport
| TraceparentTrusted
| RestartFiles (pid socket : string)
| StopBudget (total drain shutdown : Duration)
| StopBudgetExceeds (at_least : N)
| UpgradesOn (max_concurrent : N)
| SpoolingOn (max_body max_memory : N).

Definition tell (b : bool) (n : Notice) : list Notice := if b then [n] else [].

Inductive CheckFailure :=
| BadFile (why : LoadError)
| BadPolicy (why : MatcherError).

(** The share of the ceiling, as it is printed. *)
Definition share (max percent : N) : N := saturating_mul max percent / 100.

Definition duration_saturating_add (a b : Duration) : Duration := N.min (a + b) DURATION_MAX.
Definition stop_budget (g : Graceful.Graceful) : Duration :=
  duration_saturating_add (as_duration (Graceful.drain_period g))
    (from_secs (pingora_seconds (as_duration (Graceful.shutdown_timeout g)))).

Definition capacity_notices (cfg : Config.Config) : list Notice :=
  let o := Config.origin cfg in
  let max := Concurrency.max (Origin.concurrency o) in
  [match Config.mode cfg with Observe => ObserveMode | Protect => ProtectMode end; GlobalConcurrency max]
  ++ match Config.capacity cfg with
     | Some g => [GroupCapacity (wrapping_mul max (CapacityGroup.replicas g)) (CapacityGroup.global_max g) (CapacityGroup.replicas g)]
     | None => []
     end
  ++ ((λ r, RouteOverrides (Route.id r)) <$>
        filter (λ r, match Route.cache r with Some c => RouteCache.override_origin c | None => false end = true) (Config.routes cfg))
  ++ (let p := Origin.priorities o in
      tell (negb (Priorities.is_uniform p))
        (PriorityCeilings max (share max (Priorities.high p)) (share max (Priorities.normal p)) (share max (Priorities.low p))))
  ++ (let b := Origin.breaker o in
      tell (Breaker.enabled b)
        (BreakersOn (Breaker.failure_percent b) (Breaker.min_requests b) (as_duration (Breaker.window b))
           (as_duration (Breaker.open_for b)) (Breaker.max_ejected_percent b)))
  ++ (let r := Origin.retry o in
      tell (Retry.enabled r)
        (RetriesOn (Retry.max_attempts r) (Retry.budget_percent r) (as_duration (Retry.window r)) (Retry.budget_min r))).

Definition trust_notices (cfg : Config.Config) : list Notice :=
  let c := Config.cache cfg in
  let from := TrustedProxies.from (Server.trusted_proxies (Config.server cfg)) in
  tell (match Purge.token (CacheDefaults.purge c) with Some _ => true | None => false end) PurgeEnabled
  ++ tell (eq_ignore_ascii_case (CacheDefaults.tag_header c) "x-next-cache-tags") NextTags
  ++ [match from with [] => NoTrustedProxies | _ => TrustingBlocks (N.of_nat (length from)) end]
  ++ tell (match Origin.tls (Config.origin cfg) with
           | Some tls => negb (OriginTls.verify_cert tls) || negb (OriginTls.verify_hostname tls)
           | None => false
           end) OriginUnverified.

Definition exposed (listen : string) : bool :=
  match parse_socket listen with Some a => is_unspecified (ip a) | None => false end.

Definition operability_notices (cfg : Config.Config) : list Notice :=
  let t := Config.telemetry cfg in
  let g := Server.graceful (Config.server cfg) in
  let shutdown := from_secs (pingora_seconds (as_duration (Graceful.shutdown_timeout g))) in
  match Telemetry.admin t with
  | Some a => AdminEndpoints (Schema.Admin.listen a)
      :: tell (Schema.Admin.require_healthy_upstream a) ReadinessNeedsUpstream
      ++ tell (exposed (Schema.Admin.listen a)) AdminExposed
  | None => [NoAdmin]
  end
  ++ [match Tracing.otlp (Telemetry.tracing t) with
      | Some o => ExportingSpans (Schema.Otlp.endpoint o) (as_duration (Schema.Otlp.interval o)) (Schema.Otlp.max_batch o)
      | None => NoExport
      end]
  ++ tell (bool_decide (Tracing.trust_incoming (Telemetry.tracing t) = FromTrustedProxies)) TraceparentTrusted
  ++ [RestartFiles (Graceful.pid_file g) (Graceful.upgrade_socket g);
      StopBudget (stop_budget g) (as_duration (Graceful.drain_period g)) shutdown]
  ++ tell (from_secs 30 <? stop_budget g) (StopBudgetExceeds (saturating_add (as_secs (stop_budget g)) 5))
  ++ (let u := Config.upgrade cfg in tell (Upgrade.enabled u) (UpgradesOn (Upgrade.max_concurrent u)))
  ++ (let s := Config.spool cfg in
      tell (Spool.enabled s ||
            existsb (λ r, bool_decide ((s ← Route.spool r; RouteSpool.enabled s) = Some true)) (Config.routes cfg))
        (SpoolingOn (get (Spool.max_body s)) (get (Spool.max_memory s)))).

Section Check.
Context {Sem : Type} `{S : !Semaphore Sem} (M : Matching) (P : Platform) (F : Files).

Definition check (path : string) : result CheckFailure (list Notice) :=
  cfg ← map_err BadFile (load (Sem := Sem) P F path);
  policy ← map_err BadPolicy (build M cfg 1);
  let cfg := p_config M policy in
  Ok ([ConfigOk path; SchemaVersion (Config.version cfg);
       Counts (N.of_nat (length (Origin.upstreams (Config.origin cfg)))) (N.of_nat (length (Config.routes cfg)))]
      ++ capacity_notices cfg ++ trust_notices cfg ++ operability_notices cfg).
End Check.

(** ** [init] *)

(** What [init] asks of the file system. *)
Record Disk := mkDisk {
  exists_at : string → bool;
  parent : string → option string;
  create_dir_all : string → result string unit;
  write : string → string → result string unit }.

Inductive InitOutcome :=
| BadOption (e : InitError)
| GeneratedUnreadable (e : string)
| GeneratedInvalid (e : ValidationError)
| GeneratedUnbuildable (e : MatcherError)
| AlreadyExists (path : string)
| NoDirectory (dir e : string)
| NotWritten (path e : string)
| Created (options : InitOptions) (contents : string).

Definition exit_code (o : InitOutcome) : N :=
  match o with
  | Created _ _ => 0
  | GeneratedUnreadable _ | NoDirectory _ _ | NotWritten _ _ => 1
  | _ => 2
  end.

Section Init.
Context {Sem : Type} `{S : !Semaphore Sem} (M : Matching) (P : Platform) (F : Files) (D : Disk).

(** The generated text is parsed, validated and built before anything is
    touched. *)
Definition init (args : list string) : InitOutcome :=
  match parse_init_options args with
  | Err e => BadOption e
  | Ok options =>
      let contents := render_initial_config options in
      let path := config options in
      match from_str F contents with
      | Err e => GeneratedUnreadable e
      | Ok cfg =>
          match validate (Sem := Sem) P cfg with
          | Err e => GeneratedInvalid e
          | Ok _ =>
              match build M cfg 1 with
              | Err e => GeneratedUnbuildable e
              | Ok _ =>
                  if exists_at D path && negb (force options) then AlreadyExists path
                  else
                    match match parent D path with
                          | Some (String _ _ as dir) => map_err (NoDirectory dir) (create_dir_all D dir)
                          | _ => Ok tt
                          end with
                    | Err e => e
                    | Ok _ =>
                        match write D path contents with
                        | Err e => NotWritten path e
                        | Ok _ => Created options contents
                        end
                    end
              end
          end
      end
  end.
End Init.

(** ** Proofs *)

Lemma elem_of_tell n b m : n ∈ tell b m ↔ b = true ∧ n = m.
Proof. unfold tell. destruct b; rewrite ?elem_of_cons, ?elem_of_nil; naive_solver. Qed.

Section CheckTheorems.
Context {Sem : Type} `{S : !Semaphore Sem} {laws : SemaphoreLaws Sem S} (M : Matching) (P : Platform) (F : Files).

Lemma check_ok path ns :
  check (Sem := Sem) M P F path = Ok ns →
  ∃ cfg p, load (Sem := Sem) P F path = Ok cfg ∧ build M cfg 1 = Ok p ∧
    ns = [ConfigOk path; SchemaVersion (Config.version cfg);
       Counts (N.of_nat (length (Origin.upstreams (Config.origin cfg)))) (N.of_nat (length (Config.routes cfg)))]
      ++ capacity_notices cfg ++ trust_notices cfg ++ operability_notices cfg.
Proof.
  unfold check. rewrite bind_ok. intros (cfg & Hl & H). apply bind_ok in H as (p & Hb & [= <-]).
  apply map_err_ok in Hl, Hb. exists cfg, p. destruct (resolved_configs _ _ _ _ Hb) as (-> & _). done.
Qed.

(** What each warning comes down to. *)
Definition hazard (cfg : Config.Config) (n : Notice) : Prop :=
  match n with
  | OriginUnverified => ∃ tls, Origin.tls (Config.origin cfg) = Some tls ∧
      (OriginTls.verify_cert tls = false ∨ OriginTls.verify_hostname tls = false)
  | AdminExposed => ∃ a s, Telemetry.admin (Config.telemetry cfg) = Some a ∧
      parse_socket (Schema.Admin.listen a) = Some s ∧ is_unspecified (ip s) = true
  | TraceparentTrusted => Tracing.trust_incoming (Telemetry.tracing (Config.telemetry cfg)) = FromTrustedProxies
  | PurgeEnabled => is_Some (Purge.token (CacheDefaults.purge (Config.cache cfg)))
  | NoTrustedProxies => TrustedProxies.from (Server.trusted_proxies (Config.server cfg)) = []
  | ReadinessNeedsUpstream => ∃ a, Telemetry.admin (Config.telemetry cfg) = Some a ∧
      Schema.Admin.require_healthy_upstream a = true
  | RouteOverrides id => ∃ r c, r ∈ Config.routes cfg ∧ Route.id r = id ∧ Route.cache r = Some c ∧
      RouteCache.override_origin c = true
  | StopBudgetExceeds n => from_secs 30 < stop_budget (Server.graceful (Config.server cfg)) ∧
      n = saturating_add (as_secs (stop_budget (Server.graceful (Config.server cfg)))) 5
  | _ => False
  end.

Definition is_hazard (n : Notice) : bool :=
  match n with
  | OriginUnverified | AdminExposed | TraceparentTrusted | PurgeEnabled | NoTrustedProxies
  | ReadinessNeedsUpstream | RouteOverrides _ | StopBudgetExceeds _ => true
  | _ => false
  end.

(** The warnings alone, in the order they are printed. *)
Definition warnings (ns : list Notice) : list Notice := filter (λ n, is_hazard n = true) ns.

Lemma warnings_app l l' : warnings (l ++ l') = warnings l ++ warnings l'.
Proof. apply filter_app. Qed.
Lemma warnings_tell b n : warnings (tell b n) = tell (b && is_hazard n) n.
Proof. unfold warnings, tell. destruct b; [|done]. rewrite filter_cons. simpl. by destruct (is_hazard n). Qed.
Lemma warnings_cons n l : warnings (n :: l) = tell (is_hazard n) n ++ warnings l.
Proof. unfold warnings, tell. rewrite filter_cons. by destruct (is_hazard n). Qed.
Lemma warnings_overrides (rs : list Route.Route) :
  warnings ((λ r, RouteOverrides (Route.id r)) <$> rs) = (λ r, RouteOverrides (Route.id r)) <$> rs.
Proof. induction rs as [|r rs IH]; [done|]. rewrite fmap_cons. unfold warnings in *. rewrite filter_cons. simpl. by rewrite IH. Qed.

Lemma warnings_of cfg :
  warnings (capacity_notices cfg ++ trust_notices cfg ++ operability_notices cfg) =
    ((λ r, RouteOverrides (Route.id r)) <$>
       filter (λ r, match Route.cache r with Some c => RouteCache.override_origin c | None => false end = true) (Config.routes cfg))
    ++ tell (match Purge.token (CacheDefaults.purge (Config.cache cfg)) with Some _ => true | None => false end) PurgeEnabled
    ++ tell (bool_decide (TrustedProxies.from (Server.trusted_proxies (Config.server cfg)) = [])) NoTrustedProxies
    ++ tell (match Origin.tls (Config.origin cfg) with
             | Some tls => negb (OriginTls.verify_cert tls) || negb (OriginTls.verify_hostname tls)
             | None => false end) OriginUnverified
    ++ tell (match Telemetry.admin (Config.telemetry cfg) with Some a => Schema.Admin.require_healthy_upstream a | None => false end)
         ReadinessNeedsUpstream
    ++ tell (match Telemetry.admin (Config.telemetry cfg) with Some a => exposed (Schema.Admin.listen a) | None => false end) AdminExposed
    ++ tell (bool_decide (Tracing.trust_incoming (Telemetry.tracing (Config.telemetry cfg)) = FromTrustedProxies)) TraceparentTrusted
    ++ let g := stop_budget (Server.graceful (Config.server cfg)) in
       tell (from_secs 30 <? g) (StopBudgetExceeds (saturating_add (as_secs g) 5)).
Proof.
  unfold capacity_notices, trust_notices, operability_notices. cbv zeta. rewrite !warnings_app, !warnings_tell.
  cbn [is_hazard]. rewrite !andb_false_r, !andb_true_r, warnings_overrides. cbn [tell]. rewrite !app_nil_r, !app_nil_l.
  rewrite <-!app_assoc.
  assert (∀ A B C : list Notice, A = [] → B = [] → A ++ B ++ C = C) as skip by (by intros A B C -> ->).
  rewrite skip; [|by destruct (Config.mode cfg)|by destruct (Config.capacity cfg)].
  f_equal. f_equal. f_equal; [by destruct (TrustedProxies.from _)|]. f_equal.
  destruct (Telemetry.admin _) as [a|]; rewrite ?warnings_cons, ?warnings_app, ?warnings_tell; cbn [is_hazard];
    rewrite ?andb_true_r; destruct (Tracing.otlp _); cbn; by rewrite ?app_nil_r, <-?app_assoc.
Qed.

(** [check] keeps no hazard to itself and cries no wolf: of an origin whose
    certificate is not verified, an admin listener on every interface, believed
    trace headers, a purge endpoint, forwarded headers that are ignored, a
    readiness that can fail everywhere at once, routes that override the origin's
    directives and a stop longer than Kubernetes waits, it prints a warning for
    exactly those the file has. *)
Theorem check_names_every_hazard path ns :
  check (Sem := Sem) M P F path = Ok ns →
  ∃ cfg, load (Sem := Sem) P F path = Ok cfg ∧ ∀ n, is_hazard n = true → n ∈ ns ↔ hazard cfg n.
Proof.
  intros (cfg & p & Hl & _ & ->)%check_ok. exists cfg. split; [done|]. intros n Hn.
  assert (∀ l, n ∈ l ↔ n ∈ warnings l) as Hw.
  { intros l. unfold warnings. rewrite list_elem_of_filter. tauto. }
  rewrite Hw, warnings_app, warnings_of. cbv zeta. change (warnings [_; _; _]) with (@nil Notice). rewrite app_nil_l.
  rewrite !elem_of_app, !elem_of_tell, list_elem_of_fmap. split.
  - intros [(r & -> & Hr)|[[H ->]|[[H ->]|[[H ->]|[[H ->]|[[H ->]|[[H ->]|[H ->]]]]]]]]; simpl.
    + apply list_elem_of_filter in Hr as [Ho Hr]. exists r. destruct (Route.cache r) as [c|]; [by exists c|done].
    + by destruct (Purge.token _).
    + by apply bool_decide_eq_true in H.
    + destruct (Origin.tls _) as [tls|]; [|done]. exists tls. split; [done|]. apply orb_true_iff in H.
      by rewrite !negb_true_iff in H.
    + destruct (Telemetry.admin _) as [a|]; [by exists a|done].
    + destruct (Telemetry.admin _) as [a|]; [|done]. unfold exposed in H.
      destruct (parse_socket _) as [so|] eqn:E; [by exists a, so|done].
    + by apply bool_decide_eq_true in H.
    + apply N.ltb_lt in H. done.
  - destruct n; try discriminate Hn; simpl.
    + intros (r & c & Hr & <- & Hc & Ho). left. exists r. split; [done|]. apply list_elem_of_filter. by rewrite Hc.
    + intros [t ->]. by right; left.
    + intros H. right; right; left. by rewrite bool_decide_true.
    + intros (tls & -> & H). do 3 right. left. split; [|done]. apply orb_true_iff. by rewrite !negb_true_iff.
    + intros (a & -> & H). do 4 right. by left.
    + intros (a & so & -> & Hs & Hu). do 5 right. left. unfold exposed. by rewrite Hs.
    + intros ->. do 6 right. by left.
    + intros [H ->]. do 7 right. by apply N.ltb_lt in H.
Qed.

(** The numbers [check] prints are those in force.  For a file that validation
    accepts, the capacity of the replica group is the product, unwrapped and
    within the group's bound; a tier's printed share is its ceiling, except that
    zero stands for the one unit every tier keeps; the stop takes no longer than
    printed; and a supervisor that waits as long as the warning asks outlasts
    it. *)
Theorem check_numbers_hold path ns :
  check (Sem := Sem) M P F path = Ok ns →
  ∃ cfg, load (Sem := Sem) P F path = Ok cfg ∧
    let o := Config.origin cfg in
    let max := Concurrency.max (Origin.concurrency o) in
    let g := Server.graceful (Config.server cfg) in
    let stop := as_duration (Graceful.drain_period g) + as_duration (Graceful.shutdown_timeout g) in
    (∀ c, Config.capacity cfg = Some c →
       GroupCapacity (max * CapacityGroup.replicas c) (CapacityGroup.global_max c) (CapacityGroup.replicas c) ∈ ns
       ∧ max * CapacityGroup.replicas c <= CapacityGroup.global_max c) ∧
    (Priorities.is_uniform (Origin.priorities o) = false → ∃ s, (∀ p,
         tier_ceiling max (Priorities.percent_for (Origin.priorities o) p) = N.max (s p) 1) ∧
       PriorityCeilings max (s High) (s Normal) (s Low) ∈ ns) ∧
    (stop + 1000000000 <= U64_MAX * 1000000000 → ∃ total drain shutdown, StopBudget total drain shutdown ∈ ns ∧ stop <= total ∧
       ∀ n, hazard cfg (StopBudgetExceeds n) → n < U64_MAX → total < n * 1000000000).
Proof.
  intros (cfg & p & Hl & _ & ->)%check_ok. exists cfg. split; [done|]. cbv zeta.
  apply load_ok in Hl as (HV & _). apply validate_accepted in HV. split; [|split].
  - intros c Ec. destruct (accepted_group _ _ _ HV Ec) as [H1 H2]. split; [|lia].
    unfold capacity_notices. rewrite Ec. unfold wrapping_mul.
    rewrite (N.mod_small (_ * _)) by (rewrite two64_eq; lia). rewrite !elem_of_app, !elem_of_cons. tauto.
  - intros Hu. exists (λ p, share (Concurrency.max (Origin.concurrency (Config.origin cfg)))
      (Priorities.percent_for (Origin.priorities (Config.origin cfg)) p)). split; [done|].
    unfold capacity_notices. cbv zeta. rewrite Hu. simpl. rewrite !elem_of_cons, !elem_of_app, !elem_of_cons. tauto.
  - intros Hb. set (g := Server.graceful _) in *.
    exists (stop_budget g), (as_duration (Graceful.drain_period g)),
      (from_secs (pingora_seconds (as_duration (Graceful.shutdown_timeout g)))).
    split; [unfold operability_notices; fold g; rewrite !elem_of_app, !elem_of_cons; tauto|].
    set (d := as_duration (Graceful.drain_period g)) in *. set (t := as_duration (Graceful.shutdown_timeout g)) in *.
    assert (t <= from_secs (pingora_seconds t)) as Ht.
    { apply pingora_seconds_covers. lia. }
    split; [unfold stop_budget, duration_saturating_add, DURATION_MAX; fold d t; lia|].
    intros n [_ ->] Hn. unfold saturating_add, as_secs in *. fold g in Hn. set (b := stop_budget g) in *.
    pose proof (N.div_mod b 1000000000 ltac:(discriminate)) as Hd. pose proof (N.mod_lt b 1000000000 ltac:(discriminate)) as Hr.
    fold g b. revert Hd Hr Hn. generalize (b / 1000000000) (b mod 1000000000). intros q r -> Hr Hn. lia.
Qed.

(** C37: What [init] creates, [check] accepts: the file it reports created passed
    parsing, validation and compilation, so that reading it back gives a
    configuration [check] is content with; and an existing file is only replaced
    when asked. *)
Theorem created_file_checks D args options contents :
  init (Sem := Sem) M P F D args = Created options contents →
  parse_init_options args = Ok options ∧ contents = render_initial_config options
  ∧ (exists_at D (config options) = true → force options = true)
  ∧ write D (config options) contents = Ok tt
  ∧ (read_to_string F (config options) = Ok contents → ∃ ns, check (Sem := Sem) M P F (config options) = Ok ns).
Proof.
  unfold init. destruct (parse_init_options args) as [o|] eqn:Eo; [|done].
  destruct (from_str F _) as [cfg|] eqn:Ef; [|done]. destruct (validate P cfg) as [[]|] eqn:Ev; [|done].
  destruct (build M cfg 1) as [p|] eqn:Eb; [|done].
  destruct (exists_at D (config o) && negb (force o)) eqn:Ee; [done|].
  destruct (match parent D _ with Some _ => _ | None => _ end) as [[]|e] eqn:Ed.
  2: { intros ->. destruct (parent D _) as [[|a dir]|]; try done. by destruct (create_dir_all D _). }
  destruct (write D _ _) as [[]|] eqn:Ew; [|done]. intros [= <- <-]. split_and!; try done.
  - intros Hx. rewrite Hx in Ee. by destruct (force o).
  - intros Hr. unfold check, load. rewrite Hr. cbn [map_err mbind result_bind]. rewrite Ef. cbn [map_err mbind result_bind].
    rewrite Ev. cbn [map_err mbind result_bind]. rewrite Eb. by eexists.
Qed.
End CheckTheorems.

(** A tier of a small origin keeps one unit where [check] prints none. *)
Lemma share_prints_zero : share 1 50 = 0 ∧ tier_ceiling 1 50 = 1.
Proof. split; reflexivity. Qed.

(** ** Witnesses *)

Import CountingSemaphore.

Abbreviation check_next := (check (Sem := counter) sample_matching sample_platform sample_files "next.yaml").

Lemma check_names_every_hazard_witness :
  ∃ ns, check_next = Ok ns ∧ PurgeEnabled ∈ ns ∧ AdminExposed ∉ ns.
Proof.
  destruct check_next as [ns|] eqn:E; [|vm_compute in E; discriminate]. exists ns. split; [reflexivity|].
  destruct (check_names_every_hazard sample_matching sample_platform sample_files "next.yaml" ns E) as (cfg & Hl & H).
  assert (load_next = Ok next_config) as En by (vm_compute; reflexivity). rewrite Hl in En. injection En as ->.
  split; [apply H; [reflexivity|]; by eexists|]. rewrite (H AdminExposed) by reflexivity.
  intros (a & s & Ha & Hs & Hu). vm_compute in Ha. injection Ha as <-. vm_compute in Hs. injection Hs as <-.
  vm_compute in Hu. discriminate Hu.
Defined.

Lemma check_numbers_hold_witness :
  ∃ ns, check_next = Ok ns ∧ GroupCapacity 300 500 5 ∈ ns.
Proof.
  destruct check_next as [ns|] eqn:E; [|vm_compute in E; discriminate]. exists ns. split; [reflexivity|].
  destruct (check_numbers_hold sample_matching sample_platform sample_files "next.yaml" ns E) as (cfg & Hl & H & _).
  assert (load_next = Ok next_config) as En by (vm_compute; reflexivity). rewrite Hl in En. injection En as ->.
  exact (proj1 (H (CapacityGroup.mk 500 5) eq_refl)).
Defined.

(** A deserialiser that knows the default file, and a disk without it. *)
Definition init_files : Files :=
  mkFiles (λ _, Ok (render_initial_config default_InitOptions))
    (λ text, if bool_decide (text = render_initial_config default_InitOptions) then Ok sample_config else Err "no").
Definition blank_disk : Disk := mkDisk (λ _, false) (λ _, Some EmptyString) (λ _, Ok tt) (λ _ _, Ok tt).

Lemma created_file_checks_witness :
  ∃ contents ns, init (Sem := counter) sample_matching sample_platform init_files blank_disk ["init"]
      = Created default_InitOptions contents
    ∧ check (Sem := counter) sample_matching sample_platform init_files "harmost.yaml" = Ok ns.
Proof.
  assert (init (Sem := counter) sample_matching sample_platform init_files blank_disk ["init"]
    = Created default_InitOptions (render_initial_config default_InitOptions)) as E by (vm_compute; reflexivity).
  exists (render_initial_config default_InitOptions).
  destruct (created_file_checks sample_matching sample_platform init_files blank_disk ["init"] _ _ E) as (_ & _ & _ & _ & H).
  destruct (H eq_refl) as [ns Hns]. exists ns. split; [exact E|exact Hns].
Defined.
