(* ===== verification/AccessLog.v ===== *)
(** * Access log lines ([src/src/telemetry/logging.rs]) *)

From S2P Require Import Prelude Words Text Json.
Local Open Scope string_scope.
Local Open Scope list_scope.
Local Open Scope N_scope.

#[local] Arguments String.append _ _ : simpl nomatch.

Record AccessLog := mkLog {
  method : string;
  path : string;
  route : string;
  class : string;
  cache : string;
  upstream : option string;
  client : string;
  scheme : string;
  status : N;
  shed : bool;
  origin_ms : N;
  total_ms : N;
  permit_released_at : string;
  spool : string;
  trace_id : string;
  span_id : string;
  trace_continued : bool;
  generation : N }.

Definition to_json (l : AccessLog) : string :=
  let s := "{" in
  let s := field_str s "method" (method l) in
  let s := field_str s "path" (path l) in
  let s := field_str s "route" (route l) in
  let s := field_str s "class" (class l) in
  let s := field_str s "cache" (cache l) in
  let s := field_str s "upstream" (default "-" (upstream l)) in
  let s := field_str s "client" (client l) in
  let s := field_str s "scheme" (scheme l) in
  let s := field_str s "permit_released" (permit_released_at l) in
  let s := field_str s "spool" (spool l) in
  let s := field_str s "trace_id" (trace_id l) in
  let s := field_str s "span_id" (span_id l) in
  s +:+ lit "'status':" +:+ print_uint (status l) +:+ lit ",'shed':" +:+ json_bool (shed l)
    +:+ lit ",'origin_ms':" +:+ print_uint (origin_ms l) +:+ lit ",'total_ms':" +:+ print_uint (total_ms l)
    +:+ lit ",'trace_continued':" +:+ json_bool (trace_continued l)
    +:+ lit ",'generation':" +:+ print_uint (generation l) +:+ "}".

Definition text_fields (l : AccessLog) : list (string * string) :=
  [("method", method l); ("path", path l); ("route", route l); ("class", class l);
   ("cache", cache l); ("upstream", default "-" (upstream l)); ("client", client l);
   ("scheme", scheme l); ("permit_released", permit_released_at l); ("spool", spool l);
   ("trace_id", trace_id l); ("span_id", span_id l)].

Definition write_text_field (s : string) (kv : string * string) : string :=
  let s := if is_empty s then s else s +:+ " " in
  let s := s +:+ kv.1 +:+ lit "='" in
  escape_into s kv.2 +:+ str1 dquote.

Definition to_text (l : AccessLog) : string :=
  foldl write_text_field EmptyString (text_fields l)
    +:+ " status=" +:+ print_uint (status l) +:+ " shed=" +:+ json_bool (shed l)
    +:+ " origin_ms=" +:+ print_uint (origin_ms l) +:+ " total_ms=" +:+ print_uint (total_ms l)
    +:+ " trace_continued=" +:+ json_bool (trace_continued l)
    +:+ " generation=" +:+ print_uint (generation l).

(** ** What a line says *)

Definition num (n : N) : JSON := JNum (Z.of_N n).

Definition log_object (l : AccessLog) : JSON :=
  JObj [("method", JStr (method l)); ("path", JStr (path l)); ("route", JStr (route l));
        ("class", JStr (class l)); ("cache", JStr (cache l));
        ("upstream", JStr (default "-" (upstream l))); ("client", JStr (client l));
        ("scheme", JStr (scheme l)); ("permit_released", JStr (permit_released_at l));
        ("spool", JStr (spool l)); ("trace_id", JStr (trace_id l)); ("span_id", JStr (span_id l));
        ("status", num (status l)); ("shed", JBool (shed l)); ("origin_ms", num (origin_ms l));
        ("total_ms", num (total_ms l)); ("trace_continued", JBool (trace_continued l));
        ("generation", num (generation l))].

Lemma to_json_renders l : to_json l = render (log_object l).
Proof.
  unfold to_json, log_object, num. rewrite !field_str_eq.
  cbn [render map fst snd join]. rewrite !pretty_num.
  flatten_text. reflexivity.
Qed.

Lemma text_field_clean s kv :
  no_control s = true → no_control kv.1 = true → no_control (write_text_field s kv) = true.
Proof.
  intros Hs Hk. unfold write_text_field. rewrite escape_into_eq, !no_control_app, Hk, escape_clean.
  destruct (is_empty s); rewrite ?no_control_app, Hs; done.
Qed.

Lemma json_bool_clean b : no_control (json_bool b) = true.
Proof. by destruct b. Qed.

Lemma to_text_clean l : no_control (to_text l) = true.
Proof.
  unfold to_text. rewrite !no_control_app, !digits_clean, !json_bool_clean.
  assert (∀ fs s, no_control s = true → Forall (λ kv, no_control kv.1 = true) fs →
    no_control (foldl write_text_field s fs) = true) as H.
  { intros fs. induction fs as [|kv fs IH]; intros s Hs Hf; [done|]. inversion Hf; subst.
    apply IH; [|done]. by apply text_field_clean. }
  rewrite H; [done|done|]. by repeat constructor.
Qed.

(** C35: A request cannot forge an access log line.  Whatever the client sent, the
    JSON line is one line, one JSON object, whose fields in order are those of
    the request, each with exactly its value; and the text line is one line too. *)
Theorem access_log_unforgeable l :
  parse (to_json l) = Some (log_object l) ∧ no_control (to_json l) = true ∧ no_control (to_text l) = true.
Proof.
  rewrite to_json_renders. split; [apply parse_render|]. split; [apply render_clean|apply to_text_clean].
Qed.
