(* ===== verification/Trace.v ===== *)
(** * Trace context ([src/src/telemetry/trace.rs])

    W3C trace identities: parsing an inbound [traceparent], starting a request's
    trace, the sampling decision and the outbound header.  Identities are lists
    of bytes; random bytes and the clock are arguments. *)

From S2P Require Import Prelude Words Text Schema Json.
Local Open Scope string_scope.
Local Open Scope list_scope.
Local Open Scope N_scope.

Definition TRACEPARENT : string := "traceparent".
Definition TRACESTATE : string := "tracestate".
Definition MAX_TRACESTATE : N := 512.

(** A trace id has 16 bytes, a span id 8. *)
Abbreviation TraceId := (list N) (only parsing).
Abbreviation SpanId := (list N) (only parsing).

(** Bytes from the random source, an all-zero answer replaced. *)
Definition nonzero_id (bytes : list N) : list N :=
  if bool_decide (bytes = replicate (length bytes) 0)
  then <[(length bytes - 1)%nat := 1]> bytes else bytes.

Definition hex (bytes : list N) : string :=
  foldl (λ out b, out +:+ str1 (hex_char (N.shiftr b 4)) +:+ str1 (hex_char (N.land b 15))) EmptyString bytes.

Definition low_bits (id : TraceId) : N :=
  foldl (λ v b, N.lor (N.shiftl v 8 mod two64) b) 0 (drop 8 id).

(** ** The fallback generator *)

Definition xorshift (state : N) : N :=
  let s := N.lxor state (N.shiftr state 12) in
  let s := N.lxor s (N.shiftl s 25 mod two64) in
  N.lxor s (N.shiftr s 27).

Fixpoint fallback_bytes (n : nat) (state : N) : list N :=
  match n with
  | O => []
  | S n =>
      let state := xorshift state in
      N.shiftr (wrapping_mul state 0x2545f4914f6cdd1d) 56 :: fallback_bytes n state
  end.

(** [counter] is the process-wide call count, [nanos] the low bits of the clock. *)
Definition mix_fallback (nanos counter : N) (n : nat) : list N :=
  let state := N.lxor nanos (wrapping_mul counter 0x9e3779b97f4a7c15) in
  fallback_bytes n (if state =? 0 then 0x2545f4914f6cdd1d else state).

(** [entropy] is the operating system's answer, when it has one. *)
Definition fill_random (entropy : option (list N)) (nanos counter : N) (n : nat) : list N :=
  match entropy with Some bytes => bytes | None => mix_fallback nanos counter n end.

(** ** Parsing *)

Definition hex_digit (c : ascii) : option N :=
  if is_digit c then Some (code c - 48)
  else if (97 <=? code c) && (code c <=? 102) then Some (code c - 97 + 10)
  else None.

(** Two bytes of the header from [i] on. *)
Definition hex_byte (bytes : list ascii) (i : nat) : option N :=
  hi ← bytes !! i; hi ← hex_digit hi;
  lo ← bytes !! S i; lo ← hex_digit lo;
  Some (N.lor (N.shiftl hi 4) lo).

Fixpoint hex_bytes (bytes : list ascii) (start n : nat) : option (list N) :=
  match n with
  | O => Some []
  | S n => b ← hex_byte bytes start; bs ← hex_bytes bytes (start + 2) n; Some (b :: bs)
  end.

Record Parsed := mkParsed { trace_id : TraceId; span_id : SpanId; parsed_sampled : bool }.
#[export] Instance Parsed_eq_dec : EqDecision Parsed.
Proof. solve_decision. Defined.

Definition dash_at (bytes : list ascii) (i : nat) : bool := bool_decide (bytes !! i = Some "-"%char).

Definition parse_traceparent (raw : string) : option Parsed :=
  let bytes := list_ascii_of_string (trim raw) in
  if (length bytes <? 55)%nat then None
  else if negb (dash_at bytes 2) || negb (dash_at bytes 35) || negb (dash_at bytes 52) then None
  else
    version ← hex_byte bytes 0;
    if version =? 255 then None
    else if (version =? 0) && negb (length bytes =? 55)%nat then None
    else
      trace ← hex_bytes bytes 3 16;
      if bool_decide (trace = replicate 16 0) then None
      else
        span ← hex_bytes bytes 36 8;
        if bool_decide (span = replicate 8 0) then None
        else
          flags ← hex_byte bytes 53;
          Some (mkParsed trace span (N.land flags 1 =? 1)).

(** ** A request's trace *)

Record RequestTrace := mkTrace {
  request_trace_id : TraceId;
  parent_span_id : option SpanId;
  request_span_id : SpanId;
  origin_span_id : option SpanId;
  sampled : bool;
  continued : bool;
  tracestate : option string }.

Definition is_printable_ascii (s : string) : bool := all_chars (λ b, (32 <=? code b) && (code b <? 127)) s.

Definition ratio (one_in : N) (id : TraceId) : bool :=
  if one_in <=? 1 then true else low_bits id mod one_in =? 0.

Definition decide_sampling (sample : Sample.Sample) (id : TraceId) (parent_sampled : option bool) : bool :=
  match Sample.mode sample with
  | Always => true
  | Never => false
  | Ratio => ratio (Sample.one_in sample) id
  | ParentOrRatio => match parent_sampled with
                     | Some decided => decided
                     | None => ratio (Sample.one_in sample) id
                     end
  end.

(** [fresh_trace] and [fresh_span] are what the random source gives. *)
Definition begin_trace (inbound state : option string) (sample : Sample.Sample)
    (fresh_trace : TraceId) (fresh_span : SpanId) : RequestTrace :=
  let parsed := inbound ≫= parse_traceparent in
  let '(id, parent, parent_sampled, continued) :=
    match parsed with
    | Some p => (trace_id p, Some (span_id p), Some (parsed_sampled p), true)
    | None => (nonzero_id fresh_trace, None, None, false)
    end in
  mkTrace id parent (nonzero_id fresh_span) None (decide_sampling sample id parent_sampled) continued
    (s ← state;
     if continued && negb (is_empty s) && (len s <=? MAX_TRACESTATE) && is_printable_ascii s
     then Some s else None).

Definition outbound_traceparent (t : RequestTrace) : string :=
  let span := default (request_span_id t) (origin_span_id t) in
  "00-" +:+ hex (request_trace_id t) +:+ "-" +:+ hex span +:+ "-" +:+ (if sampled t then "01" else "00").

Definition believe_inbound (policy : TrustIncoming) (peer_trusted : bool) : bool :=
  match policy with
  | TrustAlways => true
  | TrustNever => false
  | FromTrustedProxies => peer_trusted
  end.

(** ** Hexadecimal *)

Definition hex_chars (bytes : list N) : list ascii :=
  flat_map (λ b, [hex_char (N.shiftr b 4); hex_char (N.land b 15)]) bytes.

Lemma list_ascii_app a b :
  list_ascii_of_string (a +:+ b) = list_ascii_of_string a ++ list_ascii_of_string b.
Proof. induction a as [|c a IH]; [done|]. simpl. f_equal. exact IH. Qed.

Lemma hex_eq bytes : list_ascii_of_string (hex bytes) = hex_chars bytes.
Proof.
  unfold hex. assert (∀ out, list_ascii_of_string
    (foldl (λ out b, out +:+ str1 (hex_char (N.shiftr b 4)) +:+ str1 (hex_char (N.land b 15))) out bytes)
    = list_ascii_of_string out ++ hex_chars bytes) as H; [|apply (H EmptyString)].
  induction bytes as [|b bytes IH]; intros out; simpl; [by rewrite app_nil_r|].
  rewrite IH, !list_ascii_app, <-!app_assoc. done.
Qed.

Lemma hex_chars_length bytes : length (hex_chars bytes) = (2 * length bytes)%nat.
Proof. induction bytes as [|b l IH]; [done|]. simpl in *. lia. Qed.

Definition small_byte (P : N → bool) : bool := forallb (λ n, P (N.of_nat n)) (seq 0 256).

Lemma small_byte_spec P b : small_byte P = true → b < 256 → P b = true.
Proof.
  intros H Hb. unfold small_byte in H. rewrite forallb_forall in H.
  rewrite <-(N2Nat.id b). apply H, list_elem_of_In, elem_of_seq. lia.
Qed.

Definition hex_pair (h l : ascii) : option N :=
  hi ← hex_digit h; lo ← hex_digit l; Some (N.lor (N.shiftl hi 4) lo).

Lemma hex_pair_print b :
  b < 256 → hex_pair (hex_char (N.shiftr b 4)) (hex_char (N.land b 15)) = Some b.
Proof.
  intros Hb. pose proof (small_byte_spec (λ b, bool_decide
    (hex_pair (hex_char (N.shiftr b 4)) (hex_char (N.land b 15)) = Some b)) b) as H.
  apply bool_decide_eq_true in H; [done|vm_compute; reflexivity|done].
Qed.

Lemma hex_digit_char c d : hex_digit c = Some d → d < 16 ∧ c = hex_char d.
Proof. destruct c as [[] [] [] [] [] [] [] []]; try discriminate; by intros [= <-]. Qed.

Definition nibbles_ok (x : N) : bool :=
  let b := N.lor (N.shiftl (x / 16) 4) (x mod 16) in
  (b <? 256) && (N.shiftr b 4 =? x / 16) && (N.land b 15 =? x mod 16).

Lemma nibbles hi lo :
  hi < 16 → lo < 16 →
  let b := N.lor (N.shiftl hi 4) lo in b < 256 ∧ N.shiftr b 4 = hi ∧ N.land b 15 = lo.
Proof.
  intros Hh Hl. pose proof (small_byte_spec nibbles_ok (16 * hi + lo) ltac:(vm_compute; reflexivity) ltac:(lia)) as H.
  unfold nibbles_ok in H.
  assert ((16 * hi + lo) / 16 = hi) as Ehi by (symmetry; apply (N.div_unique _ _ _ lo); lia).
  assert ((16 * hi + lo) mod 16 = lo) as Elo by (symmetry; apply (N.mod_unique _ _ hi); lia).
  rewrite Ehi, Elo in H. cbv zeta in H. to_prop. by repeat split.
Qed.

Lemma hex_pair_inv h l b :
  hex_pair h l = Some b → b < 256 ∧ h = hex_char (N.shiftr b 4) ∧ l = hex_char (N.land b 15).
Proof.
  unfold hex_pair. destruct (hex_digit h) as [hi|] eqn:Eh; [|done]. simpl.
  destruct (hex_digit l) as [lo|] eqn:El; [|done]. intros [= <-].
  apply hex_digit_char in Eh as [Hhi ->], El as [Hlo ->].
  destruct (nibbles hi lo Hhi Hlo) as (H1 & H2 & H3). by rewrite H2, H3.
Qed.

Lemma hex_byte_pair bytes i :
  hex_byte bytes i = h ← bytes !! i; l ← bytes !! S i; hex_pair h l.
Proof.
  unfold hex_byte, hex_pair. destruct (bytes !! i) as [h|]; [|done]. simpl.
  destruct (hex_digit h); simpl; [done|]. by destruct (bytes !! S i).
Qed.

Lemma hex_byte_at pre h l post i :
  length pre = i → hex_byte (pre ++ h :: l :: post) i = hex_pair h l.
Proof.
  intros <-. rewrite hex_byte_pair.
  rewrite (list_lookup_middle pre (l :: post) h (length pre) eq_refl). simpl.
  replace (pre ++ h :: l :: post) with ((pre ++ [h]) ++ l :: post) by by rewrite <-app_assoc.
  by rewrite list_lookup_middle by (rewrite length_app; simpl; lia).
Qed.

Lemma hex_bytes_at bs : ∀ pre post start,
  Forall (λ b, b < 256) bs → length pre = start →
  hex_bytes (pre ++ hex_chars bs ++ post) start (length bs) = Some bs.
Proof.
  induction bs as [|b bs IH]; intros pre post start Hb Hl; [done|]. inversion Hb; subst. cbn [length hex_bytes].
  change (hex_chars (b :: bs)) with (hex_char (N.shiftr b 4) :: hex_char (N.land b 15) :: hex_chars bs).
  cbn [app]. rewrite hex_byte_at, hex_pair_print by done. simpl.
  assert (pre ++ hex_char (N.shiftr b 4) :: hex_char (N.land b 15) :: hex_chars bs ++ post
    = (pre ++ [hex_char (N.shiftr b 4); hex_char (N.land b 15)]) ++ hex_chars bs ++ post) as ->.
  { by rewrite <-app_assoc. }
  rewrite IH; [done|done|]. rewrite length_app. simpl. lia.
Qed.

(** What is read is the canonical spelling of what was there. *)
Lemma hex_bytes_inv n : ∀ bytes start bs,
  hex_bytes bytes start n = Some bs →
  length bs = n ∧ Forall (λ b, b < 256) bs ∧ take (2 * n) (drop start bytes) = hex_chars bs.
Proof.
  induction n as [|n IH]; intros bytes start bs; cbn [hex_bytes]; [by intros [= <-]|].
  rewrite hex_byte_pair. destruct (bytes !! start) as [h|] eqn:Eh; [|done]. simpl.
  destruct (bytes !! S start) as [l|] eqn:El; [|done]. simpl.
  destruct (hex_pair h l) as [b|] eqn:Eb; [|done]. simpl.
  destruct (hex_bytes bytes (start + 2) n) as [bs'|] eqn:Er; [|done]. simpl. intros [= <-].
  apply hex_pair_inv in Eb as (Hb & -> & ->). apply IH in Er as (<- & Hbs & Ht).
  split; [done|]. split; [by constructor|].
  rewrite (drop_S _ _ _ Eh), (drop_S _ _ _ El).
  cbn [take]. replace (length bs' + S (length bs' + 0))%nat with (S (2 * length bs')) by lia.
  cbn [take]. change (hex_chars (b :: bs')) with (hex_char (N.shiftr b 4) :: hex_char (N.land b 15) :: hex_chars bs').
  rewrite <-Ht. by replace (start + 2)%nat with (S (S start)) by lia.
Qed.

(** ** The header, both ways *)

Definition valid_ids (trace span : list N) : Prop :=
  length trace = 16%nat ∧ Forall (λ b, b < 256) trace ∧ trace ≠ replicate 16 0 ∧
  length span = 8%nat ∧ Forall (λ b, b < 256) span ∧ span ≠ replicate 8 0.

Definition dash : ascii := "-"%char.

(** A header with these fields. *)
Definition spelled (version trace span rest : list ascii) : list ascii :=
  version ++ dash :: trace ++ dash :: span ++ dash :: rest.

Lemma spelled_lookups v1 v2 t s rest :
  length t = 32%nat → length s = 16%nat →
  let l := spelled [v1; v2] t s rest in
  l !! 2%nat = Some dash ∧ l !! 35%nat = Some dash ∧ l !! 52%nat = Some dash ∧
  l = [v1; v2; dash] ++ t ++ dash :: s ++ dash :: rest ∧
  l = (v1 :: v2 :: dash :: t ++ [dash]) ++ s ++ dash :: rest ∧
  l = (v1 :: v2 :: dash :: t ++ dash :: s ++ [dash]) ++ rest ∧
  length l = (53 + length rest)%nat.
Proof.
  intros Ht Hs. cbv zeta. unfold spelled.
  assert ([v1; v2] ++ dash :: t ++ dash :: s ++ dash :: rest = (v1 :: v2 :: dash :: t ++ [dash]) ++ s ++ dash :: rest) as E1.
  { simpl. by rewrite <-app_assoc. }
  assert ([v1; v2] ++ dash :: t ++ dash :: s ++ dash :: rest = (v1 :: v2 :: dash :: t ++ dash :: s ++ [dash]) ++ rest) as E2.
  { simpl. rewrite <-app_assoc. simpl. by rewrite <-app_assoc. }
  split_and!; try done.
  - change ([v1; v2] ++ dash :: t ++ dash :: s ++ dash :: rest) with ((v1 :: v2 :: dash :: t) ++ dash :: s ++ dash :: rest).
    apply list_lookup_middle. simpl. lia.
  - rewrite E1, app_assoc. apply list_lookup_middle. rewrite length_app. simpl. rewrite length_app. simpl. lia.
  - rewrite !length_app. simpl. rewrite !length_app. simpl. rewrite !length_app. simpl. lia.
Qed.

Lemma spelled_parses raw v1 v2 trace span f1 f2 rest version flags :
  valid_ids trace span → hex_pair v1 v2 = Some version → hex_pair f1 f2 = Some flags →
  version ≠ 255 → (version = 0 → rest = []) →
  list_ascii_of_string (trim raw) = spelled [v1; v2] (hex_chars trace) (hex_chars span) (f1 :: f2 :: rest) →
  parse_traceparent raw = Some (mkParsed trace span (N.land flags 1 =? 1)).
Proof.
  intros (Ht & Hbt & Hnt & Hs & Hbs & Hns) Hv Hf H255 H0 Hraw.
  destruct (spelled_lookups v1 v2 (hex_chars trace) (hex_chars span) (f1 :: f2 :: rest)) as (L2 & L35 & L52 & E1 & E2 & E3 & Hlen);
    [rewrite hex_chars_length; lia..|].
  set (l := spelled _ _ _ _) in *.
  assert (hex_byte l 0 = Some version) as B0.
  { rewrite <-Hv, E1. by apply (hex_byte_at [] v1 v2). }
  assert (hex_bytes l 3 16 = Some trace) as BT.
  { rewrite E1, <-Ht. by apply (hex_bytes_at trace [v1; v2; dash]). }
  assert (hex_bytes l 36 8 = Some span) as BS.
  { rewrite E2, <-Hs. apply hex_bytes_at; [done|]. simpl. rewrite length_app, hex_chars_length. simpl. lia. }
  assert (hex_byte l 53 = Some flags) as BF.
  { rewrite <-Hf, E3. apply hex_byte_at. simpl. rewrite length_app, hex_chars_length. simpl.
    rewrite length_app, hex_chars_length. simpl. lia. }
  unfold parse_traceparent, dash_at. rewrite Hraw. fold l. rewrite Hlen, L2, L35, L52, B0, BT, BS, BF.
  cbn [length]. rewrite (proj2 (Nat.ltb_ge _ _)) by lia. rewrite !bool_decide_true by done.
  cbn [negb orb mbind option_bind]. rewrite (proj2 (N.eqb_neq _ _) H255).
  assert ((version =? 0) && negb (53 + S (S (length rest)) =? 55)%nat = false) as ->.
  { destruct (N.eqb_spec version 0) as [->|]; [|done]. by rewrite H0. }
  by rewrite !bool_decide_false by done.
Qed.

Lemma take_then_drop {A} (l : list A) n m k : (n + m)%nat = k → take n (drop m l) ++ drop k l = drop m l.
Proof. intros <-. rewrite <-(take_drop n (drop m l)) at 2. by rewrite drop_drop, Nat.add_comm. Qed.

Lemma parse_spelled raw p :
  parse_traceparent raw = Some p →
  valid_ids (trace_id p) (span_id p) ∧
  ∃ v1 v2 f1 f2 rest version flags,
    hex_pair v1 v2 = Some version ∧ hex_pair f1 f2 = Some flags ∧ version ≠ 255 ∧ (version = 0 → rest = []) ∧
    parsed_sampled p = (N.land flags 1 =? 1) ∧
    list_ascii_of_string (trim raw) = spelled [v1; v2] (hex_chars (trace_id p)) (hex_chars (span_id p)) (f1 :: f2 :: rest).
Proof.
  unfold parse_traceparent, dash_at. set (l := list_ascii_of_string (trim raw)).
  destruct (Nat.ltb_spec (length l) 55) as [|Hlen]; [done|].
  destruct (decide (l !! 2%nat = Some "-"%char)) as [L2|]; [|by rewrite bool_decide_false].
  destruct (decide (l !! 35%nat = Some "-"%char)) as [L35|]; [|by rewrite orb_comm, orb_assoc, (bool_decide_false (l !! 35%nat = _)), orb_true_r].
  destruct (decide (l !! 52%nat = Some "-"%char)) as [L52|]; [|by rewrite (bool_decide_false (l !! 52%nat = _)), orb_true_r].
  rewrite !bool_decide_true by done. cbn [negb orb].
  destruct (hex_byte l 0) as [version|] eqn:Ev; [|done]. cbn [mbind option_bind].
  destruct (N.eqb_spec version 255) as [|H255]; [done|].
  destruct ((version =? 0) && negb (length l =? 55)%nat) eqn:E0; [done|].
  destruct (hex_bytes l 3 16) as [trace|] eqn:Et; [|done]. cbn [mbind option_bind].
  case_bool_decide as Hnt; [done|].
  destruct (hex_bytes l 36 8) as [span|] eqn:Es; [|done]. cbn [mbind option_bind].
  case_bool_decide as Hns; [done|].
  destruct (hex_byte l 53) as [flags|] eqn:Ef; [|done]. cbn [mbind option_bind]. intros [= <-]. cbn [trace_id span_id parsed_sampled].
  apply hex_bytes_inv in Et as (Ht & Hbt & Et), Es as (Hs & Hbs & Es). split; [by repeat split|].
  rewrite hex_byte_pair in Ev, Ef.
  destruct (l !! 0%nat) as [v1|] eqn:E1; [|done]. cbn [mbind option_bind] in Ev.
  destruct (l !! 1%nat) as [v2|] eqn:E2; [|done]. cbn [mbind option_bind] in Ev.
  destruct (l !! 53%nat) as [f1|] eqn:E53; [|done]. cbn [mbind option_bind] in Ef.
  destruct (l !! 54%nat) as [f2|] eqn:E54; [|done]. cbn [mbind option_bind] in Ef.
  exists v1, v2, f1, f2, (drop 55 l), version, flags. split_and!; try done.
  - intros ->. simpl in E0. apply negb_false_iff, Nat.eqb_eq in E0. apply drop_ge. lia.
  - unfold spelled. rewrite <-Et, <-Es. cbn [Nat.mul Nat.add].
    rewrite <-(drop_S l f2 54 E54), <-(drop_S l f1 53 E53), <-(drop_S l dash 52 L52).
    rewrite (take_then_drop l 16 36 52 eq_refl), <-(drop_S l dash 35 L35), (take_then_drop l 32 3 35 eq_refl).
    rewrite <-(drop_S l dash 2 L2). cbn [app]. by rewrite <-(drop_S l v2 1 E2), <-(drop_S l v1 0 E1).
Qed.

(** ** What the header promises *)

Lemma hex_char_graphic b : b < 256 →
  is_ascii_graphic (hex_char (N.shiftr b 4)) && is_ascii_graphic (hex_char (N.land b 15)) = true.
Proof.
  apply (small_byte_spec (λ b, is_ascii_graphic (hex_char (N.shiftr b 4)) && is_ascii_graphic (hex_char (N.land b 15)))).
  vm_compute. reflexivity.
Qed.

Lemma all_chars_list p s : all_chars p s = forallb p (list_ascii_of_string s).
Proof. induction s as [|c s IH]; [done|]. simpl. by rewrite IH. Qed.

Lemma hex_graphic bytes : Forall (λ b, b < 256) bytes → all_chars is_ascii_graphic (hex bytes) = true.
Proof.
  intros H. rewrite all_chars_list, hex_eq. induction H as [|b l Hb _ IH]; [done|].
  change (hex_chars (b :: l)) with (hex_char (N.shiftr b 4) :: hex_char (N.land b 15) :: hex_chars l).
  simpl. apply hex_char_graphic, andb_true_iff in Hb as [-> ->]. exact IH.
Qed.

Definition sent_span (t : RequestTrace) : SpanId := default (request_span_id t) (origin_span_id t).

Lemma outbound_spelled t :
  valid_ids (request_trace_id t) (sent_span t) →
  list_ascii_of_string (trim (outbound_traceparent t)) =
  spelled ["0"%char; "0"%char] (hex_chars (request_trace_id t)) (hex_chars (sent_span t))
    ["0"%char; if sampled t then "1"%char else "0"%char].
Proof.
  intros (_ & Ht & _ & _ & Hs & _). rewrite trim_graphic.
  - unfold outbound_traceparent. rewrite !list_ascii_app, !hex_eq. unfold spelled, sent_span. by destruct (sampled t).
  - unfold outbound_traceparent. rewrite !all_chars_app, !hex_graphic by done. by destruct (sampled t).
Qed.

Lemma outbound_parses t :
  valid_ids (request_trace_id t) (sent_span t) →
  parse_traceparent (outbound_traceparent t) = Some (mkParsed (request_trace_id t) (sent_span t) (sampled t)).
Proof.
  intros Hv. rewrite (spelled_parses _ "0" "0" (request_trace_id t) (sent_span t) "0"
    (if sampled t then "1"%char else "0"%char) [] 0 (if sampled t then 1 else 0)); try done.
  - by destruct (sampled t).
  - by destruct (sampled t).
  - by apply outbound_spelled.
Qed.

(** An accepted [traceparent] is written in the one canonical way: its ids have
    their exact length in lowercase hexadecimal, neither is zero, its version is
    not the reserved one and version 00 has nothing after the flags. *)
Theorem traceparent_is_canonical raw p :
  parse_traceparent raw = Some p →
  valid_ids (trace_id p) (span_id p) ∧
  ∃ v1 v2 f1 f2 rest version flags,
    hex_pair v1 v2 = Some version ∧ hex_pair f1 f2 = Some flags ∧ version ≠ 255 ∧ (version = 0 → rest = []) ∧
    parsed_sampled p = (N.land flags 1 =? 1) ∧
    list_ascii_of_string (trim raw) =
      [v1; v2; dash] ++ list_ascii_of_string (hex (trace_id p)) ++ [dash]
      ++ list_ascii_of_string (hex (span_id p)) ++ [dash; f1; f2] ++ rest.
Proof.
  intros H. destruct (parse_spelled raw p H) as (Hv & v1 & v2 & f1 & f2 & rest & version & flags & Hs).
  split; [done|]. exists v1, v2, f1, f2, rest, version, flags. by rewrite !hex_eq.
Qed.

Definition bytes_ok (n : nat) (id : list N) : Prop := length id = n ∧ Forall (λ b, b < 256) id.

Lemma nonzero_id_ok n id : (0 < n)%nat → bytes_ok n id → bytes_ok n (nonzero_id id) ∧ nonzero_id id ≠ replicate n 0.
Proof.
  intros Hn [Hl Hb]. unfold nonzero_id. rewrite Hl. case_bool_decide as Hz; [|by repeat split].
  split; [split; [by rewrite length_insert|by apply Forall_insert]|].
  intros E. assert (<[(n - 1)%nat:=1]> id !! (n - 1)%nat = Some 1) as H1 by (apply list_lookup_insert_eq; lia).
  rewrite E in H1. by apply lookup_replicate in H1 as [? _].
Qed.

(** A trace survives the hop.  When the next Harmost believes the header this
    one sent, it continues the same trace under the very span that was sent and,
    by default, with the same sampling decision; when it does not, it starts a
    trace of its own, with ids that are never zero, and carries no vendor state. *)
Theorem trace_survives_the_hop t state sample fresh fresh_span :
  valid_ids (request_trace_id t) (sent_span t) → bytes_ok 16 fresh → bytes_ok 8 fresh_span →
  let t1 := begin_trace (Some (outbound_traceparent t)) state sample fresh fresh_span in
  let t2 := begin_trace None state sample fresh fresh_span in
  (request_trace_id t1 = request_trace_id t ∧ parent_span_id t1 = Some (sent_span t) ∧ continued t1 = true ∧
   (Sample.mode sample = ParentOrRatio → sampled t1 = sampled t)) ∧
  (continued t2 = false ∧ parent_span_id t2 = None ∧ tracestate t2 = None) ∧
  valid_ids (request_trace_id t1) (sent_span t1) ∧ valid_ids (request_trace_id t2) (sent_span t2).
Proof.
  intros Hv Hf Hfs. cbv zeta. pose proof Hv as (H1 & H2 & H3 & _).
  destruct (nonzero_id_ok 16 fresh ltac:(lia) Hf) as [[? ?] ?].
  destruct (nonzero_id_ok 8 fresh_span ltac:(lia) Hfs) as [[? ?] ?].
  unfold begin_trace. cbn [mbind option_bind]. rewrite outbound_parses by done.
  unfold sent_span at 2 3. simpl. split_and!; try done.
  - unfold decide_sampling. by intros ->.
  - by destruct state.
Qed.

(** Vendor state travels only with a believed context, unchanged, printable and
    within 512 bytes. *)
Theorem tracestate_needs_a_trace inbound state sample fresh fresh_span s :
  tracestate (begin_trace inbound state sample fresh fresh_span) = Some s ↔
  state = Some s ∧ (∃ h p, inbound = Some h ∧ parse_traceparent h = Some p) ∧
  s ≠ EmptyString ∧ len s <= 512 ∧ ∀ b, b ∈ list_ascii_of_string s → 32 <= code b < 127.
Proof.
  assert (is_printable_ascii s = true ↔ ∀ b, b ∈ list_ascii_of_string s → 32 <= code b < 127) as Hp.
  { unfold is_printable_ascii. rewrite all_chars_list, forallb_forall. split.
    - intros H b Hb%list_elem_of_In. specialize (H b Hb). to_prop. done.
    - intros H b Hb%list_elem_of_In. specialize (H b Hb). apply andb_true_iff.
      by rewrite N.leb_le, N.ltb_lt. }
  rewrite <-Hp. unfold begin_trace.
  destruct (inbound ≫= parse_traceparent) as [p|] eqn:Ep; simpl.
  - apply bind_Some in Ep as (h & -> & Hh). destruct state as [s'|]; simpl; [|naive_solver].
    unfold MAX_TRACESTATE. destruct (is_empty s') eqn:E1; [destruct s'; naive_solver|].
    assert (s' ≠ EmptyString) by by intros ->.
    destruct (N.leb_spec (len s') 512), (is_printable_ascii s') eqn:E2; simpl;
      (split; [intros [= <-]|intros ([= ->] & _ & _ & ? & ?)]); try (congruence || lia).
    split_and!; eauto.
  - split; [by destruct state|]. intros (_ & (h & p & -> & Hh) & _). simpl in Ep. congruence.
Qed.

(** ** Witnesses *)

Definition sample_trace : RequestTrace :=
  mkTrace [10; 247; 101; 25; 22; 205; 67; 221; 132; 72; 235; 33; 28; 128; 49; 156] None
    [183; 173; 107; 113; 105; 32; 51; 49] None true false None.

Lemma sample_ids : valid_ids (request_trace_id sample_trace) (sent_span sample_trace).
Proof. repeat split; try discriminate; repeat constructor. Qed.

Lemma traceparent_is_canonical_witness :
  outbound_traceparent sample_trace = "00-0af7651916cd43dd8448eb211c80319c-b7ad6b7169203331-01" ∧
  ∃ p, parse_traceparent (outbound_traceparent sample_trace) = Some p ∧ valid_ids (trace_id p) (span_id p).
Proof.
  split; [vm_compute; reflexivity|].
  destruct (parse_traceparent (outbound_traceparent sample_trace)) as [p|] eqn:E; [|vm_compute in E; discriminate].
  exists p. split; [reflexivity|]. apply (traceparent_is_canonical _ _ E).
Defined.

Lemma trace_survives_the_hop_witness :
  sampled (begin_trace (Some (outbound_traceparent sample_trace)) None
             (Sample.mk ParentOrRatio 1000) (replicate 16 7) (replicate 8 9)) = true.
Proof.
  destruct (trace_survives_the_hop sample_trace None (Sample.mk ParentOrRatio 1000) (replicate 16 7) (replicate 8 9)
    sample_ids) as ((_ & _ & _ & H) & _); [split; [reflexivity|repeat constructor]..|].
  by rewrite H.
Defined.
