(* ===== verification/Spans.v ===== *)
(** * Spans and their export ([src/src/telemetry/otlp.rs])

    Span records and the encoding of a batch of them, which reads back; the
    queue and the batches are in [Export].  [version] is the crate's version. *)

From S2P Require Import Prelude Words Text Schema Json Trace Otlp.
Local Open Scope string_scope.
Local Open Scope list_scope.
Local Open Scope N_scope.

#[local] Arguments String.append _ _ : simpl nomatch.

Inductive SpanKind := Server | Client.
Definition kind_code (k : SpanKind) : N := match k with Server => 2 | Client => 3 end.

Inductive AttrValue := Str (v : string) | Int (v : Z) | Bool (v : bool).
Record Attr := mkAttr { key : string; value : AttrValue }.

Record SpanRecord := mkSpan {
  trace_id : list N;
  span_id : list N;
  parent_span_id : option (list N);
  name : string;
  kind : SpanKind;
  start_unix_nano : N;
  end_unix_nano : N;
  error : bool;
  attributes : list Attr }.

(** Nanoseconds since the epoch; [None] is a time before it. *)
Definition unix_nanos (since_epoch : option N) : N := match since_epoch with Some d => clamp U64_MAX d | None => 0 end.

(** ** Encoding *)

Definition encode_resource (s : string) (kv : string * string) : string :=
  let s := s +:+ lit "{'key':" in
  let s := quoted s kv.1 in
  let s := s +:+ lit ",'value':{'stringValue':" in
  quoted s kv.2 +:+ "}}".

Definition encode_attr (s : string) (a : Attr) : string :=
  let s := s +:+ lit "{'key':" in
  let s := quoted s (key a) in
  let s := s +:+ lit ",'value':{" in
  let s :=
    match value a with
    | Str v => quoted (s +:+ lit "'stringValue':") v
    | Int v => s +:+ lit "'intValue':'" +:+ pretty v +:+ str1 dquote
    | Bool v => s +:+ lit "'boolValue':" +:+ (if v then "true" else "false")
    end in
  s +:+ "}}".

Definition encode_span (s : string) (span : SpanRecord) : string :=
  let s := s +:+ lit "{'traceId':'" +:+ hex (trace_id span) +:+ lit "','spanId':'" +:+ hex (span_id span) +:+ str1 dquote in
  let s := match parent_span_id span with
           | Some parent => s +:+ lit ",'parentSpanId':'" +:+ hex parent +:+ str1 dquote
           | None => s
           end in
  let s := quoted (s +:+ lit ",'name':") (name span) in
  let s := s +:+ lit ",'kind':" +:+ print_uint (kind_code (kind span)) in
  let s := s +:+ lit ",'startTimeUnixNano':'" +:+ print_uint (start_unix_nano span) in
  let s := s +:+ lit "','endTimeUnixNano':'" +:+ print_uint (end_unix_nano span) in
  let s := comma_separated encode_attr true (s +:+ lit "','attributes':[") (attributes span) in
  s +:+ lit "],'status':{'code':" +:+ (if error span then "2" else "0") +:+ "}}".

Definition encode (version : string) (resource : list (string * string)) (spans : list SpanRecord) : string :=
  let s := lit "{'resourceSpans':[{'resource':{'attributes':[" in
  let s := comma_separated encode_resource true s resource in
  let s := escape_into (s +:+ lit "]},'scopeSpans':[{'scope':{'name':'harmost','version':'") version in
  let s := s +:+ lit "'},'spans':[" in
  comma_separated encode_span true s spans +:+ "]}]}]}".

(** ** What a batch says *)

Definition resource_json (kv : string * string) : JSON :=
  JObj [("key", JStr kv.1); ("value", JObj [("stringValue", JStr kv.2)])].

Definition attr_json (a : Attr) : JSON :=
  JObj [("key", JStr (key a));
        ("value", JObj [match value a with
                        | Str v => ("stringValue", JStr v)
                        | Int v => ("intValue", JStr (pretty v))
                        | Bool v => ("boolValue", JBool v)
                        end])].

Definition span_json (span : SpanRecord) : JSON :=
  JObj ([("traceId", JStr (hex (trace_id span))); ("spanId", JStr (hex (span_id span)))]
    ++ match parent_span_id span with Some p => [("parentSpanId", JStr (hex p))] | None => [] end
    ++ [("name", JStr (name span)); ("kind", JNum (Z.of_N (kind_code (kind span))));
        ("startTimeUnixNano", JStr (print_uint (start_unix_nano span)));
        ("endTimeUnixNano", JStr (print_uint (end_unix_nano span)));
        ("attributes", JArr (attr_json <$> attributes span));
        ("status", JObj [("code", JNum (if error span then 2 else 0)%Z)])]).

Definition batch_json (version : string) (resource : list (string * string)) (spans : list SpanRecord) : JSON :=
  JObj [("resourceSpans", JArr [JObj [
    ("resource", JObj [("attributes", JArr (resource_json <$> resource))]);
    ("scopeSpans", JArr [JObj [
      ("scope", JObj [("name", JStr "harmost"); ("version", JStr version)]);
      ("spans", JArr (span_json <$> spans))]])]])].

(** Text that needs no escaping. *)
Definition plain (s : string) : Prop := escape s = s.

Lemma plain_quote s : plain s → quote s = String dquote (s +:+ str1 dquote).
Proof. intros H. by rewrite quote_eq, H. Qed.

Lemma plain_chars s : all_chars (λ c, bool_decide (escape_char c = str1 c)) s = true → plain s.
Proof.
  unfold plain. induction s as [|c s IH]; [done|]. simpl. intros H. to_prop.
  rewrite IH by done. by rewrite H.
Qed.

Lemma plain_digits n : plain (print_uint n).
Proof.
  apply plain_chars. apply (all_chars_impl is_digit); [|apply print_uint_digits].
  intros c. destruct c as [[] [] [] [] [] [] [] []]; (discriminate || intros _; vm_compute; reflexivity).
Qed.

Lemma plain_num (z : Z) : plain (pretty z).
Proof.
  destruct z as [|p|p]; [reflexivity|apply (plain_digits (N.pos p))|].
  change (pretty (Z.neg p)) with ("-" +:+ print_uint (N.pos p)). unfold plain. simpl.
  rewrite (plain_digits (N.pos p)). reflexivity.
Qed.

Lemma plain_hex bytes : Forall (λ b, b < 256) bytes → plain (hex bytes).
Proof.
  intros H. apply plain_chars. rewrite all_chars_list, hex_eq. induction H as [|b l Hb _ IH]; [done|].
  change (hex_chars (b :: l)) with (hex_char (N.shiftr b 4) :: hex_char (N.land b 15) :: hex_chars l).
  cbn [forallb]. rewrite IH, andb_true_r.
  apply (small_byte_spec (λ b, bool_decide (escape_char (hex_char (N.shiftr b 4)) = str1 (hex_char (N.shiftr b 4)))
    && (bool_decide (escape_char (hex_char (N.land b 15)) = str1 (hex_char (N.land b 15)))))) in Hb;
    [|vm_compute; reflexivity]. by apply andb_true_iff in Hb as [-> ->].
Qed.

Lemma encode_resource_eq s kv : encode_resource s kv = s +:+ render (resource_json kv).
Proof. unfold encode_resource, resource_json. flatten_text. reflexivity. Qed.

Lemma encode_attr_eq s a : encode_attr s a = s +:+ render (attr_json a).
Proof.
  unfold encode_attr, attr_json. destruct a as [k [v|v|[]]]; cbn [key value]; cbn [render map fst snd].
  - flatten_text. reflexivity.
  - rewrite (plain_quote (pretty v)) by apply plain_num. flatten_text. reflexivity.
  - flatten_text. reflexivity.
  - flatten_text. reflexivity.
Qed.

Definition span_ok (span : SpanRecord) : Prop :=
  Forall (λ b, b < 256) (trace_id span) ∧ Forall (λ b, b < 256) (span_id span) ∧
  from_option (Forall (λ b, b < 256)) True (parent_span_id span).

Lemma encode_span_eq s span : span_ok span → encode_span s span = s +:+ render (span_json span).
Proof.
  intros (H1 & H2 & H3). unfold encode_span.
  rewrite (comma_render encode_attr attr_json) by (intros; apply encode_attr_eq).
  destruct (parent_span_id span) as [p|] eqn:Ep; unfold span_json; rewrite Ep;
    cbn [app]; rewrite render_members; unfold members; cbn [map join]; unfold member; cbn [fst snd];
    rewrite render_array; cbn [render map fst snd join];
    rewrite (plain_quote (hex (trace_id span))), (plain_quote (hex (span_id span))),
      (plain_quote (print_uint (start_unix_nano span))), (plain_quote (print_uint (end_unix_nano span)))
      by (auto using plain_hex, plain_digits);
    rewrite ?(plain_quote (hex p)) by (apply plain_hex; exact H3);
    rewrite (pretty_num (kind_code (kind span)));
    destruct (error span); flatten_text; reflexivity.
Qed.

Lemma encode_eq version resource spans :
  Forall span_ok spans → encode version resource spans = render (batch_json version resource spans).
Proof.
  intros H. unfold encode.
  rewrite (comma_render encode_resource resource_json) by (intros; apply encode_resource_eq).
  rewrite (proj1 (comma_separated_eq encode_span span_json spans _
    (Forall_impl _ _ _ H (λ span Hs s, encode_span_eq s span Hs)))).
  unfold batch_json.
  pose proof (render_array (resource_json <$> resource)) as HR.
  pose proof (render_array (span_json <$> spans)) as HS.
  revert HR HS. generalize (JArr (resource_json <$> resource)) (JArr (span_json <$> spans)).
  generalize (items (resource_json <$> resource)) (items (span_json <$> spans)). intros r p jr jp HR HS.
  cbn [render map fst snd join]. rewrite HR, HS. flatten_text. reflexivity.
Qed.

(** A batch of spans reaches the collector intact: whatever the requests and the
    configuration put in names and attributes, the document posted is one JSON
    value, and it says exactly what the spans say, 64-bit integers as strings. *)
Theorem batch_reads_back version resource spans :
  Forall span_ok spans →
  parse (encode version resource spans) = Some (batch_json version resource spans) ∧
  no_control (encode version resource spans) = true.
Proof. intros H. rewrite encode_eq by done. split; [apply parse_render|apply render_clean]. Qed.

(** ** The post *)

Definition post_head (ep : Endpoint) (body version : string) : string :=
  let crlf := String (chr 13) (str1 (chr 10)) in
  "POST " +:+ path ep +:+ " HTTP/1.1" +:+ crlf +:+ "Host: " +:+ authority ep +:+ crlf
    +:+ "Content-Type: application/json" +:+ crlf +:+ "Content-Length: " +:+ print_uint (len body) +:+ crlf
    +:+ "User-Agent: harmost/" +:+ version +:+ crlf +:+ "Connection: close" +:+ crlf +:+ crlf.

(** ** Witness *)

Definition sample_span : SpanRecord :=
  mkSpan (request_trace_id sample_trace) (request_span_id sample_trace) None "GET products" Server 5 9 false
    [mkAttr "http.route" (Str (String dquote "x")); mkAttr "http.status" (Int 200)].

Lemma batch_reads_back_witness :
  parse (encode "0.1.0" [("service.name", "harmost")] [sample_span])
  = Some (batch_json "0.1.0" [("service.name", "harmost")] [sample_span]).
Proof. apply batch_reads_back. repeat constructor. Defined.
