(* ===== verification/Export.v ===== *)
(** * The span exporter ([src/src/telemetry/otlp.rs])

    The bounded queue requests record into, and the background service that
    takes batches from it and posts them.  A request only ever calls [record],
    which is one total step.  What the channel hands over at a time, the order in
    which [select!] sees its events and the collector's answers are arguments;
    the posts made so far are part of the state, so that nothing sent is
    forgotten. *)

From S2P Require Import Prelude Words Text Units Schema Otlp Spans.
Local Open Scope string_scope.
Local Open Scope list_scope.
Local Open Scope N_scope.

(** The two halves of the channel, the batch of [start], and what was posted:
    each batch with whether the collector took it. *)
Record Exporter := mkExporter {
  capacity : N;
  max_batch : N;
  is_open : bool;
  queue : list SpanRecord;
  batch : list SpanRecord;
  dropped : N;
  posts : list (list SpanRecord * bool) }.

Definition size (l : list SpanRecord) : N := N.of_nat (length l).

(** [build]. *)
Definition new_exporter (cfg : Schema.Otlp.Otlp) : result EndpointError Exporter :=
  parse_endpoint (Schema.Otlp.endpoint cfg);;
  Ok (mkExporter (N.max (Schema.Otlp.max_queue cfg) 1) (N.max (Schema.Otlp.max_batch cfg) 1) true [] [] 0 []).

Definition with_queue (q b : list SpanRecord) (x : Exporter) : Exporter :=
  mkExporter (capacity x) (max_batch x) (is_open x) q b (dropped x) (posts x).
Definition count_dropped (n : N) (x : Exporter) : Exporter :=
  mkExporter (capacity x) (max_batch x) (is_open x) (queue x) (batch x) (wrapping_add (dropped x) n) (posts x).

(** [SpanSink::record]: [try_send] fails when the queue is full or the receiver
    is closed. *)
Definition record (span : SpanRecord) (x : Exporter) : Exporter :=
  if is_open x && (size (queue x) <? capacity x) then with_queue (queue x ++ [span]) (batch x) x
  else count_dropped 1 x.

(** [recv_many]: the first [k] of the queue join the batch. *)
Definition recv_many (k : nat) (x : Exporter) : Exporter :=
  with_queue (drop k (queue x)) (batch x ++ take k (queue x)) x.

Definition flush (answer : bool) (x : Exporter) : Exporter :=
  match batch x with
  | [] => x
  | b => mkExporter (capacity x) (max_batch x) (is_open x) (queue x) [] (dropped x) (posts x ++ [(b, answer)])
  end.

(** The arms of [select!] while running. *)
Definition on_received (k : nat) (answer : bool) (x : Exporter) : Exporter :=
  let x := recv_many k x in
  if max_batch x <=? size (batch x) then flush answer x else x.
Definition on_tick (answer : bool) (x : Exporter) : Exporter := flush answer x.

(** [rx.close()]: nothing more is taken in. *)
Definition close (x : Exporter) : Exporter :=
  mkExporter (capacity x) (max_batch x) false (queue x) (batch x) (dropped x) (posts x).

(** The drain at shutdown, as far as the deadline lets it: each round that ended
    with what [recv_many] gave in it and the collector's answer, then what the
    last, unfinished round had taken. *)
Fixpoint drain (rounds : list (nat * bool)) (cut : nat) (x : Exporter) : Exporter :=
  let refill k x := if bool_decide (batch x = []) then recv_many k x else x in
  match rounds with
  | [] => refill cut x
  | (k, answer) :: rest => drain rest cut (flush answer (refill k x))
  end.

Definition record_shutdown_drop (count : N) (x : Exporter) : Exporter :=
  if count =? 0 then x else count_dropped (clamp U64_MAX count) x.

(** What is left when the service returns is gone with its receiver. *)
Definition shut_down (rounds : list (nat * bool)) (cut : nat) (x : Exporter) : Exporter :=
  let x := drain rounds cut (close x) in
  with_queue [] [] (record_shutdown_drop (saturating_add (size (batch x)) (size (queue x))) x).

(** ** Runs *)

Inductive Event :=
| Recorded (span : SpanRecord)
| Received (k : nat) (answer : bool)
| Ticked (answer : bool)
| ShutDown (rounds : list (nat * bool)) (cut : nat).

Definition on_event (e : Event) (x : Exporter) : Exporter :=
  match e with
  | Recorded span => record span x
  | Received k answer => on_received k answer x
  | Ticked answer => on_tick answer x
  | ShutDown rounds cut => shut_down rounds cut x
  end.

(** [recv_many] is asked for [max_batch] at most. *)
Definition asked (limit : N) (e : Event) : Prop :=
  match e with
  | Received k _ => N.of_nat k <= limit
  | ShutDown rounds cut => Forall (λ r, N.of_nat r.1 <= limit) rounds ∧ N.of_nat cut <= limit
  | _ => True
  end.

(** A service started from [cfg], and the spans recorded so far in order. *)
Inductive runs (cfg : Schema.Otlp.Otlp) : Exporter → list SpanRecord → Prop :=
| runs_new x : new_exporter cfg = Ok x → runs cfg x []
| runs_event x offered e :
    runs cfg x offered → asked (max_batch x) e →
    runs cfg (on_event e x) (match e with Recorded span => offered ++ [span] | _ => offered end).

Definition sent (x : Exporter) : list SpanRecord := mjoin ((posts x).*1).
Definition held (x : Exporter) : list SpanRecord := sent x ++ batch x ++ queue x.

(** ** Proofs *)

(** Moves between the queue, the batch and the posts keep what is held, in order. *)
Definition same_books (x x' : Exporter) : Prop :=
  held x' = held x ∧ dropped x' = dropped x ∧ capacity x' = capacity x ∧ max_batch x' = max_batch x
  ∧ is_open x' = is_open x.

#[local] Instance same_books_preorder : PreOrder same_books.
Proof.
  split; [by intros x|]. intros x y z (H1 & H2 & H3 & H4 & H5) (G1 & G2 & G3 & G4 & G5). repeat split; congruence.
Qed.

Lemma recv_books k x : same_books x (recv_many k x).
Proof.
  repeat split. unfold held, sent, recv_many. simpl. f_equal. by rewrite <-app_assoc, take_drop.
Qed.

Lemma flush_books answer x : same_books x (flush answer x).
Proof.
  unfold flush. destruct (batch x) as [|s b] eqn:E; [reflexivity|]. repeat split.
  unfold held, sent. simpl. rewrite fmap_app, E. simpl. rewrite join_app. simpl. by rewrite app_nil_r, <-app_assoc.
Qed.

Lemma received_books k answer x : same_books x (on_received k answer x).
Proof.
  unfold on_received. destruct (_ <=? _); [|apply recv_books]. etrans; [apply recv_books|apply flush_books].
Qed.

Lemma drain_books rounds cut x : same_books x (drain rounds cut x).
Proof.
  revert x. induction rounds as [|[k answer] rounds IH]; intros x; simpl; [case_bool_decide; [apply recv_books|done]|].
  etrans; [|apply IH]. etrans; [|apply flush_books]. case_bool_decide; [apply recv_books|done].
Qed.

(** Sizes: the queue within its capacity, the batch below its threshold between
    events, no post empty or twice the threshold. *)
Record sizes_ok (x : Exporter) : Prop := mkSizes {
  queue_fits : size (queue x) <= capacity x;
  threshold : 1 <= max_batch x;
  batch_waits : size (batch x) < max_batch x;
  posts_fit : Forall (λ p, 1 <= size p.1 ∧ size p.1 < 2 * max_batch x) (posts x) }.

Lemma size_app l l' : size (l ++ l') = size l + size l'.
Proof. unfold size. rewrite length_app. lia. Qed.
Lemma size_take k l : size (take k l) <= N.of_nat k ∧ size (take k l) <= size l.
Proof. unfold size. rewrite length_take. lia. Qed.
Lemma size_drop k l : size (drop k l) <= size l.
Proof. unfold size. rewrite length_drop. lia. Qed.

Lemma flush_sizes answer x :
  size (queue x) <= capacity x → 1 <= max_batch x → size (batch x) < 2 * max_batch x →
  Forall (λ p, 1 <= size p.1 ∧ size p.1 < 2 * max_batch x) (posts x) → sizes_ok (flush answer x).
Proof.
  intros H1 H2 H3 H4. unfold flush. destruct (batch x) as [|s b] eqn:E.
  - split; rewrite ?E; [done|done|unfold size; simpl; lia|done].
  - split; simpl; [done|done|unfold size; simpl; lia|]. apply Forall_app. split; [done|].
    constructor; [|done]. simpl. split; [unfold size; cbn [length]; lia|done].
Qed.

Lemma received_sizes k answer x : N.of_nat k <= max_batch x → sizes_ok x → sizes_ok (on_received k answer x).
Proof.
  intros Hk [H1 H2 H3 H4]. unfold on_received, recv_many. cbn [max_batch with_queue batch].
  pose proof (size_take k (queue x)). pose proof (size_drop k (queue x)).
  destruct (N.leb_spec (max_batch x) (size (batch x ++ take k (queue x)))) as [Hle|Hlt]; rewrite size_app in *.
  - apply flush_sizes; simpl; rewrite ?size_app; try done; lia.
  - split; simpl; rewrite ?size_app; [lia|done|lia|done].
Qed.

Lemma drain_posts rounds cut x :
  Forall (λ r, N.of_nat r.1 <= max_batch x) rounds → N.of_nat cut <= max_batch x → sizes_ok x →
  Forall (λ p, 1 <= size p.1 ∧ size p.1 < 2 * max_batch x) (posts (drain rounds cut x)).
Proof.
  revert x. induction rounds as [|[k answer] rounds IH]; intros x Hr Hc [H1 H2 H3 H4]; simpl;
    [by case_bool_decide|].
  apply Forall_cons in Hr as [Hk Hr]. simpl in Hk. set (y := if bool_decide _ then _ else x).
  assert (sizes_ok (flush answer y)) as Hy.
  { unfold y. case_bool_decide as E; [|apply flush_sizes; try done; lia].
    pose proof (size_take k (queue x)). pose proof (size_drop k (queue x)).
    apply flush_sizes; simpl; rewrite ?E, ?app_nil_l; try done; lia. }
  assert (max_batch (flush answer y) = max_batch x) as Hm.
  { unfold flush. by destruct (batch y); unfold y; case_bool_decide. }
  rewrite <-Hm. apply IH; [by rewrite Hm|by rewrite Hm|done].
Qed.

Lemma shut_down_shape rounds cut x :
  let y := drain rounds cut (close x) in
  queue (shut_down rounds cut x) = [] ∧ batch (shut_down rounds cut x) = []
  ∧ posts (shut_down rounds cut x) = posts y ∧ max_batch (shut_down rounds cut x) = max_batch y
  ∧ capacity (shut_down rounds cut x) = capacity y.
Proof. cbv zeta. unfold shut_down, record_shutdown_drop. by destruct (_ =? 0). Qed.

Lemma event_sizes e x : asked (max_batch x) e → sizes_ok x → sizes_ok (on_event e x).
Proof.
  intros Ha H. destruct e as [span|k answer|answer|rounds cut]; simpl in *.
  - destruct H as [H1 H2 H3 H4]. unfold record.
    destruct (is_open x && (size (queue x) <? capacity x)) eqn:E; [|by split].
    apply andb_true_iff in E as [_ E]. apply N.ltb_lt in E. split; simpl; [|done..].
    rewrite size_app. unfold size at 2. simpl. lia.
  - by apply received_sizes.
  - destruct H as [H1 H2 H3 H4]. apply flush_sizes; try done. lia.
  - destruct Ha as [Hr Hc]. destruct (shut_down_shape rounds cut x) as (E1 & E2 & E3 & E4 & E5).
    destruct (drain_books rounds cut (close x)) as (_ & _ & B1 & B2 & _). cbn [close capacity max_batch] in B1, B2.
    split; rewrite ?E1, ?E2, ?E3, ?E4, ?E5, ?B1, ?B2; [apply N.le_0_l|by apply H|destruct H as [_ Ht _ _]; change (size []) with 0; lia|].
    apply (drain_posts rounds cut (close x)); [done|done|by destruct H].
Qed.

(** The spans held are some of those recorded, in order, and the rest were
    counted. *)
Definition accounted (offered : list SpanRecord) (x : Exporter) : Prop :=
  held x `sublist_of` offered ∧ size (held x) + dropped x = size offered.

Lemma accounted_same offered x x' : same_books x x' → accounted offered x → accounted offered x'.
Proof. intros (E1 & E2 & _). unfold accounted. by rewrite E1, E2. Qed.

Lemma event_accounted offered e x :
  accounted offered x →
  let offered' := match e with Recorded span => offered ++ [span] | _ => offered end in
  size offered' <= U64_MAX → accounted offered' (on_event e x).
Proof.
  intros [H1 H2] offered' Hn. unfold offered' in *. destruct e as [span|k answer|answer|rounds cut]; simpl.
  - unfold record. rewrite size_app in Hn. destruct (is_open x && _); split.
    + unfold held in *. simpl. rewrite !app_assoc. apply sublist_app; [by rewrite <-!app_assoc|done].
    + unfold held in *. cbn [with_queue queue batch dropped].
      change (sent (with_queue (queue x ++ [span]) (batch x) x)) with (sent x).
      rewrite !size_app in H2. rewrite !size_app. change (size [span]) with 1. lia.
    + unfold held in *. simpl. by apply sublist_inserts_r.
    + change (held (count_dropped 1 x)) with (held x). rewrite size_app. change (size [span]) with 1 in *. simpl.
      rewrite wrapping_add_small; lia.
  - by eapply accounted_same; [apply received_books|].
  - by eapply accounted_same; [apply flush_books|].
  - pose proof (drain_books rounds cut (close x)) as Hd. set (y := drain rounds cut (close x)) in *.
    assert (accounted offered y) as [G1 G2] by (by eapply accounted_same; [exact Hd|]).
    assert (held (shut_down rounds cut x) = sent y) as Eh.
    { unfold held. destruct (shut_down_shape rounds cut x) as (-> & -> & E3 & _). unfold sent. rewrite E3. by rewrite !app_nil_r. }
    assert (dropped (shut_down rounds cut x) = dropped y + size (batch y) + size (queue y)) as Ed.
    { unfold shut_down, record_shutdown_drop, clamp, saturating_add. fold y. cbn [with_queue dropped].
      unfold held in G2. rewrite !size_app in G2. destruct (N.eqb_spec (N.min (size (batch y) + size (queue y)) U64_MAX) 0) as [Hz|Hz].
      - unfold U64_MAX in Hz. lia.
      - simpl. rewrite wrapping_add_small; lia. }
    unfold held in G1, G2. rewrite !size_app in G2. split; [|rewrite Eh, Ed; lia].
    rewrite Eh. etrans; [|exact G1]. by apply sublist_inserts_r.
Qed.

(** C25: Every span a request records is accounted for.
    Whatever the order of recordings, deliveries, ticks and answers of the
    collector, the spans posted, batched and queued are spans recorded, each
    once and in order, and exactly the others were counted as dropped; the queue
    stays within its capacity, a batch waits below [max_batch], and a post
    carries at least one span and fewer than [2 * max_batch]; and after a
    shutdown everything recorded was posted or counted, whatever its deadline
    cut off. *)
Theorem spans_are_accounted cfg x offered :
  runs cfg x offered → size offered <= U64_MAX →
  (held x `sublist_of` offered ∧ size (held x) + dropped x = size offered)
  ∧ size (queue x) <= capacity x ∧ size (batch x) < max_batch x
  ∧ Forall (λ p, 1 <= size p.1 ∧ size p.1 < 2 * max_batch x) (posts x)
  ∧ ∀ rounds cut, let x' := shut_down rounds cut x in
      asked (max_batch x) (ShutDown rounds cut) →
      size (sent x') + dropped x' = size offered ∧ record sample_span x' = count_dropped 1 x'.
Proof.
  intros Hr Hn.
  assert (accounted offered x ∧ sizes_ok x) as [HA [H1 H2 H3 H4]].
  { induction Hr as [x Hx|x offered e Hr IH Ha].
    - unfold new_exporter in Hx. apply bind_ok in Hx as (ep & _ & [= <-]).
      split; [by split|]. split; simpl; [apply N.le_0_l|lia|unfold size; simpl; lia|done].
    - assert (size offered <= U64_MAX) as Hn'.
      { destruct e; simpl in Hn; [rewrite size_app in Hn; lia|done..]. }
      destruct (IH Hn') as [HA HS]. split; [by apply event_accounted|by apply event_sizes]. }
  split; [done|]. split; [done|]. split; [done|]. split; [done|].
  intros rounds cut x' Hc. pose proof (event_accounted offered (ShutDown rounds cut) x HA Hn) as [G1 G2].
  change (on_event (ShutDown rounds cut) x) with x' in G1, G2. unfold held in G2.
  destruct (shut_down_shape rounds cut x) as (E1 & E2 & _). fold x' in E1, E2. rewrite E1, E2, !app_nil_r in G2.
  split; [exact G2|]. unfold record.
  assert (is_open x' = false) as ->; [|done].
  destruct (drain_books rounds cut (close x)) as (_ & _ & _ & _ & Ho). unfold x', shut_down, record_shutdown_drop.
  by destruct (_ =? 0).
Qed.

(** ** Witnesses *)

Definition sample_otlp : Schema.Otlp.Otlp := Schema.Otlp.mk "http://collector:4318/v1/traces" d_1s 4 3 d_5s.
Definition idle_exporter : Exporter := mkExporter 4 3 true [] [] 0 [].

(** Two spans are taken, three more are queued and taken at once: the post has
    five although [max_batch] is three. *)
Definition five : list Event :=
  [Recorded sample_span; Recorded sample_span; Received 2 true;
   Recorded sample_span; Recorded sample_span; Recorded sample_span; Received 3 true].
Definition after (es : list Event) : Exporter := foldl (λ x e, on_event e x) idle_exporter es.

Lemma batch_exceeds_max_batch :
  runs sample_otlp (after five) (replicate 5 sample_span) ∧ (λ p, size p.1) <$> posts (after five) = [5].
Proof.
  split; [|vm_compute; reflexivity]. unfold after, five. cbn [foldl].
  change (replicate 5 sample_span) with ((((([] ++ [sample_span]) ++ [sample_span]) ++ [sample_span]) ++ [sample_span]) ++ [sample_span]).
  apply (runs_event _ _ _ (Received 3 true)); [|vm_compute; discriminate].
  do 3 (apply (runs_event _ _ _ (Recorded sample_span)); [|done]).
  apply (runs_event _ _ _ (Received 2 true)); [|vm_compute; discriminate].
  do 2 (apply (runs_event _ _ _ (Recorded sample_span)); [|done]).
  by apply runs_new.
Qed.

Lemma spans_are_accounted_witness :
  size (sent (after five)) = 5 ∧ dropped (after five) = 0.
Proof.
  destruct (spans_are_accounted sample_otlp _ _ (proj1 batch_exceeds_max_batch)) as ((_ & H) & _ & _ & _ & Hs);
    [vm_compute; discriminate|].
  destruct (Hs [] 0%nat) as [H' _]; [by split|]. split; [|vm_compute; reflexivity].
  rewrite <-(N.add_0_r (size _)). exact H'.
Defined.
