(* ===== verification/Collector.v ===== *)
(** * The post to the collector ([src/src/telemetry/otlp.rs])

    What [OtlpExporter::post] puts on the connection, how much it reads of the
    answer, and what it makes of it; the queue and the batches are in [Export],
    which only asks whether a post succeeded.  The connection is an argument:
    what connecting, writing and each read give, and whether all of it fits in
    the timeout.  A reference reader of HTTP/1.1 requests says what a collector
    sees. *)

From S2P Require Import Prelude Words Text Units Schema Otlp Json Spans Export.
Local Open Scope string_scope.
Local Open Scope list_scope.
Local Open Scope N_scope.

#[local] Arguments String.append _ _ : simpl nomatch.

Definition crlf : string := String (chr 13) (str1 (chr 10)).

(** ** The source *)

(** [reads] are what successive reads give; an empty one, or none left, is the
    end of the stream. *)
Record Connection := mkConnection {
  connect : result string unit;
  write_all : string → result string unit;
  reads : list (result string string);
  in_time : bool }.

Inductive PostError :=
| ConnectFailed (e : string)
| HeadersNotWritten (e : string)
| BodyNotWritten (e : string)
| ReadFailed (e : string)
| Answered (line : string)
| TimedOut (after : Duration).

(** The text before the first line end, and what follows it. *)
Fixpoint until_crlf (s : string) : option (string * string) :=
  match strip_prefix crlf s with
  | Some rest => Some (EmptyString, rest)
  | None => match s with
            | EmptyString => None
            | String a s' => '(line, rest) ← until_crlf s'; Some (String a line, rest)
            end
  end.
(** [seen.windows(2).any(|w| w == b"\r\n")]. *)
Definition has_crlf (s : string) : bool := match until_crlf s with Some _ => true | None => false end.

Fixpoint read_status (rs : list (result string string)) (seen : string) : result string string :=
  match rs with
  | [] => Ok seen
  | Err e :: _ => Err e
  | Ok chunk :: rs =>
      if is_empty chunk then Ok seen
      else
        let seen := seen +:+ chunk in
        if has_crlf seen || (512 <=? len seen) then Ok seen else read_status rs seen
  end.

(** [split_whitespace().nth(1).unwrap_or_default()]. *)
Fixpoint until_space (s : string) : string * string :=
  match strip_one white_space s, s with
  | None, String a s' => let '(w, rest) := until_space s' in (String a w, rest)
  | _, _ => (EmptyString, s)
  end.
Definition second_word (s : string) : string :=
  (until_space (trim_front white_space (until_space (trim_front white_space s)).2)).1.

Definition verdict (seen : string) : result PostError unit :=
  if starts_with "2" (second_word seen) then Ok tt else Err (Answered (trim_back white_space seen)).

Definition post (version : string) (ep : Endpoint) (timeout : Duration) (C : Connection) (body : string) :
    result PostError unit :=
  if in_time C then
    map_err ConnectFailed (connect C);;
    map_err HeadersNotWritten (write_all C (post_head ep body version));;
    map_err BodyNotWritten (write_all C body);;
    seen ← map_err ReadFailed (read_status (reads C) EmptyString);
    verdict seen
  else Err (TimedOut timeout).

(** [flush], over such a connection. *)
Definition flush_over (version : string) (resource : list (string * string)) (ep : Endpoint) (timeout : Duration)
    (C : Connection) (x : Exporter) : Exporter :=
  flush (is_ok (post version ep timeout C (encode version resource (batch x)))) x.

(** All that a successful post has written. *)
Definition wire (version : string) (ep : Endpoint) (body : string) : string := post_head ep body version +:+ body.

(** ** The reference reader *)

Record Request := mkRead {
  verb : string; target : string; fields : list (string * string); content : string; remainder : string }.

Fixpoint read_fields (fuel : nat) (s : string) : option (list (string * string) * string) :=
  match fuel with
  | O => None
  | S n =>
      '(line, rest) ← until_crlf s;
      if is_empty line then Some ([], rest)
      else
        '(name, value) ← split_once ":" line;
        '(others, rest) ← read_fields n rest;
        Some ((name, default value (strip_prefix " " value)) :: others, rest)
  end.

Fixpoint split_at (n : nat) (s : string) : option (string * string) :=
  match n, s with
  | O, _ => Some (EmptyString, s)
  | S n, String a s => '(before, after) ← split_at n s; Some (String a before, after)
  | S _, EmptyString => None
  end.

Definition named (name : string) (kvs : list (string * string)) : option string :=
  (λ ikv, ikv.2.2) <$> list_find (λ kv, kv.1 = name) kvs.

Definition read_request (s : string) : option Request :=
  '(line, rest) ← until_crlf s;
  '(verb, line) ← split_once " " line;
  '(target, protocol) ← split_once " " line;
  if bool_decide (protocol = "HTTP/1.1") then
    '(fields, rest) ← read_fields (String.length rest) rest;
    length ← named "Content-Length" fields ≫= parse_u64;
    '(content, remainder) ← split_at (N.to_nat length) rest;
    Some (mkRead verb target fields content remainder)
  else None.

(** ** What the endpoint's text can hold *)

Lemma strip_prefix_all p s r q : strip_prefix p s = Some r → all_chars q s = true → all_chars q r = true.
Proof. intros ->%strip_prefix_some. rewrite all_chars_app. by intros [_ ?]%andb_true_iff. Qed.

Lemma split_authority_all rest a p q :
  split_authority rest = (a, p) → all_chars q rest = true → all_chars q a = true ∧ all_chars q p = true.
Proof.
  unfold split_authority. destruct (split_once "/" rest) as [[a' p']|] eqn:E; intros [= <- <-]; [|done].
  apply split_once_some in E as [-> _]. rewrite (all_chars_app q a'). intros [Ha Hp]%andb_true_iff. by split.
Qed.

(** No configured endpoint puts a space or a line end into the head. *)
Lemma endpoint_graphic raw ep :
  parse_endpoint raw = Ok ep → all_chars is_ascii_graphic (path ep) = true ∧ all_chars is_ascii_graphic (authority ep) = true.
Proof.
  unfold parse_endpoint. intros (? & _ & H)%bind_ok. apply bind_ok in H as (? & Hc & H).
  apply refuse_if_ok, negb_false_iff, (all_chars_impl _ _ _ endpoint_char_graphic) in Hc.
  apply bind_ok in H as (? & _ & H). apply bind_ok in H as (rest & Hr & H). apply ok_or_ok in Hr.
  apply (strip_prefix_all _ _ _ _ Hr) in Hc. apply bind_ok in H as (? & _ & H).
  destruct (split_authority rest) as [a p] eqn:Ep. destruct (split_authority_all _ _ _ _ Ep Hc) as [Ha Hp].
  do 3 apply bind_ok in H as (? & _ & H). apply bind_ok in H as ([h n] & _ & H). apply bind_ok in H as (? & _ & [= <-]).
  split; [|done]. cbn [path]. by destruct (is_empty p).
Qed.

(** ** The head is read back *)

Lemma until_crlf_cons a s :
  a ≠ chr 13 → until_crlf (String a s) = ('(line, rest) ← until_crlf s; Some (String a line, rest)).
Proof. intros H. cbn [until_crlf strip_prefix crlf]. by rewrite decide_False. Qed.

Lemma until_crlf_line line rest :
  contains_char (chr 13) line = false → until_crlf (line +:+ crlf +:+ rest) = Some (line, rest).
Proof.
  induction line as [|a line IH]; [done|].
  rewrite contains_char_cons. intros [Ha Hl]%orb_false_iff. apply bool_decide_eq_false in Ha.
  change (String a line +:+ crlf +:+ rest) with (String a (line +:+ crlf +:+ rest)).
  rewrite until_crlf_cons by done. by rewrite IH.
Qed.

Lemma graphic_no_crs s : all_chars is_ascii_graphic s = true → contains_char (chr 13) s = false ∧ contains_char " " s = false.
Proof. intros H. split; by apply (all_chars_not_contains is_ascii_graphic). Qed.

(** A head, field by field, before the body. *)
Definition written (fs : list (string * string)) (body : string) : string :=
  foldr (λ kv s, (kv.1 +:+ ": " +:+ kv.2) +:+ crlf +:+ s) (crlf +:+ body) fs.
Definition field_ok (kv : string * string) : Prop :=
  kv.1 ≠ EmptyString ∧ contains_char (chr 13) kv.1 = false ∧ contains_char ":" kv.1 = false ∧ contains_char (chr 13) kv.2 = false.

Lemma read_fields_back fs body fuel :
  Forall field_ok fs → (length fs < fuel)%nat → read_fields fuel (written fs body) = Some (fs, body).
Proof.
  intros Hf. revert fuel. induction Hf as [|[name value] fs (Hn & Hc & Hs & Hv) _ IH]; intros [|fuel] Hl; simpl in Hl; [lia| |lia|].
  - cbn [written foldr read_fields]. change (crlf +:+ body) with (EmptyString +:+ crlf +:+ body) at 1. by rewrite until_crlf_line.
  - cbn [fst snd] in *. cbn [written foldr read_fields fst snd]. fold (written fs body).
    rewrite until_crlf_line by (rewrite !contains_char_app, Hc, Hv; reflexivity).
    cbn [mbind option_bind]. replace (is_empty (name +:+ ": " +:+ value)) with false by (by destruct name).
    rewrite (proj2 (split_once_some ":" _ name (" " +:+ value))) by (split; [done|exact Hs]). cbn [mbind option_bind].
    rewrite IH by lia. cbn [mbind option_bind]. by rewrite strip_prefix_app.
Qed.

Definition head_fields (version : string) (ep : Endpoint) (body : string) : list (string * string) :=
  [("Host", authority ep); ("Content-Type", "application/json"); ("Content-Length", print_uint (len body));
   ("User-Agent", "harmost/" +:+ version); ("Connection", "close")].

Lemma wire_written version ep body :
  wire version ep body = ("POST " +:+ path ep +:+ " HTTP/1.1") +:+ crlf +:+ written (head_fields version ep body) body.
Proof. unfold wire, post_head, head_fields. cbn [written foldr fst snd]. unfold crlf. flatten_text. reflexivity. Qed.

Lemma split_at_app a b : split_at (String.length a) (a +:+ b) = Some (a, b).
Proof. induction a as [|c a IH]; [by destruct b|]. simpl. by rewrite IH. Qed.

Lemma written_length fs body : (length fs < String.length (written fs body))%nat.
Proof.
  induction fs as [|kv fs IH]; [simpl; lia|]. cbn [written foldr length]. fold (written fs body).
  rewrite !str_length_app. change (String.length crlf) with 2%nat. lia.
Qed.

Lemma request_read_back version ep body :
  all_chars is_ascii_graphic (path ep) = true → all_chars is_ascii_graphic (authority ep) = true →
  contains_char (chr 13) version = false → len body <= U64_MAX →
  read_request (wire version ep body) = Some (mkRead "POST" (path ep) (head_fields version ep body) body EmptyString).
Proof.
  intros [Hp Hs]%graphic_no_crs [Ha _]%graphic_no_crs Hv Hb. rewrite wire_written. unfold read_request.
  rewrite until_crlf_line by (rewrite !contains_char_app, Hp; reflexivity). cbn [mbind option_bind].
  rewrite (proj2 (split_once_some " " _ "POST" (path ep +:+ " HTTP/1.1"))) by (split; done). cbn [mbind option_bind].
  rewrite (proj2 (split_once_some " " _ (path ep) "HTTP/1.1")) by (split; [done|exact Hs]). cbn [mbind option_bind].
  rewrite bool_decide_eq_true_2 by done.
  rewrite read_fields_back; [|..|apply written_length].
  - cbn [mbind option_bind]. change (named "Content-Length" (head_fields version ep body)) with (Some (print_uint (len body))).
    cbn [mbind option_bind]. unfold parse_u64. rewrite parse_print_uint by done. cbn [mbind option_bind].
    replace (N.to_nat (len body)) with (String.length body) by (unfold len; lia).
    rewrite <-(str_app_nil_r body) at 2. by rewrite split_at_app.
  - pose proof (graphic_no_crs _ (print_uint_graphic (len body))) as [Hd _].
    repeat constructor; cbn [fst snd]; try done; by rewrite ?contains_char_app, ?Hv.
Qed.

(** ** The verdict is the collector's *)

(** [s] starts with [p], up to where both go. *)
Lemma prefix_either a b x t : a +:+ b = x +:+ t → (∃ u, x = a +:+ u) ∨ ∃ u, a = x +:+ u ∧ u +:+ b = t.
Proof.
  revert x. induction a as [|c a IH]; intros [|d x] H; [left; by exists EmptyString|left; by eexists|right; by exists (String c a)|].
  injection H as -> H. destruct (IH x H) as [[u ->]|(u & -> & <-)]; [left; by exists u|right; by exists u].
Qed.

Lemma until_crlf_some s line rest : until_crlf s = Some (line, rest) → s = line +:+ crlf +:+ rest.
Proof.
  revert line rest. induction s as [|a s IH]; intros line rest; [done|]. cbn [until_crlf].
  destruct (strip_prefix crlf (String a s)) as [r|] eqn:E.
  - intros [= <- <-]. by apply strip_prefix_some in E.
  - destruct (until_crlf s) as [[l r]|] eqn:El; [|done]. intros [= <- <-]. by rewrite (IH _ _ eq_refl).
Qed.

(** Reading stops at the end of the stream, at a line end or after 512 bytes,
    and never long after that. *)
Lemma read_status_spec chunks seen :
  Forall (λ c, c ≠ EmptyString) chunks →
  ∃ got left, read_status (Ok <$> chunks) seen = Ok (seen +:+ got)
    ∧ got +:+ left = foldr String.append EmptyString chunks
    ∧ (left = EmptyString ∨ has_crlf (seen +:+ got) = true ∨ 512 <= len (seen +:+ got)).
Proof.
  intros Hc. revert seen. induction Hc as [|c chunks Hc _ IH]; intros seen.
  - exists EmptyString, EmptyString. rewrite str_app_nil_r. split; [done|]. split; [done|by left].
  - cbn [fmap list_fmap read_status foldr]. replace (is_empty c) with false by (by destruct c). cbv zeta.
    destruct (has_crlf (seen +:+ c) || (512 <=? len (seen +:+ c))) eqn:E.
    + exists c, (foldr String.append EmptyString chunks). split; [done|]. split; [done|]. right.
      apply orb_true_iff in E as [E|E%N.leb_le]; [by left|by right].
    + destruct (IH (seen +:+ c)) as (got & left & H1 & H2 & H3). exists (c +:+ got), left.
      rewrite <-!str_app_assoc in *. by rewrite H1, H2.
Qed.

Lemma read_status_bound rs n seen s :
  Forall (λ r, match r with Ok c => len c <= n | Err _ => True end) rs →
  len seen < 512 → read_status rs seen = Ok s → len s < 512 + n.
Proof.
  intros Hr. revert seen. induction Hr as [|[c|e] rs Hc _ IH]; intros seen Hs; [intros [= <-]; lia| |done].
  cbn [read_status]. destruct (is_empty c); [intros [= <-]; lia|]. cbv zeta.
  destruct (has_crlf (seen +:+ c)) eqn:E1; cbn [orb].
  - intros [= <-]. rewrite len_app. lia.
  - destruct (N.leb_spec 512 (len (seen +:+ c))); [intros [= <-]; rewrite len_app; lia|by apply IH].
Qed.

(** Words. *)
Lemma strip_one_first a s : is_ascii_graphic a = true → strip_one white_space (String a s) = None.
Proof.
  intros Ha. assert (forallb (λ q, match q with String c _ => negb (is_ascii_graphic c) | EmptyString => false end) white_space = true) as H
    by (by vm_compute).
  revert H. generalize white_space. intros pats. induction pats as [|q ps IH]; [done|]. cbn [forallb strip_one].
  intros [Hq Hps]%andb_true_iff. rewrite (IH Hps). destruct q as [|c q]; [done|]. cbn [strip_prefix].
  rewrite decide_False; [done|]. intros <-. by rewrite Ha in Hq.
Qed.

Definition ends_word (t : string) : Prop := t = EmptyString ∨ ∃ r, strip_one white_space t = Some r.

Lemma until_space_word w t : all_chars is_ascii_graphic w = true → ends_word t → until_space (w +:+ t) = (w, t).
Proof.
  intros Hw Ht. induction w as [|a w IH].
  - change (EmptyString +:+ t) with t. destruct Ht as [->|[r Hr]]; [done|]. destruct t; cbn [until_space]; by rewrite ?Hr.
  - cbn [all_chars] in Hw. apply andb_true_iff in Hw as [Ha Hw]. change (String a w +:+ t) with (String a (w +:+ t)).
    cbn [until_space]. by rewrite strip_one_first, IH.
Qed.

Lemma trim_front_word w t : w ≠ EmptyString → all_chars is_ascii_graphic w = true → trim_front white_space (w +:+ t) = w +:+ t.
Proof.
  destruct w as [|a w]; [done|]. intros _ [Ha _]%andb_true_iff. unfold trim_front. apply trim_go_fixed.
  by apply strip_one_first.
Qed.

Lemma second_word_is w1 w2 t :
  w1 ≠ EmptyString → all_chars is_ascii_graphic w1 = true → w2 ≠ EmptyString → all_chars is_ascii_graphic w2 = true →
  ends_word t → second_word (w1 +:+ " " +:+ w2 +:+ t) = w2.
Proof.
  intros H1 G1 H2 G2 Ht. unfold second_word. rewrite (trim_front_word w1) by done.
  rewrite until_space_word by (try done; right; by eexists). cbn [snd].
  replace (trim_front white_space (" " +:+ w2 +:+ t)) with (w2 +:+ t); [by rewrite until_space_word|].
  symmetry. change (" " +:+ w2 +:+ t) with (String " " (w2 +:+ t)). unfold trim_front. cbn [String.length trim_go].
  replace (strip_one white_space (String " " (w2 +:+ t))) with (Some (w2 +:+ t)) by done.
  destruct w2 as [|a w2]; [done|]. apply andb_true_iff in G2 as [Ha _]. apply trim_go_fixed. by apply strip_one_first.
Qed.

(** A collector that is there and answers with this status, in whatever pieces
    the answer arrives; what follows its first line is anything. *)
Definition answers (status : string) (C : Connection) : Prop :=
  in_time C = true ∧ connect C = Ok tt ∧ (∀ s, write_all C s = Ok tt) ∧
  ∃ chunks protocol tail,
    reads C = Ok <$> chunks ∧ Forall (λ c, c ≠ EmptyString) chunks
    ∧ foldr String.append EmptyString chunks = (protocol +:+ " " +:+ status) +:+ tail
    ∧ protocol ≠ EmptyString ∧ all_chars is_ascii_graphic protocol = true
    ∧ status ≠ EmptyString ∧ all_chars is_ascii_graphic status = true
    ∧ len (protocol +:+ " " +:+ status) <= 512
    ∧ (tail = EmptyString ∨ starts_with " " tail = true ∨ starts_with crlf tail = true).

Lemma ends_word_prefix u left tail :
  u +:+ left = tail → tail = EmptyString ∨ starts_with " " tail = true ∨ starts_with crlf tail = true → ends_word u.
Proof.
  intros H Ht. destruct u as [|a u]; [by left|right]. subst tail.
  destruct Ht as [|[[r H]%starts_with_spec|[r H]%starts_with_spec]]; [done|injection H as -> _; by eexists..].
Qed.

Lemma status_seen status C :
  answers status C → ∃ seen, read_status (reads C) EmptyString = Ok seen ∧ second_word seen = status.
Proof.
  intros (_ & _ & _ & chunks & protocol & tail & -> & Hc & E & Np & Gp & Ns & Gs & Hl & Ht).
  destruct (read_status_spec chunks EmptyString Hc) as (got & left & H1 & H2 & H3). rewrite E in H2.
  exists got. split; [exact H1|]. change (EmptyString +:+ got) with got in H3. destruct (prefix_either _ _ _ _ H2) as [[u Hu]|(u & -> & Hu)].
  - destruct u as [|a u].
    + rewrite str_app_nil_r in Hu. subst got. replace (protocol +:+ " " +:+ status) with (protocol +:+ " " +:+ status +:+ EmptyString)
        by (by rewrite str_app_nil_r).
      apply second_word_is; [done..|by left].
    + exfalso. rewrite Hu in H2, Hl. rewrite <-str_app_assoc in H2. apply str_app_inj_l in H2. destruct H3 as [->|[H3|H3]].
      * discriminate H2.
      * unfold has_crlf in H3. destruct (until_crlf got) as [[l r]|] eqn:Eg; [|done]. apply until_crlf_some in Eg.
        apply (f_equal (contains_char (chr 13))) in Hu. rewrite Eg in Hu. rewrite !contains_char_app in Hu.
        rewrite (proj1 (graphic_no_crs _ Gp)), (proj1 (graphic_no_crs _ Gs)) in Hu.
        change (contains_char (chr 13) crlf) with true in Hu. rewrite orb_true_r in Hu. discriminate Hu.
      * rewrite len_app in Hl. unfold len at 2 in Hl. cbn [String.length] in Hl. lia.
  - rewrite <-!str_app_assoc. apply second_word_is; [done..|by eapply ends_word_prefix].
Qed.

(** C36: A batch reaches the collector whole, and what the exporter makes of it is
    what the collector said.  What a post writes is exactly one request, to the
    configured path, with these headers, and its body is one JSON document that
    says what the spans say: nothing in a span, the endpoint or the resource can
    end the head early or start a second request.  The post succeeds exactly
    when the status begins with 2, in whatever pieces the answer arrives, and
    however long the answer is fewer than 768 bytes of it are read. *)
Theorem posted_batch_reads_back raw ep version resource spans timeout :
  parse_endpoint raw = Ok ep → contains_char (chr 13) version = false → Forall span_ok spans →
  let body := encode version resource spans in
  len body <= U64_MAX →
  read_request (wire version ep body) = Some (mkRead "POST" (path ep) (head_fields version ep body) body EmptyString)
  ∧ parse body = Some (batch_json version resource spans)
  ∧ (∀ status C, answers status C → is_ok (post version ep timeout C body) = starts_with "2" status)
  ∧ ∀ C seen, Forall (λ r, match r with Ok c => len c <= 256 | Err _ => True end) (reads C) →
      read_status (reads C) EmptyString = Ok seen → len seen < 768.
Proof.
  intros [Hp Ha]%endpoint_graphic Hv Hs body Hb. split; [by apply request_read_back|].
  split; [unfold body; rewrite encode_eq by done; apply parse_render|]. split.
  - intros status C H. pose proof H as (Ht & Hc & Hw & _). destruct (status_seen _ _ H) as (seen & Hr & E).
    unfold post, verdict. rewrite Ht, Hc, !Hw. cbn [map_err mbind result_bind]. rewrite Hr. cbn [map_err mbind result_bind].
    rewrite E. by destruct (starts_with "2" status).
  - intros C seen Hr H. by apply (read_status_bound _ 256 _ _ Hr) in H.
Qed.

(** ** Witness *)

(** [202], cut in the middle of the status and of the line end. *)
Definition sample_connection : Connection :=
  mkConnection (Ok tt) (λ _, Ok tt) [Ok "HTTP/1.1 2"; Ok "02 Accepted"; Ok (str1 (chr 13)); Ok (str1 (chr 10) +:+ "Server: x")] true.

Lemma sample_answers : answers "202" sample_connection.
Proof.
  split; [done|]. split; [done|]. split; [done|].
  exists ["HTTP/1.1 2"; "02 Accepted"; str1 (chr 13); str1 (chr 10) +:+ "Server: x"], "HTTP/1.1", (" Accepted" +:+ crlf +:+ "Server: x").
  split; [done|]. split; [by repeat constructor|]. split; [by vm_compute|]. split; [done|]. split; [by vm_compute|].
  split; [done|]. split; [by vm_compute|]. split; [by vm_compute|]. right. left. by vm_compute.
Qed.

Lemma posted_batch_reads_back_witness :
  flush_over "0.1.0" [("service.name", "harmost")] (mkEndpoint "collector" 4318 "/v1/traces" "collector:4318") 5000000000
    sample_connection (mkExporter 4 3 true [] [sample_span] 0 [])
  = mkExporter 4 3 true [] [] 0 [([sample_span], true)].
Proof.
  destruct (posted_batch_reads_back "http://collector:4318/v1/traces" (mkEndpoint "collector" 4318 "/v1/traces" "collector:4318")
              "0.1.0" [("service.name", "harmost")] [sample_span] 5000000000) as (_ & _ & H & _);
    [by vm_compute|by vm_compute|by repeat constructor|by vm_compute|].
  unfold flush_over. cbn [batch]. by rewrite (H "202" sample_connection sample_answers).
Defined.
