(* ===== verification/Metrics.v ===== *)
(** * Metrics ([src/src/telemetry/metrics.rs])

    The metric families the process declares, the cells that register each on
    its first use, and what publishing to one does.  The registry is the
    [prometheus] crate's: a parameter ([Prometheus]) with its documented laws
    ([PrometheusLaws]).  A family's help text and buckets are here because
    registering checks them; a histogram's buckets are in milliseconds.  A panic
    (the [expect] of a registration, a wrong number of label values) is [None]. *)

From S2P Require Import Prelude Words Text Units.
Local Open Scope string_scope.
Local Open Scope list_scope.
Local Open Scope N_scope.

(** ** What is registered *)

Inductive Kind := Counter | Gauge | Histogram (buckets : list N).
#[export] Instance Kind_eq_dec : EqDecision Kind.
Proof. solve_decision. Defined.

Record Desc := mkDesc { kind : Kind; fq_name : string; help : string; label_names : list string }.

(** What the crate documents as a valid description. *)
Definition name_char (colons : bool) (a : ascii) : bool :=
  is_ascii_alphabetic a || is_digit a || (code a =? 95) || (colons && (code a =? 58)).
Definition valid_name (colons : bool) (s : string) : bool :=
  match s with EmptyString => false | String a _ => negb (is_digit a) end && all_chars (name_char colons) s.
Fixpoint increasing (l : list N) : bool :=
  match l with
  | a :: (b :: _) as rest => (a <? b) && increasing rest
  | _ => true
  end.
Definition valid_desc (d : Desc) : bool :=
  valid_name true (fq_name d) && negb (is_empty (help d))
  && forallb (valid_name false) (label_names d) && bool_decide (NoDup (label_names d))
  && match kind d with
     | Histogram buckets => increasing buckets && negb (existsb (String.eqb "le") (label_names d))
     | _ => true
     end.

(** ** The registry *)

(** [scrape] is what an exposition shows of a series: the value of a counter or
    a gauge, the number of observations of a histogram, or nothing. *)
Class Prometheus (Reg : Type) := {
  blank : Reg;
  register : Desc → Reg → option Reg;
  inc_by : string → list string → N → Reg → option Reg;
  set_to : string → list string → Z → Reg → option Reg;
  observe : string → list string → Duration → Reg → option Reg;
  registered : Reg → list Desc;
  scrape : Reg → string → list string → option Z }.

(** 64-bit counters wrap around, as [fetch_add] does. *)
Definition counted (v : option Z) (k : N) : Z := ((default 0 v + Z.of_N k) mod Z.of_N two64)%Z.

(** One series changed, or none. *)
Definition only {Reg} `{Prometheus Reg} (name : string) (ls : list string) (v : Z) (r r' : Reg) : Prop :=
  (∀ d, d ∈ registered r' ↔ d ∈ registered r)
  ∧ scrape r' name ls = Some v
  ∧ (∀ name' ls', (name', ls') ≠ (name, ls) → scrape r' name' ls' = scrape r name' ls').

Class PrometheusLaws (Reg : Type) `{Prometheus Reg} : Prop := {
  blank_empty : registered blank = [] ∧ ∀ name ls, scrape blank name ls = None;
  register_law d r : valid_desc d = true → (∀ d', d' ∈ registered r → fq_name d' ≠ fq_name d) →
    ∃ r', register d r = Some r' ∧ (∀ d', d' ∈ registered r' ↔ d' = d ∨ d' ∈ registered r)
      ∧ (∀ ls, scrape r' (fq_name d) ls
               = if bool_decide (label_names d = [] ∧ ls = []) then Some 0%Z else None)
      ∧ (∀ name ls, name ≠ fq_name d → scrape r' name ls = scrape r name ls);
  inc_law d ls k r : d ∈ registered r → kind d = Counter → length ls = length (label_names d) →
    ∃ r', inc_by (fq_name d) ls k r = Some r' ∧ only (fq_name d) ls (counted (scrape r (fq_name d) ls) k) r r';
  set_law d ls v r : d ∈ registered r → kind d = Gauge → length ls = length (label_names d) →
    ∃ r', set_to (fq_name d) ls v r = Some r' ∧ only (fq_name d) ls v r r';
  observe_law d bs ls v r : d ∈ registered r → kind d = Histogram bs → length ls = length (label_names d) →
    ∃ r', observe (fq_name d) ls v r = Some r' ∧ only (fq_name d) ls (counted (scrape r (fq_name d) ls) 1) r r' }.

(** ** The statics *)

Definition REQUESTS_desc : Desc := mkDesc Counter
  "harmost_requests_total"
  "Requests received, by route and classification" ["route"; "class"].
Definition CACHE_desc : Desc := mkDesc Counter
  "harmost_cache_total"
  "Cache outcomes, by route and status" ["route"; "status"].
Definition BYPASS_REASON_desc : Desc := mkDesc Counter
  "harmost_cache_bypass_reason_total"
  "Reasons a response was not shared" ["route"; "reason"].
Definition ADMISSION_desc : Desc := mkDesc Counter
  "harmost_admission_total"
  "Admission decisions, by route" ["route"; "decision"].
Definition ORIGIN_REQUESTS_desc : Desc := mkDesc Counter
  "harmost_origin_requests_total"
  "Requests that reached the origin" ["route"; "upstream"].
Definition ORIGIN_LATENCY_desc : Desc := mkDesc (Histogram [5; 25; 50; 100; 250; 500; 1000; 2500; 5000; 10000; 30000])
  "harmost_origin_latency_seconds"
  "Time the origin spent producing a response" ["route"].
Definition REUSE_ELIGIBLE_desc : Desc := mkDesc Counter
  "harmost_reuse_eligible_requests_total"
  "Requests for which reuse was possible; the denominator of the avoidance ratio" ["route"].
Definition QUEUE_DEPTH_desc : Desc := mkDesc Gauge
  "harmost_queue_depth"
  "Requests currently waiting for origin capacity" ["limiter"].
Definition LIMIT_desc : Desc := mkDesc Gauge
  "harmost_concurrency_limit"
  "Configured origin concurrency ceiling" ["limiter"].
Definition IN_FLIGHT_desc : Desc := mkDesc Gauge
  "harmost_origin_in_flight"
  "Origin requests currently holding a permit" ["limiter"].
Definition SPOOL_desc : Desc := mkDesc Counter
  "harmost_spool_total"
  "Responses that were spooled, by route and outcome" ["route"; "reason"].
Definition SPOOL_BYTES_desc : Desc := mkDesc Gauge
  "harmost_spool_bytes"
  "Bytes currently held across every in-flight response spool" [].
Definition CACHE_BYTES_desc : Desc := mkDesc Gauge
  "harmost_cache_bytes"
  "Bytes held by the response cache, including fills in progress" [].
Definition CACHE_MAX_BYTES_desc : Desc := mkDesc Gauge
  "harmost_cache_max_bytes"
  "Configured cache.max_memory, the ceiling harmost_cache_bytes is measured against" [].
Definition SPOOL_MAX_BYTES_desc : Desc := mkDesc Gauge
  "harmost_spool_max_bytes"
  "Configured spool.max_memory, the ceiling harmost_spool_bytes is measured against" [].
Definition CACHE_ENTRIES_desc : Desc := mkDesc Gauge
  "harmost_cache_entries"
  "Completed entries in the response cache" [].
Definition UPGRADES_desc : Desc := mkDesc Counter
  "harmost_upgrade_total"
  "Protocol upgrade requests, by route and decision" ["route"; "decision"].
Definition UPGRADES_ACTIVE_desc : Desc := mkDesc Gauge
  "harmost_upgrade_active"
  "Upgraded connections currently held open" [].
Definition SPANS_desc : Desc := mkDesc Counter
  "harmost_spans_total"
  "Spans by outcome: recorded, dropped, exported, export_failed" ["outcome"].
Definition DRAINING_desc : Desc := mkDesc Gauge
  "harmost_draining"
  "1 while this instance is draining and reporting itself not ready" [].
Definition CONFIG_GENERATION_desc : Desc := mkDesc Gauge
  "harmost_config_generation"
  "Generation of the configuration currently in force" [].
Definition CONFIG_FINGERPRINT_desc : Desc := mkDesc Gauge
  "harmost_config_fingerprint"
  "Stable fingerprint of the effective configuration currently in force" [].
Definition UPSTREAM_HEALTHY_desc : Desc := mkDesc Gauge
  "harmost_upstream_healthy"
  "1 when a backend is passing its health check, 0 when it is not" ["upstream"].
Definition UPSTREAM_ADDRESSES_desc : Desc := mkDesc Gauge
  "harmost_upstream_addresses"
  "Addresses an upstream name currently resolves to" ["upstream"].
Definition UPSTREAM_EJECTED_desc : Desc := mkDesc Gauge
  "harmost_upstream_ejected"
  "1 when a backend's circuit breaker is open and it is out of rotation" ["upstream"].
Definition UPSTREAM_TRIPS_desc : Desc := mkDesc Counter
  "harmost_upstream_breaker_trips_total"
  "Times a backend's circuit breaker has opened" ["upstream"].
Definition UPSTREAM_FAILURES_desc : Desc := mkDesc Counter
  "harmost_upstream_failures_total"
  "Origin failures observed passively, by backend and kind" ["upstream"; "kind"].
Definition UPSTREAM_IN_FLIGHT_desc : Desc := mkDesc Gauge
  "harmost_upstream_in_flight"
  "Origin requests currently outstanding to each backend" ["upstream"].
Definition UPSTREAM_LATENCY_EWMA_desc : Desc := mkDesc Gauge
  "harmost_upstream_latency_ewma_microseconds"
  "Exponentially weighted mean time to first byte per backend" ["upstream"].
Definition RETRIES_desc : Desc := mkDesc Counter
  "harmost_origin_retries_total"
  "Retry decisions, by route and outcome" ["route"; "outcome"].
Definition RETRY_BUDGET_desc : Desc := mkDesc Gauge
  "harmost_origin_retry_budget"
  "Retries the current window's budget would allow" [].
Definition CACHE_PURGED_desc : Desc := mkDesc Counter
  "harmost_cache_purged_total"
  "Cache entries removed by an explicit purge, by scope" ["scope"].
Definition CACHE_EVICTED_desc : Desc := mkDesc Counter
  "harmost_cache_evicted_total"
  "Cache entries discarded to stay inside the byte budget" [].
Definition CACHE_TAGS_desc : Desc := mkDesc Gauge
  "harmost_cache_tags"
  "Distinct invalidation tags currently indexed" [].

(** Each is a cell of its own. *)
Inductive Cell :=
  | REQUESTS | CACHE | BYPASS_REASON | ADMISSION | ORIGIN_REQUESTS | ORIGIN_LATENCY
  | REUSE_ELIGIBLE | QUEUE_DEPTH | LIMIT | IN_FLIGHT | SPOOL | SPOOL_BYTES | CACHE_BYTES
  | CACHE_MAX_BYTES | SPOOL_MAX_BYTES | CACHE_ENTRIES | UPGRADES | UPGRADES_ACTIVE
  | SPANS | DRAINING | CONFIG_GENERATION | CONFIG_FINGERPRINT | UPSTREAM_HEALTHY
  | UPSTREAM_ADDRESSES | UPSTREAM_EJECTED | UPSTREAM_TRIPS | UPSTREAM_FAILURES
  | UPSTREAM_IN_FLIGHT | UPSTREAM_LATENCY_EWMA | RETRIES | RETRY_BUDGET | CACHE_PURGED
  | CACHE_EVICTED | CACHE_TAGS .
#[export] Instance Cell_eq_dec : EqDecision Cell.
Proof. solve_decision. Defined.

Definition desc (m : Cell) : Desc :=
  match m with
  | REQUESTS => REQUESTS_desc
  | CACHE => CACHE_desc
  | BYPASS_REASON => BYPASS_REASON_desc
  | ADMISSION => ADMISSION_desc
  | ORIGIN_REQUESTS => ORIGIN_REQUESTS_desc
  | ORIGIN_LATENCY => ORIGIN_LATENCY_desc
  | REUSE_ELIGIBLE => REUSE_ELIGIBLE_desc
  | QUEUE_DEPTH => QUEUE_DEPTH_desc
  | LIMIT => LIMIT_desc
  | IN_FLIGHT => IN_FLIGHT_desc
  | SPOOL => SPOOL_desc
  | SPOOL_BYTES => SPOOL_BYTES_desc
  | CACHE_BYTES => CACHE_BYTES_desc
  | CACHE_MAX_BYTES => CACHE_MAX_BYTES_desc
  | SPOOL_MAX_BYTES => SPOOL_MAX_BYTES_desc
  | CACHE_ENTRIES => CACHE_ENTRIES_desc
  | UPGRADES => UPGRADES_desc
  | UPGRADES_ACTIVE => UPGRADES_ACTIVE_desc
  | SPANS => SPANS_desc
  | DRAINING => DRAINING_desc
  | CONFIG_GENERATION => CONFIG_GENERATION_desc
  | CONFIG_FINGERPRINT => CONFIG_FINGERPRINT_desc
  | UPSTREAM_HEALTHY => UPSTREAM_HEALTHY_desc
  | UPSTREAM_ADDRESSES => UPSTREAM_ADDRESSES_desc
  | UPSTREAM_EJECTED => UPSTREAM_EJECTED_desc
  | UPSTREAM_TRIPS => UPSTREAM_TRIPS_desc
  | UPSTREAM_FAILURES => UPSTREAM_FAILURES_desc
  | UPSTREAM_IN_FLIGHT => UPSTREAM_IN_FLIGHT_desc
  | UPSTREAM_LATENCY_EWMA => UPSTREAM_LATENCY_EWMA_desc
  | RETRIES => RETRIES_desc
  | RETRY_BUDGET => RETRY_BUDGET_desc
  | CACHE_PURGED => CACHE_PURGED_desc
  | CACHE_EVICTED => CACHE_EVICTED_desc
  | CACHE_TAGS => CACHE_TAGS_desc
  end.

(** In the order [preregister] touches them. *)
Definition statics : list Cell :=
  [REQUESTS; CACHE; BYPASS_REASON; ADMISSION; ORIGIN_REQUESTS; ORIGIN_LATENCY; REUSE_ELIGIBLE;
   QUEUE_DEPTH; LIMIT; IN_FLIGHT; SPOOL; SPOOL_BYTES; CACHE_BYTES; CACHE_MAX_BYTES;
   SPOOL_MAX_BYTES; CACHE_ENTRIES; UPGRADES; UPGRADES_ACTIVE; SPANS; DRAINING;
   CONFIG_GENERATION; CONFIG_FINGERPRINT; UPSTREAM_HEALTHY; UPSTREAM_ADDRESSES;
   UPSTREAM_EJECTED; UPSTREAM_TRIPS; UPSTREAM_FAILURES; UPSTREAM_IN_FLIGHT;
   UPSTREAM_LATENCY_EWMA; RETRIES; RETRY_BUDGET; CACHE_PURGED; CACHE_EVICTED; CACHE_TAGS].

(** ** Publishing *)

Inductive Publication :=
| Inc (m : Cell) (labels : list string) (amount : N)
| Put (m : Cell) (labels : list string) (v : Z)
| Seen (m : Cell) (labels : list string) (took : Duration).

Definition target (p : Publication) : Cell * list string :=
  match p with Inc m ls _ | Put m ls _ | Seen m ls _ => (m, ls) end.

(** [as i64] and [i64::try_from(..).unwrap_or(i64::MAX)] of a [u64]. *)
Definition I64_MAX : N := 9223372036854775807.
Definition as_i64 (n : N) : Z :=
  let m := n mod two64 in if m <=? I64_MAX then Z.of_N m else (Z.of_N m - Z.of_N two64)%Z.
Definition to_i64 (n : N) : Z := Z.of_N (clamp I64_MAX n).
Definition flag (b : bool) : Z := if b then 1%Z else 0%Z.

Section Telemetry.
Context {Reg : Type} `{Prometheus Reg}.

(** The registry, and the cells that have been initialised. *)
Record Telemetry := mkTelemetry { reg : Reg; forced : list Cell }.

Definition no_telemetry : Telemetry := mkTelemetry blank [].

(** [LazyLock::force], and every dereference. *)
Definition force (m : Cell) (t : Telemetry) : option Telemetry :=
  if bool_decide (m ∈ forced t) then Some t
  else r ← register (desc m) (reg t); Some (mkTelemetry r (m :: forced t)).

Definition publish (p : Publication) (t : Telemetry) : option Telemetry :=
  t ← force (target p).1 t;
  r ← match p with
      | Inc m ls k => inc_by (fq_name (desc m)) ls k (reg t)
      | Put m ls v => set_to (fq_name (desc m)) ls v (reg t)
      | Seen m ls d => observe (fq_name (desc m)) ls d (reg t)
      end;
  Some (mkTelemetry r (forced t)).

Fixpoint publish_all (ps : list Publication) (t : Telemetry) : option Telemetry :=
  match ps with
  | [] => Some t
  | p :: ps => t ← publish p t; publish_all ps t
  end.

Fixpoint force_all (ms : list Cell) (t : Telemetry) : option Telemetry :=
  match ms with
  | [] => Some t
  | m :: ms => t ← force m t; force_all ms t
  end.

(** The seeded series is between the third cell and the fourth. *)
Definition preregister (t : Telemetry) : option Telemetry :=
  t ← force_all (take 3 statics) t;
  t ← publish (Inc BYPASS_REASON ["-"; "route_disabled"] 0) t;
  force_all (drop 3 statics) t.

(** What a scrape shows of a static's series. *)
Definition shows (t : Telemetry) (m : Cell) (ls : list string) : option Z :=
  scrape (reg t) (fq_name (desc m)) ls.
End Telemetry.
Arguments Telemetry Reg : clear implicits.

(** ** Types *)

(** A publication has its family's kind and as many label values as it has
    label names. *)
Definition well_typed (p : Publication) : Prop :=
  let '(m, ls) := target p in
  length ls = length (label_names (desc m)) ∧
  match p, kind (desc m) with
  | Inc _ _ _, Counter | Put _ _ _, Gauge | Seen _ _ _, Histogram _ => True
  | _, _ => False
  end.

(** What one publication, and a list of them, make of what a series shows. *)
Definition after (p : Publication) (s : Cell * list string) (v : option Z) : option Z :=
  if decide (target p = s) then
    Some match p with Inc _ _ k => counted v k | Put _ _ v' => v' | Seen _ _ _ => counted v 1 end
  else v.
Definition after_all (ps : list Publication) (s : Cell * list string) (v : option Z) : option Z :=
  foldl (λ v p, after p s v) v ps.

(** A series before anything is published to it. *)
Definition initial (m : Cell) (ls : list string) : option Z :=
  if bool_decide (label_names (desc m) = [] ∧ ls = []) then Some 0%Z else None.
Definition seed : Cell * list string := (BYPASS_REASON, ["-"; "route_disabled"]).

(** ** Proofs *)

Lemma statics_all m : m ∈ statics.
Proof. apply (bool_decide_unpack (m ∈ statics)). by destruct m. Qed.

Lemma statics_valid m : valid_desc (desc m) = true.
Proof. by destruct m; vm_compute. Qed.

Lemma statics_distinct : NoDup ((fq_name ∘ desc) <$> statics).
Proof. apply (bool_decide_unpack (NoDup _)). vm_compute. exact I. Qed.

Lemma fq_name_inj m m' : fq_name (desc m) = fq_name (desc m') → m = m'.
Proof.
  intros E. destruct (list_elem_of_lookup_1 _ _ (statics_all m)) as [i Hi].
  destruct (list_elem_of_lookup_1 _ _ (statics_all m')) as [j Hj].
  assert (i = j) as ->; [|congruence].
  apply (NoDup_lookup _ i j (fq_name (desc m)) statics_distinct); rewrite list_lookup_fmap;
    [by rewrite Hi|rewrite Hj; simpl; by rewrite E].
Qed.

Lemma after_all_app ps qs s v : after_all (ps ++ qs) s v = after_all qs s (after_all ps s v).
Proof. apply foldl_app. Qed.

(** A series no publication is aimed at stays. *)
Lemma after_all_other ps s v : Forall (λ p, target p ≠ s) ps → after_all ps s v = v.
Proof. induction 1 as [|p ps Hp _ IH]; [done|]. cbn [after_all foldl]. replace (after p s v) with v; [done|]. unfold after. by rewrite decide_False. Qed.

(** No publication forgets a series or makes one it is not aimed at. *)
Lemma after_all_shown ps s v :
  is_Some (after_all ps s v) ↔ is_Some v ∨ s ∈ target <$> ps.
Proof.
  revert v. induction ps as [|p ps IH]; intros v; simpl; [set_solver|].
  rewrite IH, elem_of_cons. unfold after. destruct (decide (target p = s)) as [<-|Hne]; [naive_solver|].
  split; [naive_solver|]. intros [?|[?|?]]; [by left|congruence|by right].
Qed.

Section Laws.
Context {Reg : Type} `{PR : Prometheus Reg} `{!PrometheusLaws Reg}.
Implicit Types t : Telemetry Reg.

(** The registry holds exactly what the initialised cells registered. *)
Definition consistent t : Prop :=
  ∀ d, d ∈ registered (reg t) ↔ ∃ m, m ∈ forced t ∧ d = desc m.

Lemma force_ok m t :
  consistent t →
  ∃ t', force m t = Some t' ∧ consistent t' ∧ (∀ m', m' ∈ forced t' ↔ m' = m ∨ m' ∈ forced t)
    ∧ ∀ m' ls, shows t' m' ls = if bool_decide (m' = m ∧ m ∉ forced t) then initial m ls else shows t m' ls.
Proof.
  intros Hc. unfold force. case_bool_decide as Hin.
  - exists t. split_and!; [done|done|set_solver|]. intros m' ls. rewrite bool_decide_eq_false_2; [done|tauto].
  - destruct (register_law (desc m) (reg t)) as (r & -> & Hr & Hs & Ho); [apply statics_valid| |].
    { intros d (m' & Hm & ->)%Hc E. apply fq_name_inj in E as ->. done. }
    exists (mkTelemetry r (m :: forced t)). split; [done|]. split_and!; cbn [reg forced].
    + intros d. cbn [reg forced]. rewrite Hr. split.
      * intros [->|(m1 & Hm & ->)%Hc]; [exists m|exists m1]; (split; [|done]); [by left|by right].
      * intros (m1 & [->|Hm]%elem_of_cons & ->); [by left|right]. apply Hc. by exists m1.
    + intros m'. by rewrite elem_of_cons.
    + intros m' ls. unfold shows. cbn [reg]. case_bool_decide as Hd.
      * destruct Hd as [-> _]. apply Hs.
      * apply Ho. intros E%fq_name_inj. naive_solver.
Qed.

(** Whatever is initialised, a well-typed publication succeeds, and shows what
    it should. *)
Lemma publish_ok p t :
  consistent t → well_typed p →
  ∃ t', publish p t = Some t' ∧ consistent t' ∧ (∀ m, m ∈ forced t' ↔ m = (target p).1 ∨ m ∈ forced t)
    ∧ ∀ m ls, shows t' m ls =
        after p (m, ls) (if bool_decide (m = (target p).1 ∧ m ∉ forced t) then initial m ls else shows t m ls).
Proof.
  intros Hc Ht. unfold publish. destruct (force_ok (target p).1 t Hc) as (t1 & -> & Hc1 & Hf & Hs).
  assert (desc (target p).1 ∈ registered (reg t1)) as Hin by (apply Hc1; exists (target p).1; set_solver).
  cbn [mbind option_bind].
  assert (∀ name ls v r, name = fq_name (desc (target p).1) → ls = (target p).2 → only name ls v (reg t1) r →
    Some v = after p (target p) (shows t1 (target p).1 (target p).2) →
    consistent (mkTelemetry r (forced t1)) ∧ ∀ m ls, shows (mkTelemetry r (forced t1)) m ls
      = after p (m, ls) (if bool_decide (m = (target p).1 ∧ m ∉ forced t) then initial m ls else shows t m ls)) as Hstep.
  { intros name ls v r -> -> (Hr & Hv & Ho) Ea. split; [intros d; cbn [reg forced]; by rewrite Hr|].
    intros m ls. replace (if bool_decide (m = (target p).1 ∧ m ∉ forced t) then initial m ls else shows t m ls)
      with (shows t1 m ls).
    2: { rewrite Hs. do 2 case_bool_decide; naive_solver. }
    destruct (decide (target p = (m, ls))) as [E|Hne].
    - rewrite E in *. cbn [fst snd] in *. unfold shows at 1. cbn [reg]. by rewrite Hv, Ea.
    - unfold after. rewrite decide_False by done. unfold shows. cbn [reg]. apply Ho.
      intros [= E1 E2]. apply Hne. apply fq_name_inj in E1. by destruct (target p); simpl in *; subst. }
  destruct p as [m ls k|m ls v|m ls d]; cbn [target fst snd well_typed] in *; destruct Ht as [Hl Hk];
    destruct (kind (desc m)) eqn:Ek; try done.
  - destruct (inc_law (desc m) ls k (reg t1) Hin Ek Hl) as (r & -> & Hr). eexists. split; [done|]. cbn [forced].
    edestruct Hstep as [H1 H2]; [done|done|exact Hr| |done]. unfold after. by rewrite decide_True.
  - destruct (set_law (desc m) ls v (reg t1) Hin Ek Hl) as (r & -> & Hr). eexists. split; [done|]. cbn [forced].
    edestruct Hstep as [H1 H2]; [done|done|exact Hr| |done]. unfold after. by rewrite decide_True.
  - destruct (observe_law (desc m) _ ls d (reg t1) Hin Ek Hl) as (r & -> & Hr). eexists. split; [done|]. cbn [forced].
    edestruct Hstep as [H1 H2]; [done|done|exact Hr| |done]. unfold after. by rewrite decide_True.
Qed.

Lemma force_all_ok ms t :
  consistent t →
  ∃ t', force_all ms t = Some t' ∧ consistent t' ∧ (∀ m, m ∈ forced t' ↔ m ∈ ms ∨ m ∈ forced t)
    ∧ ∀ m ls, shows t' m ls = if bool_decide (m ∈ ms ∧ m ∉ forced t) then initial m ls else shows t m ls.
Proof.
  revert t. induction ms as [|m0 ms IH]; intros t Hc.
  - exists t. split_and!; [done|done|set_solver|]. intros m ls. rewrite bool_decide_eq_false_2; [done|set_solver].
  - destruct (force_ok m0 t Hc) as (t1 & E & Hc1 & Hf1 & Hs1).
    destruct (IH t1 Hc1) as (t2 & E2 & Hc2 & Hf2 & Hs2). exists t2. simpl. rewrite E. split_and!; [done|done| |].
    + intros m. rewrite Hf2, Hf1, elem_of_cons. tauto.
    + intros m ls. rewrite Hs2, Hs1. pose proof (Hf1 m). pose proof (elem_of_cons ms m m0).
      destruct (decide (m = m0)) as [<-|?]; repeat case_bool_decide; try done; exfalso; tauto.
Qed.

(** Every cell is initialised. *)
Definition live t : Prop := consistent t ∧ ∀ m, m ∈ forced t.

Lemma publish_live p t :
  live t → well_typed p → ∃ t', publish p t = Some t' ∧ live t' ∧ ∀ m ls, shows t' m ls = after p (m, ls) (shows t m ls).
Proof.
  intros [Hc Hl] Ht. destruct (publish_ok p t Hc Ht) as (t' & E & Hc' & Hf & Hs). exists t'.
  split_and!; [done|split; [done|intros m; apply Hf; right; apply Hl]|]. intros m ls. rewrite Hs, bool_decide_eq_false_2; [done|].
  intros [-> Hn]. by apply Hn.
Qed.

Lemma publish_all_live ps t :
  live t → Forall well_typed ps →
  ∃ t', publish_all ps t = Some t' ∧ live t' ∧ ∀ m ls, shows t' m ls = after_all ps (m, ls) (shows t m ls).
Proof.
  intros Hl Hps. revert t Hl. induction Hps as [|p ps Hp _ IH]; intros t Hl; [by exists t|].
  destruct (publish_live p t Hl Hp) as (t1 & E & Hl1 & Hs1). destruct (IH t1 Hl1) as (t2 & E2 & Hl2 & Hs2).
  exists t2. simpl. rewrite E. split_and!; [done|done|]. intros m ls. by rewrite Hs2, Hs1.
Qed.

(** Some cells, one series of one of them, and the rest. *)
Lemma preregister_around ms ms' :
  BYPASS_REASON ∈ ms → (∀ m, m ∈ ms ∨ m ∈ ms') →
  ∃ t, (t ← force_all ms no_telemetry; t ← publish (Inc seed.1 seed.2 0) t; force_all ms' t) = Some t ∧ live t
    ∧ ∀ m ls, shows t m ls = if decide ((m, ls) = seed) then Some 0%Z else initial m ls.
Proof.
  intros Hbr Hall. destruct blank_empty as [Hb Hn].
  assert (consistent no_telemetry) as H0.
  { intros d. cbn [reg forced no_telemetry]. rewrite Hb. set_solver. }
  destruct (force_all_ok ms _ H0) as (t1 & -> & H1 & F1 & S1). cbn [mbind option_bind].
  assert (well_typed (Inc seed.1 seed.2 0)) as Ht by done.
  destruct (publish_ok _ _ H1 Ht) as (t2 & -> & H2 & F2 & S2). cbn [mbind option_bind target fst] in *.
  destruct (force_all_ok ms' _ H2) as (t3 & -> & H3 & F3 & S3). exists t3.
  split_and!; [done|split; [done|]|].
  - intros m. rewrite F3, F2, F1. destruct (Hall m) as [?|?]; tauto.
  - intros m ls. rewrite S3, S2, S1. cbn [forced no_telemetry fst snd seed] in *.
    pose proof (F1 m) as G1. pose proof (F2 m) as G2. pose proof (not_elem_of_nil m) as Hnil.
    rewrite (bool_decide_eq_false_2 (m = BYPASS_REASON ∧ _)) by (intros [-> Hx]; apply Hx, G1; by left).
    unfold after. cbn [target fst snd].
    destruct (decide ((BYPASS_REASON, ["-"; "route_disabled"]) = (m, ls))) as [[= <- <-]|Hne].
    + rewrite bool_decide_eq_false_2 by tauto. rewrite bool_decide_eq_true_2 by tauto. by rewrite decide_True.
    + rewrite decide_False by (unfold seed; congruence). case_bool_decide as D3; [done|]. rewrite bool_decide_eq_true_2; [done|].
      split; [|done]. destruct (Hall m) as [?|?]; [done|]. destruct (decide (m ∈ ms)); [done|].
      exfalso. apply D3. split; [done|]. intros [->|Hx]%G2; [done|]. apply G1 in Hx. tauto.
Qed.

(** [preregister] succeeds, and leaves every cell initialised, every family
    without labels at zero and one seeded series. *)
Lemma preregister_ok :
  ∃ t, preregister no_telemetry = Some t ∧ live t
    ∧ ∀ m ls, shows t m ls = if decide ((m, ls) = seed) then Some 0%Z else initial m ls.
Proof.
  apply (preregister_around (take 3 statics) (drop 3 statics)); [by apply (bool_decide_unpack _)|].
  intros m. rewrite <-elem_of_app, take_drop. apply statics_all.
Qed.
End Laws.

(** ** A registry *)

(** Descriptions and values in maps: it obeys the laws. *)
Module Ledger.
Record ledger := mkLedger { descs : list Desc; series : gmap (string * list string) Z }.

Definition accepts (ok : Kind → bool) (name : string) (ls : list string) (r : ledger) : bool :=
  existsb (λ d, String.eqb (fq_name d) name && ok (kind d) && (length ls =? length (label_names d))%nat) (descs r).
Definition is_counter (k : Kind) : bool := match k with Counter => true | _ => false end.
Definition is_gauge (k : Kind) : bool := match k with Gauge => true | _ => false end.
Definition is_histogram (k : Kind) : bool := match k with Histogram _ => true | _ => false end.

Definition put (ok : Kind → bool) (name : string) (ls : list string) (f : option Z → Z) (r : ledger) : option ledger :=
  if accepts ok name ls r
  then Some (mkLedger (descs r) (<[(name, ls) := f (series r !! (name, ls))]> (series r))) else None.

Definition enrol (d : Desc) (r : ledger) : option ledger :=
  if valid_desc d && forallb (λ d', negb (String.eqb (fq_name d') (fq_name d))) (descs r) then
    let others := filter (λ kv : (string * list string) * Z, kv.1.1 ≠ fq_name d) (series r) in
    Some (mkLedger (d :: descs r)
            (if bool_decide (label_names d = []) then <[(fq_name d, []) := 0%Z]> others else others))
  else None.

#[global] Instance ledger_prometheus : Prometheus ledger := {|
  blank := mkLedger [] ∅;
  register := enrol;
  inc_by name ls k := put is_counter name ls (λ v, counted v k);
  set_to name ls v := put is_gauge name ls (λ _, v);
  observe name ls _ := put is_histogram name ls (λ v, counted v 1);
  registered := descs;
  scrape r name ls := series r !! (name, ls) |}.

Lemma put_ok ok d ls f r :
  d ∈ descs r → ok (kind d) = true → length ls = length (label_names d) →
  ∃ r', put ok (fq_name d) ls f r = Some r'
    ∧ only (Reg := ledger) (fq_name d) ls (f (series r !! (fq_name d, ls))) r r'.
Proof.
  intros Hd Hk Hl. unfold put. replace (accepts ok (fq_name d) ls r) with true.
  2: { symmetry. apply existsb_exists. exists d. rewrite Hk, Hl, String.eqb_refl, Nat.eqb_refl.
       split; [by apply list_elem_of_In|done]. }
  eexists. split; [done|]. split_and!; [done|apply lookup_insert_eq|].
  intros name' ls' Hne. by apply lookup_insert_ne.
Qed.

#[global] Instance ledger_laws : PrometheusLaws ledger.
Proof.
  split.
  - split; [done|]. intros name ls. apply lookup_empty.
  - intros d r Hv Hn. cbn [register ledger_prometheus]. unfold enrol. rewrite Hv. cbn [andb].
    replace (forallb _ (descs r)) with true.
    2: { symmetry. apply forallb_forall. intros d' Hd. apply negb_true_iff, String.eqb_neq, Hn. by apply list_elem_of_In. }
    eexists. split; [done|]. split_and!.
    + intros d'. apply elem_of_cons.
    + intros ls. cbn [scrape ledger_prometheus series].
      assert (filter (λ kv : (string * list string) * Z, kv.1.1 ≠ fq_name d) (series r) !! (fq_name d, ls) = None) as E.
      { apply map_lookup_filter_None. right. intros v _ Hx. by apply Hx. }
      destruct (decide (label_names d = [])) as [El|El].
      * rewrite (bool_decide_eq_true_2 _ El). destruct (decide (ls = [])) as [->|Hls].
        { rewrite bool_decide_eq_true_2 by done. apply lookup_insert_eq. }
        rewrite bool_decide_eq_false_2 by tauto. rewrite lookup_insert_ne by congruence. exact E.
      * rewrite (bool_decide_eq_false_2 _ El). by rewrite bool_decide_eq_false_2 by tauto.
    + intros name ls Hne. cbn [scrape ledger_prometheus series].
      assert (filter (λ kv : (string * list string) * Z, kv.1.1 ≠ fq_name d) (series r) !! (name, ls) = series r !! (name, ls)) as E.
      { destruct (series r !! (name, ls)) as [v|] eqn:Es.
        - by apply map_lookup_filter_Some.
        - apply map_lookup_filter_None. by left. }
      case_bool_decide; [|exact E]. rewrite lookup_insert_ne by congruence. exact E.
  - intros d ls k r Hd Hk Hl. apply (put_ok is_counter d ls (λ v, counted v k) r Hd); [by rewrite Hk|done].
  - intros d ls v r Hd Hk Hl. apply (put_ok is_gauge d ls (λ _, v) r Hd); [by rewrite Hk|done].
  - intros d bs ls v r Hd Hk Hl. apply (put_ok is_histogram d ls (λ v, counted v 1) r Hd); [by rewrite Hk|done].
Qed.
End Ledger.
