(* ===== verification/Drain.v ===== *)
(** * Draining ([src/src/admin/drain.rs])

    The window between "stop sending me work" and "stop serving".  Instants and
    durations are nanoseconds; the signals are Pingora's, of which the source
    only asks whether one is the graceful termination. *)

From S2P Require Import Prelude Words Text Units.
Local Open Scope string_scope.
Local Open Scope list_scope.
Local Open Scope N_scope.

Record DrainState := mkDrain { draining : bool; since : option (N * string) }.

Definition new_drain : DrainState := mkDrain false None.

Definition begin_drain (now : N) (reason : string) (s : DrainState) : DrainState :=
  mkDrain true (match since s with None => Some (now, reason) | Some _ => since s end).

Definition draining_for (now : N) (s : DrainState) : option Duration :=
  (λ at_why, now - at_why.1) <$> since s.

Definition reason (s : DrainState) : string := match since s with Some (_, why) => why | None => "-" end.

Section Signals.
Context {Signal : Type} (is_graceful_terminate : Signal → bool).

(** What happens to a signal before Pingora sees it: how long it is held back. *)
Definition prepare (now : N) (drain_period : Duration) (signal : Signal) (s : DrainState) : Duration * DrainState :=
  if negb (is_graceful_terminate signal) then (0, s)
  else
    let s := begin_drain now "sigterm" s in
    let elapsed := default 0 (draining_for now s) in
    (saturating_sub drain_period elapsed, s).
End Signals.

(** ** Over time *)

(** [begin] called at these times for these reasons, earliest first. *)
Definition begin_all (calls : list (N * string)) (s : DrainState) : DrainState :=
  foldl (λ s c, begin_drain c.1 c.2 s) s calls.

Lemma begin_all_spec calls s :
  begin_all calls s =
    match calls with
    | [] => s
    | c :: _ => mkDrain true (match since s with None => Some c | Some _ => since s end)
    end.
Proof.
  revert s. induction calls as [|[t why] calls IH]; intros s; [done|].
  change (begin_all ((t, why) :: calls) s) with (begin_all calls (begin_drain t why s)).
  rewrite IH. destruct calls as [|c calls]; unfold begin_drain; simpl; [done|]. by destruct (since s) as [[]|].
Qed.

(** No traffic is lost to a graceful stop: when the termination signal is passed
    on, readiness has been failing for the whole drain period, counted from the
    first request to drain; a later one neither restarts the clock nor changes
    the reason; and other signals are not held back. *)
Theorem drained_before_shutdown {Signal} (is_term : Signal → bool) calls now period signal :
  (∀ c, c ∈ calls → c.1 <= now) →
  let '(wait, s) := prepare is_term now period signal (begin_all calls new_drain) in
  if is_term signal
  then draining s = true ∧
       since s = Some (default (now, "sigterm") (head calls)) ∧
       period <= default 0 (draining_for (now + wait) s) ∧ wait <= period
  else wait = 0 ∧ s = begin_all calls new_drain.
Proof.
  intros Hle. unfold prepare. rewrite begin_all_spec. destruct (is_term signal); simpl.
  - destruct calls as [|[t why] calls]; unfold saturating_sub, draining_for; simpl.
    + split_and!; [done|done|lia|lia].
    + specialize (Hle (t, why) ltac:(by left)). simpl in Hle. split_and!; [done|done|lia|lia].
  - by rewrite <-begin_all_spec.
Qed.

Lemma drained_before_shutdown_witness :
  (prepare (λ b : bool, b) 1000 600 true (begin_all [(700, "sigusr1")] new_drain)).1 = 300 ∧
  ∃ wait s, prepare (λ b : bool, b) 1000 600 true (begin_all [(700, "sigusr1")] new_drain) = (wait, s) ∧
    since s = Some (700, "sigusr1").
Proof.
  split; [vm_compute; reflexivity|].
  pose proof (drained_before_shutdown (λ b : bool, b) [(700, "sigusr1")] 1000 600 true) as H.
  destruct (prepare _ _ _ _ _) as [wait s]. exists wait, s. split; [reflexivity|].
  apply H. intros c Hc. apply list_elem_of_singleton in Hc as ->. discriminate.
Defined.
