(* ===== verification/AdminEndpoint.v ===== *)
(** * The operator's endpoints ([src/src/admin/mod.rs])

    Liveness, readiness, status and purge, over the live state of the other
    components.  Times are read from the clock by the caller.  The crate's
    version, its compiled features and percent-decoding (a library) are
    parameters; a request is its method, path, query and [Authorization]. *)

From S2P Require Import Prelude Words Text Units Schema Orders Json.
From S2P Require Import Semaphores Limiter Classifier Admission Store BodySpool Retries Breakers Upstream Drain Policy.
Local Open Scope string_scope.
Local Open Scope list_scope.
Local Open Scope N_scope.

#[local] Arguments String.append _ _ : simpl nomatch.

(** ** Purge requests *)

Definition MAX_PURGE_TAGS : N := 128.

Inductive PurgeRequest :=
| Selective (tags paths : list string)
| All.

Inductive PurgeRefusal :=
| Disabled
| Unauthorized
| Malformed (why : string).

(** Every byte is compared, whatever the outcome. *)
Definition secret_eq (provided expected : string) : bool :=
  if negb (len provided =? len expected) then false
  else foldl (λ diff ab, N.lor diff (N.lxor (code ab.1) (code ab.2))) 0
         (zip (list_ascii_of_string provided) (list_ascii_of_string expected)) =? 0.

Definition nothing_asked : PurgeRefusal := Malformed "say what to purge: ?tag=<name>, ?path=</url>, or ?all=1".

Section Admin.
Context {Sem : Type} `{S : !Semaphore Sem} {M : Matching}.
Context (VERSION : string) (features : list string) (percent_decode : string → option string).

(** One parameter, folded into what was read so far. *)
Definition read_pair (acc : list string * list string * bool) (param : string) :
    result PurgeRefusal (list string * list string * bool) :=
  let '(tags, paths, all) := acc in
  let '(name, value) := default (param, EmptyString) (split_once "="%char param) in
  value ← ok_or (percent_decode value) (Malformed "parameter values must be valid UTF-8");
  if String.eqb name "tag" && negb (is_empty value) then
    if MAX_PURGE_TAGS <=? N.of_nat (length tags) then Err (Malformed "too many tags in one request")
    else Ok (if existsb (String.eqb value) tags then tags else tags ++ [value], paths, all)
  else if String.eqb name "path" && starts_with "/" value then
    if MAX_PURGE_TAGS <=? N.of_nat (length paths) then Err (Malformed "too many paths in one request")
    else Ok (tags, if existsb (String.eqb value) paths then paths else paths ++ [value], all)
  else if String.eqb name "path" then Err (Malformed "path must be absolute and begin with /")
  else if String.eqb name "all" && (String.eqb value "1" || String.eqb value "true") then Ok (tags, paths, true)
  else Err (Malformed "unrecognised parameter; expected tag or all").

Fixpoint read_pairs (acc : list string * list string * bool) (pairs : list string) :
    result PurgeRefusal (list string * list string * bool) :=
  match pairs with
  | [] => Ok acc
  | param :: rest => acc ← read_pair acc param; read_pairs acc rest
  end.

Definition parse_purge_query (query : option string) : result PurgeRefusal PurgeRequest :=
  match query with
  | None | Some EmptyString => Err nothing_asked
  | Some query =>
      '(tags, paths, all) ← read_pairs ([], [], false) (split_on "&"%char query);
      let selective := negb (bool_decide (tags = [])) || negb (bool_decide (paths = [])) in
      match all, selective with
      | true, false => Ok All
      | false, true => Ok (Selective tags paths)
      | true, true => Err (Malformed "all=1 cannot be combined with tag= or path=; pick one")
      | false, false => Err nothing_asked
      end
  end.

(** ** The live state *)

Record Admin := mkAdmin {
  config_path : string;
  purge_token : option string;
  require_healthy_upstream : bool }.

Record Live := mkLive {
  policy : PolicySnapshot M;
  ctl : AdmissionController;
  heap : Heap Sem;
  upstreams : UpstreamPool;
  store : Store;
  spool : SpoolBudget;
  upgrades : Limiter Sem;
  retry : RetryBudget;
  drain : DrainState }.

(** What the clocks say: nanoseconds, and milliseconds since the pool was made. *)
Record Times := mkTimes { started : N; now : N; pool_ms : N }.
Definition uptime (c : Times) : N := as_secs (now c - started c).

Inductive NotReady := Draining | NoHealthyUpstream.
Definition not_ready_as_str (n : NotReady) : string :=
  match n with Draining => "draining" | NoHealthyUpstream => "no_healthy_upstream" end.

Definition readiness (a : Admin) (l : Live) : result NotReady unit :=
  refuse_if (draining (drain l)) Draining;;
  refuse_if (require_healthy_upstream a && (healthy_count (upstreams l) =? 0)) NoHealthyUpstream.

Definition liveness_body (c : Times) : string :=
  let s := "{" in
  let s := field_str s "status" "live" in
  let s := field_str s "version" VERSION in
  s +:+ lit "'uptime_seconds':" +:+ print_uint (uptime c) +:+ "}".

Definition readiness_body (a : Admin) (l : Live) : N * string :=
  let verdict := readiness a l in
  let s := "{" +:+ lit "'ready':" +:+ json_bool (is_ok verdict) +:+ "," in
  let s := field_str s "reason" (match verdict with Ok _ => "ok" | Err n => not_ready_as_str n end) in
  let s := s +:+ lit "'draining':" +:+ json_bool (draining (drain l)) +:+ lit ",'healthy_upstreams':"
    +:+ print_uint (healthy_count (upstreams l)) +:+ lit ",'upstreams':"
    +:+ print_uint (N.of_nat (length (backends (upstreams l)))) +:+ "}" in
  (if is_ok verdict then 200 else 503, s).

(** The purge itself, and its report. *)
Definition run_request (request : PurgeRequest) (s : Store) : Purged * string * N * N * Store :=
  match request with
  | All => let '(p, s) := purge_all s in (p, "all", 0, 0, s)
  | Selective tags paths =>
      let '(p, s) := purge_tags tags s in
      let '(by_path, s) := purge_paths paths s in
      (mkPurged (wrapping_add (entries p) (entries by_path)) (wrapping_add (freed p) (freed by_path)),
       "selective", N.of_nat (length tags), N.of_nat (length paths), s)
  end.

Definition purge_body (p : Purged) (scope : string) (tags paths remaining : N) : string :=
  let body := lit "{'purged':true," in
  let body := field_str body "scope" scope in
  body +:+ lit "'tags':" +:+ print_uint tags +:+ lit ",'paths':" +:+ print_uint paths
    +:+ lit ",'entries':" +:+ print_uint (entries p) +:+ lit ",'bytes':" +:+ print_uint (freed p)
    +:+ lit ",'remaining_entries':" +:+ print_uint remaining +:+ "}".

Definition entry_count (s : Store) : N := N.of_nat (size (cached s)).

Definition purge (authorization query : option string) (a : Admin) (s : Store) :
    result PurgeRefusal string * Store :=
  match purge_token a with
  | None => (Err Disabled, s)
  | Some token =>
      match authorization ≫= strip_prefix "Bearer " with
      | None => (Err Unauthorized, s)
      | Some presented =>
          if negb (secret_eq presented token) then (Err Unauthorized, s)
          else match parse_purge_query query with
               | Err e => (Err e, s)
               | Ok request =>
                   let '(p, scope, tags, paths, s) := run_request request s in
                   (Ok (purge_body p scope tags paths (entry_count s)), s)
               end
      end
  end.

(** ** Responses *)

Record Response := mkResponse { status : N; headers : list (string * string); body : string }.

Definition build (status : N) (content_type body : string) : Response :=
  mkResponse status [("content-type", content_type); ("cache-control", "no-store");
                     ("content-length", print_uint (len body))] body.
Definition json (status : N) (body : string) : Response := build status "application/json" body.
Definition text (status : N) (body : string) : Response := build status "text/plain; charset=utf-8" body.

Definition NL : string := str1 (chr 10).
Definition unauthorized : Response :=
  let r := text 401 ("purge requires Authorization: Bearer <cache.purge.token>" +:+ NL) in
  mkResponse (status r) (headers r ++ [("www-authenticate", lit "Bearer realm='harmost-purge'")]) (body r).

(** ** The status document *)

Definition limiter_json (s : string) (l : Limiter Sem) : string :=
  let s := s +:+ "{" in
  let s := field_str s "name" (Limiter.name l) in
  let limit := Limiter.limit l in
  s +:+ lit "'limit':" +:+ print_uint limit
    +:+ lit ",'in_flight':" +:+ print_uint (saturating_sub limit (available l))
    +:+ lit ",'available':" +:+ print_uint (available l)
    +:+ lit ",'queue_depth':" +:+ print_uint (queue_depth l)
    +:+ lit ",'queue_max':" +:+ print_uint (queue_max l)
    +:+ lit ",'queue_timeout_ms':" +:+ print_uint (as_millis (queue_timeout l)) +:+ "}".

Definition by_name (h : Heap Sem) (a b : nat) : Prop :=
  str_le (Limiter.name (cell h a)) (Limiter.name (cell h b)).
#[local] Instance by_name_dec h : RelDecision (by_name h).
Proof. intros a b. unfold by_name. apply _. Defined.

(** [AdmissionController::route_limiters]: in the order of their names. *)
Definition route_limiters (c : AdmissionController) (h : Heap Sem) : list nat :=
  sorting.merge_sort (by_name h) (map_to_list (routes c)).*2.

Definition upstream_json (c : Times) (p : UpstreamPool) (s : string) (b : Backend) : string :=
  let '(ok, failed, trips) := breaker_counts (pool_ms c) p (id b) in
  let s := s +:+ "{" in
  let s := field_str s "address" (address b) in
  s +:+ lit "'healthy':" +:+ json_bool (is_healthy p (id b))
    +:+ lit ",'ejected':" +:+ json_bool (bool_decide (breaker_state p (id b) = Open))
    +:+ lit ",'in_flight':" +:+ print_uint (flights p (id b))
    +:+ lit ",'latency_ewma_us':" +:+ print_uint (latency p (id b))
    +:+ lit ",'window':{'ok':" +:+ print_uint ok +:+ lit ",'failed':" +:+ print_uint failed
    +:+ lit "},'trips':" +:+ print_uint trips +:+ "}".

Definition mode_str (m : Mode) : string := match m with Observe => "observe" | Protect => "protect" end.
Definition eviction_str (e : Eviction) : string := match e with Schema.Clock => "clock" | Schema.Fifo => "fifo" end.

Definition config_section (a : Admin) (l : Live) (s : string) : string :=
  let p := policy l in
  let cfg := p_config M p in
  let s := s +:+ lit "'config':{" in
  let s := field_str s "path" (config_path a) in
  let s := field_str s "mode" (mode_str (Config.mode cfg)) in
  let s := s +:+ lit "'schema_version':" +:+ print_uint SCHEMA_VERSION
    +:+ lit ",'generation':" +:+ print_uint (p_generation M p)
    +:+ lit ",'fingerprint':" +:+ print_uint (p_fingerprint M p)
    +:+ lit ",'routes':" +:+ print_uint (N.of_nat (length (Config.routes cfg))) +:+ lit ",'capacity':" in
  let max := Concurrency.max (Origin.concurrency (Config.origin cfg)) in
  let s :=
    match Config.capacity cfg with
    | Some group =>
        let allocated := wrapping_mul max (CapacityGroup.replicas group) in
        s +:+ lit "{'global_max':" +:+ print_uint (CapacityGroup.global_max group)
          +:+ lit ",'replicas':" +:+ print_uint (CapacityGroup.replicas group)
          +:+ lit ",'per_replica':" +:+ print_uint max
          +:+ lit ",'allocated':" +:+ print_uint allocated +:+ "}"
    | None => s +:+ "null"
    end in
  comma_separated quoted true (s +:+ lit ",'features':[") features +:+ "]},".

Definition drain_section (c : Times) (l : Live) (s : string) : string :=
  let s := s +:+ lit "'drain':{" in
  let s := s +:+ lit "'draining':" +:+ json_bool (draining (drain l)) +:+ "," in
  let s := match draining_for (now c) (drain l) with
           | Some d => s +:+ lit "'draining_for_seconds':" +:+ print_uint (as_secs d) +:+ ","
           | None => s +:+ lit "'draining_for_seconds':null,"
           end in
  let s := field_str s "reason" (reason (drain l)) in
  trim_back [","] s +:+ "},".

Definition admission_section (l : Live) (s : string) : string :=
  let put s r := limiter_json s (cell (heap l) r) in
  let s := put (s +:+ lit "'admission':{'global':") (global (ctl l)) in
  let s := comma_separated put true (s +:+ lit ",'tiers':[") (tiers (ctl l)) in
  let s := comma_separated put true (s +:+ lit "],'routes':[") (route_limiters (ctl l) (heap l)) in
  s +:+ "]},".

Definition cache_section (a : Admin) (l : Live) (s : string) : string :=
  let st := store l in
  let s := s +:+ lit "'cache':{'enabled':" +:+ json_bool (CacheDefaults.enabled (Config.cache (p_config M (policy l))))
    +:+ lit ",'bytes_used':" +:+ print_uint (Store.used st) +:+ lit ",'max_bytes':" +:+ print_uint (max_bytes st)
    +:+ lit ",'entries':" +:+ print_uint (entry_count st) +:+ "," in
  let s := field_str s "eviction" (eviction_str (Store.policy st)) in
  let s := field_str s "tag_header" (tag_header st) in
  s +:+ lit "'tags':" +:+ print_uint (N.of_nat (size (tag_index st)))
    +:+ lit ",'evicted':" +:+ print_uint (evicted st) +:+ lit ",'purged':" +:+ print_uint (purged st)
    +:+ lit ",'purge_enabled':" +:+ json_bool (bool_decide (is_Some (purge_token a))) +:+ "},".

Definition tail_section (c : Times) (l : Live) (s : string) : string :=
  let r := retry l in
  let '(attempts, retries) := retry_counts (pool_ms c) r in
  let u := upgrades l in
  s +:+ lit "'spool':{'bytes_used':" +:+ print_uint (used (spool l)) +:+ lit ",'max_bytes':" +:+ print_uint (limit (spool l)) +:+ "},"
    +:+ lit "'retry':{'enabled':" +:+ json_bool (Retries.enabled r) +:+ lit ",'max_attempts':" +:+ print_uint (max_attempts r)
    +:+ lit ",'window_attempts':" +:+ print_uint attempts +:+ lit ",'window_retries':" +:+ print_uint retries
    +:+ lit ",'budget':" +:+ print_uint (Retries.allowance (pool_ms c) r) +:+ "},"
    +:+ lit "'upgrades':{'enabled':" +:+ json_bool (Upgrade.enabled (Config.upgrade (p_config M (policy l))))
    +:+ lit ",'limit':" +:+ print_uint (Limiter.limit u)
    +:+ lit ",'in_flight':" +:+ print_uint (saturating_sub (Limiter.limit u) (available u)) +:+ "}}".

Definition status_body (a : Admin) (c : Times) (l : Live) : string :=
  let s := "{" in
  let s := field_str s "version" VERSION in
  let s := s +:+ lit "'uptime_seconds':" +:+ print_uint (uptime c) +:+ "," in
  let s := config_section a l s in
  let s := drain_section c l s in
  let s := admission_section l s in
  let s := comma_separated (upstream_json c (upstreams l)) true (s +:+ lit "'upstreams':[") (backends (upstreams l)) +:+ "]," in
  let s := cache_section a l s in
  tail_section c l s.

(** ** Dispatch *)

Record Request := mkRequest {
  method : string;
  path : string;
  query : option string;
  authorization : option string }.

Definition INDEX : string :=
  "harmost " +:+ VERSION +:+ " admin" +:+ NL +:+ NL
  +:+ "GET  /health/live   always 200 while the process is running" +:+ NL
  +:+ "GET  /health/ready  503 while draining or, if configured, while no upstream is healthy" +:+ NL
  +:+ "GET  /status        configuration generation, backend state, cache and spool usage" +:+ NL
  +:+ "POST /purge         invalidate cache entries by tag or path, or all of them" +:+ NL
  +:+ "                    ?tag=<name> and/or ?path=</url> (repeatable) | ?all=1" +:+ NL
  +:+ "                    requires: Authorization: Bearer <cache.purge.token>" +:+ NL.

Definition with_store (st : Store) (l : Live) : Live :=
  mkLive (policy l) (ctl l) (heap l) (upstreams l) st (spool l) (upgrades l) (retry l) (drain l).

Definition response (req : Request) (a : Admin) (c : Times) (l : Live) : Response * Live :=
  if String.eqb (path req) "/purge" then
    if negb (String.eqb (method req) "POST") then
      (text 405 ("purge is POST only; a GET that invalidates a cache is a stampede waiting for a crawler" +:+ NL), l)
    else
      let '(outcome, st) := purge (authorization req) (query req) a (store l) in
      (match outcome with
       | Ok body => json 200 body
       | Err Disabled => text 404 ("purge is not configured; set cache.purge.token to enable it" +:+ NL)
       | Err Unauthorized => unauthorized
       | Err (Malformed why) => text 400 (why +:+ NL)
       end, with_store st l)
  else if negb (String.eqb (method req) "GET") && negb (String.eqb (method req) "HEAD") then
    (text 405 ("only GET and HEAD are served here" +:+ NL), l)
  else
    (if String.eqb (path req) "/health/live" || String.eqb (path req) "/healthz" then json 200 (liveness_body c)
     else if String.eqb (path req) "/health/ready" || String.eqb (path req) "/readyz" then
       let '(status, body) := readiness_body a l in json status body
     else if String.eqb (path req) "/status" then json 200 (status_body a c l)
     else if String.eqb (path req) "/" then text 200 INDEX
     else text 404 ("not found" +:+ NL), l).

End Admin.
