(* ===== verification/AdminTheorems.v ===== *)
(** * What the operator's endpoints promise *)

From S2P Require Import Prelude Words Text Units Schema Orders Json.
From S2P Require Import Semaphores Limiter Classifier Admission Store StoreFacts StoreSafety StoreTheorems.
From S2P Require Import Policy PolicyTheorems Retries Breakers Upstream UpstreamTheorems BodySpool Drain AdminEndpoint.
Local Open Scope string_scope.
Local Open Scope list_scope.
Local Open Scope N_scope.

#[local] Arguments String.append _ _ : simpl nomatch.

(** ** Secrets *)

Lemma diff_zero l acc :
  foldl (λ diff (ab : ascii * ascii), N.lor diff (N.lxor (code ab.1) (code ab.2))) acc l = 0 ↔
  acc = 0 ∧ Forall (λ ab, ab.1 = ab.2) l.
Proof.
  revert acc. induction l as [|[a b] l IH]; intros acc; simpl; [split; [by split|by intros []]|].
  rewrite IH, N.lor_eq_0_iff, N.lxor_eq_0_iff, Forall_cons. simpl.
  assert (code a = code b ↔ a = b) as -> by (split; [apply code_inj|congruence]). tauto.
Qed.

Lemma zip_equal {A} (l k : list A) :
  length l = length k → Forall (λ ab, ab.1 = ab.2) (zip l k) → l = k.
Proof.
  revert k. induction l as [|a l IH]; intros [|b k] Hl; try done. simpl. intros H.
  inversion H as [|? ? Hab Hr]; subst. simpl in Hab. subst. f_equal. apply IH; [by injection Hl|done].
Qed.

Lemma bytes_length s : length (list_ascii_of_string s) = String.length s.
Proof. induction s; simpl; congruence. Qed.

Lemma bytes_inj s t : list_ascii_of_string s = list_ascii_of_string t → s = t.
Proof. intros H. by rewrite <-(string_of_list_ascii_of_string s), H, string_of_list_ascii_of_string. Qed.

Lemma secret_eq_spec a b : secret_eq a b = true ↔ a = b.
Proof.
  unfold secret_eq. split.
  - destruct (N.eqb_spec (len a) (len b)) as [Hl|]; [|done]. simpl. intros H%N.eqb_eq%diff_zero.
    apply bytes_inj, zip_equal; [|by destruct H]. rewrite !bytes_length. unfold len in Hl. lia.
  - intros <-. rewrite N.eqb_refl. simpl. apply N.eqb_eq, diff_zero. split; [done|].
    apply Forall_forall. intros [x y] Hin. simpl. by induction (list_ascii_of_string a); set_solver.
Qed.

Section AdminTheorems.
Context {Sem : Type} `{S : !Semaphore Sem} {M : Matching}.
Context (VERSION : string) (features : list string) (percent_decode : string → option string).

Abbreviation respond := (response (S := S) (M := M) VERSION features percent_decode).
Abbreviation purging := (AdminEndpoint.purge percent_decode).

(** ** Who may purge *)

Lemma purge_cases auth query a s :
  (∃ token, purge_token a = Some token ∧ auth = Some ("Bearer " +:+ token) ∧
     purging auth query a s =
       match parse_purge_query percent_decode query with
       | Err e => (Err e, s)
       | Ok request => let '(p, scope, tags, paths, s) := run_request request s in
                       (Ok (purge_body p scope tags paths (entry_count s)), s)
       end) ∨
  (purging auth query a s = (Err (if bool_decide (purge_token a = None) then Disabled else Unauthorized), s) ∧
   ∀ token, purge_token a = Some token → auth ≠ Some ("Bearer " +:+ token)).
Proof.
  unfold AdminEndpoint.purge. destruct (purge_token a) as [token|]; [|by right].
  rewrite bool_decide_false by done. destruct auth as [h|]; [|right; by split].
  change (Some h ≫= strip_prefix "Bearer ") with (strip_prefix "Bearer " h).
  destruct (strip_prefix "Bearer " h) as [presented|] eqn:E.
  - apply strip_prefix_some in E as ->. destruct (secret_eq presented token) eqn:Es.
    + apply secret_eq_spec in Es as ->. left. by exists token.
    + right. split; [done|]. intros ? [= <-] [= H]. apply secret_eq_spec in H. by rewrite H in Es.
  - right. split; [done|]. intros ? [= <-] He. assert (h = "Bearer " +:+ token) as -> by congruence. by rewrite strip_prefix_app in E.
Qed.

(** A request that does not carry the configured token, if there is one. *)
Definition tokenless (a : Admin) (req : Request) : Prop :=
  ∀ token, purge_token a = Some token → authorization req ≠ Some ("Bearer " +:+ token).

(** What such a request to [/purge] is answered: one of three fixed answers. *)
Definition turned_down (a : Admin) (req : Request) : Response :=
  if negb (String.eqb (method req) "POST")
  then text 405 ("purge is POST only; a GET that invalidates a cache is a stampede waiting for a crawler" +:+ NL)
  else if bool_decide (purge_token a = None)
  then text 404 ("purge is not configured; set cache.purge.token to enable it" +:+ NL)
  else unauthorized.

Lemma tokenless_turned_down req a c l :
  path req = "/purge" → tokenless a req → respond req a c l = (turned_down a req, l).
Proof.
  intros Hp Hno. unfold response, turned_down. rewrite (proj2 (String.eqb_eq _ _) Hp).
  destruct (negb _); [done|]. destruct (purge_cases (authorization req) (query req) a (store l)) as [(token & Ht & Ha & _)|[-> _]].
  - by destruct (Hno token).
  - case_bool_decide; by destruct l.
Qed.

(** C32: Only the operator can purge.  A request that changes anything is a [POST] to
    [/purge] carrying exactly the configured token, and all it changes is the
    store; without a token configured no request does; and a caller without the
    token learns nothing from the answer but whether one is configured: any
    caller without it, with any header and any query, is answered the same, by
    this process in this state or by another with another token, in any state
    and at any time. *)
Theorem purge_needs_the_token req a c l :
  let '(r, l') := respond req a c l in
  (l' ≠ l → method req = "POST" ∧ path req = "/purge" ∧
     ∃ token, purge_token a = Some token ∧ authorization req = Some ("Bearer " +:+ token)) ∧
  l' = with_store (store l') l ∧
  (path req = "/purge" → tokenless a req →
   status r ∈ [401; 404; 405] ∧
   ∀ req' a' c' l1, path req' = "/purge" → method req' = method req → tokenless a' req' →
     (purge_token a' = None ↔ purge_token a = None) → respond req' a' c' l1 = (r, l1)).
Proof.
  assert (∀ l : Live (Sem := Sem) (M := M), l = with_store (store l) l) as Heta by (by intros []).
  destruct (respond req a c l) as [r l'] eqn:E. split_and!.
  - intros Hne. unfold response in E. destruct (String.eqb_spec (path req) "/purge") as [Hp|Hp].
    + destruct (String.eqb_spec (method req) "POST") as [Hm|Hm]; cbn [negb] in E; [|by injection E as _ <-].
      destruct (purge_cases (authorization req) (query req) a (store l)) as [(token & Ht & Ha & _)|[E' _]].
      * split; [done|]. split; [done|]. by exists token.
      * rewrite E' in E. injection E as _ <-. destruct Hne. symmetry. apply Heta.
    + destruct (_ && _); by injection E as _ <-.
  - unfold response in E. destruct (String.eqb _ "/purge").
    + destruct (negb _); [injection E as _ <-; apply Heta|]. destruct (AdminEndpoint.purge _ _ _ _ _). by injection E as _ <-.
    + destruct (_ && _); injection E as _ <-; apply Heta.
  - intros Hp Hno. rewrite tokenless_turned_down in E by done. injection E as <- <-. split.
    + unfold turned_down. destruct (negb _); [|case_bool_decide]; cbn; set_solver.
    + intros req' a' c' l1 Hp' Hm Hno' Htok. rewrite tokenless_turned_down by done. unfold turned_down. rewrite Hm.
      by rewrite (bool_decide_ext _ _ Htok).
Qed.

(** ** What a purge asks for *)

(** What one parameter says, decoded. *)
Definition ask (param : string) : string * option string :=
  let '(name, value) := default (param, EmptyString) (split_once "="%char param) in
  (name, percent_decode value).

(** The values a query gives a name. *)
Definition asked (name v : string) (l : list string) : Prop :=
  ∃ param, param ∈ l ∧ ask param = (name, Some v).

Lemma asked_cons name v p l : asked name v (p :: l) ↔ ask p = (name, Some v) ∨ asked name v l.
Proof.
  unfold asked. setoid_rewrite elem_of_cons. split.
  - intros (q & [->|Hq] & E); [by left|]. right. by exists q.
  - intros [E|(q & Hq & E)]; [exists p; auto|exists q; auto].
Qed.

(** What is kept of the names and paths a query repeats: each once, in bounds. *)
Definition kept (l : list string) : Prop := NoDup l ∧ N.of_nat (length l) <= MAX_PURGE_TAGS.

Lemma keep_one l v :
  kept l → MAX_PURGE_TAGS <=? N.of_nat (length l) = false →
  let l' := if existsb (String.eqb v) l then l else l ++ [v] in
  kept l' ∧ ∀ x, x ∈ l' ↔ x ∈ l ∨ x = v.
Proof.
  intros [Hn Hl] Hlt%N.leb_gt. cbv zeta. destruct (existsb (String.eqb v) l) eqn:E.
  - apply existsb_exists in E as (w & Hw%list_elem_of_In & ->%String.eqb_eq).
    split; [done|]. intros x. split; [auto|]. by intros [?| ->].
  - assert (v ∉ l) as Hv.
    { intros Hv. apply not_true_iff_false in E. apply E, existsb_exists. exists v.
      split; [by apply list_elem_of_In|apply String.eqb_refl]. }
    split; [split|].
    + apply NoDup_app. split; [done|]. split; [|apply NoDup_singleton]. intros x Hx ->%list_elem_of_singleton. done.
    + rewrite length_app. simpl. unfold MAX_PURGE_TAGS in *. lia.
    + intros x. by rewrite elem_of_app, list_elem_of_singleton.
Qed.

(** One parameter either refuses the request or is taken into account. *)
Lemma read_pair_ok acc param acc' :
  read_pair percent_decode acc param = Ok acc' → kept acc.1.1 → kept acc.1.2 →
  kept acc'.1.1 ∧ kept acc'.1.2
  ∧ (∀ t, t ∈ acc'.1.1 ↔ t ∈ acc.1.1 ∨ (t ≠ EmptyString ∧ ask param = ("tag", Some t)))
  ∧ (∀ p, p ∈ acc'.1.2 ↔ p ∈ acc.1.2 ∨ ask param = ("path", Some p))
  ∧ (ask param = ("path", None) → False)
  ∧ (∀ p, ask param = ("path", Some p) → starts_with "/" p = true)
  ∧ (acc'.2 = true ↔ acc.2 = true ∨ ∃ v, ask param = ("all", Some v) ∧ v ∈ ["1"; "true"]).
Proof.
  destruct acc as [[tags paths] all]. unfold read_pair, ask.
  destruct (default _ _) as [name value]. destruct (percent_decode value) as [v|]; [|done].
  cbn [ok_or mbind result_bind]. cbn [fst snd].
  destruct (String.eqb_spec name "tag") as [->|Ht]; cbn [andb].
  - destruct v as [|c v]; [intros; discriminate|]. simpl is_empty. cbn [negb].
    destruct (MAX_PURGE_TAGS <=? _) eqn:Hb; [done|]. intros [= <-] H1 H2. simpl in *.
    destruct (keep_one tags (String c v) H1 Hb) as [H3 H4]. simpl in *.
    split; [done|]. split; [done|]. split; [|naive_solver].
    intros t. rewrite H4. naive_solver.
  - destruct (String.eqb_spec name "path") as [->|Hp]; cbn [andb].
    + destruct (starts_with "/" v) eqn:Hs; [|done].
      destruct (MAX_PURGE_TAGS <=? _) eqn:Hb; [done|]. intros [= <-] H1 H2. simpl in *.
      destruct (keep_one paths v H2 Hb) as [H3 H4]. simpl in *.
      split; [done|]. split; [done|]. split; [naive_solver|]. split; [|naive_solver].
      intros t. rewrite H4. naive_solver.
    + destruct (String.eqb_spec name "all") as [->|Ha]; cbn [andb]; [|done].
      destruct (String.eqb v "1" || String.eqb v "true") eqn:Hv; [|done]. intros [= <-] H1 H2. simpl in *.
      assert (v ∈ ["1"; "true"]) as Hin.
      { apply orb_true_iff in Hv as [->%String.eqb_eq| ->%String.eqb_eq]; set_solver. }
      naive_solver.
Qed.

Lemma read_pairs_ok l acc acc' :
  read_pairs percent_decode acc l = Ok acc' → kept acc.1.1 → kept acc.1.2 →
  kept acc'.1.1 ∧ kept acc'.1.2
  ∧ (∀ t, t ∈ acc'.1.1 ↔ t ∈ acc.1.1 ∨ (t ≠ EmptyString ∧ asked "tag" t l))
  ∧ (∀ p, p ∈ acc'.1.2 ↔ p ∈ acc.1.2 ∨ asked "path" p l)
  ∧ (∀ p, asked "path" p l → starts_with "/" p = true)
  ∧ (acc'.2 = true ↔ acc.2 = true ∨ ∃ v, asked "all" v l ∧ v ∈ ["1"; "true"]).
Proof.
  revert acc. induction l as [|p l IH]; intros acc; cbn [read_pairs].
  - intros [= <-] H1 H2. assert (∀ name v, ¬ asked name v []) as Hno by (intros name v (q & Hq & _); by apply elem_of_nil in Hq).
    split_and!; [done|done|naive_solver|naive_solver|naive_solver|]. split; [auto|].
    intros [?|(v & Hv & _)]; [done|by apply Hno in Hv].
  - destruct (read_pair _ acc p) as [acc1|] eqn:E; [|done]. cbn [mbind result_bind]. intros Hl H1 H2.
    destruct (read_pair_ok _ _ _ E H1 H2) as (H3 & H4 & Ht & Hp & _ & Hs & Ha).
    destruct (IH acc1 Hl H3 H4) as (H5 & H6 & Ht' & Hp' & Hs' & Ha').
    split; [done|]. split; [done|]. split; [|split; [|split]].
    + intros t. rewrite Ht', Ht, asked_cons. tauto.
    + intros q. rewrite Hp', Hp, asked_cons. tauto.
    + intros q [Hq|Hq]%asked_cons; auto.
    + rewrite Ha', Ha. setoid_rewrite asked_cons. split.
      * intros [[?|(v & ? & ?)]|(v & ? & ?)]; eauto.
      * intros [?|(v & [?|?] & ?)]; eauto.
Qed.

(** A purge request is what its query says.  When the endpoint accepts a
    query, the tags and paths it will purge are the decoded values the query
    gives those names, each once, at most 128 of either; every path is
    absolute; something was asked for; and everything is purged only if the
    query says so and names nothing else. *)
Theorem purge_query_exact query r :
  parse_purge_query percent_decode query = Ok r →
  ∃ text, query = Some text ∧
    let l := split_on "&"%char text in
    let everything := ∃ v, asked "all" v l ∧ v ∈ ["1"; "true"] in
    match r with
    | Selective tags paths =>
        kept tags ∧ kept paths ∧ (tags ≠ [] ∨ paths ≠ [])
        ∧ (∀ t, t ∈ tags ↔ t ≠ EmptyString ∧ asked "tag" t l)
        ∧ (∀ p, p ∈ paths ↔ asked "path" p l)
        ∧ (∀ p, p ∈ paths → starts_with "/" p = true)
        ∧ ¬ everything
    | All =>
        everything ∧ ∀ v, ¬ asked "path" v l ∧ (v ≠ EmptyString → ¬ asked "tag" v l)
    end.
Proof.
  unfold parse_purge_query. destruct query as [[|c q]|]; [done| |done].
  set (text := String c q). intros H. exists text. split; [done|]. cbv zeta. revert H.
  destruct (read_pairs _ _ _) as [[[tags paths] all]|] eqn:E; [|done]. cbn [mbind result_bind].
  assert (kept []) as Hk by (split; [constructor|done]).
  destruct (read_pairs_ok _ _ _ E Hk Hk) as (H1 & H2 & Ht & Hp & Hs & Ha). simpl in *.
  assert (∀ x, x ∈ @nil string ↔ False) as Hnil by (intros x; split; [by intros ?%elem_of_nil|done]).
  setoid_rewrite Hnil in Ht. setoid_rewrite Hnil in Hp.
  assert (all = true ↔ ∃ v, asked "all" v (split_on "&" text) ∧ v ∈ ["1"; "true"]) as Ha'.
  { rewrite Ha. naive_solver. }
  clear Ha. destruct all.
  - destruct (bool_decide_reflect (tags = [])) as [->|]; [|done].
    destruct (bool_decide_reflect (paths = [])) as [->|]; [|done]. simpl.
    intros [= <-]. split; [by apply Ha'|]. intros v. split; [intros H; apply (proj1 (Hnil v)), Hp; auto|].
    intros Hv H. destruct (proj1 (Hnil v)). apply Ht. auto.
  - destruct (_ || _) eqn:Es; [|done]. intros [= <-]. split_and!; try done; [|naive_solver..|by intros ?%Ha'].
    destruct (bool_decide_reflect (tags = [])); [|by left]. right.
    by destruct (bool_decide_reflect (paths = [])).
Qed.

(** ** What a purge does *)

(** What is left of the store once the named tags and paths are gone. *)
Definition wanted_by (r : PurgeRequest) (ts : list string) (p : string) : bool :=
  match r with
  | All => true
  | Selective tags paths => targets (ByTags tags) EmptyString ts p || targets (ByPaths paths) EmptyString ts p
  end.

Lemma run_request_ok r s n :
  shape s → books s n → purged_by (λ _, wanted_by r) s (run_request r s).2 n.
Proof.
  intros Hs Hb. destruct r as [tags paths|]; unfold run_request.
  - pose proof (run_purge_ok (ByTags tags) s n Hs Hb) as H. simpl in H.
    destruct (purge_tags tags s) as [p s1]. simpl in H.
    destruct H as (Hs1 & Hb1 & Hn1 & Hm1 & Hc1 & Hf1).
    pose proof (run_purge_ok (ByPaths paths) s1 n Hs1 Hb1) as H. simpl in H.
    destruct (purge_paths paths s1) as [p' s2]. simpl in H. destruct H as (Hs2 & Hb2 & Hn2 & Hm2 & Hc2 & Hf2).
    split; [done|]. split; [done|]. split; [simpl; congruence|]. split; [simpl; congruence|].
    split.
    + simpl. rewrite Hc2, Hc1, map_filter_filter. apply map_filter_ext. intros k e _. simpl.
      rewrite orb_false_iff. tauto.
    + intros key id. simpl. rewrite Hf2, Hf1. destruct (fill s key id) as [t|]; [|done]. simpl. f_equal.
      destruct (existsb _ _); simpl; by destruct (_ && _).
  - pose proof (run_purge_ok Everything s n Hs Hb) as H. simpl in H.
    by destruct (purge_all s) as [p s1].
Qed.

(** ** A purge, end to end *)

Lemma purge_body_json p scope tags paths remaining :
  purge_body p scope tags paths remaining = render (JObj
    [("purged", JBool true); ("scope", JStr scope); ("tags", JNum (Z.of_N tags)); ("paths", JNum (Z.of_N paths));
     ("entries", JNum (Z.of_N (entries p))); ("bytes", JNum (Z.of_N (freed p)));
     ("remaining_entries", JNum (Z.of_N remaining))]).
Proof. unfold purge_body. cbn [render map join fst snd]. rewrite !pretty_num. by flatten_text. Qed.

Context {Meta : Type} (serialize : Meta → option BinaryMeta)
  (deserialize : BinaryMeta → option Meta) (has_field : Meta → string → bool)
  (field_text : Meta → string → option string).

(** C33: A purge does what it was asked.  In any state the cache can reach, an
    authorised [POST /purge] with an accepted query is answered 200; afterwards
    the cache holds exactly the entries it named neither by tag nor by path, a
    fill in progress for one of those is marked so that it will not be stored,
    and the answer reports how many entries remain. *)
Theorem purge_reaches_the_store w req a c l token r :
  reachable serialize deserialize has_field field_text w → store l = Store.store w →
  method req = "POST" → path req = "/purge" →
  purge_token a = Some token → authorization req = Some ("Bearer " +:+ token) →
  parse_purge_query percent_decode (query req) = Ok r →
  let '(resp, l') := respond req a c l in
  status resp = 200
  ∧ cached (store l') = filter (λ kv, wanted_by r (tags kv.2) (Store.path kv.2) = false) (cached (store l))
  ∧ (∀ key id, fill (store l') key id =
       (λ t, if wanted_by r (ttags t) (tpath t) then invalidate t else t) <$> fill (store l) key id)
  ∧ ∃ members, parse (body resp) = Some (JObj members)
      ∧ ("remaining_entries", JNum (Z.of_nat (size (cached (store l'))))) ∈ members.
Proof.
  intros (Hs & Hb & _)%reachable_Winv Hw Hm Hp Ht Ha Hq. rewrite <-Hw in Hs, Hb.
  unfold response. rewrite Hp, Hm. simpl.
  destruct (purge_cases (authorization req) (query req) a (store l)) as [(token' & Ht' & _ & ->)|[_ Hno]];
    [|by destruct (Hno token)].
  rewrite Hq. pose proof (run_request_ok r _ _ Hs Hb) as H.
  destruct (run_request r (store l)) as [[[[p scope] tags'] paths'] s']. simpl in H.
  destruct H as (_ & _ & _ & _ & Hc & Hf). cbn [json build status body store with_store].
  split; [done|]. split; [done|]. split; [done|]. eexists. rewrite purge_body_json, parse_render.
  split; [done|]. unfold entry_count. rewrite nat_N_Z. set_solver.
Qed.

End AdminTheorems.

(** ** A concrete process *)

Definition sample_store : Store := Store.store Example.w3.

Definition sample_live : Live := mkLive
  sample_snapshot (admission _ running) (limiters _ running)
  (sample_pool RoundRobin) sample_store (BodySpool.new_budget 1024) (Limiter.new "upgrades" 8 0 0)
  (Retries.new_budget sample_retry) (mkDrain true (Some (5000000000, "sigterm"))).
Definition sample_admin : Admin := mkAdmin "harmost.yaml" (Some "s3cret") true.
Definition sample_times : Times := mkTimes 1000000000 9000000000 8000.
Definition purge_request (auth : string) : Request :=
  mkRequest "POST" "/purge" (Some "tag=a&path=/old") (Some auth).

Abbreviation answer req := (response "0.1.0" ["tls"] Some req sample_admin sample_times sample_live).

Lemma purge_query_exact_witness :
  parse_purge_query Some (Some "tag=a&path=/old&tag=a") = Ok (Selective ["a"] ["/old"])
  ∧ ¬ ∃ v, asked Some "all" v (split_on "&"%char "tag=a&path=/old&tag=a") ∧ v ∈ ["1"; "true"].
Proof.
  assert (parse_purge_query Some (Some "tag=a&path=/old&tag=a") = Ok (Selective ["a"] ["/old"])) as E
    by (vm_compute; reflexivity).
  split; [exact E|]. destruct (purge_query_exact Some _ _ E) as (text & [= <-] & H). apply H.
Defined.

Lemma purge_reaches_the_store_witness :
  cached sample_store ≠ ∅ ∧
  cached (store (answer (purge_request "Bearer s3cret")).2) = ∅.
Proof.
  split; [vm_compute; discriminate|].
  pose proof (purge_reaches_the_store "0.1.0" ["tls"] Some Example.serialize Example.deserialize
    Example.has_field Example.field_text Example.w3 (purge_request "Bearer s3cret") sample_admin sample_times
    sample_live "s3cret" (Selective ["a"] ["/old"]) Example.reach_stored eq_refl eq_refl eq_refl eq_refl
    eq_refl ltac:(vm_compute; reflexivity)) as H.
  destruct (answer _) as [resp l']. destruct H as (_ & H & _). cbn [snd]. rewrite H. vm_compute. reflexivity.
Defined.
