(* ===== verification/StatusTheorems.v ===== *)
(** * The operator's documents are what they say they are

    Every JSON answer of the admin endpoint, as a value: what each document
    holds, and that reading the text back gives exactly that. *)

From S2P Require Import Prelude Words Text Units Schema Orders Json.
From S2P Require Import Semaphores Limiter Classifier Admission Store BodySpool Retries Breakers Upstream Drain Policy.
From S2P Require Import AdminEndpoint AdminTheorems Json.
Local Open Scope string_scope.
Local Open Scope list_scope.
Local Open Scope N_scope.

#[local] Arguments String.append _ _ : simpl nomatch.

Definition num (n : N) : JSON := JNum (Z.of_N n).

Lemma render_num n : render (num n) = print_uint n.
Proof. apply pretty_num. Qed.
Lemma render_bool b : render (JBool b) = json_bool b.
Proof. done. Qed.
Lemma render_str s : render (JStr s) = quote s.
Proof. done. Qed.
Lemma render_null : render JNull = "null".
Proof. done. Qed.

(** The opening of an object, one member at a time. *)
Lemma render_object kv l : render (JObj (kv :: l)) = "{" +:+ members (kv :: l) +:+ "}".
Proof. done. Qed.
Lemma members_one kv : members [kv] = member kv.
Proof. done. Qed.
Lemma members_more kv kv' l : members (kv :: kv' :: l) = member kv +:+ "," +:+ members (kv' :: l).
Proof. done. Qed.
Lemma member_eq k j : member (k, j) = quote k +:+ ":" +:+ render j.
Proof. done. Qed.

(** Both sides of an equation between documents, as the same literal text. *)
Ltac document :=
  repeat progress rewrite ?render_object, ?members_more, ?members_one, ?member_eq, ?render_num, ?render_bool,
    ?render_str, ?render_null, ?render_array;
  flatten_text; reflexivity.

Lemma trim_comma s : trim_back [","] (s +:+ str1 dquote +:+ ",") = s +:+ str1 dquote.
Proof.
  unfold trim_back. rewrite str_app_assoc, !rev_str_app.
  change (trim_front _ _) with (str1 dquote +:+ String.rev s). by rewrite rev_str_app, rev_rev.
Qed.

Section StatusTheorems.
Context {Sem : Type} `{S : !Semaphore Sem} {M : Matching}.
Context (VERSION : string) (features : list string) (percent_decode : string → option string).

Definition limiter_doc (l : Limiter Sem) : JSON := JObj
  [("name", JStr (Limiter.name l)); ("limit", num (Limiter.limit l));
   ("in_flight", num (saturating_sub (Limiter.limit l) (available l)));
   ("available", num (available l)); ("queue_depth", num (queue_depth l)); ("queue_max", num (queue_max l));
   ("queue_timeout_ms", num (as_millis (queue_timeout l)))].

Lemma limiter_json_eq s l : limiter_json s l = s +:+ render (limiter_doc l).
Proof. unfold limiter_json, limiter_doc. document. Qed.

Definition upstream_doc (c : Times) (p : UpstreamPool) (b : Backend) : JSON :=
  let '(ok, failed, trips) := breaker_counts (pool_ms c) p (id b) in
  JObj [("address", JStr (address b)); ("healthy", JBool (is_healthy p (id b)));
        ("ejected", JBool (bool_decide (breaker_state p (id b) = Open)));
        ("in_flight", num (flights p (id b))); ("latency_ewma_us", num (latency p (id b)));
        ("window", JObj [("ok", num ok); ("failed", num failed)]); ("trips", num trips)].

Lemma upstream_json_eq c p s b : upstream_json c p s b = s +:+ render (upstream_doc c p b).
Proof.
  unfold upstream_json, upstream_doc. destruct (breaker_counts _ _ _) as [[ok failed] trips]. document.
Qed.

Definition capacity_doc (cfg : Config.Config) : JSON :=
  let max := Concurrency.max (Origin.concurrency (Config.origin cfg)) in
  match Config.capacity cfg with
  | None => JNull
  | Some g => JObj
      [("global_max", num (CapacityGroup.global_max g)); ("replicas", num (CapacityGroup.replicas g));
       ("per_replica", num max); ("allocated", num (wrapping_mul max (CapacityGroup.replicas g)))]
  end.

Definition config_doc (a : Admin) (l : Live) : JSON :=
  let p := policy (Sem := Sem) (M := M) l in let cfg := p_config M p in
  JObj [("path", JStr (config_path a)); ("mode", JStr (mode_str (Config.mode cfg)));
        ("schema_version", num SCHEMA_VERSION); ("generation", num (p_generation M p));
        ("fingerprint", num (p_fingerprint M p)); ("routes", num (N.of_nat (length (Config.routes cfg))));
        ("capacity", capacity_doc cfg); ("features", JArr (JStr <$> features))].

Lemma config_section_eq a l s :
  config_section features a l s = s +:+ member ("config", config_doc a l) +:+ ",".
Proof.
  unfold config_section, config_doc, capacity_doc. cbv zeta.
  rewrite (comma_render quoted JStr) by (intros; apply quoted_eq).
  destruct (Config.capacity _); document.
Qed.

Definition drain_doc (c : Times) (l : Live) : JSON := JObj
  [("draining", JBool (draining (drain (Sem := Sem) (M := M) l)));
   ("draining_for_seconds", match draining_for (now c) (drain l) with Some d => num (as_secs d) | None => JNull end);
   ("reason", JStr (reason (drain l)))].

Lemma drain_section_eq c l s : drain_section c l s = s +:+ member ("drain", drain_doc c l) +:+ ",".
Proof.
  unfold drain_section. cbv zeta. set (s1 := match draining_for _ _ with Some _ => _ | None => _ end).
  assert (field_str s1 "reason" (reason (drain l))
    = (s1 +:+ quote "reason" +:+ ":" +:+ String dquote (escape (reason (drain l)))) +:+ str1 dquote +:+ ",") as ->.
  { flatten_text. reflexivity. }
  rewrite trim_comma. subst s1. unfold drain_doc. destruct (draining_for _ _); document.
Qed.

Definition admission_doc (l : Live) : JSON :=
  let doc r := limiter_doc (cell (heap (Sem := Sem) (M := M) l) r) in
  JObj [("global", doc (global (ctl l))); ("tiers", JArr (doc <$> tiers (ctl l)));
        ("routes", JArr (doc <$> route_limiters (ctl l) (heap l)))].

Lemma admission_section_eq l s : admission_section l s = s +:+ member ("admission", admission_doc l) +:+ ",".
Proof.
  unfold admission_section, admission_doc. cbv zeta.
  rewrite !(comma_render _ (λ r, limiter_doc (cell (heap l) r))) by (intros; apply limiter_json_eq).
  rewrite limiter_json_eq. document.
Qed.

Definition cache_doc (a : Admin) (l : Live) : JSON :=
  let st := store (Sem := Sem) (M := M) l in JObj
  [("enabled", JBool (CacheDefaults.enabled (Config.cache (p_config M (policy l)))));
   ("bytes_used", num (Store.used st)); ("max_bytes", num (max_bytes st)); ("entries", num (entry_count st));
   ("eviction", JStr (eviction_str (Store.policy st))); ("tag_header", JStr (tag_header st));
   ("tags", num (N.of_nat (size (tag_index st)))); ("evicted", num (evicted st)); ("purged", num (purged st));
   ("purge_enabled", JBool (bool_decide (is_Some (purge_token a))))].

Lemma cache_section_eq a l s : cache_section a l s = s +:+ member ("cache", cache_doc a l) +:+ ",".
Proof. unfold cache_section, cache_doc. cbv zeta. document. Qed.

Definition tail_docs (c : Times) (l : Live) : list (string * JSON) :=
  let r := retry (Sem := Sem) (M := M) l in let u := upgrades l in
  [("spool", JObj [("bytes_used", num (used (spool l))); ("max_bytes", num (limit (spool l)))]);
   ("retry", JObj [("enabled", JBool (Retries.enabled r)); ("max_attempts", num (max_attempts r));
      ("window_attempts", num (retry_counts (pool_ms c) r).1); ("window_retries", num (retry_counts (pool_ms c) r).2);
      ("budget", num (Retries.allowance (pool_ms c) r))]);
   ("upgrades", JObj [("enabled", JBool (Upgrade.enabled (Config.upgrade (p_config M (policy l)))));
      ("limit", num (Limiter.limit u)); ("in_flight", num (saturating_sub (Limiter.limit u) (available u)))])].

Lemma tail_section_eq c l s : tail_section c l s = s +:+ members (tail_docs c l) +:+ "}".
Proof.
  unfold tail_section, tail_docs. destruct (retry_counts _ _) as [attempts retries]. cbv zeta.
  cbn [fst snd]. document.
Qed.

(** The whole status document. *)
Definition status_doc (a : Admin) (c : Times) (l : Live) : JSON := JObj
  ([("version", JStr VERSION); ("uptime_seconds", num (uptime c)); ("config", config_doc a l);
    ("drain", drain_doc c l); ("admission", admission_doc l);
    ("upstreams", JArr (upstream_doc c (upstreams l) <$> backends (upstreams l))); ("cache", cache_doc a l)]
   ++ tail_docs c l).

Lemma status_body_eq a c l : status_body VERSION features a c l = render (status_doc a c l).
Proof.
  unfold status_body. cbv zeta.
  rewrite tail_section_eq, cache_section_eq, config_section_eq, drain_section_eq, admission_section_eq.
  rewrite (comma_render _ (upstream_doc c (upstreams l))) by (intros; apply upstream_json_eq).
  unfold status_doc. set (t := tail_docs c l). assert (∃ kv t', t = kv :: t') as (kv & t' & Ht) by (by eexists _, _).
  clearbody t. subst t. cbn [app].
  rewrite render_object, !members_more, !(member_eq "version"), !(member_eq "uptime_seconds"), !(member_eq "upstreams"),
    render_num, render_str, render_array.
  set (rest := members (kv :: t')). generalize (member ("config", config_doc a l)) as m1.
  generalize (member ("drain", drain_doc c l)) as m2. generalize (member ("admission", admission_doc l)) as m3.
  generalize (member ("cache", cache_doc a l)) as m4. intros. clearbody rest. flatten_text. reflexivity.
Qed.

Definition liveness_doc (c : Times) : JSON :=
  JObj [("status", JStr "live"); ("version", JStr VERSION); ("uptime_seconds", num (uptime c))].

Lemma liveness_body_eq c : liveness_body VERSION c = render (liveness_doc c).
Proof. unfold liveness_body, liveness_doc. document. Qed.

(** The reason readiness is refused, in the order the source asks. *)
Definition why_not_ready (a : Admin) (l : Live (Sem := Sem) (M := M)) : option string :=
  if draining (drain l) then Some "draining"
  else if require_healthy_upstream a && (healthy_count (upstreams l) =? 0) then Some "no_healthy_upstream"
  else None.

Definition readiness_doc (a : Admin) (l : Live) : JSON := JObj
  [("ready", JBool (bool_decide (why_not_ready a l = None))); ("reason", JStr (default "ok" (why_not_ready a l)));
   ("draining", JBool (draining (drain l))); ("healthy_upstreams", num (healthy_count (upstreams l)));
   ("upstreams", num (N.of_nat (length (backends (upstreams l)))))].

Lemma readiness_body_eq a l :
  readiness_body a l = (if decide (why_not_ready a l = None) then 200 else 503, render (readiness_doc a l)).
Proof.
  unfold readiness_body, readiness, readiness_doc, why_not_ready. cbv zeta.
  destruct (draining (drain l)); [|destruct (_ && _)]; cbn [refuse_if mbind result_bind is_ok not_ready_as_str default];
    (apply (f_equal2 pair); [done|document]).
Qed.

(** ** Every answer *)

Abbreviation respond := (response (S := S) (M := M) VERSION features percent_decode).

(** What an answer to this request would be as a value, where it is a document. *)
Definition document_of (req : Request) (a : Admin) (c : Times) (l : Live) : option JSON :=
  if bool_decide (path req ∈ ["/health/live"; "/healthz"]) then Some (liveness_doc c)
  else if bool_decide (path req ∈ ["/health/ready"; "/readyz"]) then Some (readiness_doc a l)
  else if bool_decide (path req = "/status") then Some (status_doc a c l)
  else None.

Lemma built status ty b :
  headers (build status ty b) =
    [("content-type", ty); ("cache-control", "no-store"); ("content-length", print_uint (len b))]
  ∧ body (build status ty b) = b.
Proof. done. Qed.

Lemma served_document req a c l j :
  method req ∈ ["GET"; "HEAD"] → document_of req a c l = Some j →
  let '(r, l') := respond req a c l in
  l' = l ∧ body r = render j ∧ ("content-type", "application/json") ∈ headers r
  ∧ status r = (if decide (path req ∈ ["/health/ready"; "/readyz"] ∧ why_not_ready a l ≠ None) then 503 else 200).
Proof.
  intros Hm. unfold document_of, response. destruct req as [m p q au]. cbn [path method] in *.
  assert (negb (String.eqb m "GET") && negb (String.eqb m "HEAD") = false) as ->.
  { apply andb_false_iff. rewrite !negb_false_iff, !String.eqb_eq. set_solver. }
  destruct (bool_decide_reflect (p ∈ ["/health/live"; "/healthz"])) as [Hl|Hl].
  { intros [= <-]. assert (p = "/health/live" ∨ p = "/healthz") as [-> | ->] by set_solver;
      cbn -[liveness_body]; rewrite liveness_body_eq; (split_and!; [done|done|by left|]);
      rewrite decide_False by set_solver; done. }
  destruct (bool_decide_reflect (p ∈ ["/health/ready"; "/readyz"])) as [Hr|Hr].
  { intros [= <-]. assert (∀ x y : N, (if decide (p ∈ ["/health/ready"; "/readyz"] ∧ why_not_ready a l ≠ None) then x else y)
      = (if decide (why_not_ready a l = None) then y else x)) as -> by (intros; repeat case_decide; naive_solver).
    assert (p = "/health/ready" ∨ p = "/readyz") as [-> | ->] by set_solver;
      cbn -[readiness_body]; rewrite readiness_body_eq; (split_and!; [done|done|by left|done]). }
  destruct (bool_decide_reflect (p = "/status")) as [->|Hs]; [|done].
  intros [= <-]. cbn -[status_body]. rewrite status_body_eq. split_and!; [done|done|by left|].
  rewrite decide_False by set_solver. done.
Qed.
(** Nothing the endpoint says is cached, and its length is always stated. *)
Lemma answer_headers req a c l :
  let r := (respond req a c l).1 in
  ("cache-control", "no-store") ∈ headers r ∧ ("content-length", print_uint (len (body r))) ∈ headers r.
Proof.
  cbv zeta. unfold response.
  destruct (String.eqb _ _).
  - destruct (negb _); [split; [right; left|right; right; left]|].
    destruct (AdminEndpoint.purge _ _ _ _ _) as [[?|[| |]] ?]; (split; [right; left|right; right; left]).
  - destruct (_ && _); [split; [right; left|right; right; left]|].
    cbn [fst]. destruct (_ || _); [|destruct (_ || _); [|destruct (String.eqb _ _); [|destruct (String.eqb _ _)]]];
      (split; [right; left|right; right; left]).
Qed.

(** C34: The operator reads what is true.  A probe of liveness, readiness or status
    changes nothing, is not cacheable, and answers one line of JSON that reads
    back as exactly the state it reports, string by string and number by number;
    it is a 200 except for readiness, which is 503 while the process drains or,
    if configured so, while no upstream is healthy. *)
Theorem documents_read_back req a c l j :
  method req ∈ ["GET"; "HEAD"] → document_of req a c l = Some j →
  let '(r, l') := respond req a c l in
  l' = l ∧ parse (body r) = Some j ∧ no_control (body r) = true
  ∧ ("content-type", "application/json") ∈ headers r ∧ ("cache-control", "no-store") ∈ headers r
  ∧ ("content-length", print_uint (len (body r))) ∈ headers r
  ∧ status r = (if decide (path req ∈ ["/health/ready"; "/readyz"] ∧ why_not_ready a l ≠ None) then 503 else 200).
Proof.
  intros Hm Hd. pose proof (served_document req a c l j Hm Hd) as H.
  pose proof (answer_headers req a c l) as Hh. destruct (respond req a c l) as [r l'].
  destruct H as (-> & Hb & Hty & Hs). destruct Hh as [Hc Hl]. cbn [fst] in Hc, Hl.
  split_and!; [done|rewrite Hb; apply parse_render|rewrite Hb; apply render_clean|done..].
Qed.
End StatusTheorems.

Lemma documents_read_back_witness :
  let '(r, _) := response "0.1.0" ["tls"] Some (mkRequest "GET" "/readyz" None None) sample_admin sample_times sample_live in
  status r = 503 ∧ ∃ m, parse (body r) = Some (JObj m) ∧ ("reason", JStr "draining") ∈ m.
Proof.
  pose proof (documents_read_back "0.1.0" ["tls"] Some (mkRequest "GET" "/readyz" None None) sample_admin
    sample_times sample_live (readiness_doc sample_admin sample_live) ltac:(by left) ltac:(vm_compute; reflexivity)) as H.
  destruct (response _ _ _ _ _ _ _) as [r l']. destruct H as (_ & Hp & _ & _ & _ & _ & Hs).
  split; [rewrite Hs; vm_compute; reflexivity|]. eexists. split; [exact Hp|].
  right. left.
Defined.
