(* ===== verification/Filters.v ===== *)
(** * What the proxy decides about one message ([src/src/proxy/mod.rs])

    The filters of the proxy that read a request or a response and decide: who
    the client is, which route and class, whether the cache is asked and under
    which key, whether the response may be kept, and the headers either side
    sees.  They change nothing but the request's own context; the filters that
    touch shared state are in Proxy, the metrics they publish in Published.  Log
    lines are left out.

    A header map is a function, as in Classifier; names are compared in lower
    case.  The phase of Pingora's cache is an enumeration of the phases the
    source names. *)

From S2P Require Import Prelude Words Text Units Schema Orders Net.
From S2P Require Import Classifier CacheKey CachePolicy Admission Store Forwarded Policy Trace.
Local Open Scope string_scope.
Local Open Scope list_scope.
Local Open Scope N_scope.

(** ** Messages *)

(** What a request header carries: the URI's path, query and authority. *)
Record RequestHeader := mkRequestHeader {
  req_method : Method;
  req_path : string;
  req_query : option string;
  req_authority : option string;
  req_fields : HeaderMap }.

Record ResponseHeader := mkResponseHeader {
  resp_status : N;
  resp_fields : HeaderMap }.

Definition insert_header (name value : string) (h : HeaderMap) : HeaderMap := λ k,
  if decide (k = to_ascii_lowercase name) then [value] else h k.
Definition remove_header (name : string) (h : HeaderMap) : HeaderMap := λ k,
  if decide (k = to_ascii_lowercase name) then [] else h k.
Definition no_fields : HeaderMap := λ _, [].

(** [HeaderValue::to_str]: visible ASCII and tabs only. *)
Definition to_str (value : string) : option string :=
  if all_chars (λ b, ((32 <=? code b) && (code b <? 127)) || (code b =? 9)) value then Some value else None.

Definition header_str (h : HeaderMap) (name : string) : option string :=
  v ← get_header h name; to_str v.

Definition joined_header_values (h : HeaderMap) (name : string) : option string :=
  match header_text <$> get_all h name with [] => None | values => Some (join "," values) end.

Definition request_host (req : RequestHeader) : string :=
  match get_header (req_fields req) "host" with
  | Some host => header_text host
  | None => default EmptyString (req_authority req)
  end.

(** What the classifier and the key builder read. *)
Definition metadata (req : RequestHeader) : RequestMetadata :=
  Classifier.mkRequest (req_method req) (request_host req) (req_path req) (req_query req) (req_fields req).

Definition listener_scheme (is_tls : bool) : ListenerScheme :=
  if is_tls then Forwarded.Https else Forwarded.Http.

Definition nonzero (d : Duration) : option Duration := if is_zero d then None else Some d.

(** Where an error came from, as far as the source asks. *)
Inductive ErrorSource := FromUpstream | FromElsewhere.
#[export] Instance ErrorSource_eq_dec : EqDecision ErrorSource.
Proof. solve_decision. Defined.

Section Filters.
Context {M : Matching}.
Implicit Types p : PolicySnapshot M.

(** ** [early_request_filter] *)

Record Early := mkEarly {
  client : ClientFacts;
  trace : RequestTrace;
  write_timeout : option Duration }.

(** [fresh_trace] and [fresh_span] are what the random source gives. *)
Definition early_request_filter p (trust : TrustPolicy) (peer : option IpAddr) (is_tls : bool)
    (req : RequestHeader) (fresh_trace : TraceId) (fresh_span : SpanId) : Early :=
  let headers := req_fields req in
  let client := Forwarded.resolve trust peer headers (listener_scheme is_tls) in
  let tracing := Telemetry.tracing (Config.telemetry (p_config M p)) in
  let believe := believe_inbound (Tracing.trust_incoming tracing) (peer_trusted client) in
  mkEarly client
    (begin_trace (if believe then header_str headers TRACEPARENT else None)
       (if believe then header_str headers TRACESTATE else None) (Tracing.sample tracing) fresh_trace fresh_span)
    (nonzero (as_duration (Timeouts.downstream_write (Config.timeouts (p_config M p))))).

(** ** [request_filter] *)

Definition resolved_request_class (req : RequestMetadata) (declared inferred : option RequestClass) : RequestClass :=
  if is_upgrade req then Upgrade else default Unknown (or_else declared inferred).

Definition resolved_key_headers (framework : list string) (route : option RouteCache.RouteCache) : list string :=
  let vary := match route ≫= RouteCache.vary with Some v => VaryPolicy.headers v | None => [] end in
  dedup (sort str_le (to_ascii_lowercase <$> (framework ++ vary))).

(** What the filter leaves in the request's context. *)
Record Routing := mkRouting {
  class : RequestClass;
  route_id : option string;
  priority : Priority;
  weight : N;
  route_cache : option RouteCache.RouteCache;
  key_headers : list string;
  coalesce_override : bool;
  spool_enabled : bool;
  cache_active : bool;
  transient_only : bool;
  may_coalesce : bool }.

(** [Ctx::new]. *)
Definition no_routing : Routing :=
  mkRouting Unknown None Normal 1 None [] false false false false false.

(** The second component says whether the request was answered here (refused). *)
Definition request_filter {A} `{FrameworkAdapter A} p (req : RequestHeader) : Routing * bool :=
  let meta := metadata req in
  let hints := classify_request A meta in
  let cfg := p_config M p in
  let route := Policy.resolve M p (request_host req) (req_path req) (req_method req) in
  let class := resolved_request_class meta (route ≫= declared_class M) (Classifier.class hints) in
  let route_cache := route ≫= λ r, Route.cache (r_config M r) in
  let coalesce := route ≫= λ r, Route.coalesce (r_config M r) in
  let coalesce_override := opt_is RouteCoalesce.override_origin coalesce in
  let protecting := bool_decide (Config.mode cfg = Protect) in
  let route_cache_enabled := protecting && CacheDefaults.enabled (Config.cache cfg)
    && default true (route_cache ≫= RouteCache.enabled) in
  let route_coalesce_enabled := protecting
    && default (CoalesceDefaults.enabled (Config.coalesce cfg)) (coalesce ≫= RouteCoalesce.enabled) in
  let spool_enabled := default (Schema.Spool.enabled (Config.spool cfg))
    ((route ≫= λ r, Route.spool (r_config M r)) ≫= RouteSpool.enabled) in
  let spool_enabled := if negb protecting then false else spool_enabled in
  let routing := mkRouting class (r_id M <$> route)
    (match route with Some r => Route.priority (r_config M r) | None => Normal end)
    (match route with Some r => Route.weight (r_config M r) | None => 1 end)
    route_cache (resolved_key_headers (Classifier.key_headers hints) route_cache) coalesce_override spool_enabled in
  if bool_decide (class = Upgrade) && negb (Upgrade.enabled (Config.upgrade cfg)) then (routing false false false, true)
  else
    match evaluate_request meta class (force_bypass hints) route_cache coalesce_override
            route_cache_enabled route_coalesce_enabled with
    | Eligible may_store may_coalesce =>
        let may_store := if coalesce_only hints then false else may_store in
        (routing (may_store || may_coalesce) (negb may_store) may_coalesce, false)
    | Bypass _ => (routing false false false, false)
    end.

(** ** Refusals *)

Definition debug_header p (value : string) (h : HeaderMap) : HeaderMap :=
  if Config.debug_headers (p_config M p) then insert_header "X-Harmost" value h else h.

Definition refuse_upgrade p : ResponseHeader :=
  mkResponseHeader 501 (debug_header p "UPGRADE-DISABLED"
    (insert_header "Connection" "close" (insert_header "Cache-Control" "no-store" no_fields))).

Definition refuse p : ResponseHeader :=
  let overload := Config.overload (p_config M p) in
  let retry_after := N.max (as_secs (as_duration (Overload.retry_after overload))) 1 in
  mkResponseHeader (Overload.status overload) (debug_header p "SHED"
    (insert_header "Cache-Control" "no-store"
      (insert_header "Retry-After" (print_uint retry_after) no_fields))).

(** ** The cache *)

(** What [session.cache.enable] is given. *)
Record CacheSetup := mkSetup { lock : bool; wait_timeout : option Duration; max_file_size : N }.

Definition request_cache_filter p (r : Routing) : option CacheSetup :=
  if negb (cache_active r) then None
  else Some (mkSetup (may_coalesce r) (if may_coalesce r then Some (coalesce_wait M p) else None)
               (as_usize (CacheDefaults.max_body_size (Config.cache (p_config M p))))).

(** The longest path an entry remembers, for purging by it. *)
Definition MAX_PURGEABLE_PATH : N := 512.

Definition purgeable_path (path : string) : string :=
  if len path <=? MAX_PURGEABLE_PATH then path else EmptyString.

(** The primary key and the user tag of the cache key. *)
Definition cache_key_callback p (c : ClientFacts) (r : Routing) (req : RequestHeader) : string * string :=
  let key := CacheKey.build (mkBuilder (fact_scheme c) (route_cache r ≫= RouteCache.query)
    (key_headers r) (Deployment.id (Config.deployment (p_config M p)))) (metadata req) in
  (canonical_string key, purgeable_path (req_path req)).

Definition should_serve_stale (error : option ErrorSource) : bool :=
  match error with None => true | Some e => bool_decide (e = FromUpstream) end.

(** Pingora's [CacheMeta], as the filter builds it. *)
Record CacheMeta := mkMeta {
  fresh_until : N;
  created : N;
  stale_while_revalidate : N;
  stale_if_error : N;
  stored_header : ResponseHeader }.
Definition meta_has_field (m : CacheMeta) (name : string) : bool := contains_key (resp_fields (stored_header m)) name.

Inductive RespCacheable := Cacheable (m : CacheMeta) | Uncacheable.

(** [SystemTime::checked_add], in nanoseconds since the epoch: signed 64-bit seconds. *)
Definition MAX_TIME : N := 9223372036854775807 * 1000000000 + 999999999.
Definition time_add (now : N) (d : Duration) : option N := if now + d <=? MAX_TIME then Some (now + d) else None.

Definition TTL_OVERFLOW : string := "cache TTL exceeds SystemTime range".
Definition COALESCE_OVERFLOW : string := "coalesce timeout exceeds SystemTime range".

(** Whether the response may be kept. *)
Definition sharing (r : Routing) (resp : ResponseHeader) : Shareability :=
  let h := resp_fields resp in
  let meta := mkResponse (resp_status resp) (joined_header_values h "cache-control") (contains_key h "set-cookie")
                (joined_header_values h "vary") in
  evaluate_response meta (route_cache r) (key_headers r) (transient_only r) (coalesce_override r).

Definition response_cache_filter p (r : Routing) (now : N) (resp : ResponseHeader) : result string RespCacheable :=
  let h := resp_fields resp in
  match sharing r resp with
  | Shareable ttl swr sie =>
      until ← ok_or (time_add now ttl) TTL_OVERFLOW;
      Ok (Cacheable (mkMeta until now (clamp U32_MAX (as_secs swr)) (clamp U32_MAX (as_secs sie))
                       (mkResponseHeader (resp_status resp) (remove_header TRANSIENT_HEADER h))))
  | TransientOnly =>
      let freshness := N.max (coalesce_wait M p) (from_millis 1) in
      until ← ok_or (time_add now freshness) COALESCE_OVERFLOW;
      Ok (Cacheable (mkMeta until now 0 0
        (mkResponseHeader (resp_status resp) (insert_header TRANSIENT_HEADER "1" (remove_header TRANSIENT_HEADER h)))))
  | NotShareable _ => Ok Uncacheable
  end.

(** ** What the origin sees *)

Definition upstream_request_filter (c : ClientFacts) (t : RequestTrace) (upstream : RequestHeader) : RequestHeader :=
  let h := req_fields upstream in
  let h := match fact_client_ip c with
           | Some address => insert_header "X-Forwarded-For" (print_ip address) h
           | None => remove_header "X-Forwarded-For" h
           end in
  let h := insert_header "X-Forwarded-Proto" (fact_scheme c) h in
  let h := insert_header TRACEPARENT (outbound_traceparent t) h in
  let h := match tracestate t with
           | Some state => insert_header TRACESTATE state h
           | None => remove_header TRACESTATE h
           end in
  mkRequestHeader (req_method upstream) (req_path upstream) (req_query upstream) (req_authority upstream)
    (remove_header "Forwarded" h).

(** How a connection to an origin address is made. *)
Record PeerOptions := mkPeer {
  tls : option (string * bool * bool);
  alpn : string;
  connection_timeout : option Duration;
  total_connection_timeout : option Duration;
  idle_timeout : option Duration;
  read_timeout : option Duration }.

Definition configure_peer p : PeerOptions :=
  let origin := Config.origin (p_config M p) in
  let t := Config.timeouts (p_config M p) in
  let connect := as_duration (Timeouts.connect t) in
  let idle := as_duration (Timeouts.idle t) in
  mkPeer ((λ x, (OriginTls.sni x, OriginTls.verify_cert x, OriginTls.verify_hostname x)) <$> Origin.tls origin)
    (match Origin.http_version origin with Http1 => "H1" | Http2 => "H2" | Auto => "H2H1" end)
    (nonzero connect) (nonzero connect) (nonzero idle)
    (min_duration (filter (λ d, is_zero d = false)
       [as_duration (Timeouts.first_byte t); idle; as_duration (Timeouts.origin t)])).

(** [Err] is the read timeout of [timeouts.origin]. *)
Definition check_origin_deadline p (origin_started : option N) (now : N) : result unit unit :=
  let timeout := as_duration (Timeouts.origin (Config.timeouts (p_config M p))) in
  refuse_if (negb (is_zero timeout)
             && match origin_started with Some started => timeout <=? now - started | None => false end) tt.

(** ** What the client sees *)

Inductive CachePhase :=
| PhaseHit | PhaseStale | PhaseStaleUpdating | PhaseMiss | PhaseExpired | PhaseBypass
| PhaseLockTimeout
| PhaseOther.

Definition cache_status (phase : CachePhase) (r : Routing) (shed : bool) : string :=
  match phase with
  | PhaseHit => "hit"
  | PhaseStale | PhaseStaleUpdating => "stale"
  | PhaseMiss | PhaseExpired => "miss"
  | PhaseBypass => "bypass"
  | _ => if shed then "shed" else if cache_active r then "miss" else "disabled"
  end.

Definition response_filter p (r : Routing) (shed : bool) (phase : CachePhase) (tag_header : string)
    (resp : ResponseHeader) : ResponseHeader :=
  mkResponseHeader (resp_status resp)
    (debug_header p (to_ascii_uppercase (cache_status phase r shed))
       (remove_header tag_header (remove_header TRANSIENT_HEADER (resp_fields resp)))).
End Filters.
