(* ===== verification/FilterTheorems.v ===== *)
(** * What the filters promise

    The proxy's decisions about one request, end to end: what may be kept and
    whom it is served to, what a client can make the origin believe, and what
    of the inside a client sees. *)

From S2P Require Import Prelude Words Text Units Schema Orders Net.
From S2P Require Import Classifier CacheKey CachePolicy Admission Store Forwarded Policy PolicyTheorems Trace Filters.
Local Open Scope string_scope.
Local Open Scope list_scope.
Local Open Scope N_scope.

(** ** Headers *)

Lemma insert_header_eq name v h : get_all (insert_header name v h) (to_ascii_lowercase name) = [v].
Proof. unfold get_all, insert_header. by rewrite decide_True. Qed.
Lemma insert_header_ne name v h k : k ≠ to_ascii_lowercase name → get_all (insert_header name v h) k = get_all h k.
Proof. intros H. unfold get_all, insert_header. by rewrite decide_False. Qed.
Lemma remove_header_eq name h : get_all (remove_header name h) (to_ascii_lowercase name) = [].
Proof. unfold get_all, remove_header. by rewrite decide_True. Qed.
Lemma remove_header_ne name h k : k ≠ to_ascii_lowercase name → get_all (remove_header name h) k = get_all h k.
Proof. intros H. unfold get_all, remove_header. by rewrite decide_False. Qed.

Lemma contains_key_eq h name : contains_key h name = negb (bool_decide (get_all h name = [])).
Proof. unfold contains_key, get_all. by destruct (h name). Qed.

Lemma key_headers_elem framework route name :
  name ∈ resolved_key_headers framework route ↔
  ∃ n, n ∈ framework ++ match route ≫= RouteCache.vary with Some v => VaryPolicy.headers v | None => [] end
    ∧ name = to_ascii_lowercase n.
Proof.
  unfold resolved_key_headers. rewrite dedup_elem, sort_perm, list_elem_of_fmap. naive_solver.
Qed.

(** The headers of a key are in lower case already. *)
Lemma key_headers_lower framework route :
  to_ascii_lowercase <$> resolved_key_headers framework route = resolved_key_headers framework route.
Proof.
  transitivity (id <$> resolved_key_headers framework route); [|apply list_fmap_id].
  apply Forall_fmap_ext, Forall_forall. intros n (m & _ & ->)%key_headers_elem. apply to_ascii_lowercase_idem.
Qed.

Section FilterTheorems.
Context {M : Matching}.
Implicit Types p : PolicySnapshot M.

(** ** What is asked of the cache *)

(** What the response policy is shown of a response. *)
Definition response_metadata (resp : ResponseHeader) : ResponseMetadata :=
  mkResponse (resp_status resp) (joined_header_values (resp_fields resp) "cache-control")
    (contains_key (resp_fields resp) "set-cookie") (joined_header_values (resp_fields resp) "vary").

(** The parts of the configuration that let a route keep responses. *)
Definition caching_on p (route : option (ResolvedRoute M)) : bool :=
  bool_decide (Config.mode (p_config M p) = Protect) && CacheDefaults.enabled (Config.cache (p_config M p))
  && default true ((route ≫= λ r, Route.cache (r_config M r)) ≫= RouteCache.enabled).

(** When the cache is asked at all, and when it may keep the answer. *)
Lemma cache_active_spec {A} `{FrameworkAdapter A} p req r refused :
  request_filter (A := A) p req = (r, refused) → cache_active r = true →
  let route := Policy.resolve M p (request_host req) (req_path req) (req_method req) in
  let hints := classify_request A (metadata req) in
  Config.mode (p_config M p) = Protect ∧ force_bypass hints = None
  ∧ is_safe_method (metadata req) = true ∧ has_authorization (metadata req) = false
  ∧ (has_cookies (metadata req) = true → overrides (route_cache r) = true ∨ coalesce_override r = true)
  ∧ (storable_in_principle (class r) = true ∨ coalescible_in_principle (class r) = true)
  ∧ key_headers r = resolved_key_headers (Classifier.key_headers hints) (route_cache r)
  ∧ route_cache r = (route ≫= λ r, Route.cache (r_config M r))
  ∧ class r = resolved_request_class (metadata req) (route ≫= declared_class M) (Classifier.class hints)
  ∧ (transient_only r = false →
     caching_on p route = true ∧ storable_in_principle (class r) = true ∧ coalesce_only hints = false).
Proof.
  unfold request_filter, caching_on. cbv zeta.
  set (route := Policy.resolve _ _ _ _ _). set (hints := classify_request A _).
  set (cl := resolved_request_class _ _ _). set (cfg := p_config M p).
  destruct (bool_decide (cl = Upgrade) && _); [intros [= <- <-]; done|].
  destruct (evaluate_request _ _ _ _ _ _ _) as [b|ms mc] eqn:E; [intros [= <- <-]; done|].
  apply eligible_exact in E as (Hb & Hm & Ha & Hc & Hen & Hcl & -> & ->).
  intros [= <- <-]. cbn [cache_active transient_only class key_headers route_cache coalesce_override].
  intros Hact.
  assert (Config.mode cfg = Protect) as Hmode.
  { destruct (bool_decide_reflect (Config.mode cfg = Protect)); [done|]. simpl in Hen. by destruct Hen. }
  split_and!; try done.
  destruct (coalesce_only hints); [done|]. intros Ht%negb_false_iff. apply andb_true_iff in Ht as [H1 H2].
  by rewrite H1.
Qed.

(** An answer that is kept, as against one handed to the requests waiting for it. *)
Definition kept_for_later (m : CacheMeta) : Prop := meta_has_field m TRANSIENT_HEADER = false.

Lemma kept_spec p r now resp m :
  response_cache_filter p r now resp = Ok (Cacheable m) →
  shareable_in_principle (response_metadata resp) (key_headers r) ∧
  (kept_for_later m →
     transient_only r = false
     ∧ (overrides (route_cache r) = true ∨ coalesce_override r = true
        ∨ forbidden (origin_says (response_metadata resp)) = false)
     ∧ ∃ ttl, lifetime (origin_says (response_metadata resp)) (route_cache r) = Some ttl ∧ 0 < ttl
         ∧ fresh_until m = created m + ttl
         ∧ created m = now ∧ resp_status (stored_header m) = resp_status resp
         ∧ resp_fields (stored_header m) = remove_header TRANSIENT_HEADER (resp_fields resp)).
Proof.
  unfold response_cache_filter, sharing. fold (response_metadata resp).
  destruct (evaluate_response_split (response_metadata resp) (route_cache r) (key_headers r)
              (transient_only r) (coalesce_override r)) as [(why & _ & ->)|[Hs ->]]; [done|].
  assert (∀ u, kept_for_later (mkMeta u now 0 0 (mkResponseHeader (resp_status resp)
    (insert_header TRANSIENT_HEADER "1" (remove_header TRANSIENT_HEADER (resp_fields resp))))) → False) as Hno.
  { intros u. unfold kept_for_later, meta_has_field. cbn [stored_header resp_fields].
    change TRANSIENT_HEADER with (to_ascii_lowercase TRANSIENT_HEADER) at 3.
    by rewrite contains_key_eq, insert_header_eq. }
  cbv zeta. set (cc := origin_says _) in *. set (strict := negb _ && negb _).
  destruct (strict && no_store cc) eqn:E1; [done|]. destruct (strict && private cc) eqn:E2; [done|].
  destruct (strict && no_cache cc) eqn:E3; [done|].
  assert (overrides (route_cache r) = true ∨ coalesce_override r = true ∨ forbidden cc = false) as Hov.
  { unfold forbidden. subst strict.
    destruct (overrides _), (coalesce_override r), (no_store cc), (private cc), (no_cache cc); simpl in *; auto. }
  clear E1 E2 E3. destruct (transient_only r).
  { destruct (time_add _ _); [|done]. intros [= <-]. split; [done|]. by intros ?%Hno. }
  destruct (lifetime cc _) as [ttl|] eqn:El; [|done]. unfold is_zero. destruct (N.eqb_spec ttl 0) as [->|Hz].
  { destruct (time_add _ _); [|done]. intros [= <-]. split; [done|]. by intros ?%Hno. }
  unfold time_add. destruct (_ <=? _); [|done]. intros [= <-]. split; [done|]. intros _.
  split; [done|]. split; [done|]. exists ttl. split_and!; try done. lia.
Qed.

(** The two options by which the operator of a route overrides the origin. *)
Definition operator_overrides (route : option (ResolvedRoute M)) : bool :=
  opt_is RouteCache.override_origin (route ≫= λ r, Route.cache (r_config M r))
  || opt_is RouteCoalesce.override_origin (route ≫= λ r, Route.coalesce (r_config M r)).

Lemma routed_coalesce_override {A} `{FrameworkAdapter A} p req :
  coalesce_override (request_filter (A := A) p req).1
  = opt_is RouteCoalesce.override_origin
      (Policy.resolve M p (request_host req) (req_path req) (req_method req) ≫= λ r, Route.coalesce (r_config M r)).
Proof. unfold request_filter. cbv zeta. destruct (_ && _); [done|]. by destruct (evaluate_request _ _ _ _ _ _ _). Qed.

(** C14: What is kept was allowed by everyone who has a say.  A response is kept
    for later requests only in protect mode with caching on for the route, in
    answer to a safe request without credentials whose class may be stored; the
    response sets no cookie, has a cacheable status and varies on nothing its key
    lacks; the request brought no cookie and the origin did not forbid keeping
    it, unless the operator's route overrides the origin, by
    [cache.override_origin] or by [coalesce.override_origin] (the second although
    it is documented to persist nothing, see [coalesce_override_persists]); and it
    is kept exactly for the lifetime the route and the origin agree on. *)
Theorem kept_with_everyones_consent {A} `{FrameworkAdapter A} p req r refused now resp m :
  request_filter (A := A) p req = (r, refused) → cache_active r = true →
  response_cache_filter p r now resp = Ok (Cacheable m) → kept_for_later m →
  let route := Policy.resolve M p (request_host req) (req_path req) (req_method req) in
  caching_on p route = true
  ∧ is_safe_method (metadata req) = true ∧ has_authorization (metadata req) = false
  ∧ (has_cookies (metadata req) = true → operator_overrides route = true)
  ∧ storable_in_principle (class r) = true
  ∧ contains_key (resp_fields resp) "set-cookie" = false
  ∧ resp_status resp ∈ CACHEABLE_STATUSES
  ∧ vary_keyed (response_metadata resp) (key_headers r)
  ∧ (forbidden (origin_says (response_metadata resp)) = true → operator_overrides route = true)
  ∧ ∃ ttl, lifetime (origin_says (response_metadata resp)) (route_cache r) = Some ttl ∧ 0 < ttl
      ∧ fresh_until m = now + ttl.
Proof.
  intros Hr Hact Hresp Hkept route.
  destruct (cache_active_spec p req r refused Hr Hact) as (_ & _ & Hs & Ha & Hc & _ & _ & Hrc & _ & Ht).
  destruct (kept_spec p r now resp m Hresp) as [(H1 & H2 & H3) Hk].
  destruct (Hk Hkept) as (Hto & Hov & ttl & Hl & Hpos & Hu & Hcr & _).
  destruct (Ht Hto) as (Hon & Hst & _).
  pose proof (routed_coalesce_override (A := A) p req) as Hco. rewrite Hr in Hco. cbn [fst] in Hco. fold route in Hco, Hrc.
  assert (overrides (route_cache r) = true ∨ coalesce_override r = true → operator_overrides route = true) as Hoo.
  { unfold operator_overrides, overrides. rewrite Hco, Hrc. intros [E|E]; rewrite E; [done|apply orb_true_r]. }
  split_and!; try done; [by intros Hx; apply Hoo, Hc| |exists ttl; by rewrite Hu, Hcr].
  intros Hf. destruct Hov as [?|[?|Hn]]; [apply Hoo; by left|apply Hoo; by right|congruence].
Qed.

(** ** One entry, many readers *)

(** The headers NextJs keys on depend on the path alone, for a request the cache
    is asked about. *)
Lemma nextjs_key_headers req :
  force_bypass (nextjs_classify_request req) = None →
  Classifier.key_headers (nextjs_classify_request req)
  = if is_static_asset (Classifier.path req) then [] else RSC_KEY_HEADERS.
Proof.
  unfold nextjs_classify_request. destruct (is_upgrade req); [done|]. destruct (in_draft_mode req); [done|].
  destruct (is_server_action req); [done|]. destruct (is_static_asset _); [done|]. by destruct (is_rsc req).
Qed.

Lemma key_parts p c r req c' r' req' :
  (cache_key_callback p c r req).1 = (cache_key_callback p c' r' req').1 →
  CacheKey.build (mkBuilder (fact_scheme c) (route_cache r ≫= RouteCache.query) (key_headers r)
     (Deployment.id (Config.deployment (p_config M p)))) (metadata req)
  = CacheKey.build (mkBuilder (fact_scheme c') (route_cache r' ≫= RouteCache.query) (key_headers r')
     (Deployment.id (Config.deployment (p_config M p)))) (metadata req').
Proof. apply canonical_string_inj. Qed.

(** The header a [Vary] token names, as the key reads it. *)
Definition token_name (token : string) : string := to_ascii_lowercase (trim token).

(** C15: A kept response fits everyone it is served to.  When two requests that
    one policy resolves to one route (whose key lists no header by the name
    [~encoding], which the key uses for itself) ask the cache under the same key,
    whoever's answer was kept varies only on headers on which the two agree byte
    for byte — or on the content coding, on whose normal form they agree — and
    they asked for the same path, with the same method, over the same scheme. *)
Theorem kept_answer_fits_every_reader p c r req c' r' req' now resp m route :
  Policy.resolve M p (request_host req) (req_path req) (req_method req) = route →
  Policy.resolve M p (request_host req') (req_path req') (req_method req') = route →
  (request_filter (A := NextJs) p req).1 = r → (request_filter (A := NextJs) p req').1 = r' →
  cache_active r = true → cache_active r' = true → "~encoding" ∉ key_headers r →
  (cache_key_callback p c r req).1 = (cache_key_callback p c' r' req').1 →
  response_cache_filter p r now resp = Ok (Cacheable m) →
  req_path req = req_path req'
  ∧ to_ascii_uppercase (method_as_str (req_method req)) = to_ascii_uppercase (method_as_str (req_method req'))
  ∧ to_ascii_lowercase (fact_scheme c) = to_ascii_lowercase (fact_scheme c')
  ∧ ∀ vary token, joined_header_values (resp_fields resp) "vary" = Some vary →
      token ∈ split_on "," vary → token_name token ≠ EmptyString →
      if decide (token_name token = "accept-encoding")
      then normalize_accept_encoding (metadata req) = normalize_accept_encoding (metadata req')
      else get_all (req_fields req) (token_name token) = get_all (req_fields req') (token_name token).
Proof.
  intros Hroute Hroute' Hr Hr' Hact Hact' Hnoenc Hkey%key_parts Hresp.
  destruct (request_filter p req) as [r0 x] eqn:E. cbn in Hr. subst r0.
  destruct (request_filter p req') as [r0' x'] eqn:E'. cbn in Hr'. subst r0'.
  destruct (cache_active_spec p req r x E Hact) as (_ & Hfb & _ & _ & _ & _ & Hk & Hrc & _).
  destruct (cache_active_spec p req' r' x' E' Hact') as (_ & Hfb' & _ & _ & _ & _ & Hk' & Hrc' & _).
  rewrite Hroute in Hrc. rewrite Hroute', <-Hrc in Hrc'.
  assert (req_path req = req_path req') as Hpath by by apply (f_equal CacheKey.path) in Hkey.
  assert (key_headers r' = key_headers r) as Hks.
  { rewrite Hk, Hk', Hrc'. f_equal. simpl in *. rewrite !nextjs_key_headers by done. simpl. by rewrite Hpath. }
  assert (to_ascii_lowercase <$> key_headers r = key_headers r) as Hlow by (rewrite Hk; apply key_headers_lower).
  assert (normalize_accept_encoding (metadata req) = normalize_accept_encoding (metadata req')) as Henc.
  { apply (encoding_agree _ _ _ _ Hkey); cbn [variant_headers]; rewrite ?Hks, Hlow; done. }
  split; [done|]. split; [by apply (f_equal CacheKey.method) in Hkey|].
  split; [by apply (f_equal CacheKey.scheme) in Hkey|].
  intros vary token Hvary Htok Hne.
  destruct (kept_spec p r now resp m Hresp) as [(_ & Hv & _) _].
  unfold vary_keyed in Hv. cbn [CachePolicy.vary response_metadata] in Hv. rewrite Hvary in Hv.
  case_decide as He; [done|].
  pose proof (proj1 (Forall_forall _ _) Hv token Htok) as [Hk0|[Hk0|[_ Hin]]]; [done|done|].
  fold (token_name token) in Hin. rewrite Hlow in Hin.
  apply (variant_agree _ _ _ _ _ Hkey); cbn [variant_headers]; rewrite ?Hks, ?Hlow; [intros Heq; by rewrite Heq in Hin|done|done].
Qed.

(** ** Upgrades and observation *)

(** A protocol upgrade never touches the cache: whatever route it matches and
    whatever class the route declares, it stays an upgrade, the cache is neither
    asked nor coalesced on, and it is refused exactly when upgrades are off. *)
Theorem upgrade_stays_an_upgrade {A} `{FrameworkAdapter A} p req :
  is_upgrade (metadata req) = true →
  let '(r, refused) := request_filter (A := A) p req in
  class r = Upgrade ∧ cache_active r = false ∧ may_coalesce r = false ∧ request_cache_filter p r = None
  ∧ refused = negb (Upgrade.enabled (Config.upgrade (p_config M p))).
Proof.
  intros Hup. unfold request_filter, resolved_request_class. cbv zeta. rewrite Hup. simpl.
  destruct (Upgrade.enabled _); simpl; [|done].
  set (ev := evaluate_request _ _ _ _ _ _ _). assert (∃ why, ev = Bypass why) as [why ->]; [|done].
  unfold ev, evaluate_request. destruct (force_bypass _); [by eexists|]. simpl.
  destruct (negb _); [by eexists|]. destruct (has_authorization _); [by eexists|].
  destruct (negb _ && negb _); by eexists.
Qed.

(** In observe mode no request reaches the cache and no body is held back. *)
Lemma observing_is_inert {A} `{FrameworkAdapter A} p req :
  Config.mode (p_config M p) = Observe →
  let '(r, _) := request_filter (A := A) p req in
  cache_active r = false ∧ may_coalesce r = false ∧ spool_enabled r = false ∧ request_cache_filter p r = None.
Proof.
  intros Hm. unfold request_filter. cbv zeta. rewrite Hm. simpl.
  destruct (_ && _); [done|].
  set (ev := evaluate_request _ _ _ _ _ _ _). assert (∃ why, ev = Bypass why) as [why ->]; [|done].
  unfold ev, evaluate_request. destruct (force_bypass _); [by eexists|]. simpl.
  destruct (negb _); [by eexists|]. destruct (has_authorization _); by eexists.
Qed.

(** ** Identity *)

(** The headers in which a client could claim to be someone else. *)
Definition identity_headers : list string :=
  ["x-forwarded-for"; "x-forwarded-proto"; "forwarded"; "traceparent"; "tracestate"].

(** What the origin is sent, header by header. *)
Lemma upstream_fields c t req k :
  get_all (req_fields (upstream_request_filter c t req)) k =
    if decide (k = "forwarded") then []
    else if decide (k = "tracestate") then option_list (tracestate t)
    else if decide (k = "traceparent") then [outbound_traceparent t]
    else if decide (k = "x-forwarded-proto") then [fact_scheme c]
    else if decide (k = "x-forwarded-for") then option_list (print_ip <$> fact_client_ip c)
    else get_all (req_fields req) k.
Proof.
  unfold upstream_request_filter. cbv zeta. cbn [req_fields]. unfold get_all, remove_header at 1.
  change (to_ascii_lowercase "Forwarded") with "forwarded". case_decide; [done|].
  destruct (tracestate t); unfold insert_header, remove_header;
    change (to_ascii_lowercase TRACESTATE) with "tracestate"; (case_decide; [done|]);
    change (to_ascii_lowercase TRACEPARENT) with "traceparent"; (case_decide; [done|]);
    change (to_ascii_lowercase "X-Forwarded-Proto") with "x-forwarded-proto"; (case_decide; [done|]);
    destruct (fact_client_ip c); change (to_ascii_lowercase "X-Forwarded-For") with "x-forwarded-for"; by case_decide.
Qed.

(** Requests that differ at most in the headers that claim an identity. *)
Definition same_but_claims (req req' : RequestHeader) : Prop :=
  ∀ k, k ∉ identity_headers → get_all (req_fields req) k = get_all (req_fields req') k.

(** C16: A client cannot tell the origin who it is.  When the peer is not a trusted
    proxy, the origin is sent the peer's own address and the listener's own
    scheme, whatever the client wrote in the headers that claim otherwise and
    however it changes them, and every other header but the trace's arrives as it
    was sent; and unless [tracing.trust_incoming] is [always], the trace is one of
    this process, whatever the client claims of it. *)
Theorem untrusted_client_cannot_forge p trust peer is_tls req req' fresh_trace fresh_span :
  match peer with Some a => trusts trust a | None => false end = false →
  same_but_claims req req' →
  let sent req :=
    let e := early_request_filter p trust peer is_tls req fresh_trace fresh_span in
    req_fields (upstream_request_filter (client e) (trace e) req) in
  (∀ k, k ∉ ["traceparent"; "tracestate"] → get_all (sent req) k = get_all (sent req') k)
  ∧ get_all (sent req) "x-forwarded-for" = option_list (print_ip <$> peer)
  ∧ get_all (sent req) "x-forwarded-proto" = [scheme_as_str (listener_scheme is_tls)]
  ∧ get_all (sent req) "forwarded" = []
  ∧ (∀ k, k ∉ identity_headers → get_all (sent req) k = get_all (req_fields req) k)
  ∧ (Tracing.trust_incoming (Telemetry.tracing (Config.telemetry (p_config M p))) ≠ TrustAlways →
     (∀ k, get_all (sent req) k = get_all (sent req') k)
     ∧ get_all (sent req) "tracestate" = []
     ∧ ∃ rest, get_all (sent req) "traceparent" = ["00-" +:+ hex (nonzero_id fresh_trace) +:+ rest]).
Proof.
  intros Hpeer Hsame sent. set (tr := Telemetry.tracing (Config.telemetry (p_config M p))).
  set (e := λ q, early_request_filter p trust peer is_tls q fresh_trace fresh_span).
  assert (∀ q, client (e q) = mkFacts peer (scheme_as_str (listener_scheme is_tls)) false) as Hc.
  { intros q. unfold e, early_request_filter, Forwarded.resolve. cbv zeta. by rewrite Hpeer. }
  assert (Tracing.trust_incoming tr ≠ TrustAlways →
    ∀ q, trace (e q) = begin_trace None None (Tracing.sample tr) fresh_trace fresh_span) as Ht.
  { intros Hno q. unfold e, early_request_filter, Forwarded.resolve. cbv zeta. rewrite Hpeer. simpl. fold tr.
    assert (believe_inbound (Tracing.trust_incoming tr) false = false) as ->; [|done]. by destruct (Tracing.trust_incoming tr). }
  assert (∀ q k, get_all (sent q) k = _) as Hsent by (intros q k; unfold sent; cbv zeta; fold (e q); rewrite upstream_fields, Hc; reflexivity).
  assert (∀ q k, k ∉ identity_headers → get_all (sent q) k = get_all (req_fields q) k) as Hother.
  { intros q k Hk. rewrite Hsent. by repeat (case_decide; [subst k; destruct Hk; set_solver|]). }
  assert (∀ k, k ∉ ["traceparent"; "tracestate"] → get_all (sent req) k = get_all (sent req') k) as Hsame'.
  { intros k Hk. destruct (decide (k ∈ identity_headers)) as [Hi|Hi]; [|rewrite !Hother by done; by apply Hsame].
    rewrite !Hsent. repeat (case_decide; [first [done|subst k; destruct Hk; set_solver]|]). by exfalso; set_solver. }
  split_and!; [done|by rewrite Hsent..|by apply Hother|].
  intros Hno. specialize (Ht Hno). split_and!.
  - intros k. destruct (decide (k ∈ ["traceparent"; "tracestate"])) as [Hk|Hk]; [|by apply Hsame'].
    rewrite !Hsent, !Ht. repeat (case_decide; [done|]). by exfalso; set_solver.
  - by rewrite Hsent, Ht.
  - rewrite Hsent, Ht. simpl. by eexists.
Qed.

(** Nothing of the inside is shown: the response a client gets is the origin's
    (or the cache's) with its status and headers, except that the marker of
    transient entries and the header of invalidation tags are gone, and that
    [X-Harmost] tells the cache's part exactly when the operator asked for it. *)
Theorem client_sees_no_internals p r is_shed phase tag_header resp k :
  let out := response_filter p r is_shed phase tag_header resp in
  resp_status out = resp_status resp ∧
  get_all (resp_fields out) k =
    if bool_decide (k = "x-harmost") && Config.debug_headers (p_config M p)
    then [to_ascii_uppercase (cache_status phase r is_shed)]
    else if bool_decide (k ∈ [TRANSIENT_HEADER; to_ascii_lowercase tag_header]) then []
    else get_all (resp_fields resp) k.
Proof.
  cbv zeta. split; [done|]. unfold response_filter, debug_header. cbn [resp_fields].
  assert (get_all (remove_header tag_header (remove_header TRANSIENT_HEADER (resp_fields resp))) k
    = if bool_decide (k ∈ [TRANSIENT_HEADER; to_ascii_lowercase tag_header]) then [] else get_all (resp_fields resp) k) as Hr.
  { unfold get_all, remove_header. change (to_ascii_lowercase TRANSIENT_HEADER) with TRANSIENT_HEADER.
    case_bool_decide as H; repeat case_decide; subst; try done; set_solver. }
  destruct (Config.debug_headers _); [|by rewrite andb_false_r]. rewrite andb_true_r.
  unfold get_all, insert_header at 1. change (to_ascii_lowercase "X-Harmost") with "x-harmost".
  destruct (decide (k = "x-harmost")) as [H|H]; [by rewrite (bool_decide_true _ H)|].
  rewrite (bool_decide_false _ H). exact Hr.
Qed.
End FilterTheorems.

(** ** Witnesses *)

Definition field (name value : string) : HeaderMap → HeaderMap := insert_header name value.
Definition product_page (fields : HeaderMap) : RequestHeader :=
  mkRequestHeader GET "/products/7" None None (field "host" "shop.example" fields).
Definition french (fields : HeaderMap) : HeaderMap := field "accept-language" "fr" fields.
Definition page_response : ResponseHeader :=
  mkResponseHeader 200 (field "vary" "Accept-Language" (field "cache-control" "no-cache" no_fields)).
Definition sample_facts : ClientFacts := mkFacts None "https" false.

Definition french_routing : Routing :=
  (request_filter (A := NextJs) sample_snapshot (product_page (french no_fields))).1.
Definition kept_page : result string RespCacheable :=
  response_cache_filter sample_snapshot french_routing 1000 page_response.

Lemma kept_with_everyones_consent_witness :
  ∃ m, kept_page = Ok (Cacheable m) ∧ kept_for_later m ∧
    ∃ ttl, lifetime (origin_says (response_metadata page_response)) (route_cache french_routing) = Some ttl
      ∧ 0 < ttl ∧ fresh_until m = 1000 + ttl.
Proof.
  destruct kept_page as [[m|]|] eqn:E; [|vm_compute in E; discriminate..].
  assert (kept_for_later m) as Hk by (vm_compute in E; injection E as <-; vm_compute; reflexivity).
  exists m. split; [reflexivity|]. split; [exact Hk|].
  apply (kept_with_everyones_consent (A := NextJs) sample_snapshot (product_page (french no_fields))
    french_routing false 1000 page_response m); [vm_compute; reflexivity|vm_compute; reflexivity|exact E|exact Hk].
Defined.

Lemma kept_answer_fits_every_reader_witness :
  ∃ m, kept_page = Ok (Cacheable m) ∧
    get_all (req_fields (product_page (french no_fields))) "accept-language"
    = get_all (req_fields (product_page (french (field "user-agent" "x" no_fields)))) "accept-language".
Proof.
  destruct kept_page as [[m|]|] eqn:E; [|vm_compute in E; discriminate..]. exists m. split; [reflexivity|].
  destruct (kept_answer_fits_every_reader sample_snapshot sample_facts french_routing (product_page (french no_fields))
    sample_facts french_routing (product_page (french (field "user-agent" "x" no_fields))) 1000 page_response m
    (Policy.resolve sample_matching sample_snapshot "shop.example" "/products/7" GET)) as (_ & _ & _ & H);
    [vm_compute; reflexivity..| |vm_compute; reflexivity|exact E|].
  { assert (bool_decide ("~encoding" ∈ key_headers french_routing) = false) as Hb by (vm_compute; reflexivity).
    by apply bool_decide_eq_false in Hb. }
  specialize (H "Accept-Language" "Accept-Language" eq_refl (list_elem_of_here _ _) ltac:(vm_compute; discriminate)).
  destruct (decide (token_name "Accept-Language" = "accept-encoding")) as [Hd|_]; [vm_compute in Hd; discriminate|].
  exact H.
Defined.

Definition forged : HeaderMap :=
  field "x-forwarded-for" "10.0.0.1" (field "forwarded" "for=10.0.0.2" (field "x-forwarded-proto" "https" no_fields)).

Lemma untrusted_client_cannot_forge_witness :
  get_all (req_fields (product_page forged)) "x-forwarded-for" = ["10.0.0.1"] ∧
  let e := early_request_filter sample_snapshot sample_policy (Some (V4 134744072)) false (product_page forged) [1] [2] in
  get_all (req_fields (upstream_request_filter (client e) (trace e) (product_page forged))) "x-forwarded-for" = ["8.8.8.8"].
Proof.
  split; [vm_compute; reflexivity|]. cbv zeta.
  destruct (untrusted_client_cannot_forge sample_snapshot sample_policy (Some (V4 134744072)) false
    (product_page forged) (product_page no_fields) [1] [2]) as (_ & H & _).
  - vm_compute. reflexivity.
  - intros k Hk. unfold get_all, product_page, forged, field, insert_header. cbn [req_fields].
    repeat case_decide; try reflexivity; destruct Hk; subst; vm_compute; repeat (left || right).
  - exact (eq_trans H ltac:(vm_compute; reflexivity)).
Defined.

Lemma upgrade_stays_an_upgrade_witness :
  is_upgrade (metadata (product_page (field "upgrade" "websocket" no_fields))) = true ∧
  cache_active (request_filter (A := NextJs) sample_snapshot (product_page (field "upgrade" "websocket" no_fields))).1 = false.
Proof.
  split; [vm_compute; reflexivity|].
  pose proof (upgrade_stays_an_upgrade (A := NextJs) sample_snapshot (product_page (field "upgrade" "websocket" no_fields))
    ltac:(vm_compute; reflexivity)) as H.
  destruct (request_filter _ _) as [r refused]. apply H.
Defined.
