(* ===== verification/Proxy.v ===== *)
(** * A request's life in the proxy ([src/src/proxy/mod.rs])

    The filters that take and give back what a request holds: admission, the
    choice of a backend, the retry budget, the spool, and the end.  The live
    state is the one the operator's endpoints read ([AdminEndpoint.Live]); a request is
    its context.  Pingora calls the filters; what it decides itself (the phase
    of its cache, whether an error may be retried, the response it wrote) is an
    argument.  Clocks are arguments too: [now] is the monotonic clock in
    nanoseconds, [ms] the pool's clock, [wall] the time since the epoch. *)

From S2P Require Import Prelude Words Text Units Schema Net.
From S2P Require Import Classifier Semaphores Limiter Admission Store BodySpool Retries Breakers Upstream Forwarded Policy.
From S2P Require Import AccessLog Spans Trace AdminEndpoint Filters.
Local Open Scope string_scope.
Local Open Scope list_scope.
Local Open Scope N_scope.

(** ** The context *)

(** The source's [Ctx], its fields grouped by what they are about: the origin
    attempts, and what the request holds until it is over. *)
Record Attempt := mkAttempt {
  upstream : option string;
  origin_started : option N;
  origin_wall_started : option N;
  origin_finished_ms : option N;
  origin_slot : option InFlightGuard;
  attempts : N;
  outcome_recorded : bool }.

Record Holdings := mkHoldings {
  permit : option (list Permit);
  upgrade_permit : option N;
  permit_released_at : option string;
  spool : option Spool;
  spool_outcome : option SpoolOutcome;
  shed : bool }.

Section Proxy.
Context {Sem : Type} `{S : !Semaphore Sem} {M : Matching}.

Record Ctx := mkCtx {
  pinned : PolicySnapshot M;
  started : N;
  wall_started : N;
  facts : ClientFacts;
  trace : RequestTrace;
  routing : Routing;
  holds : Holdings;
  attempt : Attempt }.

Definition no_attempt : Attempt := mkAttempt None None None None None 0 false.
Definition no_holdings : Holdings := mkHoldings None None None None None false.

(** [new_ctx]: the policy of the moment is pinned. *)
Definition new_ctx (now : N) (wall : N) (fresh_trace : TraceId) (fresh_span : SpanId)
    (l : Live (Sem := Sem) (M := M)) : Ctx :=
  let p := policy l in
  mkCtx p now wall (mkFacts None "http" false)
    (begin_trace None None (Tracing.sample (Telemetry.tracing (Config.telemetry (p_config M p)))) fresh_trace fresh_span)
    no_routing no_holdings no_attempt.

Definition with_early (e : Early) (c : Ctx) : Ctx :=
  mkCtx (pinned c) (started c) (wall_started c) (Filters.client e) (Filters.trace e) (routing c) (holds c) (attempt c).
Definition with_routing (r : Routing) (c : Ctx) : Ctx :=
  mkCtx (pinned c) (started c) (wall_started c) (facts c) (trace c) r (holds c) (attempt c).
Definition with_holds (h : Holdings) (c : Ctx) : Ctx :=
  mkCtx (pinned c) (started c) (wall_started c) (facts c) (trace c) (routing c) h (attempt c).
Definition with_attempt (a : Attempt) (c : Ctx) : Ctx :=
  mkCtx (pinned c) (started c) (wall_started c) (facts c) (trace c) (routing c) (holds c) a.
Definition with_trace (t : RequestTrace) (c : Ctx) : Ctx :=
  mkCtx (pinned c) (started c) (wall_started c) (facts c) t (routing c) (holds c) (attempt c).

Definition with_shed (c : Ctx) : Ctx :=
  let h := holds c in
  with_holds (mkHoldings (permit h) (upgrade_permit h) (permit_released_at h) (spool h) (spool_outcome h) true) c.
Definition with_permit (ps : option (list Permit)) (c : Ctx) : Ctx :=
  let h := holds c in
  with_holds (mkHoldings ps (upgrade_permit h) (permit_released_at h) (spool h) (spool_outcome h) (shed h)) c.
Definition with_upgrade (u : option N) (c : Ctx) : Ctx :=
  let h := holds c in
  with_holds (mkHoldings (permit h) u (permit_released_at h) (spool h) (spool_outcome h) (shed h)) c.
Definition with_released (at_ : option string) (c : Ctx) : Ctx :=
  let h := holds c in
  with_holds (mkHoldings (permit h) (upgrade_permit h) at_ (spool h) (spool_outcome h) (shed h)) c.
Definition with_spool (s : option Spool) (outcome : option SpoolOutcome) (c : Ctx) : Ctx :=
  let h := holds c in
  with_holds (mkHoldings (permit h) (upgrade_permit h) (permit_released_at h) s outcome (shed h)) c.
Definition with_slot (slot : option InFlightGuard) (c : Ctx) : Ctx :=
  let a := attempt c in
  with_attempt (mkAttempt (upstream a) (origin_started a) (origin_wall_started a) (origin_finished_ms a)
    slot (attempts a) (outcome_recorded a)) c.

(** The parts of the live state these filters change. *)
Definition with_admission (c : AdmissionController) (h : Heap Sem) (l : Live (M := M)) : Live :=
  mkLive (policy l) c h (upstreams l) (store l) (AdminEndpoint.spool l) (upgrades l) (retry l) (drain l).
Definition with_pool (p : UpstreamPool) (l : Live (Sem := Sem) (M := M)) : Live :=
  mkLive (policy l) (ctl l) (heap l) p (store l) (AdminEndpoint.spool l) (upgrades l) (retry l) (drain l).
Definition with_budget (b : SpoolBudget) (l : Live (Sem := Sem) (M := M)) : Live :=
  mkLive (policy l) (ctl l) (heap l) (upstreams l) (store l) b (upgrades l) (retry l) (drain l).
Definition with_upgrades (u : Limiter Sem) (l : Live (M := M)) : Live :=
  mkLive (policy l) (ctl l) (heap l) (upstreams l) (store l) (AdminEndpoint.spool l) u (retry l) (drain l).
Definition with_retry (r : RetryBudget) (l : Live (Sem := Sem) (M := M)) : Live :=
  mkLive (policy l) (ctl l) (heap l) (upstreams l) (store l) (AdminEndpoint.spool l) (upgrades l) r (drain l).

Definition cfg_of (c : Ctx) : Config.Config := p_config M (pinned c).

(** ** Admission: [proxy_upstream_filter] *)

(** [Ok(true)], [Ok(false)] with the response written, or parked. *)
Inductive Admitting :=
| Proceed (c : Ctx) (l : Live (Sem := Sem) (M := M))
| Answered (resp : ResponseHeader) (c : Ctx) (l : Live (Sem := Sem) (M := M))
| AwaitAdmission (p : Admission.Pending) (c : Ctx) (l : Live (Sem := Sem) (M := M))
| AwaitUpgrade (ticket units : N) (c : Ctx) (l : Live (Sem := Sem) (M := M)).

Definition turn_away (c : Ctx) (l : Live) : Admitting := Answered (refuse (pinned c)) (with_shed c) l.

(** What follows [admit(..).await]. *)
Definition on_admission (progress : Progress Sem) (ctl : AdmissionController) (c : Ctx) (l : Live) : Admitting :=
  match progress with
  | Decided (AdmittedWith ps) h =>
      let c := with_permit (Some ps) c in
      let c := if spool_enabled (routing c)
               then with_spool (Some (new_spool (as_usize (Schema.Spool.max_body (Config.spool (cfg_of c))))))
                      (spool_outcome (holds c)) c
               else c in
      Proceed c (with_admission ctl h l)
  | Decided Exempt h => Proceed c (with_admission ctl h l)
  | Decided (Shed _) h => turn_away c (with_admission ctl h l)
  | Await p h => AwaitAdmission p c (with_admission ctl h l)
  end.

Definition proxy_upstream_filter (now : N) (phase : CachePhase) (c : Ctx) (l : Live) : Admitting :=
  let r := routing c in
  let lock_timeout := match phase with PhaseLockTimeout => true | _ => false end in
  if lock_timeout && bool_decide (CoalesceDefaults.on_timeout (Config.coalesce (cfg_of c)) = StaleOrShed)
  then turn_away c l
  else if bool_decide (class r = Upgrade) then
    match acquire_start 1 (upgrades l) with
    | Limiter.Granted u x => Proceed (with_upgrade (Some u) c) (with_upgrades x l)
    | Limiter.Refused _ x => turn_away c (with_upgrades x l)
    | Limiter.Parked t u x => AwaitUpgrade t u c (with_upgrades x l)
    end
  else if bool_decide (Config.mode (cfg_of c) = Observe) then Proceed c l
  else
    let '(route, (ctl, h)) :=
      match route_id r with
      | Some id => limiter_for M (pinned c) id (ctl l) (heap l)
      | None => (None, (ctl l, heap l))
      end in
    on_admission (admit_request now (class r) route (priority r) (weight r) ctl h) ctl c l.

(** The await ended; or the client went away during it. *)
Definition admission_resumed (now : N) (p : Admission.Pending) (w : Wait Sem) (c : Ctx) (l : Live) : Admitting :=
  on_admission (admit_resume now p w (heap l)) (ctl l) c l.
Definition admission_abandoned (p : Admission.Pending) (l : Live (M := M)) : Live :=
  with_admission (ctl l) (admit_abandon p (heap l)) l.

(** ** The origin *)

Definition release_origin_slot (c : Ctx) (l : Live) : Ctx * Live :=
  match origin_slot (attempt c) with
  | None => (c, l)
  | Some g => (with_slot None c, with_pool (drop_guard g (upstreams l)) l)
  end.

(** [NoSocket] is the panic of a backend without addresses. *)
Inductive PeerError := NoUpstream | NoSocket.
Record Peer := mkPeerAt { socket : SocketAddr; options : PeerOptions }.

Definition upstream_peer (now ms : N) (wall : N) (path : string) (fresh_span : SpanId) (c : Ctx) (l : Live) :
    result PeerError Peer * Ctx * Live :=
  match select_at path ms (upstreams l) with
  | (None, pool) => (Err NoUpstream, c, with_pool pool l)
  | (Some sel, pool) =>
      let key := if bool_decide (strategy pool = HashByPath) then Some path else None in
      match socket_for key (backend sel) with
      | (None, b) => (Err NoSocket, c, with_pool (set_backend b pool) l)
      | (Some socket, b) =>
          let l := with_pool (set_backend b pool) l in
          let l := with_retry (record_attempt ms (retry l)) l in
          let '(c, l) := release_origin_slot c l in
          let '(g, pool) := enter_selected sel (upstreams l) in
          let a := attempt c in
          let c := with_attempt (mkAttempt (Some (address b)) (Some now) (Some wall) (origin_finished_ms a) (Some g)
                     (clamp U32_MAX (attempts a + 1)) false) c in
          let t := trace c in
          let c := with_trace (mkTrace (request_trace_id t) (parent_span_id t) (request_span_id t)
                     (Some (nonzero_id fresh_span)) (sampled t) (continued t) (tracestate t)) c in
          (Ok (mkPeerAt socket (configure_peer (pinned c))), c, with_pool pool l)
      end
  end.

(** Exactly one outcome per attempt. *)
Definition record_origin_outcome (ms : N) (ok : bool) (c : Ctx) (l : Live) : Ctx * Live :=
  let a := attempt c in
  if outcome_recorded a then (c, l)
  else
    match origin_slot a with
    | None => (c, l)
    | Some g =>
        (with_attempt (mkAttempt (upstream a) (origin_started a) (origin_wall_started a) (origin_finished_ms a)
           (origin_slot a) (attempts a) true) c,
         with_pool (record_outcome ms (backend_id g) (probe_token g) ok (upstreams l)) l)
    end.

Definition decide_retry (ms : N) (method : Method) (c : Ctx) (l : Live (Sem := Sem) (M := M)) : RetryDecision * Live :=
  if negb (Retries.enabled (retry l)) then (Ineligible, l)
  else if eligible method (class (routing c)) then
    let '(decision, b) := charge ms (attempts (attempt c)) (retry l) in (decision, with_retry b l)
  else (Ineligible, l).

(** Whether the error is to be retried. *)
Definition fail_to_connect (ms : N) (method : Method) (c : Ctx) (l : Live) : bool * Ctx * Live :=
  let '(c, l) := record_origin_outcome ms false c l in
  let '(decision, l) := decide_retry ms method c l in
  (allowed decision, c, l).

(** [decide_reuse] is Pingora's: the error's retry once it is known whether the
    connection was reused and its request can be sent again. *)
Definition error_while_proxy (ms : N) (method : Method) (decide_reuse : bool → bool)
    (client_reused buffer_truncated : bool) (c : Ctx) (l : Live) : bool * Ctx * Live :=
  let '(c, l) := record_origin_outcome ms false c l in
  let retry := decide_reuse (client_reused && negb buffer_truncated) in
  if retry then
    let '(decision, l) := decide_retry ms method c l in (allowed decision, c, l)
  else (false, c, l).

(** ** Bodies *)

Definition is_server_error (status : N) : bool := (500 <=? status) && (status <? 600).

Definition upstream_response_filter (now ms status : N) (c : Ctx) (l : Live) : result unit unit * Ctx * Live :=
  let a := attempt c in
  let l := match origin_slot a, origin_started a with
           | Some g, Some started =>
               with_pool (observe_latency (backend_id g) (clamp U64_MAX (as_micros (now - started))) (upstreams l)) l
           | _, _ => l
           end in
  let '(c, l) := record_origin_outcome ms (negb (is_server_error status)) c l in
  (check_origin_deadline (pinned c) (origin_started (attempt c)) now, c, l).

Definition drop_permit (c : Ctx) (l : Live) : Ctx * Live :=
  (with_permit None c,
   match permit (holds c) with Some ps => with_admission (ctl l) (drop_permits ps (heap l)) l | None => l end).

Definition released_at (c : Ctx) : string :=
  match spool (holds c) with Some s => if is_active s then "origin_end" else "body_end" | None => "body_end" end.

Definition upstream_response_body_filter (now : N) (end_of_stream : bool) (c : Ctx) (l : Live) :
    result unit unit * Ctx * Live :=
  match check_origin_deadline (pinned c) (origin_started (attempt c)) now with
  | Err e => (Err e, c, l)
  | Ok _ =>
      if end_of_stream then
        let a := attempt c in
        let c := with_attempt (mkAttempt (upstream a) (origin_started a) (origin_wall_started a)
                   ((λ t, as_millis (now - t)) <$> origin_started a) (origin_slot a) (attempts a) (outcome_recorded a)) c in
        let c := match permit (holds c) with Some _ => with_released (Some (released_at c)) c | None => c end in
        let '(c, l) := drop_permit c l in
        let '(c, l) := release_origin_slot c l in
        (Ok tt, c, l)
      else (Ok tt, c, l)
  end.

(** What is written downstream in place of the chunk. *)
Definition response_body_filter (was_upgraded : bool) (body : option string) (end_of_stream : bool) (c : Ctx) (l : Live) :
    option string * Ctx * Live :=
  match spool (holds c) with
  | None => (body, c, l)
  | Some s =>
      if was_upgraded then (body, c, l)
      else
        let '(body, s', b) := offer body end_of_stream s (AdminEndpoint.spool l) in
        let outcome := if is_active s && negb (is_active s') then Some (default Complete (gave_up s'))
                       else spool_outcome (holds c) in
        (body, with_spool (Some s') outcome c, with_budget b l)
  end.

(** ** The end: [logging] *)

(** What Pingora knows of the exchange when it is over. *)
Record Exchange := mkExchange {
  request : RequestHeader;
  written_status : option N;
  phase : CachePhase;
  ended : N;
  wall_ended : N }.

Definition access_entry (x : Exchange) (c : Ctx) : AccessLog :=
  let a := attempt c in
  let origin_ms := match origin_finished_ms a, origin_started a with
                   | Some ms, _ => ms
                   | None, Some t => as_millis (ended x - t)
                   | None, None => 0
                   end in
  let t := trace c in
  mkLog (method_as_str (req_method (request x))) (req_path (request x)) (default "-" (route_id (routing c)))
    (class_as_str (class (routing c))) (cache_status (phase x) (routing c) (shed (holds c))) (upstream a)
    (match fact_client_ip (facts c) with Some ip => print_ip ip | None => "-" end) (fact_scheme (facts c))
    (default 0 (written_status x)) (shed (holds c)) origin_ms (as_millis (ended x - started c))
    (default "-" (permit_released_at (holds c)))
    (match spool_outcome (holds c) with Some o => outcome_as_str o | None => "-" end)
    (hex (request_trace_id t)) (hex (request_span_id t)) (continued t) (p_generation M (pinned c)).

Definition access_line (x : Exchange) (c : Ctx) : string :=
  match Logging.format (Telemetry.logging (Config.telemetry (cfg_of c))) with
  | Schema.Json => to_json (access_entry x c)
  | LogText => to_text (access_entry x c)
  end.

(** [record_spans]. *)
Definition str_attr (k v : string) : Attr := mkAttr k (Str v).
Definition int_attr (k : string) (n : N) : Attr := mkAttr k (Int (Z.of_N n)).
Definition I64_MAX : N := 9223372036854775807.

Definition record_spans (x : Exchange) (c : Ctx) : list SpanRecord :=
  let e := access_entry x c in
  let t := trace c in
  let status := AccessLog.status e in
  let name := AccessLog.method e +:+ " " +:+ AccessLog.route e in
  let error := (500 <=? status) || shed (holds c) in
  let origin :=
    match origin_span_id t, origin_wall_started (attempt c) with
    | Some origin_span, Some from =>
        let until := default (wall_ended x) (time_add from (from_millis (clamp U64_MAX (AccessLog.origin_ms e)))) in
        [mkSpan (request_trace_id t) origin_span (Some (request_span_id t)) (name +:+ " origin") Client
           (unix_nanos (Some from)) (unix_nanos (Some until)) error
           [str_attr "http.request.method" (AccessLog.method e);
            str_attr "server.address" (default "-" (AccessLog.upstream e));
            str_attr "harmost.route" (AccessLog.route e);
            int_attr "http.response.status_code" status]]
    | _, _ => []
    end in
  origin ++
  [mkSpan (request_trace_id t) (request_span_id t) (parent_span_id t) name Server
     (unix_nanos (Some (wall_started c))) (unix_nanos (Some (wall_ended x))) error
     [str_attr "http.request.method" (AccessLog.method e);
      str_attr "url.path" (AccessLog.path e);
      str_attr "url.scheme" (AccessLog.scheme e);
      str_attr "server.address" (request_host (request x));
      str_attr "client.address" (AccessLog.client e);
      int_attr "http.response.status_code" status;
      str_attr "harmost.route" (AccessLog.route e);
      str_attr "harmost.class" (AccessLog.class e);
      str_attr "harmost.cache" (AccessLog.cache e);
      mkAttr "harmost.shed" (Bool (shed (holds c)));
      str_attr "harmost.permit_released" (AccessLog.permit_released_at e);
      str_attr "harmost.spool" (AccessLog.spool e);
      int_attr "harmost.config_generation" (clamp I64_MAX (p_generation M (pinned c)))]].

(** Everything still held goes back. *)
Definition logging (exporting : bool) (x : Exchange) (c : Ctx) (l : Live) : string * list SpanRecord * Ctx * Live :=
  let line := access_line x c in
  let spans := if exporting && sampled (trace c) then record_spans x c else [] in
  let '(c, l) := drop_permit c l in
  let l := match spool (holds c) with
           | Some s => with_budget (release_all s (AdminEndpoint.spool l)).2 l | None => l end in
  let c := with_spool None (spool_outcome (holds c)) c in
  let l := match upgrade_permit (holds c) with
           | Some u => with_upgrades (Limiter.release u (upgrades l)) l | None => l end in
  let c := with_upgrade None c in
  let l := match route_id (routing c) with
           | Some id => let '(_, (ctl, h)) := limiter_for M (pinned c) id (ctl l) (heap l) in with_admission ctl h l
           | None => l
           end in
  let '(c, l) := release_origin_slot c l in
  (line, spans, c, l).
End Proxy.
