(* ===== verification/ProxyTheorems.v ===== *)
(** * What a request holds, and that it gives it back

    Every request in the proxy, over the live state they share: the permits,
    backend slots, spool bytes and upgrade permits out are exactly those the
    requests hold, whatever the interleaving of the filters, of waits that end
    or are abandoned, and of the changes other components make. *)

From stdpp Require Import sorting.
From S2P Require Import Prelude Words Text Units Schema Net.
From S2P Require Import Classifier Semaphores Limiter Admission Store BodySpool Retries Breakers Upstream UpstreamTheorems Forwarded Policy.
From S2P Require Import AccessLog Spans Trace AdminEndpoint Filters Proxy.
Local Open Scope string_scope.
Local Open Scope list_scope.
Local Open Scope N_scope.

(** ** A pool's slots *)

(** Each backend's count is the guards held for it. *)
Definition pool_slots (p : UpstreamPool) (gs : list InFlightGuard) : Prop :=
  ∀ i s, states p !! i = Some s → in_flight s = held i gs.

Lemma slots_steady p gs id f :
  (∀ s, in_flight (f s) = in_flight s) → pool_slots p gs → pool_slots (update id f p) gs.
Proof.
  intros Hf H i s'. rewrite states_update. intros (s & Hs & ->)%fmap_Some.
  rewrite <-(H i s Hs). case_decide; [apply Hf|done].
Qed.

Lemma slots_perm p gs gs' : gs ≡ₚ gs' → pool_slots p gs → pool_slots p gs'.
Proof.
  intros Hp H i s Hs. rewrite (H i s Hs). unfold held. f_equal.
  by apply Permutation_length, filter_Permutation.
Qed.

Lemma slots_take p gs g :
  N.of_nat (length gs) < U64_MAX → pool_slots p gs →
  pool_slots (enter_attempt (backend_id g) (probe_token g) p).2 (g :: gs).
Proof.
  intros Hl H i s'. unfold enter_attempt. cbn [snd]. rewrite states_update, held_cons.
  intros (s & Hs & ->)%fmap_Some. pose proof (H i s Hs) as Hh. pose proof (held_le i gs).
  destruct (decide (i = backend_id g)) as [->|Hne].
  - rewrite decide_True by done. simpl. rewrite Hh, wrapping_add_small by lia. lia.
  - by rewrite decide_False.
Qed.

Lemma slots_give p gs g :
  N.of_nat (length gs) < U64_MAX → pool_slots p (g :: gs) → pool_slots (drop_guard g p) gs.
Proof.
  intros Hl H i s'. unfold drop_guard. rewrite states_update.
  intros (s & Hs & ->)%fmap_Some. pose proof (H i s Hs) as Hh. rewrite held_cons in Hh.
  pose proof (held_le i gs). destruct (decide (i = backend_id g)) as [->|Hne].
  - rewrite decide_True in Hh by done. simpl. rewrite wrapping_sub_small; lia.
  - rewrite decide_False in Hh by done. simpl. lia.
Qed.

Lemma slots_states p p' gs : states p' = states p → pool_slots p gs → pool_slots p' gs.
Proof. intros E H i s. rewrite E. apply H. Qed.

Lemma slots_pick l path p gs : pool_slots p gs → pool_slots (ordinary (pick l path p)).2 gs.
Proof. apply slots_states. apply pick_states. Qed.

Lemma slots_spend ms l p gs : pool_slots p gs → pool_slots (spend_probe ms l p).2 gs.
Proof.
  revert p. induction l as [|b l IH]; intros p H; cbn [spend_probe]; [done|].
  destruct (states p !! id b) as [s|]; [|by apply IH].
  destruct (Breakers.allowance ms (breaker s)) as [[| |token] br]; cbn [snd].
  - apply IH. by apply slots_steady.
  - by apply slots_steady.
  - by apply slots_steady.
Qed.

(** Choosing a backend takes no slot. *)
Lemma slots_select path ms p gs : pool_slots p gs → pool_slots (select_at path ms p).2 gs.
Proof.
  intros H. unfold select_at. destruct (bool_decide (backends p = [])); [done|].
  destruct (bool_decide (healthy_backends p = [])); [by apply slots_pick|].
  destruct (max_ejected p =? 0); [by apply slots_pick|].
  pose proof (slots_spend ms (ejected_backends p) p gs H) as Hs.
  destruct (spend_probe ms _ p) as [[sel|] p']; cbn [snd] in *; [done|].
  destruct (_ <? _); [by apply slots_pick|]. case_bool_decide; by apply slots_pick.
Qed.

Lemma slots_refresh dns p gs : pool_slots p gs → pool_slots (refresh_all dns p).2 gs.
Proof.
  intros H. unfold refresh_all. set (bs := backends p) in *. clearbody bs.
  assert (pool_slots (0, p).2 gs) as H0 by done. revert H0. generalize (0, p). clear H.
  induction bs as [|b bs IH]; intros acc H; cbn [foldl]; [done|]. apply IH.
  destruct (dns b) as [lookup|]; [|done]. by destruct (refresh lookup b) as [[[]|] b'].
Qed.

(** ** Spools *)

(** The budget counts what the live spools have reserved. *)
Definition spools_ok (b : SpoolBudget) (ss : list Spool) : Prop :=
  used b = sum_N (reserved <$> ss) ∧ used b <= limit b ∧ limit b <= U64_MAX ∧ Forall spool_ok ss.

Lemma spools_perm b ss ss' : ss ≡ₚ ss' → spools_ok b ss → spools_ok b ss'.
Proof. intros Hp. unfold spools_ok. by rewrite Hp. Qed.

Lemma spools_new b ss max : spools_ok b ss → spools_ok b (new_spool max :: ss).
Proof.
  intros (H1 & H2 & H3 & H4). split_and!; [done|done|done|]. constructor; [|done]. split; apply N.le_0_l.
Qed.

Lemma spools_offer b ss chunk eos s out s' b' :
  spools_ok b (s :: ss) → len (buffer s) + len (BodySpool.text chunk) <= ISIZE_MAX →
  offer chunk eos s b = (out, s', b') → spools_ok b' (s' :: ss).
Proof.
  intros (H1 & H2 & H3 & [Hs H4]%Forall_cons) Hi E.
  pose proof (offer_budget chunk eos s b Hs H2 H3 Hi) as H. rewrite E in H.
  destruct H as (Hs' & _ & Hl & Hu & He). rewrite fmap_cons in *. simpl in *.
  split_and!; [|lia|lia|by constructor]. rewrite fmap_cons. simpl. lia.
Qed.

Lemma spools_release b ss s : spools_ok b (s :: ss) → spools_ok (release_all s b).2 ss.
Proof.
  intros (H1 & H2 & H3 & [_ H4]%Forall_cons). rewrite fmap_cons in H1. simpl in H1.
  unfold release_all, release, spools_ok. destruct (N.ltb_spec 0 (reserved s)); simpl; [|split_and!; [lia|done..]].
  rewrite wrapping_sub_small by lia. split_and!; [lia|lia|done|done].
Qed.

Section ProxyTheorems.
Context {Sem : Type} `{S : !Semaphore Sem} {laws : SemaphoreLaws Sem S} {M : Matching}.
Implicit Types (l : Live (Sem := Sem) (M := M)) (c : Ctx (M := M)).

(** ** What requests hold *)

Definition permits_of (cs : list Ctx) : list Permit := mjoin ((λ c, default [] (permit (holds (M := M) c))) <$> cs).
Definition guards_of (cs : list Ctx) : list InFlightGuard := omap (λ c, origin_slot (attempt (M := M) c)) cs.
Definition spools_of (cs : list Ctx) : list Spool := omap (λ c, spool (holds (M := M) c)) cs.
Definition upgrades_of (cs : list Ctx) : list N := omap (λ c, upgrade_permit (holds (M := M) c)) cs.

(** What requests parked for admission hold and wait for. *)
Definition taken (ws : list (Admission.Pending * Ctx (M := M))) : list Permit := mjoin (took <$> ws.*1).
Definition wanted_of (ws : list (Admission.Pending * Ctx (M := M))) : list Place :=
  place <$> ws.*1.

(** The limiter of the upgrades: no queue, and its ceiling never moves. *)
Definition never_moved (x : Limiter Sem) : Prop := queue_max x = 0 ∧ debt x = 0.

(** A request that holds nothing yet. *)
Definition idle (c : Ctx (M := M)) : Prop :=
  permit (holds c) = None ∧ origin_slot (attempt c) = None ∧ spool (holds c) = None ∧ upgrade_permit (holds c) = None.

(** The books of a process with [cs] in the filters and [ws] waiting. *)
Record Books (l : Live (Sem := Sem) (M := M)) (cs : list Ctx) (ws : list (Admission.Pending * Ctx)) : Prop := mkBooks {
  heap_books : HeapInv (heap l) (permits_of cs ++ taken ws) (wanted_of ws);
  ctl_books : ctl_ok (ctl l) (heap l);
  parked_books : Forall (pending_in_heap (heap l)) ws.*1;
  pool_books : pool_slots (upstreams l) (guards_of cs);
  few_requests : N.of_nat (length cs + length ws) <= U32_MAX;
  spool_books : spools_ok (AdminEndpoint.spool l) (spools_of cs);
  upgrade_books : Limiter.Inv (Limiter.mkWorld (upgrades l) (upgrades_of cs) []);
  fixed_upgrades : never_moved (upgrades l);
  idle_parked : Forall idle ws.*2 }.

Lemma guards_few cs : (length (guards_of cs) ≤ length cs)%nat.
Proof. unfold guards_of. induction cs as [|c cs IH]; csimpl; [lia|].
  destruct (origin_slot (attempt c)); csimpl; lia.
Qed.

Lemma books_perm l cs cs' ws ws' : cs ≡ₚ cs' → ws ≡ₚ ws' → Books l cs ws → Books l cs' ws'.
Proof.
  intros Hc Hw [H1 H2 H3 H4 H5 H6 H7 H8 H9].
  split; try done.
  - assert (permits_of cs' ++ taken ws' ≡ₚ permits_of cs ++ taken ws) as ->; [|].
    { unfold permits_of, taken. by rewrite Hc, Hw. }
    assert (wanted_of ws' ≡ₚ wanted_of ws) as ->; [|done]. unfold wanted_of. by rewrite Hw.
  - by rewrite <-Hw.
  - eapply slots_perm; [|exact H4]. unfold guards_of. by rewrite Hc.
  - by rewrite <-Hc, <-Hw.
  - eapply spools_perm; [|exact H6]. unfold spools_of. by rewrite Hc.
  - eapply Inv_perm; [..|exact H7]; [|done]. unfold upgrades_of. by rewrite Hc.
  - by rewrite <-Hw.
Qed.

Lemma permits_cons c cs : permits_of (c :: cs) = default [] (permit (holds c)) ++ permits_of cs.
Proof. done. Qed.
Lemma guards_cons c cs : guards_of (c :: cs) = option_list (origin_slot (attempt c)) ++ guards_of cs.
Proof. unfold guards_of. csimpl. by destruct (origin_slot _). Qed.
Lemma spools_cons c cs : spools_of (c :: cs) = option_list (spool (holds c)) ++ spools_of cs.
Proof. unfold spools_of. csimpl. by destruct (spool _). Qed.
Lemma upgrades_cons c cs : upgrades_of (c :: cs) = option_list (upgrade_permit (holds c)) ++ upgrades_of cs.
Proof. unfold upgrades_of. csimpl. by destruct (upgrade_permit _). Qed.

(** A filter that changes nothing of what its request holds. *)
Definition same_holdings c c' : Prop :=
  permit (holds c') = permit (holds c) ∧ origin_slot (attempt c') = origin_slot (attempt c)
  ∧ spool (holds c') = spool (holds c) ∧ upgrade_permit (holds c') = upgrade_permit (holds c).

Lemma books_same l c c' cs ws : same_holdings c c' → Books l (c :: cs) ws → Books l (c' :: cs) ws.
Proof.
  intros (E1 & E2 & E3 & E4) [H1 H2 H3 H4 H5 H6 H7 H8 H9]. split; try done.
  - by rewrite permits_cons, E1, <-permits_cons.
  - by rewrite guards_cons, E2, <-guards_cons.
  - by rewrite spools_cons, E3, <-spools_cons.
  - by rewrite upgrades_cons, E4, <-upgrades_cons.
Qed.

(** ** Giving back *)

Lemma books_drop_permit l c cs ws :
  Books l (c :: cs) ws → Books (drop_permit c l).2 ((drop_permit c l).1 :: cs) ws.
Proof.
  intros [H1 H2 H3 H4 H5 H6 H7 H8 H9]. rewrite permits_cons, <-app_assoc in H1.
  unfold drop_permit. cbn [fst snd]. destruct (permit (holds c)) as [ps|] eqn:E; [|by split].
  apply HeapInv_drop in H1. split; try done.
  - eapply ctl_ok_mono; [|exact H2]. simpl. by rewrite next_drop.
  - eapply pending_mono; [|exact H3]. simpl. by rewrite next_drop.
Qed.

Lemma books_release_slot l c cs ws :
  Books l (c :: cs) ws → Books (release_origin_slot c l).2 ((release_origin_slot c l).1 :: cs) ws.
Proof.
  intros H. unfold release_origin_slot. destruct (origin_slot (attempt c)) as [g|] eqn:E; [|done].
  destruct H as [H1 H2 H3 H4 H5 H6 H7 H8 H9]. rewrite guards_cons, E in H4. cbn [fst snd].
  split; try done. apply slots_give; [|exact H4].
  change (guards_of (with_slot None c :: cs)) with (guards_of cs).
  pose proof (guards_few cs). cbn [length] in H5. unfold U32_MAX, U64_MAX in *. lia.
Qed.

Lemma books_upgrade_release l c cs ws :
  Books l (c :: cs) ws →
  Books (match upgrade_permit (holds c) with Some u => with_upgrades (Limiter.release u (upgrades l)) l | None => l end)
    (with_upgrade None c :: cs) ws.
Proof.
  intros [H1 H2 H3 H4 H5 H6 H7 H8 H9]. rewrite upgrades_cons in H7.
  destruct (upgrade_permit (holds c)) as [u|]; [|by split]. split; try done.
  - eapply step_preserves; [exact H7|]. by apply (step_release (Limiter.mkWorld (upgrades l) (u :: upgrades_of cs) []) 0 u).
  - destruct H7 as (Hb & Ho & _). simpl in Hb, Ho. rewrite N.add_comm in Hb.
    destruct (release_spec _ _ _ _ Hb Ho) as (_ & _ & _ & Hd & _ & _ & Hm). destruct H8. unfold never_moved. simpl. lia.
Qed.

Lemma books_spool_release l c cs ws :
  Books l (c :: cs) ws →
  Books (match spool (holds c) with Some s => with_budget (release_all s (AdminEndpoint.spool l)).2 l | None => l end)
    (with_spool None (spool_outcome (holds c)) c :: cs) ws.
Proof.
  intros [H1 H2 H3 H4 H5 H6 H7 H8 H9]. rewrite spools_cons in H6.
  destruct (spool (holds c)) as [s|]; [|by split]. split; try done. by apply spools_release.
Qed.

(** ** Admission *)

(** Where a request stands after a step of its admission. *)
Definition settled (a : Admitting (Sem := Sem) (M := M)) (cs : list Ctx) (ws : list (Admission.Pending * Ctx)) : Prop :=
  match a with
  | Proceed c l | Answered _ c l => Books l (c :: cs) ws
  | AwaitAdmission p c l => Books l cs ((p, c) :: ws)
  | AwaitUpgrade _ _ _ _ => False
  end.

Lemma books_intro l c cs ws ps gs ss us :
  default [] (permit (holds c)) = ps → option_list (origin_slot (attempt c)) = gs →
  option_list (spool (holds c)) = ss → option_list (upgrade_permit (holds c)) = us →
  HeapInv (heap l) (ps ++ permits_of cs ++ taken ws) (wanted_of ws) → ctl_ok (ctl l) (heap l) →
  Forall (pending_in_heap (heap l)) ws.*1 → pool_slots (upstreams l) (gs ++ guards_of cs) →
  N.of_nat (length (c :: cs) + length ws) <= U32_MAX → spools_ok (AdminEndpoint.spool l) (ss ++ spools_of cs) →
  Limiter.Inv (Limiter.mkWorld (upgrades l) (us ++ upgrades_of cs) []) → never_moved (upgrades l) →
  Forall idle ws.*2 → Books l (c :: cs) ws.
Proof.
  intros <- <- <- <- H1 H2 H3 H4 H5 H6 H7 H8 H9. split; try done.
  - by rewrite permits_cons, <-app_assoc.
  - by rewrite guards_cons.
  - by rewrite spools_cons.
  - by rewrite upgrades_cons.
Qed.

(** Everything but admission's own heap. *)
Record RestBooks (l : Live (Sem := Sem) (M := M)) (cs : list Ctx) (ws : list (Admission.Pending * Ctx)) : Prop := mkRest {
  rest_pool : pool_slots (upstreams l) (guards_of cs);
  rest_few : N.of_nat (Datatypes.S (length cs) + length ws) <= U32_MAX;
  rest_spool : spools_ok (AdminEndpoint.spool l) (spools_of cs);
  rest_upgrade : Limiter.Inv (Limiter.mkWorld (upgrades l) (upgrades_of cs) []);
  rest_queue : never_moved (upgrades l);
  rest_parked : Forall idle ws.*2 }.

Lemma books_rest l c cs ws : idle c → Books l (c :: cs) ws → RestBooks l cs ws.
Proof.
  intros (I1 & I2 & I3 & I4) [H1 H2 H3 H4 H5 H6 H7 H8 H9].
  rewrite guards_cons, I2 in H4. rewrite spools_cons, I3 in H6. rewrite upgrades_cons, I4 in H7. by split.
Qed.

Lemma books_on_admission pr k c l cs ws :
  idle c → RestBooks l cs ws →
  HeapInv (result_heap pr) (result_permits pr ++ permits_of cs ++ taken ws) (result_waits pr ++ wanted_of ws) →
  ctl_ok k (result_heap pr) → Forall (pending_in_heap (result_heap pr)) ws.*1 →
  (∀ p h, pr = Await p h → pending_in_heap h p) →
  settled (on_admission pr k c l) cs ws.
Proof.
  intros (I1 & I2 & I3 & I4) [H4 H5 H6 H7 H8 H9] HH Hk Hp Ha.
  destruct pr as [[ps| |reason] h|p h]; cbn [on_admission result_heap result_permits result_waits] in *.
  - destruct (spool_enabled (routing (with_permit (Some ps) c))).
    + eapply (books_intro _ _ _ _ ps [] [_] []); simpl; rewrite ?I2, ?I4; try done. by apply spools_new.
    + eapply (books_intro _ _ _ _ ps [] [] []); simpl; rewrite ?I2, ?I3, ?I4; done.
  - eapply (books_intro _ _ _ _ [] [] [] []); simpl; rewrite ?I1, ?I2, ?I3, ?I4; done.
  - eapply (books_intro _ _ _ _ [] [] [] []); simpl; rewrite ?I1, ?I2, ?I3, ?I4; done.
  - split; try done.
    + assert (permits_of cs ++ taken ((p, c) :: ws) ≡ₚ took p ++ permits_of cs ++ taken ws) as ->; [|done].
      unfold taken. csimpl. solve_Permutation.
    + constructor; [by apply Ha|done].
    + cbn [length] in *. lia.
    + by constructor.
Qed.

(** What validation makes sure of for the ceilings of routes. *)
Definition policy_ok (p : PolicySnapshot M) : Prop :=
  ∀ r cc, r ∈ p_routes M p → Route.concurrency (r_config M r) = Some cc →
    Concurrency.max cc <= max_permits Sem ∧ Queue.max (Concurrency.queue cc) <= USIZE_MAX.

(** The limiter of a route, made on first use. *)
Lemma limiter_for_ok p id k h ps ws o k' h' :
  policy_ok p → limiter_for M p id k h = (o, (k', h')) →
  HeapInv h ps ws → ctl_ok k h →
  HeapInv h' ps ws ∧ ctl_ok k' h' ∧ (next h ≤ next h')%nat ∧ ∀ x, o = Some x → (x < next h')%nat.
Proof.
  intros Hp. unfold limiter_for.
  destruct (list_find _ _) as [[i r]|] eqn:Ef; cbn [mbind option_bind]; [|by intros [= <- <- <-]].
  destruct (Route.concurrency _) as [cc|] eqn:Ec; [|by intros [= <- <- <-]].
  apply list_find_Some in Ef as (Hi & _ & _). apply list_elem_of_lookup_2 in Hi.
  destruct (Hp r cc Hi Ec) as [Hm Hq]. unfold route_limiter.
  destruct (routes k !! id) as [x|] eqn:Ek.
  - intros [= <- <- <-] Hh Hk. split_and!; [done|done|done|]. intros ? [= <-].
    destruct Hk as (_ & _ & Hr). exact (Hr id x Ek).
  - destruct (alloc _ h) as [x hx] eqn:Ea. intros [= <- <- <-] Hh Hk.
    destruct (Good_insert (next h) ps ws k h _ _ _ _ _ _ Hm Hq (conj Hh (conj Hk (le_n _))) Ea) as (G1 & G2 & G3).
    split_and!; [done|done|done|]. intros ? [= <-]. destruct G2 as (_ & _ & Hr).
    apply (Hr id x). simpl. by rewrite lookup_insert_eq.
Qed.

(** A limiter without a queue answers at once. *)
Lemma unqueued_start (x : Limiter Sem) us :
  Limiter.Inv (Limiter.mkWorld x us []) → never_moved x →
  match acquire_start 1 x with
  | Limiter.Granted u x' => Limiter.Inv (Limiter.mkWorld x' (u :: us) []) ∧ never_moved x'
  | Limiter.Refused _ x' => Limiter.Inv (Limiter.mkWorld x' us []) ∧ never_moved x'
  | Limiter.Parked _ _ _ => False
  end.
Proof.
  intros H Hz. pose proof H as (Hb & Ho & Hq & _). pose proof Hz as [Hz1 _]. cbn [lim parked length] in Hb, Ho, Hq.
  pose proof (acquire_start_cases 1 x _ _ Hb Ho ltac:(rewrite Hq; vm_compute; discriminate)) as Hc.
  destruct (acquire_start 1 x) as [u x'|why x'|t u x'] eqn:E.
  - split; [|by destruct Hc as (_ & _ & _ & _ & _ & (_ & E1 & E2) & _); unfold never_moved; rewrite E1, E2].
    eapply step_preserves; [exact H|]. by apply (step_grant (Limiter.mkWorld x us []) 1).
  - split; [|by destruct Hc as (_ & _ & _ & _ & _ & (_ & E1 & E2) & _); unfold never_moved; rewrite E1, E2].
    eapply step_preserves; [exact H|]. by apply (step_refuse (Limiter.mkWorld x us []) 1 why).
  - destruct Hc as (_ & _ & Hlt & _). lia.
Qed.

(** Upgrades open and to be had are the ceiling. *)
Lemma upgrades_exact (x : Limiter Sem) us :
  Limiter.Inv (Limiter.mkWorld x us []) → never_moved x → available x + sum_N us = Limiter.limit x.
Proof.
  intros ([Hb _] & Ho & _) [_ Hd]. simpl in Hb, Ho. apply orderly_empty in Ho. unfold units_of in Hb.
  rewrite Ho, Hd in Hb. cbn in Hb. lia.
Qed.

Lemma books_upgrade x us l c c' cs ws :
  idle c → Books l (c :: cs) ws → same_holdings c (with_upgrade None c') → upgrade_permit (holds c') = us →
  Limiter.Inv (Limiter.mkWorld x (option_list us ++ upgrades_of cs) []) → never_moved x →
  Books (with_upgrades x l) (c' :: cs) ws.
Proof.
  intros (I1 & I2 & I3 & I4) [H1 H2 H3 H4 H5 H6 H7 H8 H9] (E1 & E2 & E3 & _) Hu Hx Hz.
  cbn in E1, E2, E3. rewrite permits_cons, I1 in H1. rewrite guards_cons, I2 in H4. rewrite spools_cons, I3 in H6.
  eapply (books_intro _ _ _ _ [] [] [] (option_list us)); rewrite ?E1, ?E2, ?E3, ?I1, ?I2, ?I3, ?Hu; done.
Qed.

Lemma request_ok now cls o pr wt k h ps ws :
  HeapInv h ps ws → ctl_ok k h → (∀ x, o = Some x → (x < next h)%nat) →
  let r := admit_request now cls o pr wt k h in
  HeapInv (result_heap r) (result_permits r ++ ps) (result_waits r ++ ws)
  ∧ next (result_heap r) = next h ∧ ∀ p h', r = Await p h' → pending_in_heap h' p.
Proof.
  intros Hh Hk Ho. cbv zeta. unfold admit_request. destruct (negb _); [done|].
  pose proof (ceilings_bound k h o pr Hk Ho) as Hb. set (dl := fmap _ _).
  destruct (HeapInv_go now wt dl _ [] h _ _ Hh Hb) as [Hg Hng]. split_and!; [done|done|].
  intros p h' E. rewrite E in Hng. simpl in Hng. unfold pending_in_heap. rewrite Hng. by eapply go_pending.
Qed.

Lemma books_admit now ph c l cs ws :
  idle c → policy_ok (pinned c) → Books l (c :: cs) ws → settled (proxy_upstream_filter now ph c l) cs ws.
Proof.
  intros Hi Hp H. unfold proxy_upstream_filter. cbv zeta.
  destruct (match ph with PhaseLockTimeout => true | _ => false end && _); [by apply (books_same l c)|].
  destruct (bool_decide (class (routing c) = Upgrade)).
  { pose proof (upgrade_books _ _ _ H) as Hu. pose proof Hi as (_ & _ & _ & I4). rewrite upgrades_cons, I4 in Hu.
    pose proof (unqueued_start _ _ Hu (fixed_upgrades _ _ _ H)) as Hs.
    destruct (acquire_start 1 (upgrades l)) as [u x|why x|t u x]; [| |done]; destruct Hs as [Hx Hz].
    - by apply (books_upgrade x (Some u) l c).
    - by apply (books_upgrade x None l c (with_shed c)). }
  destruct (bool_decide (Config.mode (cfg_of c) = Observe)); [done|].
  pose proof H as [H1 H2 H3 _ _ _ _ _ _]. pose proof (books_rest _ _ _ _ Hi H) as HR. pose proof Hi as (I1 & I).
  rewrite permits_cons, I1 in H1. cbn [default option_map app] in H1.
  destruct (match route_id (routing c) with
            | Some id => limiter_for M (pinned c) id (ctl l) (heap l)
            | None => (None, (ctl l, heap l)) end) as [o [k h]] eqn:E.
  assert (HeapInv h (permits_of cs ++ taken ws) (wanted_of ws) ∧ ctl_ok k h ∧ (next (heap l) ≤ next h)%nat
          ∧ ∀ x, o = Some x → (x < next h)%nat) as (Hh & Hk & Hn & Ho).
  { destruct (route_id (routing c)) as [id|]; [|by injection E as <- <- <-].
    by eapply limiter_for_ok. }
  destruct (request_ok now (class (routing c)) o (priority (routing c)) (weight (routing c)) k h _ _ Hh Hk Ho) as (Hr & Hnr & Hpend).
  apply books_on_admission; try done.
  - eapply ctl_ok_mono; [|exact Hk]. by rewrite Hnr.
  - eapply pending_mono; [|exact H3]. rewrite Hnr. lia.
Qed.

(** The wait ended with the permits or with the deadline; the semaphores of the
    source are never closed. *)
Lemma books_resume now p (w : Wait Sem) c l cs ws :
  Books l cs ((p, c) :: ws) → w ≠ Limiter.Closed →
  (∀ sm, w = Woken sm → poll (slip p) (sem (cell (heap l) (at_limiter p))) = Some sm) →
  settled (admission_resumed now p w c l) cs ws.
Proof.
  intros [H1 H2 H3 H4 H5 H6 H7 H8 H9] Hc Hw. apply Forall_cons in H9 as [Hi H9]. apply Forall_cons in H3 as [Hp H3].
  assert (permits_of cs ++ taken ((p, c) :: ws) ≡ₚ took p ++ permits_of cs ++ taken ws) as Hperm.
  { unfold taken. csimpl. solve_Permutation. }
  rewrite Hperm in H1. destruct (HeapInv_resume now p w (heap l) _ _ H1 Hp Hw Hc) as [Hr Hn].
  unfold admission_resumed. apply books_on_admission; [done| |done|..].
  - split; try done. cbn [length] in H5. lia.
  - eapply ctl_ok_mono; [|exact H2]. by rewrite Hn.
  - eapply pending_mono; [|exact H3]. by rewrite Hn.
  - intros p' h E. rewrite E in Hn. simpl in Hn. pose proof (resume_pending _ _ _ _ _ _ Hp E) as Hb.
    unfold pending_in_heap in *. by rewrite Hn.
Qed.

(** The client went away during the wait: the request is then over. *)
Lemma books_abandon p c l cs ws :
  Books l cs ((p, c) :: ws) → Books (admission_abandoned p l) (c :: cs) ws.
Proof.
  intros [H1 H2 H3 H4 H5 H6 H7 H8 H9]. change (Forall idle (c :: ws.*2)) in H9. change (Forall (pending_in_heap (heap l)) (p :: ws.*1)) in H3.
  apply Forall_cons in H9 as [(I1 & I2 & I3 & I4) H9]. apply Forall_cons in H3 as [Hp H3]. cbn [fst snd] in *.
  assert (permits_of cs ++ taken ((p, c) :: ws) ≡ₚ took p ++ permits_of cs ++ taken ws) as Hperm.
  { unfold taken. csimpl. solve_Permutation. }
  rewrite Hperm in H1. apply HeapInv_abandon in H1 as [H1 Hn]. cbn [fst snd] in *.
  eapply (books_intro _ _ _ _ [] [] [] []); rewrite ?I1, ?I2, ?I3, ?I4; try done.
  - eapply ctl_ok_mono; [|exact H2]. simpl. by rewrite Hn.
  - eapply pending_mono; [|exact H3]. simpl. by rewrite Hn.
  - cbn [length] in *. lia.
Qed.

(** ** The origin and the bodies *)

(** The pool may change in anything but the slots taken. *)
Lemma books_pool p l cs ws :
  Books l cs ws → (∀ gs, pool_slots (upstreams l) gs → pool_slots p gs) → Books (with_pool p l) cs ws.
Proof. intros [H1 H2 H3 H4 H5 H6 H7 H8 H9] Hp. split; try done. by apply Hp. Qed.

Lemma books_retry r l cs ws : Books l cs ws → Books (with_retry r l) cs ws.
Proof. by intros [H1 H2 H3 H4 H5 H6 H7 H8 H9]. Qed.

Lemma books_outcome ms ok c l cs ws :
  Books l (c :: cs) ws → let '(c', l') := record_origin_outcome ms ok c l in Books l' (c' :: cs) ws.
Proof.
  intros H. unfold record_origin_outcome. destruct (outcome_recorded _); [done|].
  destruct (origin_slot (attempt c)) as [g|] eqn:E; [|done].
  apply (books_same _ c); [by rewrite <-E|]. apply books_pool; [done|]. intros gs. by apply slots_steady.
Qed.

Lemma books_decide ms method c c' l cs ws :
  Books l (c' :: cs) ws → Books (decide_retry ms method c l).2 (c' :: cs) ws.
Proof.
  intros H. unfold decide_retry. destruct (negb _); [done|]. destruct (eligible _ _); [|done].
  destruct (charge _ _ _) as [d b]. by apply books_retry.
Qed.

Lemma books_fail ms method c l cs ws :
  Books l (c :: cs) ws → let '(_, c', l') := fail_to_connect ms method c l in Books l' (c' :: cs) ws.
Proof.
  intros H. unfold fail_to_connect. pose proof (books_outcome ms false c l cs ws H) as Ho.
  destruct (record_origin_outcome _ _ _ _) as [c1 l1]. pose proof (books_decide ms method c1 c1 l1 cs ws Ho) as Hd.
  by destruct (decide_retry _ _ _ _).
Qed.

Lemma books_error ms method dr reused truncated c l cs ws :
  Books l (c :: cs) ws →
  let '(_, c', l') := error_while_proxy ms method dr reused truncated c l in Books l' (c' :: cs) ws.
Proof.
  intros H. unfold error_while_proxy. pose proof (books_outcome ms false c l cs ws H) as Ho.
  destruct (record_origin_outcome _ _ _ _) as [c1 l1]. pose proof (books_decide ms method c1 c1 l1 cs ws Ho) as Hd.
  destruct (dr _); [|done]. by destruct (decide_retry _ _ _ _).
Qed.

Lemma books_latency id x l cs ws : Books l cs ws → Books (with_pool (observe_latency id x (upstreams l)) l) cs ws.
Proof. intros H. apply books_pool; [done|]. intros gs. by apply slots_steady. Qed.

Lemma books_response now ms status c l cs ws :
  Books l (c :: cs) ws →
  let '(_, c', l') := upstream_response_filter now ms status c l in Books l' (c' :: cs) ws.
Proof.
  intros H. unfold upstream_response_filter. cbv zeta.
  assert (∀ l1, Books l1 (c :: cs) ws →
    let '(_, c', l') := let '(c, l) := record_origin_outcome ms (negb (is_server_error status)) c l1 in
      (check_origin_deadline (pinned c) (origin_started (attempt c)) now, c, l) in Books l' (c' :: cs) ws) as Ho.
  { intros l1 H1. pose proof (books_outcome ms (negb (is_server_error status)) c l1 cs ws H1) as Ho.
    by destruct (record_origin_outcome _ _ _ _). }
  destruct (origin_slot (attempt c)); [|by apply Ho].
  destruct (origin_started (attempt c)); [|by apply Ho]. by apply Ho, books_latency.
Qed.

(** A new attempt gives the slot of the last one back before it takes its own. *)
Lemma books_peer now ms wall path fresh c l cs ws :
  Books l (c :: cs) ws →
  let '(_, c', l') := upstream_peer now ms wall path fresh c l in Books l' (c' :: cs) ws.
Proof.
  intros H. unfold upstream_peer. pose proof (slots_select path ms (upstreams l)) as Hs.
  destruct (select_at path ms (upstreams l)) as [[sel|] pool]; cbn [snd] in Hs; [|by apply books_pool].
  destruct (socket_for _ (backend sel)) as [[socket|] b]; [|by apply books_pool].
  set (l1 := with_retry _ _).
  assert (Books l1 (c :: cs) ws) as H1 by (by apply books_retry, books_pool).
  apply books_release_slot in H1. destruct (release_origin_slot c l1) as [c2 l2] eqn:E. cbn [fst snd] in H1.
  assert (origin_slot (attempt c2) = None) as Hn.
  { unfold release_origin_slot in E. destruct (origin_slot (attempt c)) eqn:Eo; injection E as <- _; done. }
  unfold enter_selected. destruct (enter_attempt _ _ _) as [g pool'] eqn:Eg.
  destruct H1 as [B1 B2 B3 B4 B5 B6 B7 B8 B9]. split; try done.
  rewrite guards_cons, Hn in B4. cbn [option_list app] in B4.
  change (guards_of (?x :: cs)) with (g :: guards_of cs).
  pose proof (guards_few cs). cbn [length] in B5. unfold enter_attempt in Eg. injection Eg as <- <-.
  apply (slots_take _ _ (mkGuard _ _)); [unfold U32_MAX, U64_MAX in *; lia|exact B4].
Qed.

Lemma books_origin_body now eos c l cs ws :
  Books l (c :: cs) ws →
  let '(_, c', l') := upstream_response_body_filter now eos c l in Books l' (c' :: cs) ws.
Proof.
  intros H. unfold upstream_response_body_filter. destruct (check_origin_deadline _ _ _) as [[]|]; [|done].
  destruct eos; [|done]. cbv zeta. set (c1 := with_attempt _ c).
  set (c2 := match permit (holds c1) with Some _ => _ | None => c1 end).
  assert (Books l (c2 :: cs) ws) as H2.
  { apply (books_same _ c); [|done]. unfold c2. by destruct (permit (holds c1)) eqn:E. }
  apply books_drop_permit in H2. destruct (drop_permit c2 l) as [c3 l3]. cbn [fst snd] in H2.
  apply books_release_slot in H2. by destruct (release_origin_slot c3 l3).
Qed.

(** The buffer of a spool, and what is added to it, fit in memory. *)
Definition chunk_fits c (body : option string) : Prop :=
  ∀ s, spool (holds c) = Some s → len (buffer s) + len (BodySpool.text body) <= ISIZE_MAX.

Lemma books_body up body eos c l cs ws :
  chunk_fits c body → Books l (c :: cs) ws →
  let '(_, c', l') := response_body_filter up body eos c l in Books l' (c' :: cs) ws.
Proof.
  intros Hf H. unfold response_body_filter. destruct (spool (holds c)) as [s|] eqn:Es; [|done].
  destruct up; [done|]. destruct (offer body eos s (AdminEndpoint.spool l)) as [[out s'] b] eqn:Eo.
  destruct H as [B1 B2 B3 B4 B5 B6 B7 B8 B9]. split; try done.
  rewrite spools_cons, Es in B6. by eapply spools_offer; [exact B6|by apply Hf|exact Eo].
Qed.

(** ** The end *)

Lemma books_limiter id c l cs ws :
  policy_ok (pinned c) → Books l cs ws →
  Books (let '(_, (k, h)) := limiter_for M (pinned c) id (ctl l) (heap l) in with_admission k h l) cs ws.
Proof.
  intros Hp [B1 B2 B3 B4 B5 B6 B7 B8 B9]. destruct (limiter_for _ _ _ _ _) as [o [k h]] eqn:E.
  destruct (limiter_for_ok _ _ _ _ _ _ _ _ _ Hp E B1 B2) as (H1 & H2 & H3 & _). split; try done.
  by eapply pending_mono; [|exact B3].
Qed.

Lemma books_logging exporting x c l cs ws :
  policy_ok (pinned c) → Books l (c :: cs) ws →
  let '(_, _, c', l') := logging exporting x c l in Books l' (c' :: cs) ws ∧ idle c'.
Proof.
  intros Hp H. unfold logging. apply books_drop_permit in H. unfold drop_permit in *. cbn [fst snd] in H.
  set (c1 := with_permit None c) in *. set (l1 := match permit _ with Some _ => _ | None => _ end) in *.
  apply books_spool_release in H. set (c2 := with_spool None _ c1) in *.
  set (l2 := match spool (holds c1) with Some _ => _ | None => l1 end) in *.
  apply books_upgrade_release in H. set (c3 := with_upgrade None c2) in *.
  set (l3 := match upgrade_permit (holds c2) with Some _ => _ | None => l2 end) in *.
  assert (∀ l', Books l' (c3 :: cs) ws →
    let '(c', l'') := release_origin_slot c3 l' in Books l'' (c' :: cs) ws ∧ idle c') as Hend.
  { intros l' H'. apply books_release_slot in H'. unfold release_origin_slot in *.
    destruct (origin_slot (attempt c3)) eqn:Eo; split; done. }
  cbv zeta. destruct (route_id (routing c3)) as [id|].
  - pose proof (books_limiter id c3 l3 _ _ Hp H) as H3. destruct (limiter_for _ _ _ _ _) as [o [k h]].
    specialize (Hend _ H3). by destruct (release_origin_slot c3 _).
  - specialize (Hend _ H). by destruct (release_origin_slot c3 _).
Qed.

(** A request that holds nothing leaves the books as they are. *)
Lemma books_leave l c cs ws : idle c → Books l (c :: cs) ws → Books l cs ws.
Proof.
  intros (I1 & I2 & I3 & I4) [B1 B2 B3 B4 B5 B6 B7 B8 B9].
  rewrite permits_cons, I1 in B1. rewrite guards_cons, I2 in B4. rewrite spools_cons, I3 in B6.
  rewrite upgrades_cons, I4 in B7. split; try done. cbn [length] in B5. lia.
Qed.

Lemma books_enter l c cs ws :
  idle c → N.of_nat (Datatypes.S (length cs) + length ws) <= U32_MAX → Books l cs ws → Books l (c :: cs) ws.
Proof.
  intros (I1 & I2 & I3 & I4) Hn [B1 B2 B3 B4 B5 B6 B7 B8 B9].
  eapply (books_intro _ _ _ _ [] [] [] []); rewrite ?I1, ?I2, ?I3, ?I4; done.
Qed.
End ProxyTheorems.
