(* ===== verification/Published.v ===== *)
(** * What each part publishes ([metrics::] calls of [src/src/proxy/mod.rs],
    [policy/reload.rs], [admin/], [upstream/], [telemetry/otlp.rs],
    [cache/store.rs] and [main.rs])

    One definition per handler that touches a metric, beside the handler itself:
    from the same arguments and the same state, the publications it makes, in
    its order.  A gauge is given what its handler reads at that point. *)

From S2P Require Import Prelude Words Text Units Schema.
From S2P Require Import Classifier CachePolicy Semaphores Limiter Admission Store BodySpool Retries Breakers Upstream Forwarded Policy.
From S2P Require Import AccessLog Spans Export Trace Metrics Drain AdminEndpoint Filters Proxy.
Local Open Scope string_scope.
Local Open Scope list_scope.
Local Open Scope N_scope.

(** ** The request path ([proxy/mod.rs]) *)

Section Published.
Context {Sem : Type} `{S : !Semaphore Sem} {M : Matching}.
Implicit Types (c : Ctx (M := M)) (l : Live (Sem := Sem) (M := M)).

Definition route_label (r : Routing) : string := default "-" (route_id r).

Definition request_filter_published {A} `{FrameworkAdapter A} (p : PolicySnapshot M) (req : RequestHeader) :
    list Publication :=
  let '(r, refused) := request_filter (A := A) p req in
  Inc REQUESTS [route_label r; class_as_str (class r)] 1 ::
  (if refused then [Inc UPGRADES [route_label r; "disabled"] 1]
   else if cache_active r then [Inc REUSE_ELIGIBLE [route_label r] 1] else []).

(** The units in use, as the gauges have them. *)
Definition in_use (x : Limiter Sem) : N := saturating_sub (Limiter.limit x) (available x).

Definition publish_occupancy (name : string) (x : Limiter Sem) : list Publication :=
  [Put IN_FLIGHT [name] (as_i64 (in_use x)); Put QUEUE_DEPTH [name] (as_i64 (queue_depth x))].
Definition publish_limiter (name : string) (x : Limiter Sem) : list Publication :=
  [Put LIMIT [name] (as_i64 (Limiter.limit x)); Put QUEUE_DEPTH [name] (as_i64 (queue_depth x));
   Put IN_FLIGHT [name] (as_i64 (in_use x))].

Definition publish_tier_state (p : Priority) (k : AdmissionController) (h : Heap Sem) : list Publication :=
  match tier_limiter k p with
  | Some t => let x := cell h t in publish_limiter (Limiter.name x) x
  | None => []
  end.

Definition publish_backend_state (id : nat) (address : string) (p : UpstreamPool) : list Publication :=
  [Put UPSTREAM_IN_FLIGHT [address] (to_i64 (flights p id));
   Put UPSTREAM_LATENCY_EWMA [address] (to_i64 (latency p id));
   Put UPSTREAM_EJECTED [address] (flag (bool_decide (breaker_state p id = Open)))].

Definition upgrades_active (x : Limiter Sem) : Publication := Put UPGRADES_ACTIVE [] (as_i64 (in_use x)).

(** After [admit(..).await]: [route] is the limiter the request was given. *)
Definition on_admission_published (progress : Progress Sem) (route : option nat) (k : AdmissionController) c :
    list Publication :=
  match progress with
  | Await _ _ => []
  | Decided outcome h =>
      publish_limiter "global" (cell h (global k))
      ++ match route with Some x => publish_limiter (Limiter.name (cell h x)) (cell h x) | None => [] end
      ++ publish_tier_state (priority (routing c)) k h
      ++ [Inc ADMISSION [route_label (routing c);
            match outcome with
            | AdmittedWith _ => "admitted"
            | Exempt => "exempt"
            | Shed why => "shed_" +:+ ShedReason_as_str why
            end] 1]
  end.

(** The limiter of the request's route, and what looking for it made. *)
Definition route_of c l : option nat * (AdmissionController * Heap Sem) :=
  match route_id (routing c) with
  | Some id => limiter_for M (pinned c) id (ctl l) (heap l)
  | None => (None, (ctl l, heap l))
  end.

Definition proxy_upstream_filter_published (now : N) (phase : CachePhase) c l : list Publication :=
  let r := routing c in
  let lock_timeout := match phase with PhaseLockTimeout => true | _ => false end in
  if lock_timeout && bool_decide (CoalesceDefaults.on_timeout (Config.coalesce (cfg_of c)) = StaleOrShed) then []
  else if bool_decide (class r = Upgrade) then
    match acquire_start 1 (upgrades l) with
    | Limiter.Granted _ x => [Inc UPGRADES [route_label r; "admitted"] 1; upgrades_active x]
    | Limiter.Refused why _ => [Inc UPGRADES [route_label r; "shed_" +:+ ShedReason_as_str why] 1]
    | Limiter.Parked _ _ _ => []
    end
  else if bool_decide (Config.mode (cfg_of c) = Observe) then [Inc ADMISSION [route_label r; "observe"] 1]
  else
    let '(route, (k, h)) := route_of c l in
    on_admission_published (admit_request now (class r) route (priority r) (weight r) k h) route k c.

Definition response_cache_filter_published (r : Routing) (resp : ResponseHeader) : list Publication :=
  match sharing r resp with
  | NotShareable why => [Inc BYPASS_REASON [route_label r; bypass_as_str why] 1]
  | _ => []
  end.

Definition release_published c l : list Publication :=
  match origin_slot (attempt c), upstream (attempt c) with
  | Some g, Some address => publish_backend_state (backend_id g) address (drop_guard g (upstreams l))
  | _, _ => []
  end.

Definition upstream_peer_published (ms : N) (path : string) c l : list Publication :=
  match select_at path ms (upstreams l) with
  | (None, _) => []
  | (Some sel, pool) =>
      let key := if bool_decide (strategy pool = HashByPath) then Some path else None in
      match socket_for key (backend sel) with
      | (None, _) => []
      | (Some _, b) =>
          let l := with_pool (set_backend b pool) l in
          let released := release_published c l in
          let l := (release_origin_slot c l).2 in
          let pool := (enter_selected sel (upstreams l)).2 in
          released ++ publish_backend_state (id b) (address b) pool
            ++ [Inc ORIGIN_REQUESTS [route_label (routing c); address b] 1]
      end
  end.

Definition record_origin_outcome_published (ms : N) (ok : bool) (kind : string) c l : list Publication :=
  let a := attempt c in
  if outcome_recorded a then []
  else
    match origin_slot a, upstream a with
    | Some g, Some address =>
        let i := backend_id g in
        let was := breaker_state (upstreams l) i in
        let now := breaker_state (record_outcome ms i (probe_token g) ok (upstreams l)) i in
        (if negb ok then [Inc UPSTREAM_FAILURES [address; kind] 1] else [])
        ++ (if bool_decide (was = Closed) && bool_decide (now = Open) then [Inc UPSTREAM_TRIPS [address] 1] else [])
        ++ [Put UPSTREAM_EJECTED [address] (flag (bool_decide (now = Open)))]
    | _, _ => []
    end.

(** [read] is the second reading of the pool's clock. *)
Definition decide_retry_published (ms read : N) (method : Method) c l : list Publication :=
  if negb (Retries.enabled (retry l)) then []
  else
    let '(decision, l) := decide_retry ms method c l in
    [Inc RETRIES [route_label (routing c); decision_as_str decision] 1;
     Put RETRY_BUDGET [] (to_i64 (Retries.allowance read (retry l)))].

Definition fail_to_connect_published (ms read : N) (method : Method) c l : list Publication :=
  record_origin_outcome_published ms false "connect" c l
  ++ (let '(c, l) := record_origin_outcome ms false c l in decide_retry_published ms read method c l).

Definition error_while_proxy_published (ms read : N) (method : Method) (decide_reuse : bool → bool)
    (client_reused buffer_truncated : bool) c l : list Publication :=
  record_origin_outcome_published ms false "proxy" c l
  ++ (if decide_reuse (client_reused && negb buffer_truncated)
      then let '(c, l) := record_origin_outcome ms false c l in decide_retry_published ms read method c l
      else []).

Definition upstream_response_filter_published (now ms status : N) c l : list Publication :=
  let a := attempt c in
  let '(seen, l) :=
    match origin_slot a, origin_started a with
    | Some g, Some started =>
        let p := observe_latency (backend_id g) (clamp U64_MAX (as_micros (now - started))) (upstreams l) in
        (match upstream a with Some address => publish_backend_state (backend_id g) address p | None => [] end,
         with_pool p l)
    | _, _ => ([], l)
    end in
  seen ++ record_origin_outcome_published ms (negb (is_server_error status)) "status" c l.

Definition upstream_response_body_filter_published (now : N) (end_of_stream : bool) c l : list Publication :=
  match check_origin_deadline (pinned c) (origin_started (attempt c)) now with
  | Err _ => []
  | Ok _ => if end_of_stream then release_published c (drop_permit c l).2 else []
  end.

Definition spool_bytes (b : SpoolBudget) : Publication := Put SPOOL_BYTES [] (as_i64 (used b)).

Definition response_body_filter_published (was_upgraded : bool) (body : option string) (end_of_stream : bool) c l :
    list Publication :=
  match spool (holds c) with
  | None => []
  | Some s =>
      if was_upgraded then []
      else
        let '(_, s', b) := offer body end_of_stream s (AdminEndpoint.spool l) in
        (if is_active s && negb (is_active s')
         then [Inc SPOOL [route_label (routing c); outcome_as_str (default Complete (gave_up s'))] 1] else [])
        ++ [spool_bytes b]
  end.

Definition cache_gauges (s : Store) : list Publication :=
  [Put CACHE_BYTES [] (as_i64 (Store.used s)); Put CACHE_ENTRIES [] (as_i64 (entry_count s));
   Put CACHE_TAGS [] (as_i64 (N.of_nat (base.size (tag_index s))))].

(** The sink and its queue. *)
Definition record_published (x : Exporter) : Publication :=
  Inc SPANS [if is_open x && (Export.size (queue x) <? capacity x) then "recorded" else "dropped"] 1.
Fixpoint record_all_published (spans : list SpanRecord) (x : Exporter) : list Publication :=
  match spans with
  | [] => []
  | s :: spans => record_published x :: record_all_published spans (Export.record s x)
  end.

Definition origin_latency (x : Exchange) c : list Publication :=
  let label := route_label (routing c) in
  match origin_finished_ms (attempt c), origin_started (attempt c) with
  | Some ms, _ => [Seen ORIGIN_LATENCY [label] (from_millis ms)]
  | None, Some t => [Seen ORIGIN_LATENCY [label] (ended x - t)]
  | None, None => []
  end.

(** [record] is what the spans handed to the sink publish. *)
Definition logging_published (record : list Publication) (x : Exchange) c l : list Publication :=
  let r := routing c in
  let '(_, l1) := drop_permit c l in
  let b := match spool (holds c) with Some s => (release_all s (AdminEndpoint.spool l)).2 | None => AdminEndpoint.spool l end in
  let upgraded :=
    match upgrade_permit (holds c) with Some u => [upgrades_active (Limiter.release u (upgrades l))] | None => [] end in
  let '(route, (k, h)) := route_of c l1 in
  [Inc CACHE [route_label r; cache_status (phase x) r (shed (holds c))] 1]
  ++ origin_latency x c ++ record ++ [spool_bytes b] ++ cache_gauges (store l) ++ upgraded
  ++ publish_occupancy "global" (cell h (global k))
  ++ match route with Some n => publish_occupancy (Limiter.name (cell h n)) (cell h n) | None => [] end
  ++ publish_tier_state (priority r) k h
  ++ release_published c l1.

(** ** The rest of the process *)

(** [Admin::purge]. *)
Definition purge_published (authorization query : option string) (a : Admin) (decode : string → option string) l :
    list Publication :=
  match purge_token a with
  | None => []
  | Some token =>
      match authorization ≫= strip_prefix "Bearer " with
      | None => []
      | Some presented =>
          if negb (secret_eq presented token) then []
          else match parse_purge_query decode query with
               | Err _ => []
               | Ok request =>
                   let '(p, scope, _, _, s) := run_request request (store l) in
                   Inc CACHE_PURGED [scope] (entries p) :: cache_gauges s
               end
      end
  end.
Definition response_published (req : Request) (a : Admin) (decode : string → option string) l : list Publication :=
  if String.eqb (AdminEndpoint.path req) "/purge" && String.eqb (method req) "POST"
  then purge_published (authorization req) (query req) a decode l else [].

Definition tier_gauges (x : Limiter Sem) : list Publication :=
  [Put LIMIT [Limiter.name x] (to_i64 (Limiter.limit x)); Put QUEUE_DEPTH [Limiter.name x] (to_i64 (queue_depth x));
   Put IN_FLIGHT [Limiter.name x] (to_i64 (in_use x))].

(** [Reloader::reload], once it is accepted: [s] before it and [s'] after. *)
Definition reload_published (s s' : Reloader (Sem := Sem) M) : list Publication :=
  mjoin ((λ t, tier_gauges (cell (limiters M s') t)) <$> tiers (Policy.admission M s'))
  ++ (if changed (λ cfg, Deployment.id (Config.deployment cfg)) (p_config M (Policy.policy M s')) (p_config M (Policy.policy M s))
      then match Policy.store M s with
           | Some st => let n := entries (purge_all st).1 in
               if 0 <? n then [Inc CACHE_PURGED ["deployment"] n] else []
           | None => []
           end
      else [])
  ++ [Put CONFIG_GENERATION [] (to_i64 (Policy.generation M s'));
      Put CONFIG_FINGERPRINT [] (to_i64 (p_fingerprint M (Policy.policy M s')))].

(** [DrainState::begin]. *)
Definition begin_drain_published : list Publication := [Put DRAINING [] 1%Z].

(** The health checker's loop, after the record of one backend. *)
Definition health_published (b : Backend) (p : UpstreamPool) : list Publication :=
  [Put UPSTREAM_HEALTHY [address b] (flag (is_healthy p (id b)))].
(** The resolver's, after the refresh of one. *)
Definition resolved_published (b : Backend) : list Publication :=
  [Put UPSTREAM_ADDRESSES [address b] (to_i64 (N.of_nat (length (sockets b))))].

(** [BoundedStore::reserve_locked], over all that one operation evicted. *)
Definition evicted_published (s s' : Store) : list Publication :=
  replicate (N.to_nat (wrapping_sub (evicted s') (evicted s))) (Inc CACHE_EVICTED [] 1).

(** The exporter's loop ([flush]) and its end ([record_shutdown_drop]). *)
Definition flush_published (answer : bool) (x : Exporter) : list Publication :=
  match batch x with
  | [] => []
  | b => [Inc SPANS [if answer then "exported" else "export_failed"] (clamp U64_MAX (Export.size b))]
  end.
Definition on_received_published (k : nat) (answer : bool) (x : Exporter) : list Publication :=
  let x := recv_many k x in
  if max_batch x <=? Export.size (batch x) then flush_published answer x else [].
Fixpoint drain_published (rounds : list (nat * bool)) (x : Exporter) : list Publication :=
  match rounds with
  | [] => []
  | (k, answer) :: rest =>
      let x := if bool_decide (batch x = []) then recv_many k x else x in
      flush_published answer x ++ drain_published rest (flush answer x)
  end.
Definition shut_down_published (rounds : list (nat * bool)) (cut : nat) (x : Exporter) : list Publication :=
  drain_published rounds (close x)
  ++ (let x := Export.drain rounds cut (close x) in
      let n := saturating_add (Export.size (batch x)) (Export.size (queue x)) in
      if n =? 0 then [] else [Inc SPANS ["dropped"] (clamp U64_MAX n)]).
Definition exporter_published (e : Export.Event) (x : Exporter) : list Publication :=
  match e with
  | Recorded _ => [record_published x]
  | Received k answer => on_received_published k answer x
  | Ticked answer => flush_published answer x
  | ShutDown rounds cut => shut_down_published rounds cut x
  end.

(** [run]: what is published before the first request, after [preregister]. *)
Definition tier_started (x : Limiter Sem) : list Publication :=
  [Put LIMIT [Limiter.name x] (to_i64 (Limiter.limit x)); Put QUEUE_DEPTH [Limiter.name x] 0%Z; Put IN_FLIGHT [Limiter.name x] 0%Z].
Definition config_started (p : PolicySnapshot M) : list Publication :=
  [Put CONFIG_GENERATION [] 1%Z; Put CONFIG_FINGERPRINT [] (to_i64 (p_fingerprint M p));
   Put CACHE_MAX_BYTES [] (to_i64 (get (CacheDefaults.max_memory (Config.cache (p_config M p)))));
   Put SPOOL_MAX_BYTES [] (to_i64 (get (Schema.Spool.max_memory (Config.spool (p_config M p)))))].
Definition backend_started (pool : UpstreamPool) (b : Backend) : list Publication :=
  [Put UPSTREAM_HEALTHY [address b] (flag (is_healthy pool (id b))); Put UPSTREAM_EJECTED [address b] 0%Z;
   Put UPSTREAM_IN_FLIGHT [address b] 0%Z; Put UPSTREAM_LATENCY_EWMA [address b] 0%Z].

Definition startup_published (p : PolicySnapshot M) (k : AdmissionController) (h : Heap Sem) (pool : UpstreamPool) :
    list Publication :=
  mjoin ((λ t, tier_started (cell h t)) <$> tiers k) ++ config_started p
  ++ mjoin (backend_started pool <$> backends pool) ++ mjoin (resolved_published <$> backends pool).
End Published.
