(* ===== verification/Names.v ===== *)
(** * What limiters are called

    A limiter keeps its name, whatever is acquired, released or resized; so the
    tiers are called after priorities and a route's limiter after the route, in
    every heap an admission or a reload makes. *)

From S2P Require Import Prelude Words Text Units Schema Semaphores Limiter Classifier Admission Policy.
Local Open Scope string_scope.
Local Open Scope list_scope.
Local Open Scope N_scope.

Section Names.
Context {Sem : Type} `{S : !Semaphore Sem}.
Implicit Types (x : Limiter Sem) (h : Heap Sem) (k : AdmissionController).

Lemma name_acquire w x :
  match acquire_start w x with Granted _ y | Refused _ y | Parked _ _ y => Limiter.name y = Limiter.name x end.
Proof.
  unfold acquire_start. destruct (try_acquire_many _ _); [done|]. destruct (_ =? 0); [done|]. cbv zeta.
  destruct (_ <=? _); [done|]. by destruct (acquire_many _ _).
Qed.

Lemma name_release n x : Limiter.name (release n x) = Limiter.name x.
Proof.
  unfold release. cbv zeta. destruct (_ =? _); [done|]. destruct (_ <? _); [|done]. by destruct (permit_split _ _ _) as [[]|].
Qed.

Lemma name_resize_queue n q t x : Limiter.name (resize_queue n q t x) = Limiter.name x.
Proof.
  unfold resize_queue, resize. cbv zeta. destruct (_ <? _); [by destruct (_ <? _)|].
  destruct (_ <? _); [|done]. destruct (forget_permits _ _). by destruct (_ <? _).
Qed.

Lemma name_finish t n w x : Limiter.name (acquire_finish t n w x).2 = Limiter.name x.
Proof. by destruct w. Qed.

(** ** Heaps *)

Definition keeps_names h h' : Prop :=
  (next h ≤ next h')%nat ∧ ∀ n, (n < next h)%nat → Limiter.name (cell h' n) = Limiter.name (cell h n).

#[export] Instance keeps_names_preorder : PreOrder keeps_names.
Proof.
  split; [by split|]. intros a b c [H1 H2] [G1 G2]. split; [lia|]. intros n Hn. rewrite G2 by lia. by apply H2.
Qed.

Lemma keeps_modify n f h :
  (Limiter.name (f (cell h n)) = Limiter.name (cell h n)) → keeps_names h (modify n f h).
Proof. intros Hf. split; [done|]. intros i _. unfold modify. simpl. by case_decide; subst. Qed.

Lemma keeps_alloc x h : keeps_names h (alloc x h).2 ∧ (alloc x h).1 = next h
  ∧ (next h < next (alloc x h).2)%nat ∧ Limiter.name (cell (alloc x h).2 (next h)) = Limiter.name x.
Proof.
  unfold alloc. cbn [fst snd next cell]. split_and!; [|done|lia|by case_decide].
  split; cbn [next cell]; [lia|]. intros i Hi. case_decide; [lia|done].
Qed.

Lemma keeps_drop ps h : keeps_names h (drop_permits ps h).
Proof.
  unfold drop_permits. revert h. induction ps as [|p ps IH]; intros h; [reflexivity|]. simpl.
  etrans; [|apply IH]. apply keeps_modify, name_release.
Qed.

Lemma keeps_go now w d todo took h :
  match admit_go now w d todo took h with Decided _ h' | Await _ h' => keeps_names h h' end.
Proof.
  revert took h. induction todo as [|n todo IH]; intros took h; simpl; [reflexivity|].
  pose proof (name_acquire w (cell h n)) as Hn. destruct (acquire_start w (cell h n)) as [u y|why y|t u y].
  - specialize (IH ((n, u) :: took) (modify n (λ _, y) h)).
    assert (keeps_names h (modify n (λ _, y) h)) as Hm by by apply keeps_modify.
    destruct (admit_go _ _ _ _ _ _); by etrans.
  - etrans; [|apply keeps_drop]. by apply keeps_modify.
  - by apply keeps_modify.
Qed.

Lemma keeps_admit now cl route p w k h :
  match admit_request now cl route p w k h with Decided _ h' | Await _ h' => keeps_names h h' end.
Proof. unfold admit_request. destruct (negb _); [reflexivity|]. apply keeps_go. Qed.

Lemma keeps_resume now p w h :
  match admit_resume now p w h with Decided _ h' | Await _ h' => keeps_names h h' end.
Proof.
  unfold admit_resume. pose proof (name_finish (slip p) (wanted p) w (cell h (at_limiter p))) as Hn.
  destruct (acquire_finish _ _ _ _) as [r y]. simpl in Hn.
  assert (keeps_names h (modify (at_limiter p) (λ _, y) h)) as Hm by by apply keeps_modify.
  destruct r as [u|why]; [|etrans; [exact Hm|apply keeps_drop]].
  pose proof (keeps_go now (weight p) (deadline p) (todo p) ((at_limiter p, u) :: took p) (modify (at_limiter p) (λ _, y) h)) as Hg.
  destruct (admit_go _ _ _ _ _ _); by etrans.
Qed.

Lemma keeps_abandon p h : keeps_names h (admit_abandon p h).
Proof. unfold admit_abandon. etrans; [|apply keeps_drop]. by apply keeps_modify. Qed.

(** ** Controllers *)

(** Every limiter of the controller is called what it should be. *)
Record named k h : Prop := mkNamed {
  global_named : (global k < next h)%nat;
  tiers_named : Forall (λ t, (t < next h)%nat ∧ Limiter.name (cell h t) ∈ limiter_name <$> all_priorities) (tiers k);
  routes_named : ∀ id n, routes k !! id = Some n → (n < next h)%nat ∧ Limiter.name (cell h n) = id }.

Lemma named_keeps k h h' : keeps_names h h' → named k h → named k h'.
Proof.
  intros [Hn Hk] [H1 H2 H3]. split; [lia| |].
  - eapply Forall_impl; [exact H2|]. intros t [Ht Hx]. rewrite Hk by done. split; [lia|done].
  - intros id n [Hlt <-]%H3. rewrite Hk by done. split; [lia|done].
Qed.

Lemma named_tier k h p t : named k h → tier_limiter k p = Some t → (t < next h)%nat ∧ Limiter.name (cell h t) ∈ limiter_name <$> all_priorities.
Proof.
  intros Hn. unfold tier_limiter. destruct (list_find _ _) as [[i q]|]; [|done]. simpl. intros Ht.
  exact (proj1 (Forall_lookup _ _) (tiers_named _ _ Hn) _ _ Ht).
Qed.

Lemma named_add id m q t k h :
  named k h → let '(n, h') := alloc (Limiter.new id m q t) h in
  keeps_names h h' ∧ (n < next h')%nat ∧ Limiter.name (cell h' n) = id
  ∧ named (mkController (global k) (tiers k) (<[id := n]> (routes k))) h'.
Proof.
  intros Hn. destruct (keeps_alloc (Limiter.new id m q t) h) as (Hk & E & Hlt & Hx).
  destruct (alloc _ _) as [n h']. cbn [fst snd] in *. subst n. split_and!; [done|done|done|].
  destruct (named_keeps _ _ _ Hk Hn) as [H1 H2 H3]. split; [done|done|]. cbn [routes]. intros id' n'.
  rewrite lookup_insert_Some. intros [[<- <-]|[_ ?]]; [by split|by apply H3].
Qed.

Lemma named_route_limiter id m q t k h :
  named k h → let '(n, (k', h')) := route_limiter id m q t k h in
  keeps_names h h' ∧ (n < next h')%nat ∧ Limiter.name (cell h' n) = id ∧ named k' h' ∧ global k' = global k.
Proof.
  intros Hn. unfold route_limiter. destruct (routes k !! id) as [n|] eqn:E.
  - destruct (routes_named _ _ Hn _ _ E). by split_and!.
  - pose proof (named_add id m q t k h Hn) as H. destruct (alloc _ _) as [n h']. destruct H as (?&?&?&?). by split_and!.
Qed.

Lemma named_apply_route r k h :
  named k h → keeps_names h (apply_route (k, h) r).2 ∧ named (apply_route (k, h) r).1 (apply_route (k, h) r).2
    ∧ global (apply_route (k, h) r).1 = global k ∧ tiers (apply_route (k, h) r).1 = tiers k.
Proof.
  intros Hn. unfold apply_route. destruct r as [[[id m] q] t]. destruct (routes k !! id) as [n|].
  - cbn [fst snd]. assert (keeps_names h (modify n (resize_queue m q t) h)) as Hk by apply keeps_modify, name_resize_queue.
    split_and!; [done|by eapply named_keeps|done|done].
  - pose proof (named_add id m q t k h Hn) as H. destruct (alloc _ _) as [n h']. cbn [fst snd]. by destruct H as (?&_&_&?).
Qed.

Lemma named_apply_limits gm gq gt ps rs k h :
  named k h → keeps_names h (apply_limits gm gq gt ps rs k h).2 ∧ named (apply_limits gm gq gt ps rs k h).1 (apply_limits gm gq gt ps rs k h).2.
Proof.
  intros Hn. unfold apply_limits. set (h1 := modify _ _ h).
  assert (keeps_names h h1) as K1 by apply keeps_modify, name_resize_queue.
  set (h2 := foldl _ h1 _). assert (keeps_names h1 h2) as K2.
  { subst h2. generalize (imap pair all_priorities). intros l. generalize h1. induction l as [|[i p] l IH]; intros h0; [reflexivity|].
    cbn [foldl]. etrans; [|apply IH]. simpl. destruct (tiers k !! i); [|reflexivity]. apply keeps_modify, name_resize_queue. }
  assert (named k h2) as N2 by (eapply named_keeps; [|exact Hn]; by etrans).
  assert (∀ rs k0 h0, named k0 h0 → keeps_names h0 (foldl apply_route (k0, h0) rs).2
    ∧ named (foldl apply_route (k0, h0) rs).1 (foldl apply_route (k0, h0) rs).2) as Hrs.
  { clear. induction rs as [|r rs IH]; intros k0 h0 H0; [by split; [reflexivity|]|].
    destruct (named_apply_route r k0 h0 H0) as (A & B & _). cbn [foldl]. destruct (apply_route (k0, h0) r) as [k1 h1]. cbn [fst snd] in *.
    destruct (IH k1 h1 B). split; [by etrans|done]. }
  destruct (Hrs rs k h2 N2) as [K3 [N3 N4 N5]]. destruct (foldl apply_route (k, h2) rs) as [k3 h3]. cbn [fst snd] in *. split.
  - etrans; [exact K1|]. by etrans.
  - split; [done|done|]. cbn [routes]. intros id n [Hx _]%map_lookup_filter_Some. by apply N5.
Qed.

Lemma named_new gm q t ps h :
  let '(k, h') := new_controller gm q t ps h in keeps_names h h' ∧ named k h'.
Proof.
  unfold new_controller. destruct (keeps_alloc (Limiter.new "global" gm q t) h) as (Hk & E & Hlt & Hx).
  destruct (alloc _ h) as [g h1]. cbn [fst snd] in *. subst g.
  assert (∀ l ts h0, (∀ p, p ∈ l → p ∈ all_priorities) → (next h < next h0)%nat →
    Forall (λ t, (t < next h0)%nat ∧ Limiter.name (cell h0 t) ∈ limiter_name <$> all_priorities) ts →
    let '(ts', h') := foldl (λ acc p, let '(ts, h) := acc in
        let '(n, h) := alloc (Limiter.new (limiter_name p) (tier_ceiling gm (Priorities.percent_for ps p)) q t) h in
        (ts ++ [n], h)) (ts, h0) l in
    keeps_names h0 h' ∧ Forall (λ t, (t < next h')%nat ∧ Limiter.name (cell h' t) ∈ limiter_name <$> all_priorities) ts') as Hfold.
  { induction l as [|p l IH]; intros ts h0 Hin Hlt0 Hf; [by split; [reflexivity|]|]. cbn [foldl].
    destruct (keeps_alloc (Limiter.new (limiter_name p) (tier_ceiling gm (Priorities.percent_for ps p)) q t) h0) as (Ka & Ea & Hla & Hna).
    destruct (alloc _ h0) as [n h2]. cbn [fst snd] in *. subst n.
    specialize (IH (ts ++ [next h0]) h2). destruct (foldl _ _ l) as [ts' h'].
    destruct IH as [K F]; [intros q0 Hq; apply Hin; by right|lia| |split; [by etrans|done]].
    apply Forall_app. split.
    - eapply Forall_impl; [exact Hf|]. intros i [Hi Hni]. rewrite (proj2 Ka) by done. split; [lia|done].
    - constructor; [|done]. split; [lia|]. rewrite Hna. apply list_elem_of_fmap. exists p. split; [done|]. apply Hin. by left. }
  specialize (Hfold all_priorities [] h1 (λ p H, H) Hlt (Forall_nil_2 _)). destruct (foldl _ ([], h1) _) as [ts h'].
  destruct Hfold as [K F]. split; [by etrans|]. split; cbn [global tiers routes]; [|done|intros ? ? He; by rewrite lookup_empty in He].
  destruct K. lia.
Qed.

Lemma named_startup cfg h : let '(k, h') := startup cfg h in keeps_names h h' ∧ named k h'.
Proof.
  unfold startup, apply_config. cbv zeta.
  pose proof (named_new (Concurrency.max (Origin.concurrency (Config.origin cfg))) (Queue.max (Concurrency.queue (Origin.concurrency (Config.origin cfg))))
    (as_duration (Queue.timeout (Concurrency.queue (Origin.concurrency (Config.origin cfg))))) (Origin.priorities (Config.origin cfg)) h) as H.
  destruct (new_controller _ _ _ _ h) as [k h1]. destruct H as [K1 N1].
  destruct (named_apply_limits (Concurrency.max (Origin.concurrency (Config.origin cfg))) (Queue.max (Concurrency.queue (Origin.concurrency (Config.origin cfg))))
    (as_duration (Queue.timeout (Concurrency.queue (Origin.concurrency (Config.origin cfg))))) (Origin.priorities (Config.origin cfg)) (route_limits cfg) k h1 N1) as [K2 N2].
  destruct (apply_limits _ _ _ _ _ k h1) as [k2 h2]. cbn [fst snd] in *. split; [by etrans|done].
Qed.

(** A request's limiter is called after its route. *)
Lemma named_limiter_for {M : Matching} (p : PolicySnapshot M) id k h :
  named k h → let '(o, (k', h')) := limiter_for M p id k h in
  keeps_names h h' ∧ named k' h' ∧ global k' = global k ∧ ∀ n, o = Some n → (n < next h')%nat ∧ Limiter.name (cell h' n) = id.
Proof.
  intros Hn. unfold limiter_for.
  destruct (list_find _ _) as [[i r]|]; simpl; [|by split_and!].
  destruct (Route.concurrency _) as [cc|]; [|by split_and!].
  pose proof (named_route_limiter id (Concurrency.max cc) (Queue.max (Concurrency.queue cc)) (as_duration (Queue.timeout (Concurrency.queue cc))) k h Hn) as H.
  destruct (route_limiter _ _ _ _ _ _) as [n [k' h']]. destruct H as (?&?&?&?&?). split_and!; [done|done|done|]. by intros ? [= <-].
Qed.
End Names.
