(* ===== verification/Labels.v ===== *)
(** * What metrics are labelled by ([src/src/telemetry/metrics.rs])

    The module's rule: a label is the name of a route, a backend or a limiter,
    which somebody wrote in the configuration, or a word of the source; never
    anything of a request.  [allowed] is the rule, label by label, and every
    handler's publications obey it ([Published]); with it they have as many label
    values as their family has labels, and are of its kind. *)

From S2P Require Import Prelude Words Text Units Schema.
From S2P Require Import Classifier CachePolicy Semaphores Limiter Admission Store BodySpool Retries Breakers Upstream Forwarded Policy.
From S2P Require Import AccessLog Spans Export Trace Metrics Drain AdminEndpoint Filters Proxy PoolFacts Names Published.
Local Open Scope string_scope.
Local Open Scope list_scope.
Local Open Scope N_scope.

(** ** The vocabulary *)

Definition class_words : list string :=
  class_as_str <$> [Static; PublicDocument; PublicDynamic; PrivateDynamic; Mutation; Streaming; Upgrade; Unknown].
Definition cache_words : list string := ["hit"; "miss"; "stale"; "bypass"; "shed"; "disabled"].
Definition bypass_words : list string :=
  bypass_as_str <$> [RouteDisabled; Status 0; SetCookie; CacheControlPrivate; NoStore; NoCache; UnsupportedVary EmptyString].
Definition shed_words : list string := (λ r, "shed_" +:+ ShedReason_as_str r) <$> [QueueFull; QueueTimeout].
Definition admission_words : list string := ["observe"; "admitted"; "exempt"] ++ shed_words.
Definition upgrade_words : list string := ["disabled"; "admitted"] ++ shed_words.
Definition spool_words : list string := outcome_as_str <$> [BodySpool.Complete; BodyTooLarge; BodySpool.BudgetExhausted].
Definition span_words : list string := ["recorded"; "dropped"; "exported"; "export_failed"].
Definition failure_words : list string := ["connect"; "proxy"; "status"].
Definition retry_words : list string := decision_as_str <$> [Allowed; Ineligible; AttemptsExhausted; Retries.BudgetExhausted].
Definition purge_words : list string := ["all"; "selective"; "deployment"].
Definition tier_words : list string := limiter_name <$> all_priorities.

(** What configurations contribute: the ids of routes and the backends. *)
Record Known := mkKnown { route_ids : list string; backend_names : list string }.

Definition route_values (k : Known) : list string := "-" :: route_ids k.
Definition limiter_values (k : Known) : list string := "global" :: tier_words ++ route_ids k.

(** The values each label of a family may have. *)
Definition allowed (k : Known) (m : Cell) : list (list string) :=
  match m with
  | REQUESTS => [route_values k; class_words]
  | CACHE => [route_values k; cache_words]
  | BYPASS_REASON => [route_values k; bypass_words]
  | ADMISSION => [route_values k; admission_words]
  | ORIGIN_REQUESTS => [route_values k; backend_names k]
  | ORIGIN_LATENCY | REUSE_ELIGIBLE => [route_values k]
  | QUEUE_DEPTH | LIMIT | IN_FLIGHT => [limiter_values k]
  | SPOOL => [route_values k; spool_words]
  | UPGRADES => [route_values k; upgrade_words]
  | SPANS => [span_words]
  | UPSTREAM_HEALTHY | UPSTREAM_ADDRESSES | UPSTREAM_EJECTED | UPSTREAM_TRIPS
  | UPSTREAM_IN_FLIGHT | UPSTREAM_LATENCY_EWMA => [backend_names k]
  | UPSTREAM_FAILURES => [backend_names k; failure_words]
  | RETRIES => [route_values k; retry_words]
  | CACHE_PURGED => [purge_words]
  | SPOOL_BYTES | CACHE_BYTES | CACHE_MAX_BYTES | SPOOL_MAX_BYTES | CACHE_ENTRIES | UPGRADES_ACTIVE | DRAINING
  | CONFIG_GENERATION | CONFIG_FINGERPRINT | RETRY_BUDGET | CACHE_EVICTED | CACHE_TAGS => []
  end.

Definition within (values : list (list string)) (labels : list string) : Prop := Forall2 (λ l vs, l ∈ vs) labels values.

(** The most series a family can have. *)
Definition most_series (values : list (list string)) : nat := foldr (λ vs n, (length vs * n)%nat) 1%nat values.

(** A publication that obeys the rule, is of its family's kind, and is to one of
    the families [ms]. *)
Definition proper (k : Known) (ms : list Cell) (p : Publication) : Prop :=
  within (allowed k (target p).1) (target p).2
  ∧ match p, kind (desc (target p).1) with
    | Inc _ _ _, Counter | Put _ _ _, Gauge | Seen _ _ _, Histogram _ => True
    | _, _ => False
    end
  ∧ (target p).1 ∈ ms.

Lemma allowed_arity k m : length (allowed k m) = length (label_names (desc m)).
Proof. by destruct m. Qed.

Lemma proper_typed k ms p : proper k ms p → well_typed p.
Proof.
  intros (Hw & Hk & _). apply Forall2_length in Hw. rewrite allowed_arity in Hw. unfold well_typed.
  destruct p as [m ls ?|m ls ?|m ls ?]; cbn [target fst snd] in *; (split; [done|]); by destruct (kind (desc m)).
Qed.

Lemma proper_weaken k ms ms' p : ms ⊆ ms' → proper k ms p → proper k ms' p.
Proof. intros Hs (H1 & H2 & H3). split_and!; [done|done|by apply Hs]. Qed.

(** More is known after a reload. *)
Definition knows_more (k k' : Known) : Prop := route_ids k ⊆ route_ids k' ∧ backend_names k ⊆ backend_names k'.

#[export] Instance knows_more_preorder : PreOrder knows_more.
Proof. split; [by split|]. intros a b c [H1 H2] [G1 G2]. split; by etrans. Qed.

Lemma allowed_mono k k' m ls : knows_more k k' → within (allowed k m) ls → within (allowed k' m) ls.
Proof.
  intros [Hr Hb]. assert (route_values k ⊆ route_values k') as Hv by (unfold route_values; set_solver).
  assert (limiter_values k ⊆ limiter_values k') as Hl by (unfold limiter_values; set_solver).
  assert (∀ values values', Forall2 (⊆) values values' → within values ls → within values' ls) as Hw.
  { unfold within. intros values values' Hs H. revert values' Hs. induction H as [|l vs ls' values Hin _ IH]; intros values' Hs.
    - by apply Forall2_nil_inv_l in Hs as ->.
    - apply Forall2_cons_inv_l in Hs as (vs' & values'' & Hsub & Hs & ->). constructor; [by apply Hsub|by apply IH]. }
  apply Hw. destruct m; cbn [allowed]; repeat (constructor; [done|]); constructor.
Qed.

(** The label sets a family may have are as many as the product says. *)
Fixpoint products (values : list (list string)) : list (list string) :=
  match values with
  | [] => [[]]
  | vs :: values => v ← vs; (v ::.) <$> products values
  end.

Lemma products_within values ls : within values ls → ls ∈ products values.
Proof.
  induction 1 as [|l vs ls values Hl _ IH]; [by left|]. cbn [products].
  apply list_elem_of_bind. exists l. split; [|done]. apply list_elem_of_fmap. by exists ls.
Qed.

Lemma products_length values : length (products values) = most_series values.
Proof.
  induction values as [|vs values IH]; [done|]. cbn [products most_series foldr]. change (foldr _ 1%nat values) with (most_series values).
  rewrite <-IH. induction vs as [|v vs IHv]; [done|]. cbn [mbind list_bind]. rewrite length_app, length_fmap. simpl. by rewrite IHv.
Qed.

(** ** The words handlers use *)

Create HintDb labels.

(** A closed goal, by evaluating it. *)
Ltac decided := match goal with |- ?P => apply (bool_decide_unpack P); vm_compute; exact I end.

Lemma class_word c : class_as_str c ∈ class_words.
Proof. apply list_elem_of_fmap_2. destruct c; decided. Qed.
Lemma cache_word {M : Matching} ph (r : Routing) s : cache_status ph r s ∈ cache_words.
Proof. destruct ph; simpl; try decided; destruct s, (cache_active r); decided. Qed.
Lemma shed_word r : "shed_" +:+ ShedReason_as_str r ∈ shed_words.
Proof. apply (list_elem_of_fmap_2 (λ r, "shed_" +:+ ShedReason_as_str r)). destruct r; decided. Qed.
Lemma shed_admission_word r : "shed_" +:+ ShedReason_as_str r ∈ admission_words.
Proof. apply elem_of_app. right. apply shed_word. Qed.
Lemma shed_upgrade_word r : "shed_" +:+ ShedReason_as_str r ∈ upgrade_words.
Proof. apply elem_of_app. right. apply shed_word. Qed.
Lemma spool_word o : outcome_as_str o ∈ spool_words.
Proof. apply list_elem_of_fmap_2. destruct o; decided. Qed.
Lemma retry_word d : decision_as_str d ∈ retry_words.
Proof. apply list_elem_of_fmap_2. destruct d; decided. Qed.
Lemma bypass_word r resp why : sharing r resp = NotShareable why → bypass_as_str why ∈ bypass_words.
Proof.
  unfold sharing, evaluate_response. cbv zeta. intros H.
  repeat case_in H; try discriminate H; injection H as <-; simpl; decided.
Qed.
#[export] Hint Resolve class_word cache_word shed_admission_word shed_upgrade_word spool_word retry_word : labels.
#[export] Hint Extern 1 (_ ∈ _ :: _) => decided : labels.
#[export] Hint Extern 2 (_ ∈ _) => decided : labels.

(** ** What is known of a request *)

Definition routed (k : Known) (r : Routing) : Prop := ∀ id, route_id r = Some id → id ∈ route_ids k.

Lemma route_value k r : routed k r → route_label r ∈ route_values k.
Proof.
  unfold routed, route_label, route_values. destruct (route_id r) as [id|]; simpl; intros H; [right; by apply H|by left].
Qed.
#[export] Hint Resolve route_value : labels.

(** A list of publications, one at a time. *)
Ltac each_label :=
  lazymatch goal with
  | |- Forall2 _ [] [] => apply Forall2_nil_2
  | |- Forall2 _ (_ :: _) (_ :: _) => apply Forall2_cons_2; [auto with labels|each_label]
  end.
Ltac each_proper :=
  lazymatch goal with
  | |- Forall _ [] => apply Forall_nil_2
  | |- Forall _ (_ :: _) => apply Forall_cons_2; [split; [unfold within; cbn [target fst snd allowed]; each_label|split; [exact I|decided]]|each_proper]
  end.

Definition all_proper (k : Known) (ms : list Cell) (ps : list Publication) : Prop := Forall (proper k ms) ps.

Lemma all_proper_app k ms ps qs : all_proper k ms ps → all_proper k ms qs → all_proper k ms (ps ++ qs).
Proof. intros. by apply Forall_app. Qed.
Lemma all_proper_weaken k ms ms' ps : ms ⊆ ms' → all_proper k ms ps → all_proper k ms' ps.
Proof. intros Hs H. eapply Forall_impl; [exact H|]. intros p. by apply proper_weaken. Qed.
Lemma all_proper_join {A} k ms (f : A → list Publication) l : Forall (λ a, all_proper k ms (f a)) l → all_proper k ms (mjoin (f <$> l)).
Proof. induction 1 as [|a l Ha _ IH]; [constructor|]. by apply all_proper_app. Qed.

Section Proper.
Context {Sem : Type} `{S : !Semaphore Sem} {M : Matching}.
Context (kn : Known).
Implicit Types (c : Ctx (M := M)) (l : Live (Sem := Sem) (M := M)) (k : AdmissionController) (h : Heap Sem).

(** ** Handler by handler *)

Lemma request_filter_routed {A} `{FrameworkAdapter A} p req :
  (∀ r, r ∈ p_routes M p → r_id M r ∈ route_ids kn) → routed kn (request_filter (A := A) p req).1.
Proof.
  intros Hr id. unfold request_filter. cbv zeta.
  destruct (Policy.resolve M p (request_host req) (req_path req) (req_method req)) as [r|] eqn:E.
  - assert (r_id M r ∈ route_ids kn) as Hin.
    { apply Hr. unfold Policy.resolve in E. destruct (list_find _ _) as [[i r']|] eqn:El; [|done]. injection E as ->.
      apply list_find_Some in El as (El & _). by eapply list_elem_of_lookup_2. }
    destruct (_ && negb _); [by intros [= <-]|]. destruct (evaluate_request _ _ _ _ _ _ _); by intros [= <-].
  - destruct (_ && negb _); [done|]. by destruct (evaluate_request _ _ _ _ _ _ _).
Qed.

Definition request_cells := [REQUESTS; UPGRADES; REUSE_ELIGIBLE].
Lemma request_filter_proper {A} `{FrameworkAdapter A} p req :
  (∀ r, r ∈ p_routes M p → r_id M r ∈ route_ids kn) → all_proper kn request_cells (request_filter_published (A := A) p req).
Proof.
  intros Hr. pose proof (request_filter_routed (A := A) p req Hr) as H'. unfold request_filter_published.
  destruct (request_filter p req) as [r refused]. simpl in H'. unfold all_proper.
  destruct refused; [|destruct (cache_active r)]; each_proper.
Qed.

Definition limiter_cells := [LIMIT; QUEUE_DEPTH; IN_FLIGHT].
Lemma publish_limiter_proper name x : name ∈ limiter_values kn → all_proper kn limiter_cells (publish_limiter (Sem := Sem) name x).
Proof. intros Hn. unfold all_proper, publish_limiter. each_proper. Qed.
Lemma publish_occupancy_proper name x : name ∈ limiter_values kn → all_proper kn limiter_cells (publish_occupancy (Sem := Sem) name x).
Proof. intros Hn. unfold all_proper, publish_occupancy. each_proper. Qed.

Lemma global_value : "global" ∈ limiter_values kn.
Proof. by left. Qed.
Lemma tier_value n : n ∈ tier_words → n ∈ limiter_values kn.
Proof. intros H. right. apply elem_of_app. by left. Qed.
Lemma limiter_value id : id ∈ route_ids kn → id ∈ limiter_values kn.
Proof. intros H. right. apply elem_of_app. by right. Qed.

Lemma tier_state_proper p k h : named k h → all_proper kn limiter_cells (publish_tier_state p k h).
Proof.
  intros Hn. unfold publish_tier_state. destruct (tier_limiter k p) as [t|] eqn:E; [|constructor].
  apply publish_limiter_proper, tier_value. by destruct (named_tier _ _ _ _ Hn E).
Qed.

Definition admission_cells := ADMISSION :: limiter_cells.
Lemma on_admission_proper progress route k c :
  routed kn (routing c) →
  (match progress with Decided _ h | Await _ h => named k h ∧ ∀ n, route = Some n → Limiter.name (cell h n) ∈ route_ids kn end) →
  all_proper kn admission_cells (on_admission_published progress route k c).
Proof.
  intros Hr Hn. unfold on_admission_published. destruct progress as [o h|]; [|constructor]. destruct Hn as [Hn Hx].
  assert (∀ ps, all_proper kn limiter_cells ps → all_proper kn admission_cells ps) as Hw.
  { intros ps. apply all_proper_weaken. unfold admission_cells. set_solver. }
  repeat apply all_proper_app.
  - apply Hw, publish_limiter_proper, global_value.
  - destruct route as [n|]; [|constructor]. by apply Hw, publish_limiter_proper, limiter_value, Hx.
  - by apply Hw, tier_state_proper.
  - unfold all_proper. destruct o; each_proper.
Qed.

Definition upstream_cells := [UPSTREAM_IN_FLIGHT; UPSTREAM_LATENCY_EWMA; UPSTREAM_EJECTED].
Lemma backend_state_proper i a p : a ∈ backend_names kn → all_proper kn upstream_cells (publish_backend_state i a p).
Proof. intros Ha. unfold all_proper, publish_backend_state. each_proper. Qed.

Definition attempts_at c : Prop := ∀ a, upstream (attempt c) = Some a → a ∈ backend_names kn.

Lemma release_proper c l : attempts_at c → all_proper kn upstream_cells (release_published c l).
Proof.
  intros Ha. unfold release_published. destruct (origin_slot _); [|constructor].
  destruct (upstream (attempt c)) as [a|] eqn:E; [|constructor]. by apply backend_state_proper, Ha.
Qed.

Definition peer_cells := ORIGIN_REQUESTS :: upstream_cells.
Lemma upstream_peer_proper ms path c l :
  routed kn (routing c) → attempts_at c → numbered (upstreams l) → addresses (upstreams l) ⊆ backend_names kn →
  all_proper kn peer_cells (upstream_peer_published ms path c l).
Proof.
  intros Hr Ha Hn Hb. unfold upstream_peer_published. destruct (select_at path ms (upstreams l)) as [[sel|] pool] eqn:E; [|constructor].
  pose proof (chosen_quiet path (if bool_decide (strategy pool = HashByPath) then Some path else None) ms _ _ _ Hn E) as (Hp & _ & _ & Hx & _).
  destruct (socket_for _ (backend sel)) as [[so|] b]; [|constructor]. cbn [snd] in *.
  assert (address b ∈ backend_names kn) as Hin.
  { apply Hb. unfold addresses. apply list_elem_of_fmap. exists (id b, address b). split; [done|]. by eapply list_elem_of_lookup_2. }
  cbv zeta. repeat apply all_proper_app.
  - eapply all_proper_weaken; [|by apply release_proper]. unfold peer_cells. set_solver.
  - eapply all_proper_weaken; [|by apply backend_state_proper]. unfold peer_cells. set_solver.
  - unfold all_proper. each_proper.
Qed.

Definition outcome_cells := [UPSTREAM_FAILURES; UPSTREAM_TRIPS; UPSTREAM_EJECTED].
Lemma outcome_proper ms ok kd c l :
  attempts_at c → kd ∈ failure_words → all_proper kn outcome_cells (record_origin_outcome_published ms ok kd c l).
Proof.
  intros Ha Hk. unfold record_origin_outcome_published. destruct (outcome_recorded _); [constructor|].
  destruct (origin_slot _) as [g|]; [|constructor]. destruct (upstream (attempt c)) as [a|] eqn:E; [|constructor].
  assert (a ∈ backend_names kn) by by apply Ha. cbv zeta. repeat apply all_proper_app; unfold all_proper.
  - destruct (negb ok); each_proper.
  - destruct (_ && _); each_proper.
  - each_proper.
Qed.

Definition retry_cells := [RETRIES; RETRY_BUDGET].
Lemma decide_retry_proper ms read method c l :
  routed kn (routing c) → all_proper kn retry_cells (decide_retry_published ms read method c l).
Proof.
  intros Hr. unfold decide_retry_published. destruct (negb _); [constructor|]. destruct (decide_retry _ _ _ _) as [d l'].
  unfold all_proper. each_proper.
Qed.

Definition failed_cells := outcome_cells ++ retry_cells.
Lemma outcome_routing ms ok c l :
  routing (record_origin_outcome ms ok c l).1 = routing c.
Proof. unfold record_origin_outcome. destruct (outcome_recorded _); [done|]. by destruct (origin_slot _). Qed.

Lemma failed_proper ms read method kd c l (again : bool) :
  routed kn (routing c) → attempts_at c → kd ∈ failure_words →
  all_proper kn failed_cells
    (record_origin_outcome_published ms false kd c l
     ++ if again then let '(c, l) := record_origin_outcome ms false c l in decide_retry_published ms read method c l else []).
Proof.
  intros Hr Ha Hk. apply all_proper_app.
  - eapply all_proper_weaken; [|by apply outcome_proper]. unfold failed_cells. set_solver.
  - destruct again; [|constructor]. pose proof (outcome_routing ms false c l) as E. destruct (record_origin_outcome ms false c l) as [c' l'].
    cbn [fst] in E. eapply all_proper_weaken; [|apply decide_retry_proper; by rewrite E]. unfold failed_cells. set_solver.
Qed.

Definition response_cells := upstream_cells ++ outcome_cells.
Lemma upstream_response_proper now ms status c l :
  attempts_at c → all_proper kn response_cells (upstream_response_filter_published now ms status c l).
Proof.
  intros Ha. unfold upstream_response_filter_published. cbv zeta.
  assert (∀ i, all_proper kn response_cells (match upstream (attempt c) with Some a => publish_backend_state (backend_id i) a
     (observe_latency (backend_id i) (clamp U64_MAX (as_micros (now - default 0 (origin_started (attempt c))))) (upstreams l)) | None => [] end)) as Hs.
  { intros i. destruct (upstream (attempt c)) as [a|] eqn:E; [|constructor].
    eapply all_proper_weaken; [|by apply backend_state_proper, Ha]. unfold response_cells. set_solver. }
  destruct (origin_slot (attempt c)) as [g|]; [destruct (origin_started (attempt c)) as [st|] eqn:Est|];
    (apply all_proper_app; [first [exact (Hs g)|constructor]|]);
    (eapply all_proper_weaken; [|apply outcome_proper; [done|decided]]); unfold response_cells; set_solver.
Qed.

Lemma response_cache_proper r resp : routed kn r → all_proper kn [BYPASS_REASON] (response_cache_filter_published r resp).
Proof.
  intros Hr. unfold response_cache_filter_published. destruct (sharing r resp) as [| |why] eqn:E; [constructor..|].
  apply bypass_word in E. unfold all_proper. each_proper.
Qed.

Lemma origin_body_proper now eos c l :
  attempts_at c → all_proper kn upstream_cells (upstream_response_body_filter_published now eos c l).
Proof.
  intros Ha. unfold upstream_response_body_filter_published. destruct (check_origin_deadline _ _ _); [|constructor].
  destruct eos; [|constructor]. by apply release_proper.
Qed.

Definition body_cells := [SPOOL; SPOOL_BYTES].
Lemma body_proper up body eos c l : routed kn (routing c) → all_proper kn body_cells (response_body_filter_published up body eos c l).
Proof.
  intros Hr. unfold response_body_filter_published. destruct (spool (holds c)) as [s|]; [|constructor]. destruct up; [constructor|].
  destruct (offer _ _ _ _) as [[out s'] b]. unfold all_proper, spool_bytes. destruct (_ && _); cbn [app]; each_proper.
Qed.

(** [record] is what is published of the request's spans. *)
Definition end_cells := [CACHE; ORIGIN_LATENCY; SPANS; SPOOL_BYTES; CACHE_BYTES; CACHE_ENTRIES; CACHE_TAGS; UPGRADES_ACTIVE]
  ++ limiter_cells ++ upstream_cells.

Lemma cache_gauges_proper ms s : [CACHE_BYTES; CACHE_ENTRIES; CACHE_TAGS] ⊆ ms → all_proper kn ms (cache_gauges s).
Proof.
  intros Hs. eapply all_proper_weaken; [exact Hs|]. unfold all_proper, cache_gauges. each_proper.
Qed.

Lemma logging_proper record x c l :
  routed kn (routing c) → attempts_at c → named (ctl l) (heap l) → all_proper kn [SPANS] record →
  all_proper kn end_cells (logging_published record x c l).
Proof.
  intros Hr Ha Hn Hs. unfold logging_published. destruct (drop_permit c l) as [c1 l1] eqn:E. injection E as <- <-.
  set (l1 := match permit (holds c) with Some ps => _ | None => l end).
  assert (named (ctl l1) (heap l1)) as Hn1.
  { subst l1. destruct (permit (holds c)); [|done]. cbn [ctl heap with_admission]. eapply named_keeps; [apply keeps_drop|done]. }
  assert (let '(route, (k, h)) := route_of c l1 in named k h ∧ ∀ n, route = Some n → Limiter.name (cell h n) ∈ route_ids kn) as Hroute.
  { unfold route_of. destruct (route_id (routing c)) as [id|] eqn:Eid; [|by split].
    pose proof (named_limiter_for (pinned c) id _ _ Hn1) as H. destruct (limiter_for _ _ _ _ _) as [route [k h]].
    destruct H as (_ & Hk & _ & Hx). split; [done|]. intros n Hrt. destruct (Hx n Hrt) as [_ ->]. by apply Hr. }
  destruct (route_of c l1) as [route [k h]]. destruct Hroute as [Hk Hx].
  assert (∀ ms ps, ms ⊆ end_cells → all_proper kn ms ps → all_proper kn end_cells ps) as Hw by (intros; by eapply all_proper_weaken).
  assert (limiter_cells ⊆ end_cells) as Hlim by (apply (bool_decide_unpack _); vm_compute; exact I).
  repeat apply all_proper_app.
  - unfold all_proper. each_proper.
  - unfold origin_latency, all_proper. destruct (origin_finished_ms _); [|destruct (origin_started _)]; each_proper.
  - eapply Hw; [|exact Hs]. set_solver.
  - unfold all_proper, spool_bytes. each_proper.
  - apply cache_gauges_proper. unfold end_cells. set_solver.
  - unfold all_proper, upgrades_active. destruct (upgrade_permit _); each_proper.
  - by eapply Hw, publish_occupancy_proper, global_value.
  - destruct route as [n|]; [|constructor]. by eapply Hw, publish_occupancy_proper, limiter_value, Hx.
  - by eapply Hw, tier_state_proper.
  - eapply Hw, release_proper, Ha. unfold end_cells. set_solver.
Qed.

Lemma spans_proper spans x : all_proper kn [SPANS] (record_all_published spans x).
Proof.
  revert x. induction spans as [|s spans IH]; intros x; [constructor|]. cbn [record_all_published].
  apply Forall_cons_2; [|apply IH]. apply Forall_singleton. unfold record_published. destruct (is_open x && _); each_proper.
Qed.

Lemma admit_proper now ph c l :
  routed kn (routing c) → named (ctl l) (heap l) →
  all_proper kn (UPGRADES :: UPGRADES_ACTIVE :: admission_cells) (proxy_upstream_filter_published now ph c l).
Proof.
  intros Hr Hn. unfold proxy_upstream_filter_published. cbv zeta. destruct (match ph with PhaseLockTimeout => true | _ => false end && _); [constructor|].
  destruct (bool_decide (class _ = _)).
  { unfold all_proper, upgrades_active. destruct (acquire_start 1 (upgrades l)); each_proper. }
  destruct (bool_decide _); [unfold all_proper; each_proper|].
  assert (let '(route, (k, h)) := route_of c l in named k h ∧ ∀ n, route = Some n → (n < next h)%nat ∧ Limiter.name (cell h n) ∈ route_ids kn) as Hroute.
  { unfold route_of. destruct (route_id (routing c)) as [id|] eqn:Eid; [|by split].
    pose proof (named_limiter_for (pinned c) id _ _ Hn) as H. destruct (limiter_for _ _ _ _ _) as [route [k h]].
    destruct H as (_ & Hk & _ & Hx). split; [done|]. intros n Hrt. destruct (Hx n Hrt) as [? ->]. split; [done|by apply Hr]. }
  destruct (route_of c l) as [route [k h]]. destruct Hroute as [Hk Hx].
  eapply all_proper_weaken; [|apply on_admission_proper; [done|]]; [set_solver|].
  pose proof (keeps_admit now (class (routing c)) route (priority (routing c)) (weight (routing c)) k h) as Hkeep.
  destruct (admit_request _ _ _ _ _ _ _) as [o h'|p h'];
    (split; [by eapply named_keeps|]; intros n Hrt; destruct (Hx n Hrt) as [Hlt Hin]; by rewrite (proj2 Hkeep)).
Qed.

(** ** The rest of the process *)

Definition purge_cells := [CACHE_PURGED; CACHE_BYTES; CACHE_ENTRIES; CACHE_TAGS].
Lemma response_proper req a decode l : all_proper kn purge_cells (response_published req a decode l).
Proof.
  unfold response_published. destruct (_ && _); [|constructor]. unfold purge_published.
  destruct (purge_token a) as [tk|]; [|constructor]. destruct (authorization req ≫= _) as [pr|]; [|constructor].
  destruct (negb _); [constructor|]. destruct (parse_purge_query _ _) as [request|]; [|constructor].
  destruct request as [tags paths|].
  - unfold run_request. destruct (purge_tags _ _) as [p s]. destruct (purge_paths _ _) as [q s']. unfold all_proper, cache_gauges. each_proper.
  - unfold run_request. destruct (purge_all _) as [p s]. unfold all_proper, cache_gauges. each_proper.
Qed.

Definition reload_cells := limiter_cells ++ [CACHE_PURGED; CONFIG_GENERATION; CONFIG_FINGERPRINT].
Lemma reload_proper (s s' : Reloader (Sem := Sem) M) :
  named (Policy.admission M s') (limiters M s') → all_proper kn reload_cells (reload_published s s').
Proof.
  intros Hn. unfold reload_published. repeat apply all_proper_app.
  - apply all_proper_join. eapply Forall_impl; [exact (tiers_named _ _ Hn)|]. intros t [_ Ht]. apply tier_value in Ht.
    unfold tier_gauges, all_proper. each_proper.
  - destruct (changed _ _ _); [|constructor]. destruct (Policy.store M s) as [st|]; [|constructor]. cbv zeta.
    unfold all_proper. destruct (_ <? _); each_proper.
  - unfold all_proper. each_proper.
Qed.

Lemma exporter_proper e x : all_proper kn [SPANS] (exporter_published e x).
Proof.
  assert (∀ a y, all_proper kn [SPANS] (flush_published a y)) as Hf.
  { intros a y. unfold flush_published, all_proper. destruct (batch y); [constructor|]. destruct a; each_proper. }
  assert (∀ rounds y, all_proper kn [SPANS] (drain_published rounds y)) as Hd.
  { induction rounds as [|[k a] rounds IH]; intros y; [constructor|]. cbn [drain_published]. by apply all_proper_app. }
  unfold exporter_published. destruct e as [sp|k a|a|rounds cut].
  - unfold all_proper, record_published. destruct (is_open x && _); each_proper.
  - unfold on_received_published. cbv zeta. destruct (_ <=? _); [done|constructor].
  - done.
  - unfold shut_down_published. apply all_proper_app; [done|]. cbv zeta. unfold all_proper. destruct (_ =? 0); each_proper.
Qed.

Lemma evicted_proper s s' : all_proper kn [CACHE_EVICTED] (evicted_published s s').
Proof.
  unfold evicted_published, all_proper. assert (Forall (proper kn [CACHE_EVICTED]) [Inc CACHE_EVICTED [] 1]) as H by each_proper.
  apply Forall_replicate. by inversion H.
Qed.

Definition startup_cells := limiter_cells ++ [CONFIG_GENERATION; CONFIG_FINGERPRINT; CACHE_MAX_BYTES; SPOOL_MAX_BYTES;
  UPSTREAM_HEALTHY; UPSTREAM_ADDRESSES] ++ upstream_cells.
Lemma startup_proper (p : PolicySnapshot M) k h pool :
  named k h → addresses pool ⊆ backend_names kn → all_proper kn startup_cells (startup_published p k h pool).
Proof.
  intros Hn Hb. assert (Forall (λ b, address b ∈ backend_names kn) (backends pool)) as Hall.
  { apply Forall_forall. intros b Hin. apply Hb. unfold addresses, places. rewrite <-list_fmap_compose. apply list_elem_of_fmap. by exists b. }
  unfold startup_published. repeat apply all_proper_app.
  - apply all_proper_join. eapply Forall_impl; [exact (tiers_named _ _ Hn)|]. intros t [_ Ht]. apply tier_value in Ht.
    unfold tier_started, all_proper. each_proper.
  - unfold config_started, all_proper. each_proper.
  - apply all_proper_join. eapply Forall_impl; [exact Hall|]. intros b Hx. unfold backend_started, all_proper. each_proper.
  - apply all_proper_join. eapply Forall_impl; [exact Hall|]. intros b Hx. unfold all_proper, resolved_published. each_proper.
Qed.
End Proper.
