(* ===== verification/Effects.v ===== *)
(** * What each filter touches

    Handler by handler: which parts of the live state it leaves as they were,
    what operators see of the parts it changes, and what it keeps of its request
    (its policy, its routing, and that a slot is held on the backend whose
    address the request remembers). *)

From S2P Require Import Prelude Words Text Units Schema Net.
From S2P Require Import Classifier Semaphores Limiter Admission Store BodySpool Retries Breakers Upstream Forwarded Policy.
From S2P Require Import AccessLog Spans Trace Drain AdminEndpoint Filters Proxy PoolFacts Names.
Local Open Scope string_scope.
Local Open Scope list_scope.
Local Open Scope N_scope.

Section Effects.
Context {Sem : Type} `{S : !Semaphore Sem} {M : Matching}.
Implicit Types (c : Ctx (M := M)) (l : Live (Sem := Sem) (M := M)).

(** What no filter touches. *)
Record calm l l' : Prop := mkCalm {
  same_policy : AdminEndpoint.policy l' = AdminEndpoint.policy l;
  same_store : AdminEndpoint.store l' = AdminEndpoint.store l;
  same_drain : AdminEndpoint.drain l' = AdminEndpoint.drain l }.

(** The limiters keep their names, and the controller is still the one. *)
Definition names_ok l l' : Prop := named (ctl l) (heap l) → named (ctl l') (heap l') ∧ keeps_names (heap l) (heap l').

Definition same_admission l l' : Prop := ctl l' = ctl l ∧ heap l' = heap l.

Lemma same_names l l' : same_admission l l' → names_ok l l'.
Proof. unfold names_ok. intros [-> ->] H. by split. Qed.

Lemma keeps_ok l l' : ctl l' = ctl l → keeps_names (heap l) (heap l') → names_ok l l'.
Proof. unfold names_ok. intros -> Hk H. split; [by eapply named_keeps|done]. Qed.

(** A slot is held where the request says its attempt is. *)
Definition linked (pl : list (nat * string)) c : Prop :=
  (∀ a, upstream (attempt c) = Some a → a ∈ pl.*2) ∧
  ∀ g, origin_slot (attempt c) = Some g →
    ∃ a, upstream (attempt c) = Some a ∧ pl !! backend_id g = Some (backend_id g, a).

Definition same_request c c' : Prop := pinned c' = pinned c ∧ routing c' = routing c.

Lemma linked_same pl c c' :
  upstream (attempt c') = upstream (attempt c) → origin_slot (attempt c') = origin_slot (attempt c) →
  linked pl c → linked pl c'.
Proof. intros E1 E2 [H1 H2]. split; [by rewrite E1|]. by rewrite E1, E2. Qed.

(** ** Slots *)

Lemma release_effect c l :
  let '(c', l') := release_origin_slot c l in
  calm l l' ∧ same_admission l l' ∧ AdminEndpoint.spool l' = AdminEndpoint.spool l ∧ upgrades l' = upgrades l ∧ retry l' = retry l
  ∧ backends (upstreams l') = backends (upstreams l) ∧ same_request c c'
  ∧ upstream (attempt c') = upstream (attempt c) ∧ origin_slot (attempt c') = None ∧ holds c' = holds c
  ∧ (∀ pl, linked pl c → linked pl c').
Proof.
  unfold release_origin_slot. destruct (origin_slot (attempt c)) as [g|] eqn:E; [|by split_and!].
  split_and!; try done. intros pl [H1 H2]. split; [exact H1|done].
Qed.

(** The pool after it: the slot's backend has one request fewer. *)
Lemma release_shape c l i :
  (∀ g, origin_slot (attempt c) = Some g → backend_id g ≠ i) →
  shape (upstreams (release_origin_slot c l).2) !! i = shape (upstreams l) !! i.
Proof.
  intros H. unfold release_origin_slot. destruct (origin_slot (attempt c)) as [g|] eqn:E; [|done].
  apply shape_elsewhere. apply not_eq_sym. by apply H.
Qed.

Lemma drop_permit_effect c l :
  let '(c', l') := drop_permit c l in
  calm l l' ∧ ctl l' = ctl l ∧ keeps_names (heap l) (heap l') ∧ AdminEndpoint.spool l' = AdminEndpoint.spool l
  ∧ upgrades l' = upgrades l ∧ upstreams l' = upstreams l ∧ same_request c c' ∧ attempt c' = attempt c
  ∧ spool (holds c') = spool (holds c) ∧ upgrade_permit (holds c') = upgrade_permit (holds c).
Proof.
  unfold drop_permit. destruct (permit (holds c)); split_and!; try done. cbn [heap with_admission]. apply keeps_drop.
Qed.

(** ** Admission *)

Definition settled_effect c l (a : Admitting (Sem := Sem) (M := M)) : Prop :=
  match a with
  | Proceed c' l' | Answered _ c' l' | AwaitAdmission _ c' l' =>
      calm l l' ∧ names_ok l l' ∧ AdminEndpoint.spool l' = AdminEndpoint.spool l ∧ upstreams l' = upstreams l
      ∧ same_request c c' ∧ attempt c' = attempt c
  | AwaitUpgrade _ _ _ _ => True
  end.

Lemma on_admission_effect pr k c l l0 :
  calm l0 l → AdminEndpoint.spool l = AdminEndpoint.spool l0 → upstreams l = upstreams l0 →
  (match pr with Decided _ h | Await _ h => named (ctl l0) (heap l0) → named k h ∧ keeps_names (heap l0) h end) →
  settled_effect c l0 (on_admission pr k c l).
Proof.
  intros [C1 C2 C3] Hs Hu Hn. destruct pr as [[ps| |why] h|q h]; simpl;
    (split_and!; [by split|exact Hn|done|done| |]); try done; by destruct (spool_enabled _).
Qed.

Lemma admit_effect now ph c l : settled_effect c l (proxy_upstream_filter now ph c l).
Proof.
  unfold proxy_upstream_filter, turn_away. cbv zeta.
  assert (∀ l', same_admission l l' → names_ok l l') as Hsame by apply same_names.
  destruct (match ph with PhaseLockTimeout => true | _ => false end && _).
  { cbn [settled_effect]. split_and!; try done; by apply Hsame. }
  destruct (bool_decide (class (routing c) = Upgrade)).
  { destruct (acquire_start 1 (upgrades l)); cbn [settled_effect]; [split_and!; try done; by apply Hsame..|done]. }
  destruct (bool_decide _); [cbn [settled_effect]; split_and!; try done; by apply Hsame|].
  assert (named (ctl l) (heap l) → let '(_, (k, h)) := match route_id (routing c) with
      | Some id => limiter_for M (pinned c) id (ctl l) (heap l) | None => (None, (ctl l, heap l)) end in
      named k h ∧ keeps_names (heap l) h) as Hr.
  { intros Hn. destruct (route_id (routing c)) as [id|]; [|by split].
    pose proof (named_limiter_for (pinned c) id _ _ Hn) as H. destruct (limiter_for _ _ _ _ _) as [o [k h]]. by destruct H as (?&?&_). }
  destruct (match route_id (routing c) with Some id => limiter_for M (pinned c) id (ctl l) (heap l) | None => _ end) as [o [k h]].
  apply on_admission_effect; [done..|].
  pose proof (keeps_admit now (class (routing c)) o (priority (routing c)) (weight (routing c)) k h) as Hk.
  destruct (admit_request _ _ _ _ _ _ _); intros Hn; destruct (Hr Hn) as [Hn' Hk']; (split; [by eapply named_keeps|by etrans]).
Qed.

Lemma resume_effect now p w c l : settled_effect c l (admission_resumed now p w c l).
Proof.
  unfold admission_resumed. apply on_admission_effect; [done..|].
  pose proof (keeps_resume now p w (heap l)) as Hk.
  destruct (admit_resume _ _ _ _); intros Hn; (split; [by eapply named_keeps|done]).
Qed.

Lemma resume_upgrades now p w c l :
  match admission_resumed now p w c l with
  | Proceed _ l' | Answered _ _ l' | AwaitAdmission _ _ l' => upgrades l' = upgrades l
  | AwaitUpgrade _ _ _ _ => False end.
Proof. unfold admission_resumed. by destruct (admit_resume _ _ _ _) as [[]|]. Qed.

Lemma abandon_effect p l :
  let l' := admission_abandoned p l in
  calm l l' ∧ names_ok l l' ∧ AdminEndpoint.spool l' = AdminEndpoint.spool l ∧ upstreams l' = upstreams l ∧ upgrades l' = upgrades l.
Proof. split_and!; try done. apply keeps_ok; [done|]. apply keeps_abandon. Qed.

(** ** The origin *)

(** Everything but the pool and the retry budget. *)
Definition origin_only l l' : Prop :=
  calm l l' ∧ same_admission l l' ∧ AdminEndpoint.spool l' = AdminEndpoint.spool l ∧ upgrades l' = upgrades l.

Lemma origin_only_pool p l : origin_only l (with_pool p l).
Proof. by split_and!. Qed.
Lemma origin_only_refl l : origin_only l l.
Proof. by split_and!. Qed.

Lemma origin_only_trans l1 l2 l3 : origin_only l1 l2 → origin_only l2 l3 → origin_only l1 l3.
Proof.
  intros ([A1 A2 A3] & [B1 B2] & C & D) ([E1 E2 E3] & [F1 F2] & G & H). split_and!; [split; congruence|split; congruence|congruence..].
Qed.

Lemma outcome_effect ms ok c l :
  let '(c', l') := record_origin_outcome ms ok c l in
  origin_only l l' ∧ backends (upstreams l') = backends (upstreams l) ∧ same_request c c' ∧ retry l' = retry l
  ∧ upstream (attempt c') = upstream (attempt c) ∧ origin_slot (attempt c') = origin_slot (attempt c) ∧ holds c' = holds c.
Proof.
  unfold record_origin_outcome. destruct (outcome_recorded _); [by split_and!|].
  destruct (origin_slot (attempt c)) as [g|] eqn:E; by split_and!.
Qed.

Lemma decide_effect ms method c l :
  let l' := (decide_retry ms method c l).2 in
  origin_only l l' ∧ upstreams l' = upstreams l.
Proof.
  unfold decide_retry. destruct (negb _); [by split_and!|]. destruct (eligible _ _); [|by split_and!].
  destruct (charge _ _ _). by split_and!.
Qed.

(** The common part of the two error hooks. *)
Definition attempt_kept c c' : Prop :=
  same_request c c' ∧ upstream (attempt c') = upstream (attempt c) ∧ origin_slot (attempt c') = origin_slot (attempt c)
  ∧ holds c' = holds c.

Lemma connect_effect ms method c l :
  let '(_, c', l') := fail_to_connect ms method c l in
  origin_only l l' ∧ upstreams l' = upstreams (record_origin_outcome ms false c l).2 ∧ attempt_kept c c'.
Proof.
  unfold fail_to_connect. pose proof (outcome_effect ms false c l) as H.
  destruct (record_origin_outcome _ _ _ _) as [c1 l1]. destruct H as (H1 & H2 & H3 & _ & H4 & H5 & H6).
  pose proof (decide_effect ms method c1 l1) as [D1 D2]. destruct (decide_retry _ _ _ _) as [d l2]. cbn [snd] in *.
  split_and!; [by eapply origin_only_trans|done|done..].
Qed.

Lemma error_effect ms method dr reused truncated c l :
  let '(_, c', l') := error_while_proxy ms method dr reused truncated c l in
  origin_only l l' ∧ upstreams l' = upstreams (record_origin_outcome ms false c l).2 ∧ attempt_kept c c'.
Proof.
  unfold error_while_proxy. pose proof (outcome_effect ms false c l) as H.
  destruct (record_origin_outcome _ _ _ _) as [c1 l1]. destruct H as (H1 & H2 & H3 & _ & H4 & H5 & H6). destruct (dr _); [|by split_and!].
  pose proof (decide_effect ms method c1 l1) as [D1 D2]. destruct (decide_retry _ _ _ _) as [d l2]. cbn [snd] in *.
  split_and!; [by eapply origin_only_trans|done|done..].
Qed.

(** The pool once the time to first byte is in it. *)
Definition heard (now : N) c l : Live :=
  match origin_slot (attempt c), origin_started (attempt c) with
  | Some g, Some started =>
      with_pool (observe_latency (backend_id g) (clamp U64_MAX (as_micros (now - started))) (upstreams l)) l
  | _, _ => l
  end.

Lemma response_effect now ms status c l :
  let '(_, c', l') := upstream_response_filter now ms status c l in
  origin_only l l' ∧ upstreams l' = upstreams (record_origin_outcome ms (negb (is_server_error status)) c (heard now c l)).2
  ∧ backends (upstreams l') = backends (upstreams l) ∧ attempt_kept c c'.
Proof.
  unfold upstream_response_filter. cbv zeta. fold (heard now c l).
  pose proof (outcome_effect ms (negb (is_server_error status)) c (heard now c l)) as H.
  destruct (record_origin_outcome _ _ _ _) as [c1 l1]. destruct H as (H1 & H2 & H3 & _ & H4 & H5 & H6).
  assert (origin_only l (heard now c l) ∧ backends (upstreams (heard now c l)) = backends (upstreams l)) as [H7 H8].
  { unfold heard. destruct (origin_slot (attempt c)); [|by split; [apply origin_only_refl|]].
    destruct (origin_started (attempt c)); (split; [first [apply origin_only_pool|apply origin_only_refl]|done]). }
  split_and!; [by eapply origin_only_trans|done|by rewrite H2|done..].
Qed.

Lemma peer_effect now ms wall path fresh c l :
  numbered (upstreams l) →
  let '(r, c', l') := upstream_peer now ms wall path fresh c l in
  origin_only l l' ∧ places (upstreams l') = places (upstreams l)
  ∧ sockets <$> backends (upstreams l') = sockets <$> backends (upstreams l)
  ∧ same_request c c' ∧ holds c' = holds c
  ∧ (linked (places (upstreams l)) c → linked (places (upstreams l)) c').
Proof.
  intros Hn. unfold upstream_peer. pose proof (select_quiet path ms (upstreams l)) as Hq.
  destruct (select_at path ms (upstreams l)) as [[sel|] pool] eqn:Es.
  2: { destruct Hq as (E1 & E2 & _). split_and!; try done; try apply origin_only_pool; cbn [upstreams with_pool]; unfold places; by rewrite E1. }
  cbv zeta. set (key := if bool_decide _ then _ else _).
  pose proof (chosen_quiet path key ms (upstreams l) sel pool Hn Es) as (Hp & Hs & Hid & Hb & Hk).
  destruct (socket_for key (backend sel)) as [[so|] b]; cbn [snd] in *; [|by split_and!].
  set (l1 := with_retry _ _). pose proof (release_effect c l1) as H.
  destruct (release_origin_slot c l1) as [c2 l2]. destruct H as ([A1 A2 A3] & [B1 B2] & H3 & H4 & _ & H5 & [H6 H6'] & H7 & _ & H9 & _).
  unfold enter_selected, enter_attempt. split_and!; try done.
  - change (places (upstreams l2) = places (upstreams l)). unfold places at 1. rewrite H5. exact Hp.
  - change (sockets <$> backends (upstreams l2) = sockets <$> backends (upstreams l)). rewrite H5. exact Hk.
  - intros _. split; cbn [attempt with_attempt with_trace upstream origin_slot].
    + intros a [= <-]. apply list_elem_of_fmap. exists (id b, address b). split; [done|]. by eapply list_elem_of_lookup_2.
    + intros g [= <-]. exists (address b). cbn [backend_id]. split; [done|]. by rewrite <-Hid.
Qed.

(** ** Bodies and the end *)

Lemma origin_body_effect now eos c l :
  let '(_, c', l') := upstream_response_body_filter now eos c l in
  calm l l' ∧ ctl l' = ctl l ∧ keeps_names (heap l) (heap l') ∧ AdminEndpoint.spool l' = AdminEndpoint.spool l
  ∧ upgrades l' = upgrades l ∧ backends (upstreams l') = backends (upstreams l) ∧ same_request c c'
  ∧ spool (holds c') = spool (holds c) ∧ (∀ pl, linked pl c → linked pl c').
Proof.
  unfold upstream_response_body_filter. destruct (check_origin_deadline _ _ _) as [[]|]; [|by split_and!].
  destruct eos; [|by split_and!]. cbv zeta. set (c1 := with_attempt _ c).
  set (c2 := match permit _ with Some _ => _ | None => _ end).
  assert (same_request c c2 ∧ upstream (attempt c2) = upstream (attempt c) ∧ origin_slot (attempt c2) = origin_slot (attempt c)
    ∧ spool (holds c2) = spool (holds c)) as ([G1 G2] & G3 & G4 & G5) by (subst c2; by destruct (permit _); split_and!).
  pose proof (drop_permit_effect c2 l) as H. destruct (drop_permit c2 l) as [c3 l3].
  destruct H as ([A1 A2 A3] & H2 & H3 & H4 & H5 & H6 & [H7 H7'] & H8 & H9 & _).
  pose proof (release_effect c3 l3) as K. destruct (release_origin_slot c3 l3) as [c4 l4].
  destruct K as ([B1 B2 B3] & [K2 K2'] & K3 & K4 & _ & K5 & [K6 K6'] & K7 & K8 & K9 & K10).
  split_and!; try congruence; try (split; congruence).
  intros pl Hl. apply K10. eapply linked_same; [..|exact Hl]; congruence.
Qed.

Lemma body_effect up body eos c l :
  let '(_, c', l') := response_body_filter up body eos c l in
  calm l l' ∧ same_admission l l' ∧ upgrades l' = upgrades l ∧ upstreams l' = upstreams l ∧ same_request c c' ∧ attempt c' = attempt c.
Proof.
  unfold response_body_filter. destruct (spool (holds c)); [|by split_and!]. destruct up; [by split_and!|].
  destruct (offer _ _ _ _) as [[out s'] b]. by split_and!.
Qed.

Lemma logging_effect exporting x c l :
  let '(_, _, _, l') := logging exporting x c l in
  calm l l' ∧ names_ok l l'
  ∧ AdminEndpoint.spool l' = match spool (holds c) with Some s => (release_all s (AdminEndpoint.spool l)).2 | None => AdminEndpoint.spool l end
  ∧ upgrades l' = match upgrade_permit (holds c) with Some u => Limiter.release u (upgrades l) | None => upgrades l end
  ∧ upstreams l' = upstreams (release_origin_slot c l).2.
Proof.
  unfold logging. pose proof (drop_permit_effect c l) as H. destruct (drop_permit c l) as [c1 l1].
  destruct H as ([A1 A2 A3] & H2 & H3 & H4 & H5 & H6 & H7 & H8 & H9 & H10). cbv zeta.
  set (l2 := match spool _ with Some _ => _ | None => _ end). set (c2 := with_spool _ _ _).
  set (l3 := match upgrade_permit _ with Some _ => _ | None => _ end). set (c3 := with_upgrade _ _).
  set (l4 := match route_id _ with Some _ => _ | None => _ end).
  assert (calm l1 l2 ∧ same_admission l1 l2 ∧ upgrades l2 = upgrades l1 ∧ upstreams l2 = upstreams l1
    ∧ AdminEndpoint.spool l2 = match spool (holds c) with Some s => (release_all s (AdminEndpoint.spool l)).2 | None => AdminEndpoint.spool l end)
    as ([B1 B2 B3] & [B4 B4'] & B5 & B6 & B7).
  { subst l2. rewrite H9, H4. destruct (spool (holds c)); by split_and!. }
  assert (calm l2 l3 ∧ same_admission l2 l3 ∧ AdminEndpoint.spool l3 = AdminEndpoint.spool l2 ∧ upstreams l3 = upstreams l2
    ∧ upgrades l3 = match upgrade_permit (holds c) with Some u => Limiter.release u (upgrades l) | None => upgrades l end)
    as ([C1 C2 C3] & [C4 C4'] & C5 & C6 & C7).
  { subst l3. change (upgrade_permit (holds c2)) with (upgrade_permit (holds c1)). rewrite H10.
    destruct (upgrade_permit (holds c)); split_and!; try done; cbn [upgrades with_upgrades]; by rewrite B5, H5. }
  assert (calm l3 l4 ∧ names_ok l3 l4 ∧ AdminEndpoint.spool l4 = AdminEndpoint.spool l3 ∧ upstreams l4 = upstreams l3 ∧ upgrades l4 = upgrades l3)
    as ([D1 D2 D3] & D4 & D5 & D6 & D7).
  { subst l4. destruct (route_id (routing c3)) as [id|]; [|split_and!; try done; by apply same_names].
    pose proof (λ Hn, named_limiter_for (pinned c3) id (ctl l3) (heap l3) Hn) as Hx.
    destruct (limiter_for M (pinned c3) id (ctl l3) (heap l3)) as [o [k h]]. split_and!; try done.
    intros Hn. destruct (Hx Hn) as (K1 & K2 & _). by split. }
  pose proof (release_effect c3 l4) as H. assert (origin_slot (attempt c3) = origin_slot (attempt c)) as Eo.
  { change (origin_slot (attempt c1) = origin_slot (attempt c)). by rewrite H8. }
  assert (upstreams (release_origin_slot c3 l4).2 = upstreams (release_origin_slot c l).2) as Eu.
  { unfold release_origin_slot. rewrite Eo. destruct (origin_slot (attempt c)); cbn [snd upstreams with_pool]; by rewrite D6, C6, B6, H6. }
  destruct (release_origin_slot c3 l4) as [c5 l5]. destruct H as ([E1 E2 E3] & [E4 E4'] & E5 & E6 & _). cbn [snd] in Eu.
  split_and!; [split; congruence| |congruence|congruence|done].
  intros Hn. destruct (D4 ltac:(rewrite C4, C4', B4, B4', H2; by eapply named_keeps)) as [N1 N2].
  rewrite E4, E4'. split; [done|]. etrans; [exact H3|]. by rewrite <-B4', <-C4'.
Qed.
End Effects.
