(* ===== verification/Lifecycle.v ===== *)
(** * The running process ([src/src/main.rs], [src/src/proxy/mod.rs])

    How the live state comes to be ([run], [Harmost::new]), and everything that
    happens to it afterwards: requests that arrive and go through the filters in
    whatever interleaving, the health checker, the resolver, the operator's
    endpoints and reloads.  Then what holds of every process so reached. *)

From stdpp Require Import sorting.
From S2P Require Import Prelude Words Text Units Schema Net.
From S2P Require Import Classifier Semaphores Limiter Admission Ceilings Store BodySpool Retries Breakers Upstream UpstreamTheorems.
From S2P Require Import Validation ValidationTheorems Forwarded Policy PolicyTheorems.
From S2P Require Import AccessLog Spans Trace Drain AdminEndpoint AdminTheorems Filters FilterTheorems Proxy ProxyTheorems.
Local Open Scope string_scope.
Local Open Scope list_scope.
Local Open Scope N_scope.

(** ** Starting *)

Inductive StartError :=
| PolicyRefused (e : MatcherError)
| UpstreamsRefused (e : ResolveError)
| TrustRefused (e : CidrError).

Section Lifecycle.
Context {Sem : Type} `{S : !Semaphore Sem} {M : Matching}.

(** [Harmost::new]: what the proxy owns is made from the first policy. *)
Definition new_harmost (p : PolicySnapshot M) (k : AdmissionController) (h : Heap Sem) (pool : UpstreamPool) :
    result CidrError (TrustPolicy * Live (M := M)) :=
  let cfg := p_config M p in
  trust ← Forwarded.build (Server.trusted_proxies (Config.server cfg));
  Ok (trust, mkLive p k h pool (new_store (Config.cache cfg))
    (BodySpool.new_budget (as_usize (Schema.Spool.max_memory (Config.spool cfg))))
    (Limiter.new "upgrade" (Upgrade.max_concurrent (Config.upgrade cfg)) 0 0)
    (Retries.new_budget (Origin.retry (Config.origin cfg))) new_drain).

(** The pool: without a health checker its backends are taken to be up. *)
Definition start_pool (dns : Lookup) (cfg : Config.Config) : result ResolveError UpstreamPool :=
  let o := Config.origin cfg in
  pool ← Upstream.new dns (Origin.upstreams o) (Origin.load_balancing o) (Origin.breaker o);
  Ok (match Config.health cfg with None => assume_healthy pool | Some _ => pool end).

(** [run], up to the services: no limiter exists before it. *)
Definition run (dns : Lookup) (cfg : Config.Config) (h : Heap Sem) :
    result StartError (TrustPolicy * Live (M := M)) :=
  p ← map_err PolicyRefused (Policy.build M cfg 1);
  let '(k, h) := startup cfg h in
  pool ← map_err UpstreamsRefused (start_pool dns cfg);
  map_err TrustRefused (new_harmost p k h pool).

(** ** Running *)

Record Process := mkProcess {
  world : Live (Sem := Sem) (M := M);
  running : list (Ctx (M := M));
  parked : list (Admission.Pending * Ctx (M := M)) }.

(** Where a request is after a step of its admission. *)
Definition placed (a : Admitting (Sem := Sem) (M := M)) (cs : list Ctx) (ws : list (Admission.Pending * Ctx)) :
    option Process :=
  match a with
  | Proceed c l | Answered _ c l => Some (mkProcess l (c :: cs) ws)
  | AwaitAdmission p c l => Some (mkProcess l cs ((p, c) :: ws))
  | AwaitUpgrade _ _ _ _ => None
  end.

(** [Reloader::reload] on the live state. *)
Definition reloader_of (l : Live (Sem := Sem) (M := M)) (generation : N) : Reloader M :=
  mkReloader M (policy l) (ctl l) (heap l) (Some (store l)) generation.
Definition with_reloaded (s : Reloader M) (l : Live (Sem := Sem) (M := M)) : Live :=
  mkLive (Policy.policy M s) (Policy.admission M s) (Policy.limiters M s) (upstreams l)
    (default (store l) (Policy.store M s)) (AdminEndpoint.spool l) (upgrades l) (retry l) (drain l).
Definition with_drain (d : DrainState) (l : Live (Sem := Sem) (M := M)) : Live :=
  mkLive (policy l) (ctl l) (heap l) (upstreams l) (store l) (AdminEndpoint.spool l) (upgrades l) (retry l) d.

Context (P : Platform) (F : Files).

(** One event.  A request comes with nothing, is at most once admitted (Pingora
    calls [proxy_upstream_filter] once, before its first attempt), and ends with
    [logging].  [now], [ms] and [wall] are whatever the clocks say. *)
Inductive step : Process → Process → Prop :=
| step_order l cs cs' ws ws' :
    cs ≡ₚ cs' → ws ≡ₚ ws' → step (mkProcess l cs ws) (mkProcess l cs' ws')
| step_arrive l cs ws now wall t s :
    N.of_nat (Datatypes.S (length cs) + length ws) <= U32_MAX →
    step (mkProcess l cs ws) (mkProcess l (new_ctx now wall t s l :: cs) ws)
| step_early l c cs ws e :
    step (mkProcess l (c :: cs) ws) (mkProcess l (with_early e c :: cs) ws)
| step_route l c cs ws r :
    step (mkProcess l (c :: cs) ws) (mkProcess l (with_routing r c :: cs) ws)
| step_admit l c cs ws now ph p :
    idle c → placed (proxy_upstream_filter now ph c l) cs ws = Some p →
    step (mkProcess l (c :: cs) ws) p
| step_wake l c cs ws now pd (w : Wait Sem) p :
    w ≠ Limiter.Closed →
    (∀ sm, w = Woken sm → poll (slip pd) (sem (cell (heap l) (at_limiter pd))) = Some sm) →
    placed (admission_resumed now pd w c l) cs ws = Some p →
    step (mkProcess l cs ((pd, c) :: ws)) p
| step_abandon l c cs ws pd :
    step (mkProcess l cs ((pd, c) :: ws)) (mkProcess (admission_abandoned pd l) (c :: cs) ws)
| step_peer l c cs ws now ms wall path fresh r c' l' :
    upstream_peer now ms wall path fresh c l = (r, c', l') →
    step (mkProcess l (c :: cs) ws) (mkProcess l' (c' :: cs) ws)
| step_connect l c cs ws ms method r c' l' :
    fail_to_connect ms method c l = (r, c', l') →
    step (mkProcess l (c :: cs) ws) (mkProcess l' (c' :: cs) ws)
| step_error l c cs ws ms method dr reused truncated r c' l' :
    error_while_proxy ms method dr reused truncated c l = (r, c', l') →
    step (mkProcess l (c :: cs) ws) (mkProcess l' (c' :: cs) ws)
| step_response l c cs ws now ms status r c' l' :
    upstream_response_filter now ms status c l = (r, c', l') →
    step (mkProcess l (c :: cs) ws) (mkProcess l' (c' :: cs) ws)
| step_origin_body l c cs ws now eos r c' l' :
    upstream_response_body_filter now eos c l = (r, c', l') →
    step (mkProcess l (c :: cs) ws) (mkProcess l' (c' :: cs) ws)
| step_body l c cs ws up body eos out c' l' :
    chunk_fits c body → response_body_filter up body eos c l = (out, c', l') →
    step (mkProcess l (c :: cs) ws) (mkProcess l' (c' :: cs) ws)
| step_end l c cs ws exporting x line spans c' l' :
    logging exporting x c l = (line, spans, c', l') →
    step (mkProcess l (c :: cs) ws) (mkProcess l' cs ws)
| step_health l cs ws id h :
    step (mkProcess l cs ws) (mkProcess (with_pool (set_healthy id h (upstreams l)) l) cs ws)
| step_resolve l cs ws dns :
    step (mkProcess l cs ws) (mkProcess (with_pool (refresh_all dns (upstreams l)).2 l) cs ws)
| step_cache l cs ws st :
    step (mkProcess l cs ws) (mkProcess (with_store st l) cs ws)
| step_drain l cs ws now why :
    step (mkProcess l cs ws) (mkProcess (with_drain (begin_drain now why (drain l)) l) cs ws)
| step_reload l cs ws path g r s' :
    Policy.reload M (load (Sem := Sem) P F path) (reloader_of l g) = (r, s') →
    step (mkProcess l cs ws) (mkProcess (with_reloaded s' l) cs ws).

(** What a started process can become. *)
Inductive reachable : Process → Prop :=
| reach_start dns cfg h trust l :
    validate (Sem := Sem) P cfg = Ok tt → typed cfg → next h = 0%nat →
    run dns cfg h = Ok (trust, l) → reachable (mkProcess l [] [])
| reach_step p p' : reachable p → step p p' → reachable p'.
End Lifecycle.
Arguments Process Sem M : clear implicits.

(** ** Proofs *)

Section Running.
Context {Sem : Type} `{S : !Semaphore Sem} {laws : SemaphoreLaws Sem S} {M : Matching}.
Context (P : Platform) (F : Files).
Context (Hty : ∀ text cfg, from_str F text = Ok cfg → typed cfg).
Implicit Types (p : Process Sem M) (l : Live (Sem := Sem) (M := M)) (c : Ctx (M := M)).

Abbreviation reachable := (reachable (Sem := Sem) (M := M) P F).
Abbreviation step := (step (Sem := Sem) (M := M) P F).

(** The books are right and every policy in use was validated. *)
Definition PInv p : Prop :=
  Books (world p) (running p) (parked p) ∧ policy_ok (Sem := Sem) (AdminEndpoint.policy (world p))
  ∧ Forall (λ c, policy_ok (Sem := Sem) (pinned c)) (running p ++ (parked p).*2).

Lemma built_policy_ok cfg g sn :
  validate (Sem := Sem) P cfg = Ok tt → typed cfg → Policy.build M cfg g = Ok sn → policy_ok (Sem := Sem) sn.
Proof.
  intros HV [_ Hq] Hb r cc Hr Ec. destruct (resolved_configs _ _ _ _ Hb) as (_ & _ & Hrs & _).
  apply (list_elem_of_fmap_2 (r_config M)) in Hr. rewrite Hrs in Hr. rewrite Forall_forall in Hq.
  split; [|by eapply Hq]. eapply accepted_route_max; [by apply validate_accepted|exact Hr|exact Ec].
Qed.

Lemma pool_at_rest dns addresses strategy cfg pool :
  Upstream.new dns addresses strategy cfg = Ok pool → pool_slots pool [].
Proof.
  unfold Upstream.new. rewrite bind_ok. intros (bs & _ & [= <-]) i s Hs. simpl in Hs.
  rewrite list_lookup_fmap in Hs. by apply fmap_Some in Hs as (b & _ & ->).
Qed.

Lemma slots_assume_healthy pool gs : pool_slots pool gs → pool_slots (assume_healthy pool) gs.
Proof.
  unfold assume_healthy. generalize (backends pool). intros bs. revert pool.
  induction bs as [|b bs IH]; intros pool H; [done|]. apply IH. by apply slots_steady.
Qed.

Lemma started_ok dns cfg h trust l :
  validate (Sem := Sem) P cfg = Ok tt → typed cfg → next h = 0%nat →
  run dns cfg h = Ok (trust, l) → PInv (mkProcess l [] []).
Proof.
  intros HV Ht Hz. unfold run. rewrite bind_ok. intros (sn & Hb & H). apply map_err_ok in Hb.
  destruct (startup cfg h) as [k h'] eqn:Es. apply bind_ok in H as (pool & Hpool & H).
  apply map_err_ok in Hpool. apply map_err_ok in H. unfold new_harmost in H.
  unfold start_pool in Hpool. apply bind_ok in Hpool as (pool0 & Hpool & [= <-]).
  apply bind_ok in H as (tr & _ & [= <- <-]).
  pose proof (resolved_configs _ _ _ _ Hb) as (Hcfg & _).
  destruct (sys_reachable_inv _ (startup_reachable P cfg h k h' HV Ht Hz Es)) as (Hh & Hk & _).
  pose proof (validate_accepted _ _ HV) as HA. apply acc_upgrade in HA. rewrite Hcfg.
  unfold validate_upgrade in HA. apply check_then in HA as [HA _].
  split_and!; [|by eapply built_policy_ok|done]. cbn [world running parked].
  split; cbn [ctl heap upstreams AdminEndpoint.spool upgrades]; [done|done|done| |done| |..].
  - destruct (Config.health cfg); [|apply slots_assume_healthy]; by eapply pool_at_rest.
  - split_and!; [done|apply N.le_0_l| |done]. unfold as_usize, to_usize, clamp. simpl. lia.
  - destruct (balanced_new "upgrade" (Upgrade.max_concurrent (Config.upgrade cfg)) 0 0) as [Hbal Hline].
    { unfold check_concurrency_max in HA. by refused. }
    split_and!; [exact Hbal|by apply orderly_nil|done|vm_compute; discriminate..].
  - done.
  - done.
Qed.

(** *** Every step keeps them *)

Lemma placed_ok a cs ws p :
  placed a cs ws = Some p → settled a cs ws → Books (world p) (running p) (parked p).
Proof. by destruct a; intros [= <-]. Qed.

(** A filter leaves the policies as they are. *)
Definition keeps c l c' l' : Prop := pinned c' = pinned c ∧ AdminEndpoint.policy l' = AdminEndpoint.policy l.

Definition placed_keeps c l (a : Admitting (Sem := Sem) (M := M)) : Prop :=
  match a with
  | Proceed c' l' | Answered _ c' l' | AwaitAdmission _ c' l' | AwaitUpgrade _ _ c' l' => keeps c l c' l'
  end.

Lemma on_admission_keeps pr k c l : placed_keeps c l (on_admission pr k c l).
Proof. by destruct pr as [[ps| |why] h|q h]; simpl; [destruct (spool_enabled _)|..]. Qed.

Lemma admit_keeps now ph c l : placed_keeps c l (proxy_upstream_filter now ph c l).
Proof.
  unfold proxy_upstream_filter. cbv zeta. destruct (match ph with PhaseLockTimeout => true | _ => false end && _); [done|].
  destruct (bool_decide _); [by destruct (acquire_start 1 (upgrades l))|].
  destruct (bool_decide _); [done|].
  destruct (match route_id (routing c) with Some id => limiter_for M (pinned c) id (ctl l) (heap l) | None => _ end)
    as [o [k h]]. apply on_admission_keeps.
Qed.

Lemma outcome_keeps ms ok c l :
  let '(c', l') := record_origin_outcome ms ok c l in
  keeps c l c' l' ∧ attempts (attempt c') = attempts (attempt c) ∧ routing c' = routing c.
Proof. unfold record_origin_outcome. destruct (outcome_recorded _); [done|]. by destruct (origin_slot _). Qed.

Lemma decide_keeps ms method c l : AdminEndpoint.policy (decide_retry ms method c l).2 = AdminEndpoint.policy l.
Proof.
  unfold decide_retry. destruct (negb _); [done|]. destruct (eligible _ _); [|done].
  by destruct (charge _ _ _).
Qed.

Lemma release_keeps c l : keeps c l (release_origin_slot c l).1 (release_origin_slot c l).2.
Proof. unfold release_origin_slot. by destruct (origin_slot _). Qed.

Lemma drop_keeps c l : keeps c l (drop_permit c l).1 (drop_permit c l).2.
Proof. unfold drop_permit. by destruct (permit _). Qed.

Lemma peer_keeps now ms wall path fresh c l :
  let '(_, c', l') := upstream_peer now ms wall path fresh c l in keeps c l c' l'.
Proof.
  unfold upstream_peer. destruct (select_at _ _ _) as [[sel|] pool]; [|done].
  destruct (socket_for _ _) as [[socket|] b]; [|done]. cbv zeta.
  set (l1 := with_retry _ _). destruct (release_keeps c l1) as [H1 H2].
  by destruct (release_origin_slot c l1) as [c2 l2].
Qed.

Lemma connect_keeps ms method c l :
  let '(_, c', l') := fail_to_connect ms method c l in keeps c l c' l'.
Proof.
  unfold fail_to_connect. pose proof (outcome_keeps ms false c l) as H.
  destruct (record_origin_outcome _ _ _ _) as [c1 l1]. destruct H as [[H1 H2] _].
  pose proof (decide_keeps ms method c1 l1) as Hd. destruct (decide_retry _ _ _ _) as [d l2].
  split; [done|]. simpl in Hd. by rewrite Hd.
Qed.

Lemma error_keeps ms method dr reused truncated c l :
  let '(_, c', l') := error_while_proxy ms method dr reused truncated c l in keeps c l c' l'.
Proof.
  unfold error_while_proxy. pose proof (outcome_keeps ms false c l) as H.
  destruct (record_origin_outcome _ _ _ _) as [c1 l1]. destruct H as [[H1 H2] _]. destruct (dr _); [|done].
  pose proof (decide_keeps ms method c1 l1) as Hd. destruct (decide_retry _ _ _ _) as [d l2].
  split; [done|]. simpl in Hd. by rewrite Hd.
Qed.

Lemma response_keeps now ms status c l :
  let '(_, c', l') := upstream_response_filter now ms status c l in keeps c l c' l'.
Proof.
  unfold upstream_response_filter. cbv zeta. set (l1 := match origin_slot (attempt c) with Some _ => _ | None => l end).
  pose proof (outcome_keeps ms (negb (is_server_error status)) c l1) as H.
  destruct (record_origin_outcome _ _ _ _) as [c1 l2]. destruct H as [[H1 H2] _]. split; [done|].
  rewrite H2. unfold l1. destruct (origin_slot _); [|done]. by destruct (origin_started _).
Qed.

Lemma origin_body_keeps now eos c l :
  let '(_, c', l') := upstream_response_body_filter now eos c l in keeps c l c' l'.
Proof.
  unfold upstream_response_body_filter. destruct (check_origin_deadline _ _ _) as [[]|]; [|done].
  destruct eos; [|done]. cbv zeta. set (c2 := match permit _ with Some _ => _ | None => _ end).
  destruct (drop_keeps c2 l) as [H1 H2]. destruct (drop_permit c2 l) as [c3 l3]. cbn [fst snd] in *.
  destruct (release_keeps c3 l3) as [H3 H4]. destruct (release_origin_slot c3 l3) as [c4 l4]. cbn [fst snd] in *.
  split; [|by rewrite H4]. rewrite H3, H1. unfold c2. by destruct (permit _).
Qed.

Lemma body_keeps up body eos c l :
  let '(_, c', l') := response_body_filter up body eos c l in keeps c l c' l'.
Proof.
  unfold response_body_filter. destruct (spool _); [|done]. destruct up; [done|].
  by destruct (offer _ _ _ _) as [[out s'] b].
Qed.

Lemma logging_keeps exporting x c l :
  let '(_, _, _, l') := logging exporting x c l in AdminEndpoint.policy l' = AdminEndpoint.policy l.
Proof.
  unfold logging. destruct (drop_keeps c l) as [_ H]. destruct (drop_permit c l) as [c1 l1]. cbn [fst snd] in H.
  cbv zeta. set (l2 := match spool _ with Some _ => _ | None => _ end).
  set (c2 := with_spool _ _ _). set (l3 := match upgrade_permit _ with Some _ => _ | None => _ end).
  set (c3 := with_upgrade _ _). set (l4 := match route_id _ with Some _ => _ | None => _ end).
  destruct (release_keeps c3 l4) as [_ H4]. destruct (release_origin_slot c3 l4). cbn [fst snd] in H4. rewrite H4.
  rewrite <-H. transitivity (AdminEndpoint.policy l3).
  - unfold l4. destruct (route_id _); [|done]. by destruct (limiter_for _ _ _ _ _) as [? []].
  - unfold l3. destruct (upgrade_permit _); unfold l2; by destruct (spool _).
Qed.

(** *** Every step keeps the invariant *)

Lemma PInv_one l c cs ws c' l' :
  PInv (mkProcess l (c :: cs) ws) → keeps c l c' l' → Books l' (c' :: cs) ws → PInv (mkProcess l' (c' :: cs) ws).
Proof.
  intros (_ & Hp & Hf) [H1 H2] Hb. cbn [world running parked app] in *. apply Forall_cons in Hf as [Hc Hf].
  split_and!; cbn [world running parked app]; [done|by rewrite H2|]. constructor; [by rewrite H1|done].
Qed.

(** The same with what a filter computed. *)
Lemma PInv_filter {R} l c cs ws (o : R * Ctx (M := M) * Live (Sem := Sem)) r c' l' :
  PInv (mkProcess l (c :: cs) ws) → (let '(_, c', l') := o in keeps c l c' l') →
  (let '(_, c', l') := o in Books l' (c' :: cs) ws) → o = (r, c', l') → PInv (mkProcess l' (c' :: cs) ws).
Proof. intros HI Hk Hb ->. by eapply PInv_one. Qed.

(** Something outside the requests. *)
Lemma PInv_around l l' cs ws :
  PInv (mkProcess l cs ws) → AdminEndpoint.policy l' = AdminEndpoint.policy l → Books l' cs ws → PInv (mkProcess l' cs ws).
Proof. intros (_ & Hp & Hf) E Hb. split_and!; [done| |done]. cbn [world] in *. by rewrite E. Qed.

Lemma PInv_placed a l c cs ws p :
  policy_ok (Sem := Sem) (AdminEndpoint.policy l) → Forall (λ c, policy_ok (Sem := Sem) (pinned c)) (c :: cs ++ ws.*2) →
  placed_keeps c l a → settled a cs ws → placed a cs ws = Some p → PInv p.
Proof.
  intros Hp [Hc Hf]%Forall_cons Hk Hs E. pose proof (placed_ok _ _ _ _ E Hs) as Hb.
  destruct a as [c' l'|rs c' l'|q c' l'|u c' l']; simpl in E, Hk; try discriminate E; injection E as <-; destruct Hk as [H1 H2];
    (split_and!; cbn [world running parked app]; [done|by rewrite H2|]);
    [constructor; [by rewrite H1|done]..|].
  rewrite fmap_cons. apply Forall_app in Hf as [Hf1 Hf2]. apply Forall_app. split; [done|].
  constructor; [by rewrite <-H1 in Hc|done].
Qed.

Lemma PInv_reload l cs ws path g r s' :
  PInv (mkProcess l cs ws) →
  Policy.reload M (load (Sem := Sem) P F path) (reloader_of l g) = (r, s') →
  PInv (mkProcess (with_reloaded s' l) cs ws).
Proof.
  intros (Hb & Hp & Hf) E. destruct r as [g'|e].
  - apply reload_inv in E as (cfg & sn & Hl & _ & Hbd & _ & Hsn & _ & Ha & _).
    apply load_ok in Hl as (HV & text & Htext). pose proof (Hty _ _ Htext) as Ht.
    split_and!; [|by rewrite <-Hsn in Hbd; eapply built_policy_ok|done].
    destruct Hb as [H1 H2 H3 H4 H5 H6 H7 H8 H9]. cbn [world running parked] in *. unfold apply_config in Ha.
    pose proof (Good_apply_limits _ _ _ _ (as_duration (Queue.timeout (Concurrency.queue (Origin.concurrency (Config.origin cfg)))))
      _ _ _ _ (validated_limits_ok P cfg HV Ht) H1 H2) as (G1 & G2 & G3).
    cbn [reloader_of admission limiters] in Ha. rewrite Ha in G1, G2, G3. split; try done. by eapply pending_mono; [|exact H3].
  - apply reload_err in E as ->. by destruct l.
Qed.

Lemma PInv_step p p' : PInv p → step p p' → PInv p'.
Proof.
  intros HI Hst. pose proof HI as (Hb & Hp & Hf). destruct Hst; cbn [world running parked] in *.
  - split_and!; cbn [world running parked]; [by eapply books_perm|done|].
    match goal with H1 : cs ≡ₚ cs', H2 : ws ≡ₚ ws' |- _ => by rewrite <-H1, <-H2 end.
  - split_and!; cbn [world running parked]; [by apply books_enter|done|by constructor].
  - eapply PInv_one; [exact HI|done|by apply (books_same l c)].
  - eapply PInv_one; [exact HI|done|by apply (books_same l c)].
  - eapply (PInv_placed _ l c cs ws); [done|done|apply admit_keeps| |eassumption].
    apply books_admit; [done| |done]. by apply Forall_cons in Hf as [].
  - eapply (PInv_placed _ l c cs ws); [done| |apply on_admission_keeps| |eassumption].
    + rewrite fmap_cons, Forall_app, Forall_cons in Hf. rewrite Forall_cons, Forall_app. tauto.
    + by apply books_resume.
  - split_and!; cbn [world running parked]; [by apply books_abandon|done|].
    rewrite fmap_cons, Forall_app, Forall_cons in Hf. cbn [app]. rewrite Forall_cons, Forall_app. tauto.
  - eapply PInv_filter; [exact HI|apply peer_keeps|by apply books_peer|eassumption].
  - eapply PInv_filter; [exact HI|apply connect_keeps|by apply books_fail|eassumption].
  - eapply PInv_filter; [exact HI|apply error_keeps|by apply books_error|eassumption].
  - eapply PInv_filter; [exact HI|apply response_keeps|by apply books_response|eassumption].
  - eapply PInv_filter; [exact HI|apply origin_body_keeps|by apply books_origin_body|eassumption].
  - eapply PInv_filter; [exact HI|apply body_keeps|by apply books_body|eassumption].
  - cbn [app] in Hf. apply Forall_cons in Hf as [Hc Hf].
    pose proof (books_logging exporting x c l cs ws Hc Hb) as Hl. pose proof (logging_keeps exporting x c l) as Hk.
    match goal with E : logging _ _ _ _ = _ |- _ => rewrite E in Hl, Hk end. destruct Hl as [Hl Hi].
    split_and!; cbn [world running parked]; [by eapply books_leave|by rewrite Hk|done].
  - eapply PInv_around; [exact HI|done|]. apply books_pool; [done|]. intros gs. by apply slots_steady.
  - eapply PInv_around; [exact HI|done|]. apply books_pool; [done|]. intros gs. by apply slots_refresh.
  - eapply PInv_around; [exact HI|done|]. by destruct Hb.
  - eapply PInv_around; [exact HI|done|]. by destruct Hb.
  - by eapply PInv_reload.
Qed.

Lemma reachable_PInv p : reachable p → PInv p.
Proof. induction 1; [by eapply started_ok|by eapply PInv_step]. Qed.

(** ** What holds of every process *)

(** The units requests hold on a limiter, and their places in its queue. *)
Definition units_on p (x : nat) : N := sum_N (on x (permits_of (running p) ++ taken (parked p))).
Definition parked_on p (x : nat) : list (N * N) := on x (wanted_of (parked p)).
(** The requests with a slot of backend [i]. *)
Definition slots_on p (i : nat) : N :=
  N.of_nat (length (filter (λ g, backend_id g = i) (guards_of (running p)))).

(** C4: Every unit of capacity is accounted for.  In every state of the process,
    whatever requests arrived, waited, went away, failed, were retried or
    ended, in whatever order, and whatever was reloaded, probed or resolved
    meanwhile: on each limiter what is available, what its waiters have gathered
    and what requests hold are together its ceiling plus its debt; its queue is
    the requests parked on it, each with what it waits for, and no unit is
    available while one of them is short; each backend's count is the requests
    with its slot; the spool budget's is what the live spools have reserved,
    within its limit; and the upgrades available plus those open are their
    ceiling. *)
Theorem capacity_is_what_requests_hold p :
  reachable p →
  (∀ x, (x < next (heap (world p)))%nat →
     let lim := cell (heap (world p)) x in
     available lim + gathered (line lim) + units_on p x = Limiter.limit lim + debt lim
     ∧ places (line lim) ≡ₚ parked_on p x ∧ (hungry (line lim) = true → available lim = 0)
     ∧ queue_depth lim = N.of_nat (length (parked_on p x)))
  ∧ (∀ i s, states (upstreams (world p)) !! i = Some s → in_flight s = slots_on p i)
  ∧ used (AdminEndpoint.spool (world p)) = sum_N (reserved <$> spools_of (running p))
  ∧ used (AdminEndpoint.spool (world p)) <= BodySpool.limit (AdminEndpoint.spool (world p))
  ∧ available (upgrades (world p)) + sum_N (upgrades_of (running p)) = Limiter.limit (upgrades (world p)).
Proof.
  intros ([H1 H2 H3 H4 H5 H6 H7 H8 H9] & _)%reachable_PInv. split_and!.
  - intros x Hx. destruct (proj1 H1 x Hx) as ([? _] & (? & _ & _ & ?) & ? & _). done.
  - exact H4.
  - apply H6.
  - apply H6.
  - by apply upgrades_exact.
Qed.

(** C5: Nothing is left behind.  Once no request is in the filters or waiting,
    every limiter has an empty queue and its whole current ceiling available,
    and beyond it only what a shrink is still owed; no backend counts a request
    in flight, no spooled byte is reserved and no upgrade is counted open,
    whatever happened before. *)
Theorem nothing_left_behind p :
  reachable p → running p = [] → parked p = [] →
  (∀ x, (x < next (heap (world p)))%nat →
     let lim := cell (heap (world p)) x in
     available lim = Limiter.limit lim + debt lim ∧ line lim = [] ∧ queue_depth lim = 0)
  ∧ (∀ i s, states (upstreams (world p)) !! i = Some s → in_flight s = 0)
  ∧ used (AdminEndpoint.spool (world p)) = 0
  ∧ available (upgrades (world p)) = Limiter.limit (upgrades (world p)).
Proof.
  intros ([H1 H2 H3 H4 H5 H6 H7 H8 H9] & _)%reachable_PInv Hr Hw. rewrite Hr, Hw in *. split_and!.
  - intros x Hx. destruct (proj1 H1 x Hx) as ([Hbal _] & Ho & Hq & _). apply orderly_empty in Ho.
    simpl in *. unfold units_of in Hbal. rewrite Ho in Hbal |- *. cbn in Hbal. split_and!; [lia|done|lia].
  - exact H4.
  - destruct H6 as (Hu & _). exact Hu.
  - pose proof (upgrades_exact _ _ H7 H8) as E. cbn in E. lia.
Qed.

(** Every request can be ended from where it is. *)
Lemma can_drain n p :
  (length (running p) + 2 * length (parked p) = n)%nat → reachable p →
  ∃ p', rtc step p p' ∧ running p' = [] ∧ parked p' = [].
Proof.
  revert p. induction n as [n IH] using lt_wf_ind. intros [l cs ws] Hn HR. cbn [running parked] in *.
  destruct ws as [|[q c] ws].
  - destruct cs as [|c cs]; [by exists (mkProcess l [] [])|].
    set (x := mkExchange (mkRequestHeader GET EmptyString None None no_fields) None PhaseMiss 0 0).
    destruct (logging false x c l) as [[[line spans] c'] l'] eqn:E.
    assert (step (mkProcess l (c :: cs) []) (mkProcess l' cs [])) as Hs by (by eapply step_end).
    destruct (IH (length cs + 0)%nat ltac:(simpl in Hn; lia) (mkProcess l' cs [])) as (p' & H & Hp); [done|by eapply reach_step|].
    exists p'. split; [by eapply rtc_l|done].
  - assert (step (mkProcess l cs ((q, c) :: ws)) (mkProcess (admission_abandoned q l) (c :: cs) ws)) as Hs by apply step_abandon.
    destruct (IH (length (c :: cs) + 2 * length ws)%nat ltac:(simpl in *; lia) (mkProcess (admission_abandoned q l) (c :: cs) ws))
      as (p' & H & Hp); [done|by eapply reach_step|]. exists p'. split; [by eapply rtc_l|done].
Qed.
End Running.

(** ** A process and a request *)

Import CountingSemaphore.

Definition local_dns : Lookup := λ name, Ok [mkSocket (V4 2130706433) 3000].
Definition cold : Live (Sem := counter) (M := sample_matching) :=
  match run local_dns sample_config empty_heap with Ok (_, l) => l | Err _ => sample_live end.

(** It arrives, is routed and admitted, and has a backend. *)
Definition arrived : Ctx := with_routing french_routing (new_ctx 0 0 [1] [2] cold).
Definition admitted : Ctx * Live :=
  match proxy_upstream_filter 5 PhaseMiss arrived cold with Proceed c l => (c, l) | _ => (arrived, cold) end.
Definition fetching : result PeerError Peer * Ctx * Live :=
  upstream_peer 10 10 10 "/products/7" [3] admitted.1 admitted.2.
Definition busy : Process counter sample_matching := mkProcess fetching.2 [fetching.1.2] [].
Definition page_request : RequestHeader := product_page (french no_fields).
Definition logged : string * list SpanRecord * Ctx * Live :=
  logging false (mkExchange page_request (Some 200) PhaseMiss 20 20) fetching.1.2 fetching.2.
Definition quiet : Process counter sample_matching := mkProcess logged.2 [] [].

Abbreviation reached := (reachable (Sem := counter) (M := sample_matching) sample_platform sample_files).

Lemma triple_eta {A B C} (x : A * B * C) : x = (x.1.1, x.1.2, x.2).
Proof. by destruct x as [[]]. Qed.
Lemma quadruple_eta {A B C D} (x : A * B * C * D) : x = (x.1.1.1, x.1.1.2, x.1.2, x.2).
Proof. by destruct x as [[[]]]. Qed.

Lemma reached_busy : reached busy.
Proof.
  apply (reach_step _ _ (mkProcess admitted.2 [admitted.1] [])).
  2: { apply (step_peer _ _ admitted.2 admitted.1 [] [] 10 10 10 "/products/7" [3] fetching.1.1).
       exact (triple_eta fetching). }
  apply (reach_step _ _ (mkProcess cold [arrived] [])).
  2: { apply (step_admit _ _ cold arrived [] [] 5 PhaseMiss); [done|]. unfold admitted.
       assert (match proxy_upstream_filter 5 PhaseMiss arrived cold with Proceed _ _ => true | _ => false end = true) as E
         by (vm_compute; reflexivity).
       destruct (proxy_upstream_filter 5 PhaseMiss arrived cold); [reflexivity|discriminate E..]. }
  apply (reach_step _ _ (mkProcess cold [new_ctx 0 0 [1] [2] cold] [])); [|apply step_route].
  apply (reach_step _ _ (mkProcess cold [] [])); [|by apply step_arrive].
  assert (is_ok (run (M := sample_matching) local_dns sample_config empty_heap) = true) as Hok by (vm_compute; reflexivity).
  destruct (run local_dns sample_config empty_heap) as [[trust l]|e] eqn:E; [|discriminate Hok].
  assert (cold = l) as -> by (unfold cold; by rewrite E).
  apply (reach_start _ _ local_dns sample_config empty_heap trust l); [exact sample_validates|exact sample_config_typed|reflexivity|exact E].
Qed.

Lemma reached_quiet : reached quiet.
Proof.
  apply (reach_step _ _ busy); [exact reached_busy|].
  apply (step_end _ _ fetching.2 fetching.1.2 [] [] false
    (mkExchange page_request (Some 200) PhaseMiss 20 20) logged.1.1.1 logged.1.1.2 logged.1.2).
  transitivity logged; [by unfold logged|apply quadruple_eta].
Qed.

Lemma capacity_is_what_requests_hold_witness :
  units_on busy 0 = 3 ∧ available (cell (heap (world busy)) 0) + gathered (line (cell (heap (world busy)) 0)) + 3 = 100
  ∧ (in_flight <$> states (upstreams (world busy)) !! 0%nat) = Some 1.
Proof.
  destruct (capacity_is_what_requests_hold sample_platform sample_files sample_typed busy reached_busy) as (H & Hs & _).
  assert (units_on busy 0 = 3) as E by (vm_compute; reflexivity). split; [exact E|]. split.
  - destruct (H 0%nat) as (H0 & _); [vm_compute; lia|]. rewrite E in H0. rewrite H0. vm_compute. reflexivity.
  - destruct (states (upstreams (world busy)) !! 0%nat) as [s|] eqn:Es; [|vm_compute in Es; discriminate].
    simpl. rewrite (Hs _ _ Es). vm_compute. reflexivity.
Defined.

Lemma nothing_left_behind_witness :
  available (cell (heap (world quiet)) 0)
  = Limiter.limit (cell (heap (world quiet)) 0) + debt (cell (heap (world quiet)) 0)
  ∧ used (AdminEndpoint.spool (world quiet)) = 0.
Proof.
  destruct (nothing_left_behind sample_platform sample_files sample_typed quiet reached_quiet eq_refl eq_refl)
    as (H & _ & Hu & _).
  split; [|exact Hu]. destruct (H 0%nat) as (H0 & _); [vm_compute; lia|]. exact H0.
Defined.
