(* ===== verification/Service.v ===== *)
(** * The whole service ([src/src/main.rs] and everything it starts)

    [Lifecycle] says what can happen to the live state; here the events are the
    calls themselves: each request goes through the filters in Pingora's order
    with the headers it came with, the checker's probes flip backends by their
    streaks, the store changes by the operations of its trait, the operator's
    requests and the exporter's loop run as they are written, and each event
    carries what it publishes.  The metrics registry runs beside.

    [event_simulated]: each event is an event of [Lifecycle], or several, so what
    holds of every process holds of the service ([active_in_order]). *)

From S2P Require Import Prelude Words Text Units Schema Net.
From S2P Require Import Classifier Semaphores Limiter Admission Store BodySpool Retries Breakers Upstream UpstreamTheorems.
From S2P Require Import Validation ValidationTheorems Forwarded Policy PolicyTheorems Otlp.
From S2P Require Import AccessLog Spans Export Trace Metrics Drain AdminEndpoint AdminTheorems Filters FilterTheorems.
From S2P Require Import Proxy ProxyTheorems PoolFacts Names Published Effects Lifecycle.
Local Open Scope string_scope.
Local Open Scope list_scope.
Local Open Scope N_scope.

(** How far a request has come.  [Done]: nothing but [logging] is left. *)
Inductive Phase := Begun | Heard | Routed | Trying | Done.
#[export] Instance Phase_eq_dec : EqDecision Phase.
Proof. solve_decision. Defined.

Section Service.
Context {Sem : Type} `{S : !Semaphore Sem} {M : Matching}.
(** Pingora's [CacheMeta], as [Store] has it. *)
Context {Meta : Type} (serialize : Meta → option BinaryMeta) (deserialize : BinaryMeta → option Meta)
  (has_field : Meta → string → bool) (field_text : Meta → string → option string).
Context (P : Platform) (F : Files).
Context (VERSION : string) (features : list string) (percent_decode : string → option string).

(** The live state and what else the process owns; [loaded] remembers every
    policy there was, the present one first. *)
Record Service := mkService {
  world : Live (Sem := Sem) (M := M);
  trust : TrustPolicy;
  admin : option Admin;
  cache_channels : gmap N Channel;
  cache_handlers : gmap N Handler;
  cache_handoffs : gmap N Handler;
  checker : option HealthChecker;
  exporter : option Exporter;
  generation : N;
  serving : list (Phase * Ctx (M := M));
  waiting : list (Admission.Pending * option nat * Ctx (M := M));
  loaded : list (PolicySnapshot M) }.

Definition with_world (l : Live) (s : Service) : Service :=
  mkService l (trust s) (admin s) (cache_channels s) (cache_handlers s) (cache_handoffs s) (checker s) (exporter s)
    (generation s) (serving s) (waiting s) (loaded s).
Definition with_requests (rs : list (Phase * Ctx)) (ws : list (Admission.Pending * option nat * Ctx)) (s : Service) : Service :=
  mkService (world s) (trust s) (admin s) (cache_channels s) (cache_handlers s) (cache_handoffs s) (checker s)
    (exporter s) (generation s) rs ws (loaded s).
Definition with_checker (k : HealthChecker) (s : Service) : Service :=
  mkService (world s) (trust s) (admin s) (cache_channels s) (cache_handlers s) (cache_handoffs s) (Some k)
    (exporter s) (generation s) (serving s) (waiting s) (loaded s).
Definition with_exporter (x : option Exporter) (s : Service) : Service :=
  mkService (world s) (trust s) (admin s) (cache_channels s) (cache_handlers s) (cache_handoffs s) (checker s)
    x (generation s) (serving s) (waiting s) (loaded s).

(** The store with its fills, as [Store] has them. *)
Definition cache_of (s : Service) : Store.World :=
  Store.mkWorld (AdminEndpoint.store (world s)) (cache_channels s) (cache_handlers s) (cache_handoffs s).
Definition with_cache (w : Store.World) (s : Service) : Service :=
  mkService (with_store (Store.store w) (world s)) (trust s) (admin s) (channels w) (handlers w) (handoffs w)
    (checker s) (exporter s) (generation s) (serving s) (waiting s) (loaded s).

(** ** Starting *)

Inductive ServiceError := ExporterRefused (e : EndpointError) | Refused (e : StartError).

Definition start (dns : Lookup) (path : string) (cfg : Config.Config) (h : Heap Sem) : result ServiceError Service :=
  exporter ← match Tracing.otlp (Telemetry.tracing (Config.telemetry cfg)) with
             | Some o => x ← map_err ExporterRefused (new_exporter o); Ok (Some x)
             | None => Ok None
             end;
  '(trust, l) ← map_err Refused (run dns cfg h);
  Ok (mkService l trust
        ((λ a, mkAdmin path (Purge.token (CacheDefaults.purge (Config.cache cfg))) (Schema.Admin.require_healthy_upstream a))
           <$> Telemetry.admin (Config.telemetry cfg))
        ∅ ∅ ∅ (new_checker (upstreams l) <$> Config.health cfg) exporter 1 [] [] [AdminEndpoint.policy l]).

(** ** Running *)

Definition placed (a : Admitting (Sem := Sem) (M := M)) (route : option nat) (s : Service)
    (rs : list (Phase * Ctx)) (ws : list (Admission.Pending * option nat * Ctx)) : option Service :=
  match a with
  | Proceed c l => Some (with_world l (with_requests ((Trying, c) :: rs) ws s))
  | Answered _ c l => Some (with_world l (with_requests ((Done, c) :: rs) ws s))
  | AwaitAdmission p c l => Some (with_world l (with_requests rs ((p, route, c) :: ws) s))
  | AwaitUpgrade _ _ _ _ => None
  end.

(** The spans of a finished request go to the sink, if there is one. *)
Definition offer_spans (spans : list SpanRecord) (x : option Exporter) : option Exporter :=
  (λ x, foldl (λ x sp, Export.record sp x) x spans) <$> x.
Definition offered_published (spans : list SpanRecord) (x : option Exporter) : list Publication :=
  match x with Some x => record_all_published spans x | None => [] end.

(** [Reloader::reload]; the service keeps the reloader's own count. *)
Definition with_reload (s' : Reloader M) (s : Service) : Service :=
  mkService (with_reloaded s' (world s)) (trust s) (admin s) (cache_channels s) (cache_handlers s) (cache_handoffs s)
    (checker s) (exporter s) (Policy.generation M s') (serving s) (waiting s) (Policy.policy M s' :: loaded s).

(** An event and what it publishes.  A request is at the head of its list when
    something happens to it; [now], [ms], [read] and [wall] are the clocks'. *)
Inductive event : Service → list Publication → Service → Prop :=
| ev_order s rs ws :
    serving s ≡ₚ rs → waiting s ≡ₚ ws → event s [] (with_requests rs ws s)
| ev_arrive s now wall t sp :
    N.of_nat (Datatypes.S (length (serving s)) + length (waiting s)) <= U32_MAX →
    event s [] (with_requests ((Begun, new_ctx now wall t sp (world s)) :: serving s) (waiting s) s)
| ev_early s c rs peer is_tls req t sp :
    serving s = (Begun, c) :: rs →
    event s [] (with_requests
      ((Heard, with_early (early_request_filter (pinned c) (trust s) peer is_tls req t sp) c) :: rs) (waiting s) s)
| ev_route s c rs req r refused :
    serving s = (Heard, c) :: rs → request_filter (A := NextJs) (pinned c) req = (r, refused) →
    event s (request_filter_published (A := NextJs) (pinned c) req)
      (with_requests ((if refused then Done else Routed, with_routing r c) :: rs) (waiting s) s)
| ev_admit s c rs now ph s' :
    serving s = (Routed, c) :: rs →
    placed (proxy_upstream_filter now ph c (world s)) (route_of c (world s)).1 s rs (waiting s) = Some s' →
    event s (proxy_upstream_filter_published now ph c (world s)) s'
| ev_wake s c route ws now p (w : Wait Sem) s' :
    waiting s = (p, route, c) :: ws → w ≠ Limiter.Closed →
    (∀ sm, w = Woken sm → poll (slip p) (sem (cell (heap (world s)) (at_limiter p))) = Some sm) →
    placed (admission_resumed now p w c (world s)) route s (serving s) ws = Some s' →
    event s (on_admission_published (admit_resume now p w (heap (world s))) route (ctl (world s)) c) s'
| ev_abandon s c route ws p :
    waiting s = (p, route, c) :: ws →
    event s [] (with_world (admission_abandoned p (world s)) (with_requests ((Done, c) :: serving s) ws s))
| ev_peer s c rs now ms wall path fresh r c' l' :
    serving s = (Trying, c) :: rs → upstream_peer now ms wall path fresh c (world s) = (r, c', l') →
    event s (upstream_peer_published ms path c (world s))
      (with_world l' (with_requests ((Trying, c') :: rs) (waiting s) s))
| ev_connect s c rs ms read method r c' l' :
    serving s = (Trying, c) :: rs → fail_to_connect ms method c (world s) = (r, c', l') →
    event s (fail_to_connect_published ms read method c (world s))
      (with_world l' (with_requests ((Trying, c') :: rs) (waiting s) s))
| ev_error s c rs ms read method dr reused truncated r c' l' :
    serving s = (Trying, c) :: rs → error_while_proxy ms method dr reused truncated c (world s) = (r, c', l') →
    event s (error_while_proxy_published ms read method dr reused truncated c (world s))
      (with_world l' (with_requests ((Trying, c') :: rs) (waiting s) s))
| ev_response s c rs now ms status r c' l' :
    serving s = (Trying, c) :: rs → upstream_response_filter now ms status c (world s) = (r, c', l') →
    event s (upstream_response_filter_published now ms status c (world s))
      (with_world l' (with_requests ((Trying, c') :: rs) (waiting s) s))
| ev_keep s c rs resp :
    serving s = (Trying, c) :: rs → event s (response_cache_filter_published (routing c) resp) s
| ev_origin_body s c rs now eos r c' l' :
    serving s = (Trying, c) :: rs → upstream_response_body_filter now eos c (world s) = (r, c', l') →
    event s (upstream_response_body_filter_published now eos c (world s))
      (with_world l' (with_requests ((Trying, c') :: rs) (waiting s) s))
| ev_body s ph c rs up body eos out c' l' :
    serving s = (ph, c) :: rs → ph = Routed ∨ ph = Trying → chunk_fits c body →
    response_body_filter up body eos c (world s) = (out, c', l') →
    event s (response_body_filter_published up body eos c (world s))
      (with_world l' (with_requests ((ph, c') :: rs) (waiting s) s))
| ev_end s ph c rs x line spans c' l' :
    serving s = (ph, c) :: rs →
    logging (bool_decide (is_Some (exporter s))) x c (world s) = (line, spans, c', l') →
    event s (logging_published (offered_published spans (exporter s)) x c (world s))
      (with_exporter (offer_spans spans (exporter s)) (with_world l' (with_requests rs (waiting s) s)))
| ev_probe s k b verdict flip k' p' :
    checker s = Some k → b ∈ backends (upstreams (world s)) →
    Upstream.record (id b) verdict k (upstreams (world s)) = Some (flip, k', p') →
    event s (health_published b p') (with_checker k' (with_world (with_pool p' (world s)) s))
| ev_resolve s b lookup b' :
    b ∈ backends (upstreams (world s)) → (refresh lookup b).2 = b' →
    event s (resolved_published b') (with_world (with_pool (set_backend b' (upstreams (world s))) (world s)) s)
| ev_cache s e w' :
    Store.step serialize deserialize has_field field_text (cache_of s) e w' →
    event s (evicted_published (Store.store (cache_of s)) (Store.store w')) (with_cache w' s)
| ev_operator s a req times resp l' :
    admin s = Some a → response VERSION features percent_decode req a times (world s) = (resp, l') →
    event s (response_published req a percent_decode (world s)) (with_world l' s)
| ev_drain s now why :
    event s begin_drain_published (with_world (with_drain (begin_drain now why (AdminEndpoint.drain (world s))) (world s)) s)
| ev_reload s path g s' :
    Policy.reload M (Policy.load (Sem := Sem) P F path) (reloader_of (world s) (generation s)) = (Ok g, s') →
    event s (reload_published (reloader_of (world s) (generation s)) s') (with_reload s' s)
| ev_reload_refused s path e s' :
    Policy.reload M (Policy.load (Sem := Sem) P F path) (reloader_of (world s) (generation s)) = (Err e, s') →
    event s [] s
| ev_export s x e :
    exporter s = Some x → Export.asked (max_batch x) e → (∀ sp, e ≠ Recorded sp) →
    event s (exporter_published e x) (with_exporter (Some (Export.on_event e x)) s).

(** What a started service can become. *)
Inductive active : Service → Prop :=
| active_start dns path cfg h s :
    validate (Sem := Sem) P cfg = Ok tt → typed cfg → next h = 0%nat → start dns path cfg h = Ok s → active s
| active_event s ps s' : active s → event s ps s' → active s'.

(** The process [Lifecycle] sees. *)
Definition process (s : Service) : Process Sem M :=
  mkProcess (world s) ((serving s).*2) ((λ w, (w.1.1, w.2)) <$> waiting s).
End Service.
Arguments Service Sem M : clear implicits.

(** ** Refinement *)

(** Before its admission a request holds nothing. *)
Definition unadmitted (ph : Phase) : bool := match ph with Begun | Heard | Routed => true | _ => false end.

Section Refinement.
Context {Sem : Type} `{S : !Semaphore Sem} {M : Matching}.
Context {Meta : Type} (serialize : Meta → option BinaryMeta) (deserialize : BinaryMeta → option Meta)
  (has_field : Meta → string → bool) (field_text : Meta → string → option string).
Context (P : Platform) (F : Files).
Context (VERSION : string) (features : list string) (percent_decode : string → option string).
Implicit Types s : Service Sem M.

Abbreviation event := (event serialize deserialize has_field field_text P F VERSION features percent_decode).
Abbreviation active := (active serialize deserialize has_field field_text P F VERSION features percent_decode).
Abbreviation step := (Lifecycle.step (Sem := Sem) (M := M) P F).

Definition in_order s : Prop :=
  Forall (λ r, unadmitted r.1 = true → idle r.2) (serving s) ∧ numbered (upstreams (world s)).

Lemma idle_new now wall t sp l : idle (new_ctx (Sem := Sem) (M := M) now wall t sp l).
Proof. done. Qed.

(** A backend of the pool can be refreshed alone. *)
Lemma refresh_alone b lookup p :
  numbered p → b ∈ backends p →
  (refresh_all (λ b', if decide (id b' = id b) then Some lookup else None) p).2 = set_backend (refresh lookup b).2 p.
Proof.
  intros Hn Hb. rewrite refresh_all_eq. pose proof (numbered_elem p b Hn Hb) as Hi.
  set (dns := λ b', if decide (id b' = id b) then Some lookup else None).
  assert (∀ l acc, (∀ b', b' ∈ l → id b' ≠ id b) → (foldl (refresh_one dns) acc l).2 = acc.2) as Hskip.
  { induction l as [|b' l IH]; intros acc Hl; [done|]. cbn [foldl]. rewrite IH by set_solver. unfold refresh_one, dns.
    rewrite decide_False by (apply Hl; by left). done. }
  rewrite <-(take_drop_middle _ _ _ Hi) at 1. rewrite foldl_app. cbn [foldl].
  assert (∀ j b', j ≠ id b → backends p !! j = Some b' → id b' ≠ id b) as Hother.
  { intros j b' Hj Hb' E. apply Hj. rewrite <-E. symmetry. apply (Hn j (id b', address b')). unfold places. by rewrite list_lookup_fmap, Hb'. }
  rewrite Hskip.
  2: { intros b' [j Hj]%list_elem_of_lookup. rewrite lookup_drop in Hj. eapply Hother; [|exact Hj]. lia. }
  set (acc := foldl (refresh_one dns) (0, p) _). assert (acc.2 = p) as Hacc.
  { subst acc. apply Hskip. intros b' [j Hj]%list_elem_of_lookup. apply lookup_take_Some in Hj as [Hj Hlt]. eapply Hother; [|exact Hj]. lia. }
  unfold refresh_one, dns. rewrite decide_True by done. destruct (refresh lookup b) as [[[]|] b']; cbn [fst snd]; by rewrite Hacc.
Qed.

Lemma record_pool id ok k p flip k' p' :
  Upstream.record id ok k p = Some (flip, k', p') → p' = p ∨ p' = set_healthy id ok p.
Proof.
  unfold Upstream.record. destruct (streak_ok k !! id) as [a|]; [|done]. destruct (streak_fail k !! id) as [b|]; [|done]. cbn [mbind option_bind].
  destruct ok; destruct (_ =? _); intros [= _ _ <-]; first [by left|by right].
Qed.

(** The operator's requests change the store by its purges only. *)
Definition purges (ops : list PurgeOp) (st : Store) : Store := foldl (λ st op, run_purge op st) st ops.

Lemma run_request_purges request st : ∃ ops, (run_request request st).2 = purges ops st.
Proof.
  destruct request as [ts ps|]; unfold run_request.
  - exists [ByTags ts; ByPaths ps]. cbn [purges foldl run_purge]. destruct (purge_tags ts st) as [p st1]. cbn [snd]. by destruct (purge_paths ps st1).
  - exists [Everything]. cbn [purges foldl run_purge]. by destruct (purge_all st).
Qed.

Lemma response_world req a times l resp l' :
  response VERSION features percent_decode req a times l = (resp, l') →
  ∃ ops, l' = with_store (Sem := Sem) (M := M) (purges ops (AdminEndpoint.store l)) l.
Proof.
  assert (∃ ops, l = with_store (purges ops (AdminEndpoint.store l)) l) as Hsame.
  { exists []. by destruct l. }
  unfold response. destruct (String.eqb _ "/purge"); [|destruct (_ && _); intros [= _ <-]; exact Hsame].
  destruct (negb _); [intros [= _ <-]; exact Hsame|]. destruct (AdminEndpoint.purge _ _ _ _ _) as [o st] eqn:E.
  intros [= _ <-]. unfold AdminEndpoint.purge in E.
  assert (st = AdminEndpoint.store l → ∃ ops, with_store st l = with_store (purges ops (AdminEndpoint.store l)) l) as Hst
    by (intros ->; by exists []).
  destruct (purge_token a); [|by injection E as _ <-; apply Hst].
  destruct (authorization req ≫= _); [|by injection E as _ <-; apply Hst]. destruct (negb _); [by injection E as _ <-; apply Hst|].
  destruct (parse_purge_query _ _) as [request|]; [|by injection E as _ <-; apply Hst].
  destruct (run_request_purges request (AdminEndpoint.store l)) as [ops Ho].
  destruct (run_request request (AdminEndpoint.store l)) as [[[[p scope] ts] ps] st']. injection E as _ <-. exists ops. cbn [snd] in Ho. by rewrite Ho.
Qed.

(** The admission of a request at the head of the requests. *)
Lemma placed_process a route s rs ws s' :
  placed a route s rs ws = Some s' →
  Lifecycle.placed a (rs.*2) ((λ w : Admission.Pending * option nat * Ctx, (w.1.1, w.2)) <$> ws) = Some (process s')
  ∧ (in_order s → Forall (λ r, unadmitted r.1 = true → idle r.2) rs →
       (match a with Proceed _ l | Answered _ _ l | AwaitAdmission _ _ l => upstreams l = upstreams (world s) | _ => True end) → in_order s').
Proof.
  destruct a as [c l|resp c l|p c l|t u c l]; intros [= <-]; (split; [done|]); intros [_ Hn] Hrs Hu;
    (split; cbn [serving world with_world with_requests]; [|by rewrite Hu]); [by constructor|by constructor|done].
Qed.

Lemma in_order_head s rs ph c : in_order s → serving s = (ph, c) :: rs →
  (unadmitted ph = true → idle c) ∧ Forall (λ r, unadmitted r.1 = true → idle r.2) rs ∧ numbered (upstreams (world s)).
Proof. intros [Hf Hn] E. rewrite E in Hf. by apply Forall_cons in Hf as [? ?]. Qed.

(** A filter called on the request at the head. *)
Lemma filter_step s ph c rs ph' c' l' :
  in_order s → serving s = (ph, c) :: rs → (unadmitted ph' = true → idle c') →
  numbered (upstreams l') →
  step (mkProcess (world s) (c :: rs.*2) ((λ w, (w.1.1, w.2)) <$> waiting s)) (mkProcess l' (c' :: rs.*2) ((λ w, (w.1.1, w.2)) <$> waiting s)) →
  rtc step (process s) (process (with_world l' (with_requests ((ph', c') :: rs) (waiting s) s)))
  ∧ in_order (with_world l' (with_requests ((ph', c') :: rs) (waiting s) s)).
Proof.
  intros HI E Hid Hn Hs. destruct (in_order_head _ _ _ _ HI E) as (_ & Hrs & _). split.
  - apply rtc_once. unfold process at 1. rewrite E. exact Hs.
  - split; [by constructor|done].
Qed.

Lemma places_numbered p p' : places p' = places p → numbered p → numbered p'.
Proof. apply numbered_same. Qed.

Lemma backends_numbered p p' : backends p' = backends p → numbered p → numbered p'.
Proof. intros E. apply numbered_same. unfold places. by rewrite E. Qed.

Lemma event_simulated s ps s' :
  in_order s → event s ps s' → rtc step (process s) (process s') ∧ in_order s'.
Proof.
  intros HI Hev. pose proof HI as [Hf Hn]. destruct Hev.
  - split; [|split; [cbn [serving with_requests]; match goal with H : serving s ≡ₚ _ |- _ => by rewrite <-H end|done]]. apply rtc_once. apply step_order; by apply fmap_Permutation.
  - split; [|split; [by constructor|done]]. apply rtc_once. unfold process. cbn [serving waiting with_requests world].
    rewrite fmap_cons. apply step_arrive. by rewrite !length_fmap.
  - destruct (in_order_head _ _ _ _ HI ltac:(eassumption)) as (Hc & _).
    apply (filter_step s Begun c rs Heard _ (world s)); [done|done| |done|apply step_early]. intros _. by apply Hc.
  - destruct (in_order_head _ _ _ _ HI ltac:(eassumption)) as (Hc & _).
    apply (filter_step s Heard c rs _ _ (world s)); [done|done| |done|apply step_route]. intros _. by apply Hc.
  - destruct (in_order_head _ _ _ _ HI ltac:(eassumption)) as (Hc & Hrs & _).
    match goal with E : placed _ _ _ _ _ = _ |- _ => destruct (placed_process _ _ _ _ _ _ E) as [Hp Ho] end. split.
    + apply rtc_once. unfold process at 1. match goal with E : serving _ = _ |- _ => rewrite E end.
      eapply step_admit; [by apply Hc|exact Hp].
    + apply Ho; [done|done|]. pose proof (admit_effect now ph c (world s)) as H'.
      destruct (proxy_upstream_filter _ _ _ _); simpl in H'; [by destruct H' as (_&_&_&?&_)..|done].
  - match goal with E : placed _ _ _ _ _ = _ |- _ => destruct (placed_process _ _ _ _ _ _ E) as [Hp Ho] end. split.
    + apply rtc_once. unfold process at 1. match goal with E : waiting _ = _ |- _ => rewrite E end.
      eapply step_wake; [done|done|exact Hp].
    + apply Ho; [done|done|]. pose proof (resume_effect now p w c (world s)) as H'.
      destruct (admission_resumed _ _ _ _ _); simpl in H'; [by destruct H' as (_&_&_&?&_)..|done].
  - split; [|by split; [constructor|]]. apply rtc_once. unfold process at 1. match goal with E : waiting _ = _ |- _ => rewrite E end.
    apply step_abandon.
  - pose proof (peer_effect now ms wall path fresh c (world s) Hn) as Hx.
    match goal with E : upstream_peer _ _ _ _ _ _ _ = _ |- _ => rewrite E in Hx; destruct Hx as (_ & Hx & _);
      eapply (filter_step s _ c rs); [done|done|done|by eapply places_numbered|by eapply step_peer] end.
  - pose proof (connect_effect ms method c (world s)) as Hx. pose proof (outcome_effect ms false c (world s)) as Hy.
    match goal with E : fail_to_connect _ _ _ _ = _ |- _ => rewrite E in Hx; destruct Hx as (_ & Hx & _);
      eapply (filter_step s _ c rs); [done|done|done| |by eapply step_connect] end.
    rewrite Hx. destruct (record_origin_outcome _ _ _ _). destruct Hy as (_ & Hy & _). by eapply backends_numbered.
  - pose proof (error_effect ms method dr reused truncated c (world s)) as Hx. pose proof (outcome_effect ms false c (world s)) as Hy.
    match goal with E : error_while_proxy _ _ _ _ _ _ _ = _ |- _ => rewrite E in Hx; destruct Hx as (_ & Hx & _);
      eapply (filter_step s _ c rs); [done|done|done| |by eapply step_error] end.
    rewrite Hx. destruct (record_origin_outcome _ _ _ _). destruct Hy as (_ & Hy & _). by eapply backends_numbered.
  - pose proof (response_effect now ms status c (world s)) as Hx.
    match goal with E : upstream_response_filter _ _ _ _ _ = _ |- _ => rewrite E in Hx; destruct Hx as (_ & _ & Hx & _);
      eapply (filter_step s _ c rs); [done|done|done|by eapply backends_numbered|by eapply step_response] end.
  - by split.
  - pose proof (origin_body_effect now eos c (world s)) as Hx.
    match goal with E : upstream_response_body_filter _ _ _ _ = _ |- _ => rewrite E in Hx; destruct Hx as (_&_&_&_&_& Hx & _);
      eapply (filter_step s _ c rs); [done|done|done|by eapply backends_numbered|by eapply step_origin_body] end.
  - destruct (in_order_head _ _ _ _ HI ltac:(eassumption)) as (Hc & Hrs & _). pose proof (body_effect up body eos c (world s)) as Hx.
    match goal with E : response_body_filter _ _ _ _ _ = _ |- _ => pose proof E as Eb; rewrite E in Hx; destruct Hx as (_&_&_& Hx & _);
      eapply (filter_step s _ c rs); [done|done| |by rewrite Hx|by eapply step_body] end.
    intros Hu. destruct (Hc Hu) as (I1 & I2 & I3 & I4). unfold response_body_filter in Eb. rewrite I3 in Eb. injection Eb as _ <- _. by split_and!.
  - destruct (in_order_head _ _ _ _ HI ltac:(eassumption)) as (Hc & Hrs & _).
    match goal with E : logging ?e _ _ _ = _ |- _ => pose proof (logging_effect e x c (world s)) as Hx; rewrite E in Hx; destruct Hx as (_&_&_&_& Hx) end. split.
    + apply rtc_once. unfold process at 1. match goal with E : serving _ = _ |- _ => rewrite E end. by eapply step_end.
    + split; [done|]. cbn [world with_exporter with_world upstreams]. rewrite Hx.
      pose proof (release_effect c (world s)) as Hy. destruct (release_origin_slot c (world s)). destruct Hy as (_&_&_&_&_& Hy & _). by eapply backends_numbered.
  - match goal with E : Upstream.record _ _ _ _ = _ |- _ => destruct (record_pool _ _ _ _ _ _ _ E) as [R|R]; rewrite R end.
    + split; [|by split]. assert (with_pool (upstreams (world s)) (world s) = world s) as Ew by (by destruct (world s)).
      unfold process. cbn [world with_checker with_world serving waiting]. by rewrite Ew.
    + split; [|by split]. apply rtc_once. apply step_health.
  - subst b'. assert (numbered (set_backend (refresh lookup b).2 (upstreams (world s)))) as Hn'.
    { eapply places_numbered; [|exact Hn]. pose proof (numbered_elem _ _ Hn ltac:(eassumption)). destruct (refresh_same lookup b) as (R1 & R2 & _).
      apply (places_set_backend _ b); [by rewrite R1|done|done]. }
    split; [|by split]. apply rtc_once. unfold process. cbn [world with_world serving waiting].
    rewrite <-(refresh_alone b lookup) by done. apply step_resolve.
  - split; [|by split]. apply rtc_once. apply step_cache.
  - match goal with E : response _ _ _ _ _ _ _ = _ |- _ => apply response_world in E as [ops ->] end.
    split; [|by split]. apply rtc_once. apply step_cache.
  - split; [|by split]. apply rtc_once. apply step_drain.
  - split; [|by split]. apply rtc_once. by eapply step_reload.
  - by split.
  - by split.
Qed.

Abbreviation store_steps := (Store.steps serialize deserialize has_field field_text).

Lemma steps_refl w : ∃ es, store_steps w es w.
Proof. exists []. constructor. Qed.

Lemma steps_purges ops w : ∃ es, store_steps w es (Store.with_store (purges ops) w).
Proof.
  revert w. induction ops as [|op ops IH]; intros w; [by destruct w; apply steps_refl|].
  destruct (IH (Store.with_store (run_purge op) w)) as [es H]. exists (EvPurge :: es). econstructor; [apply step_purge|done].
Qed.

Lemma placed_store a route s rs ws s' st :
  placed a route s rs ws = Some s' →
  (match a with Proceed _ l | Answered _ _ l | AwaitAdmission _ _ l => AdminEndpoint.store l = st | _ => True end) →
  cache_of s' = Store.mkWorld st (cache_channels s) (cache_handlers s) (cache_handoffs s).
Proof. intros E Hst. destruct a; [injection E as <-; by rewrite <-Hst..|discriminate E]. Qed.

(** The store and its fills move by the store's own steps. *)
Lemma event_store s ps s' :
  in_order s → event s ps s' → ∃ es, store_steps (cache_of s) es (cache_of s').
Proof.
  intros [_ Hn] Hev. pose proof (steps_refl (cache_of s)) as Hsame.
  assert (∀ l' rs ws, AdminEndpoint.store l' = AdminEndpoint.store (world s) →
    ∃ es, store_steps (cache_of s) es (cache_of (with_world l' (with_requests rs ws s)))) as Hcalm.
  { intros l' rs ws E. replace (cache_of (with_world l' (with_requests rs ws s))) with (cache_of s); [done|].
    unfold cache_of. cbn [world with_world with_requests cache_channels cache_handlers cache_handoffs]. by rewrite E. }
  destruct Hev; try done.
  - match goal with E : placed _ _ _ _ _ = _ |- _ => rewrite (placed_store _ _ _ _ _ _ (AdminEndpoint.store (world s)) E); [done|] end.
    pose proof (admit_effect now ph c (world s)) as H'. by destruct (proxy_upstream_filter _ _ _ _); simpl in H'; [apply H'..|].
  - match goal with E : placed _ _ _ _ _ = _ |- _ => rewrite (placed_store _ _ _ _ _ _ (AdminEndpoint.store (world s)) E); [done|] end.
    pose proof (resume_effect now p w c (world s)) as H'. by destruct (admission_resumed _ _ _ _ _); simpl in H'; [apply H'..|].
  - pose proof (peer_effect now ms wall path fresh c (world s) Hn) as Hx.
    match goal with E : upstream_peer _ _ _ _ _ _ _ = _ |- _ => rewrite E in Hx end. apply Hcalm, Hx.
  - pose proof (connect_effect ms method c (world s)) as Hx.
    match goal with E : fail_to_connect _ _ _ _ = _ |- _ => rewrite E in Hx end. apply Hcalm, Hx.
  - pose proof (error_effect ms method dr reused truncated c (world s)) as Hx.
    match goal with E : error_while_proxy _ _ _ _ _ _ _ = _ |- _ => rewrite E in Hx end. apply Hcalm, Hx.
  - pose proof (response_effect now ms status c (world s)) as Hx.
    match goal with E : upstream_response_filter _ _ _ _ _ = _ |- _ => rewrite E in Hx end. apply Hcalm, Hx.
  - pose proof (origin_body_effect now eos c (world s)) as Hx.
    match goal with E : upstream_response_body_filter _ _ _ _ = _ |- _ => rewrite E in Hx end. apply Hcalm, Hx.
  - pose proof (body_effect up body eos c (world s)) as Hx.
    match goal with E : response_body_filter _ _ _ _ _ = _ |- _ => rewrite E in Hx end. apply Hcalm, Hx.
  - match goal with E : logging ?e _ _ _ = _ |- _ => pose proof (logging_effect e x c (world s)) as Hx; rewrite E in Hx end.
    destruct Hx as ([_ E _] & _). by apply (Hcalm l' rs (waiting s)).
  - exists [e]. econstructor; [|constructor]. by destruct w'.
  - match goal with E : response _ _ _ _ _ _ _ = _ |- _ => apply response_world in E as [ops ->] end. exact (steps_purges ops (cache_of s)).
  - match goal with E : Policy.reload _ _ _ = _ |- _ => apply reload_inv in E as (cfg & sn & _ & _ & _ & _ & _ & _ & _ & Est) end.
    unfold cache_of, with_reload. cbn [world cache_channels cache_handlers cache_handoffs]. unfold with_reloaded. cbn [AdminEndpoint.store].
    rewrite Est. cbn [reloader_of Policy.store]. destruct (changed _ _ _); [exact (steps_purges [Everything] (cache_of s))|done].
Qed.

Lemma start_in_order dns path cfg h s : start dns path cfg h = Ok s → in_order s ∧ ∃ t l, run dns cfg h = Ok (t, l) ∧ process s = mkProcess l [] [].
Proof.
  unfold start. rewrite bind_ok. intros (x & _ & H). apply bind_ok in H as ([t l] & Hr & [= <-]). apply map_err_ok in Hr.
  split; [|by exists t, l]. split; [done|]. cbn [world upstreams]. unfold run in Hr. apply bind_ok in Hr as (sn & _ & Hr).
  destruct (startup cfg h) as [k h']. apply bind_ok in Hr as (pool & Hp & Hr). apply map_err_ok in Hp, Hr.
  unfold new_harmost in Hr. apply bind_ok in Hr as (tr & _ & [= <- <-]). cbn [upstreams].
  unfold start_pool in Hp. apply bind_ok in Hp as (p0 & Hp & [= <-]). destruct (new_places _ _ _ _ _ Hp) as (Hn & _).
  destruct (Config.health cfg); [done|]. destruct (assume_healthy_places p0) as (E & _). by eapply places_numbered.
Qed.

Lemma active_in_order s : active s → in_order s ∧ reachable (Sem := Sem) (M := M) P F (process s).
Proof.
  induction 1 as [dns path cfg h s HV Ht Hz Hs|s ps s' _ [HI HR] He].
  - destruct (start_in_order _ _ _ _ _ Hs) as (HI & t & l & Hr & E). split; [done|]. rewrite E. by eapply reach_start.
  - destruct (event_simulated _ _ _ HI He) as [Hs HI']. split; [done|]. clear -HR Hs.
    induction Hs as [p|p q r Hpq _ IH]; [done|]. apply IH. by eapply reach_step.
Qed.
End Refinement.

(** ** A service and a request *)

Module Sample.
Import CountingSemaphore.

Definition empty_service : Service counter sample_matching :=
  mkService cold (mkTrust [] NoForwarded NoForwarded) None ∅ ∅ ∅ None None 1 [] [] [].
Definition started : Service counter sample_matching :=
  match start local_dns "harmost.yaml" sample_config empty_heap with Ok s => s | Err _ => empty_service end.

Definition first_ctx : Ctx := new_ctx 0 0 [1] [2] (world started).
Definition accepted : Service counter sample_matching := with_requests [(Begun, first_ctx)] [] started.
Definition early_ctx : Ctx :=
  with_early (early_request_filter (pinned first_ctx) (trust started) None false page_request [1] [2]) first_ctx.
Definition understood : Service counter sample_matching := with_requests [(Heard, early_ctx)] [] started.
Definition answer : Routing * bool := request_filter (A := NextJs) (pinned early_ctx) page_request.
Definition routed_ctx : Ctx := with_routing answer.1 early_ctx.
Definition routed : Service counter sample_matching :=
  with_requests [(if answer.2 then Done else Routed, routed_ctx)] [] started.
Definition let_in : Admitting := proxy_upstream_filter 5 PhaseMiss routed_ctx (world started).
Definition held : Ctx * Live := match let_in with Proceed c l => (c, l) | _ => (routed_ctx, world started) end.
Definition holding : Service counter sample_matching := with_world held.2 (with_requests [(Trying, held.1)] [] started).
Definition chosen : result PeerError Peer * Ctx * Live := upstream_peer 10 10 10 "/products/7" [3] held.1 (world holding).
Definition trying : Service counter sample_matching :=
  with_world chosen.2 (with_requests [(Trying, chosen.1.2)] (waiting holding) holding).

(** No response is kept here. *)
Abbreviation happens := (event (Sem := counter) (M := sample_matching) (Meta := unit) (λ _, None) (λ _, None) (λ _ _, false) (λ _ _, None)
  sample_platform sample_files "0.1.0" [] Some).
Abbreviation alive := (active (Sem := counter) (M := sample_matching) (Meta := unit) (λ _, None) (λ _, None) (λ _ _, false) (λ _ _, None)
  sample_platform sample_files "0.1.0" [] Some).

Lemma starts_ok : start local_dns "harmost.yaml" sample_config empty_heap = Ok started.
Proof.
  assert (is_ok (start (M := sample_matching) local_dns "harmost.yaml" sample_config empty_heap) = true) as Hok by (vm_compute; reflexivity).
  unfold started. by destruct (start local_dns "harmost.yaml" sample_config empty_heap).
Qed.

Lemma is_accepted : happens started [] accepted.
Proof.
  assert (serving started = [] ∧ waiting started = []) as [E1 E2].
  { pose proof starts_ok as H. generalize dependent started. intros s H. unfold start in H. apply bind_ok in H as (x & _ & H). apply bind_ok in H as ([t l] & _ & H). by injection H as <-. }
  unfold accepted. rewrite <-E2. change [(Begun, first_ctx)] with ((Begun, first_ctx) :: []). rewrite <-E1.
  apply ev_arrive. by rewrite E1, E2.
Qed.

Lemma is_understood : happens accepted [] understood.
Proof. by apply (ev_early _ _ _ _ _ _ _ _ _ accepted first_ctx []). Qed.

Lemma is_routed : happens understood (request_filter_published (A := NextJs) (pinned early_ctx) page_request) routed.
Proof. apply (ev_route _ _ _ _ _ _ _ _ _ understood early_ctx [] page_request answer.1 answer.2); [done|apply surjective_pairing]. Qed.

Lemma not_refused : answer.2 = false.
Proof. vm_compute. reflexivity. Qed.

Lemma is_held : happens routed (proxy_upstream_filter_published 5 PhaseMiss routed_ctx (world started)) holding.
Proof.
  apply (ev_admit _ _ _ _ _ _ _ _ _ routed routed_ctx []).
  - unfold routed. by rewrite not_refused.
  - assert (match let_in with Proceed _ _ => true | _ => false end = true) as E by (vm_compute; reflexivity).
    change (placed let_in (route_of routed_ctx (world started)).1 routed [] [] = Some holding). unfold holding, held.
    by destruct let_in.
Qed.

Lemma is_trying : happens holding (upstream_peer_published 10 "/products/7" held.1 (world holding)) trying.
Proof.
  refine (ev_peer _ _ _ _ _ _ _ _ _ holding held.1 [] 10 10 10 "/products/7" [3] chosen.1.1 chosen.1.2 chosen.2 eq_refl _).
  transitivity chosen; [unfold chosen; reflexivity|apply triple_eta].
Qed.

Lemma alive_holding : alive holding.
Proof.
  eapply active_event; [|exact is_held]. eapply active_event; [|exact is_routed].
  eapply active_event; [|exact is_understood]. eapply active_event; [|exact is_accepted].
  apply (active_start _ _ _ _ _ _ _ _ _ local_dns "harmost.yaml" sample_config empty_heap);
    [exact sample_validates|exact sample_config_typed|reflexivity|exact starts_ok].
Qed.
End Sample.
