(* ===== verification/Observed.v ===== *)
(** * The service and its metrics

    The registry beside the service: [preregister], what starting publishes, and
    then what each event publishes ([observed]).  [metrics_never_panic]: no
    registration or publication fails, whatever happens; [labels_are_bounded]:
    and no request can make a series that the configuration did not. *)

From S2P Require Import Prelude Words Text Units Schema Net.
From S2P Require Import Classifier Semaphores Limiter Admission Store BodySpool Retries Breakers Upstream UpstreamTheorems.
From S2P Require Import Validation ValidationTheorems Forwarded Policy PolicyTheorems Otlp.
From S2P Require Import AccessLog Spans Export Trace Metrics Drain AdminEndpoint AdminTheorems Filters FilterTheorems.
From S2P Require Import Proxy ProxyTheorems PoolFacts Names Labels Published Effects Lifecycle Service.
Local Open Scope string_scope.
Local Open Scope list_scope.
Local Open Scope N_scope.

Section Observed.
Context {Sem : Type} `{S : !Semaphore Sem} {M : Matching}.
Context {Meta : Type} (serialize : Meta → option BinaryMeta) (deserialize : BinaryMeta → option Meta)
  (has_field : Meta → string → bool) (field_text : Meta → string → option string).
Context (P : Platform) (F : Files).
Context (VERSION : string) (features : list string) (percent_decode : string → option string).
Context {Reg : Type} `{PR : Prometheus Reg}.
Implicit Types (s : Service Sem M) (t : Telemetry Reg).

Abbreviation event := (event serialize deserialize has_field field_text P F VERSION features percent_decode).
Abbreviation active := (active serialize deserialize has_field field_text P F VERSION features percent_decode).

(** What starting publishes. *)
Definition start_published s : list Publication :=
  let l := Service.world s in startup_published (AdminEndpoint.policy l) (ctl l) (heap l) (upstreams l).

Inductive observed : Service Sem M → Telemetry Reg → Prop :=
| observed_start dns path cfg h s t0 t :
    validate (Sem := Sem) P cfg = Ok tt → typed cfg → next h = 0%nat → start dns path cfg h = Ok s →
    preregister no_telemetry = Some t0 → publish_all (start_published s) t0 = Some t → observed s t
| observed_event s t ps s' t' :
    observed s t → event s ps s' → publish_all ps t = Some t' → observed s' t'.

(** What the configurations so far named. *)
Definition known s : Known :=
  mkKnown (mjoin ((λ p, r_id M <$> p_routes M p) <$> loaded s)) (addresses (upstreams (Service.world s))).
End Observed.

(** ** Requests belong to the service *)

Section Orderly.
Context {Sem : Type} `{S : !Semaphore Sem} {M : Matching}.
Implicit Types (s : Service Sem M) (c : Ctx (M := M)).

(** Its policy was loaded, its route and its backend are known. *)
Definition belongs s c : Prop :=
  pinned c ∈ loaded s ∧ routed (known s) (routing c) ∧ linked (places (upstreams (Service.world s))) c.

(** The limiter a parked request is given is its route's. *)
Definition given s (route : option nat) : Prop :=
  let h := heap (Service.world s) in
  ∀ n, route = Some n → (n < next h)%nat ∧ Limiter.name (cell h n) ∈ route_ids (known s).

Record orderly s : Prop := mkOrderly {
  kept_order : in_order s;
  present_loaded : AdminEndpoint.policy (Service.world s) ∈ loaded s;
  kept_named : named (ctl (Service.world s)) (heap (Service.world s));
  serving_belong : Forall (λ r, belongs s r.2) (serving s);
  waiting_belong : Forall (λ w, belongs s w.2 ∧ given s w.1.2) (waiting s) }.

(** Nothing is forgotten from [s] to [s']. *)
Record grows s s' : Prop := mkGrows {
  keeps_loaded : loaded s ⊆ loaded s';
  keeps_places : places (upstreams (Service.world s')) = places (upstreams (Service.world s));
  keeps_limiters : keeps_names (heap (Service.world s)) (heap (Service.world s')) }.

Lemma grows_knows s s' : grows s s' → knows_more (known s) (known s').
Proof.
  intros [H1 H2 _]. split; cbn [known route_ids backend_names]; [|unfold addresses; by rewrite H2].
  intros id. rewrite !list_elem_of_join. intros (ids & Hin & (p & -> & Hp)%list_elem_of_fmap).
  exists (r_id M <$> p_routes M p). split; [done|]. apply list_elem_of_fmap. exists p. split; [done|by apply H1].
Qed.

Lemma routed_grows k k' r : knows_more k k' → routed k r → routed k' r.
Proof. intros [H _] Hr id Hid. by apply H, Hr. Qed.

Lemma belongs_grows s s' c : grows s s' → belongs s c → belongs s' c.
Proof.
  intros Hg (H1 & H2 & H3). split_and!; [by apply Hg|by eapply routed_grows; [apply grows_knows|]|]. by rewrite (keeps_places _ _ Hg).
Qed.

Lemma given_grows s s' route : grows s s' → given s route → given s' route.
Proof.
  intros Hg H n Hr. destruct (H n Hr) as [Hlt Hin]. destruct (keeps_limiters _ _ Hg) as [Hn Hk].
  split; [lia|]. rewrite Hk by done. by apply (grows_knows _ _ Hg).
Qed.

(** What a request keeps through a filter. *)
Lemma belongs_same s c c' :
  same_request c c' → (linked (places (upstreams (Service.world s))) c → linked (places (upstreams (Service.world s))) c') →
  belongs s c → belongs s c'.
Proof. intros [E1 E2] Hl (H1 & H2 & H3). unfold belongs. rewrite E1, E2. split; [done|]. split; [done|by apply Hl]. Qed.

Lemma belongs_attempt s c c' : same_request c c' → attempt c' = attempt c → belongs s c → belongs s c'.
Proof. intros Hr E. apply belongs_same; [done|]. apply linked_same; by rewrite E. Qed.

Lemma belongs_route s p r :
  p ∈ loaded s → r ∈ p_routes M p → r_id M r ∈ route_ids (known s).
Proof.
  intros Hp Hr. cbn [known route_ids]. apply list_elem_of_join. exists (r_id M <$> p_routes M p).
  split; [by apply list_elem_of_fmap_2|]. apply list_elem_of_fmap. by exists p.
Qed.

Lemma grows_refl s : grows s s.
Proof. by split. Qed.

Definition carried s s' : Prop := orderly s' ∧ grows s s'.

(** A step whose requests are those of [s] but for some. *)
Lemma orderly_step s s' :
  orderly s → in_order s' → grows s s' → AdminEndpoint.policy (Service.world s') ∈ loaded s' →
  named (ctl (Service.world s')) (heap (Service.world s')) →
  Forall (λ r, belongs s r.2 ∨ belongs s' r.2) (serving s') →
  Forall (λ w, (belongs s w.2 ∧ given s w.1.2) ∨ (belongs s' w.2 ∧ given s' w.1.2)) (waiting s') → carried s s'.
Proof.
  intros Ho Hi Hg Hp Hn Hs Hw. split; [|done]. split; [done|done|done|..].
  - eapply Forall_impl; [exact Hs|]. intros r [H|H]; [by eapply belongs_grows|done].
  - eapply Forall_impl; [exact Hw|]. intros w [[H1 H2]|H]; [|done]. split; [by eapply belongs_grows|by eapply given_grows].
Qed.

(** A filter on the request at the head. *)
Lemma orderly_filter s ph c rs ph' c' l' :
  orderly s → serving s = (ph, c) :: rs →
  in_order (with_world l' (with_requests ((ph', c') :: rs) (waiting s) s)) →
  calm (Service.world s) l' → names_ok (Service.world s) l' → places (upstreams l') = places (upstreams (Service.world s)) →
  (belongs s c → belongs s c') →
  carried s (with_world l' (with_requests ((ph', c') :: rs) (waiting s) s)).
Proof.
  intros Ho E Hi [Hc _ _] Hn Hp Hb. pose proof Ho as [_ H2 H3 H4 H5]. destruct (Hn H3) as [Hn1 Hn2].
  rewrite E in H4. apply Forall_cons in H4 as [Hh H4].
  apply (orderly_step s); [done|done|by split|..]; cbn [Service.world with_world with_requests serving waiting loaded].
  - by rewrite Hc.
  - done.
  - constructor; [left; by apply Hb|]. eapply Forall_impl; [exact H4|]. intros r; by left.
  - eapply Forall_impl; [exact H5|]. intros w; by left.
Qed.

(** Admission puts the request back, or parks it with its limiter. *)
Lemma orderly_placed s a route c rs ws s' :
  orderly s → in_order s' → belongs s c → Forall (λ r, belongs s r.2) rs →
  Forall (λ w, belongs s w.2 ∧ given s w.1.2) ws → settled_effect c (Service.world s) a →
  (∀ p c' l', a = AwaitAdmission p c' l' → ∀ n, route = Some n → (n < next (heap l'))%nat ∧ Limiter.name (cell (heap l') n) ∈ route_ids (known s)) →
  Service.placed a route s rs ws = Some s' → carried s s'.
Proof.
  intros Ho Hi Hb Hrs Hws Ha Hr E. pose proof Ho as [_ H2 H3 _ _].
  assert (∀ c' l', calm (Service.world s) l' ∧ names_ok (Service.world s) l' ∧ AdminEndpoint.spool l' = AdminEndpoint.spool (Service.world s)
    ∧ upstreams l' = upstreams (Service.world s) ∧ same_request c c' ∧ attempt c' = attempt c →
    ∀ cs ws', Forall (λ r, belongs s r.2) cs → Forall (λ w, belongs s w.2 ∧ given s w.1.2 ∨
        belongs s w.2 ∧ given (with_world l' s) w.1.2) ws' →
      in_order (with_world l' (with_requests cs ws' s)) → carried s (with_world l' (with_requests cs ws' s))) as Hgo.
  { intros c' l' ([C1 _ _] & Hn & _ & Hu & _) cs ws' Hcs Hws' Hi'. destruct (Hn H3) as [N1 N2].
    assert (grows s (with_world l' (with_requests cs ws' s))) as Hg
      by (split; cbn [loaded Service.world with_world with_requests]; [done|by rewrite Hu|done]).
    apply (orderly_step s); [done|done|done|cbn [Service.world with_world with_requests serving waiting loaded]..].
    - by rewrite C1.
    - done.
    - eapply Forall_impl; [exact Hcs|]. intros r; by left.
    - eapply Forall_impl; [exact Hws'|]. intros w [?|[? ?]]; [by left|right]. split; [|done]. by eapply belongs_grows. }
  destruct a as [c' l'|resp c' l'|p c' l'|u c' l']; simpl in E; try discriminate E; injection E as <-;
    pose proof Ha as (_ & _ & _ & _ & Hq & Ea); apply (Hgo c' l' Ha); try done.
  - constructor; [by eapply belongs_attempt|done].
  - eapply Forall_impl; [exact Hws|]. intros w ?; by left.
  - constructor; [by eapply belongs_attempt|done].
  - eapply Forall_impl; [exact Hws|]. intros w ?; by left.
  - constructor; [right|eapply Forall_impl; [exact Hws|]; intros w ?; by left].
    split; [by eapply belongs_attempt|]. exact (Hr _ _ _ eq_refl).
Qed.

(** The limiter found for a request is its route's. *)
Lemma route_of_given s c l :
  named (ctl l) (heap l) → routed (known s) (routing c) →
  let '(route, (k, h)) := route_of c l in
  named k h ∧ ∀ n, route = Some n → (n < next h)%nat ∧ Limiter.name (cell h n) ∈ route_ids (known s).
Proof.
  intros Hn Hr. unfold route_of. destruct (route_id (routing c)) as [id|] eqn:Eid; [|by split].
  pose proof (named_limiter_for (pinned c) id _ _ Hn) as H. destruct (limiter_for _ _ _ _ _) as [route [k h]].
  destruct H as (_ & Hk & _ & Hx). split; [done|]. intros n Hrt. destruct (Hx n Hrt) as [? ->]. split; [done|by apply Hr].
Qed.

Lemma admit_given now ph c s :
  named (ctl (Service.world s)) (heap (Service.world s)) → routed (known s) (routing c) →
  ∀ p c' l', proxy_upstream_filter now ph c (Service.world s) = AwaitAdmission p c' l' →
  ∀ n, (route_of c (Service.world s)).1 = Some n → (n < next (heap l'))%nat ∧ Limiter.name (cell (heap l') n) ∈ route_ids (known s).
Proof.
  intros Hn Hr p c' l'. pose proof (route_of_given s c (Service.world s) Hn Hr) as H. unfold proxy_upstream_filter. cbv zeta.
  fold (route_of c (Service.world s)).
  destruct (match ph with PhaseLockTimeout => true | _ => false end && _); [done|].
  destruct (bool_decide (class (routing c) = Upgrade)); [by destruct (acquire_start 1 (upgrades (Service.world s)))|].
  destruct (bool_decide _); [done|]. destruct (route_of c (Service.world s)) as [route [k h]]. destruct H as [_ Hx].
  pose proof (keeps_admit now (class (routing c)) route (priority (routing c)) (weight (routing c)) k h) as Hk.
  destruct (admit_request _ _ _ _ _ _ _) as [[ps| |why] h'|q h']; [done..|]. cbn [on_admission].
  intros [= _ _ <-] n E. cbn [fst heap with_admission] in *. destruct (Hx n E) as [Hlt Hin]. destruct Hk as [K1 K2].
  split; [lia|]. by rewrite K2.
Qed.

Lemma resume_given now p w c s route :
  given s route → ∀ p' c' l', admission_resumed now p w c (Service.world s) = AwaitAdmission p' c' l' →
  ∀ n, route = Some n → (n < next (heap l'))%nat ∧ Limiter.name (cell (heap l') n) ∈ route_ids (known s).
Proof.
  intros Hg p' c' l'. unfold admission_resumed. pose proof (keeps_resume now p w (heap (Service.world s))) as Hk.
  destruct (admit_resume _ _ _ _) as [[ps| |why] h'|q h']; [done..|]. cbn [on_admission].
  intros [= _ _ <-] n E. cbn [heap with_admission] in *. destruct (Hg n E) as [Hlt Hin]. destruct Hk as [K1 K2].
  split; [lia|]. by rewrite K2.
Qed.
End Orderly.

(** ** Every event keeps it so *)

Section Kept.
Context {Sem : Type} `{S : !Semaphore Sem} {M : Matching}.
Context {Meta : Type} (serialize : Meta → option BinaryMeta) (deserialize : BinaryMeta → option Meta)
  (has_field : Meta → string → bool) (field_text : Meta → string → option string).
Context (P : Platform) (F : Files).
Context (VERSION : string) (features : list string) (percent_decode : string → option string).
Implicit Types (s : Service Sem M).

Abbreviation event := (Service.event serialize deserialize has_field field_text P F VERSION features percent_decode).
Abbreviation active := (Service.active serialize deserialize has_field field_text P F VERSION features percent_decode).

Lemma head_belongs s ph c rs : orderly s → serving s = (ph, c) :: rs →
  belongs s c ∧ Forall (λ r, belongs s r.2) rs.
Proof. intros [_ _ _ H _] E. rewrite E in H. by apply Forall_cons in H as [? ?]. Qed.

Lemma next_belongs s p route c ws : orderly s → waiting s = (p, route, c) :: ws →
  belongs s c ∧ given s route ∧ Forall (λ w, belongs s w.2 ∧ given s w.1.2) ws.
Proof. intros [_ _ _ _ H] E. rewrite E in H. by apply Forall_cons in H as [[? ?] ?]. Qed.

(** An event that leaves the requests alone. *)
Lemma orderly_beside s s' :
  orderly s → in_order s' → grows s s' → AdminEndpoint.policy (Service.world s') ∈ loaded s' →
  named (ctl (Service.world s')) (heap (Service.world s')) → serving s' = serving s → waiting s' = waiting s → carried s s'.
Proof.
  intros Ho Hi Hg Hp Hn E1 E2. apply (orderly_step s); [done..| |]; rewrite ?E1, ?E2.
  - eapply Forall_impl; [exact (serving_belong _ Ho)|]. intros r; by left.
  - eapply Forall_impl; [exact (waiting_belong _ Ho)|]. intros w; by left.
Qed.

(** The same where the limiters and the policies stay too. *)
Lemma orderly_apart s s' :
  orderly s → in_order s' → loaded s' = loaded s → AdminEndpoint.policy (Service.world s') = AdminEndpoint.policy (Service.world s) →
  ctl (Service.world s') = ctl (Service.world s) → heap (Service.world s') = heap (Service.world s) →
  places (upstreams (Service.world s')) = places (upstreams (Service.world s)) →
  serving s' = serving s → waiting s' = waiting s → carried s s'.
Proof.
  intros Ho Hi E1 E2 E3 E4 E5 E6 E7. pose proof Ho as [_ H2 H3 _ _]. apply (orderly_beside s); [done|done| |..].
  - split; [by rewrite E1|done|by rewrite E4].
  - by rewrite E1, E2.
  - by rewrite E3, E4.
  - done.
  - done.
Qed.

Lemma backends_places p p' : backends p' = backends p → places p' = places p.
Proof. unfold places. by intros ->. Qed.

Lemma origin_only_names l l' : origin_only (Sem := Sem) (M := M) l l' → calm l l' ∧ names_ok l l'.
Proof. intros (H1 & H2 & _). split; [done|by apply same_names]. Qed.

Lemma attempt_kept_linked pl c c' : attempt_kept (M := M) c c' → linked pl c → linked pl c'.
Proof. intros (_ & H1 & H2 & _). by apply linked_same. Qed.

Lemma event_carried s ps s' : orderly s → event s ps s' → carried s s'.
Proof.
  intros Ho Hev. pose proof Ho as [HI H2 H3 H4 H5]. destruct (event_simulated _ _ _ _ _ _ _ _ _ _ _ _ HI Hev) as [_ HI'].
  pose proof HI as [_ Hnum]. destruct Hev.
  - split; [|by split]. split; [done|done|done|..]; cbn [serving waiting with_requests].
    + match goal with H : serving s ≡ₚ _ |- _ => rewrite <-H end. exact H4.
    + match goal with H : waiting s ≡ₚ _ |- _ => rewrite <-H end. exact H5.
  - split; [|by split]. split; [done|done|done|..]; cbn [serving waiting with_requests]; [|exact H5].
    constructor; [|exact H4]. by split_and!; [|intros id|split].
  - destruct (head_belongs _ _ _ _ Ho ltac:(eassumption)) as [Hc _].
    by eapply (orderly_filter s _ c rs Heard _ (Service.world s)); [done|done|exact HI'|done|apply same_names|done|apply belongs_attempt].
  - destruct (head_belongs _ _ _ _ Ho ltac:(eassumption)) as [Hc _].
    eapply (orderly_filter s _ c rs _ _ (Service.world s)); [done|done|exact HI'|done|by apply same_names|done|].
    intros (B1 & B2 & B3). split_and!; [done| |done]. cbn [routing with_routing].
    match goal with E : request_filter _ _ = (r, _) |- _ => pose proof (f_equal fst E) as Er end. simpl in Er. rewrite <-Er.
    apply request_filter_routed. intros ro Hro. by apply (belongs_route s (pinned c)).
  - destruct (head_belongs _ _ _ _ Ho ltac:(eassumption)) as [Hc Hrs].
    eapply (orderly_placed s _ _ c rs (waiting s)); [done|done|done|done|done|apply admit_effect| |eassumption].
    apply admit_given; [done|apply Hc].
  - destruct (next_belongs _ _ _ _ _ Ho ltac:(eassumption)) as (Hc & Hg & Hws).
    eapply (orderly_placed s _ _ c (serving s) ws); [done|done|done|done|done|apply resume_effect| |eassumption].
    by apply (resume_given now p w).
  - destruct (next_belongs _ _ _ _ _ Ho ltac:(eassumption)) as (Hc & Hg & Hws).
    destruct (abandon_effect p (Service.world s)) as ([A1 _ _] & A2 & _ & A4 & _). destruct (A2 H3) as [N1 N2].
    apply (orderly_step s); [done|done| |cbn [Service.world with_world with_requests serving waiting loaded]..].
    + split; [done|by rewrite <-A4|done].
    + by rewrite A1.
    + done.
    + constructor; [by left|]. eapply Forall_impl; [exact H4|]. intros r; by left.
    + eapply Forall_impl; [exact Hws|]. intros w; by left.
  - pose proof (peer_effect now ms wall path fresh c (Service.world s) Hnum) as Hx.
    match goal with E : upstream_peer _ _ _ _ _ _ _ = _ |- _ => rewrite E in Hx end. destruct Hx as (K1 & K2 & _ & K4 & _ & K6).
    destruct (origin_only_names _ _ K1). eapply (orderly_filter s _ c rs); [done|done|done|done|done|done|by apply belongs_same].
  - pose proof (connect_effect ms method c (Service.world s)) as Hx. pose proof (outcome_effect ms false c (Service.world s)) as Hy.
    match goal with E : fail_to_connect _ _ _ _ = _ |- _ => rewrite E in Hx end. destruct Hx as (K1 & K2 & K3).
    destruct (origin_only_names _ _ K1). destruct (record_origin_outcome _ _ _ _) as [c1 l1]. destruct Hy as (_ & Hy & _).
    eapply (orderly_filter s _ c rs); [done|done|done|done|done| |by apply belongs_same; [apply K3|apply attempt_kept_linked]].
    apply backends_places. by rewrite K2.
  - pose proof (error_effect ms method dr reused truncated c (Service.world s)) as Hx. pose proof (outcome_effect ms false c (Service.world s)) as Hy.
    match goal with E : error_while_proxy _ _ _ _ _ _ _ = _ |- _ => rewrite E in Hx end. destruct Hx as (K1 & K2 & K3).
    destruct (origin_only_names _ _ K1). destruct (record_origin_outcome _ _ _ _) as [c1 l1]. destruct Hy as (_ & Hy & _).
    eapply (orderly_filter s _ c rs); [done|done|done|done|done| |by apply belongs_same; [apply K3|apply attempt_kept_linked]].
    apply backends_places. by rewrite K2.
  - pose proof (response_effect now ms status c (Service.world s)) as Hx.
    match goal with E : upstream_response_filter _ _ _ _ _ = _ |- _ => rewrite E in Hx end. destruct Hx as (K1 & _ & K2 & K3).
    destruct (origin_only_names _ _ K1).
    eapply (orderly_filter s _ c rs); [done|done|done|done|done|by apply backends_places|by apply belongs_same; [apply K3|apply attempt_kept_linked]].
  - by split; [|apply grows_refl].
  - pose proof (origin_body_effect now eos c (Service.world s)) as Hx.
    match goal with E : upstream_response_body_filter _ _ _ _ = _ |- _ => rewrite E in Hx end. destruct Hx as (K1 & K2 & K3 & _ & _ & K6 & K7 & _ & K9).
    eapply (orderly_filter s _ c rs); [done|done|done|done|by apply keeps_ok|by apply backends_places|by apply belongs_same; [done|apply K9]].
  - pose proof (body_effect up body eos c (Service.world s)) as Hx.
    match goal with E : response_body_filter _ _ _ _ _ = _ |- _ => rewrite E in Hx end. destruct Hx as (K1 & K2 & _ & K4 & K5 & K6).
    eapply (orderly_filter s _ c rs); [done|done|done|done|by apply same_names|by rewrite K4|by apply belongs_attempt].
  - destruct (head_belongs _ _ _ _ Ho ltac:(eassumption)) as [Hc Hrs].
    match goal with E : logging ?e _ _ _ = _ |- _ => pose proof (logging_effect e x c (Service.world s)) as Hx; rewrite E in Hx end.
    destruct Hx as ([K1 _ _] & K2 & _ & _ & K5). destruct (K2 H3) as [N1 N2].
    pose proof (release_effect c (Service.world s)) as Hy. destruct (release_origin_slot c (Service.world s)). destruct Hy as (_&_&_&_&_& Hy & _).
    apply (orderly_step s); [done|done| |cbn [Service.world with_world with_requests with_exporter serving waiting loaded]..].
    + split; [done| |done]. cbn [Service.world with_exporter with_world]. rewrite K5. by apply backends_places.
    + by rewrite K1.
    + done.
    + eapply Forall_impl; [exact Hrs|]. intros r; by left.
    + eapply Forall_impl; [exact H5|]. intros w; by left.
  - apply (orderly_apart s); [done|done|try done..].
    match goal with E : Upstream.record _ _ _ _ = _ |- _ => destruct (record_pool _ _ _ _ _ _ _ E) as [R|R]; rewrite R; done end.
  - apply (orderly_apart s); [done|done|try done..]. cbn [Service.world with_world upstreams with_pool]. subst b'.
    pose proof (numbered_elem _ _ Hnum ltac:(eassumption)). destruct (refresh_same lookup b) as (R1 & R2 & _).
    apply (places_set_backend _ b); [by rewrite R1|done|done].
  - by apply (orderly_apart s).
  - match goal with E : response _ _ _ _ _ _ _ = _ |- _ => apply response_world in E as [st ->] end. by apply (orderly_apart s).
  - by apply (orderly_apart s).
  - match goal with E : Policy.reload _ _ _ = _ |- _ => apply reload_inv in E as (cfg & sn & _ & _ & _ & _ & R1 & _ & R2 & _) end.
    unfold apply_config in R2. cbn [reloader_of admission limiters] in R2.
    match type of R2 with apply_limits ?gm ?gq ?gt ?pr ?rs _ _ = _ =>
      pose proof (named_apply_limits gm gq gt pr rs _ _ H3) as Hn; rewrite R2 in Hn end. destruct Hn as [N1 N2].
    apply (orderly_beside s); [done|done| |by left|done..]. split; [|done|done]. cbn [loaded with_reload]. set_solver.
  - by split; [|apply grows_refl].
  - by apply (orderly_apart s).
Qed.
Lemma event_orderly s ps s' : orderly s → event s ps s' → orderly s'.
Proof. intros Ho Hev. by apply (event_carried _ _ _ Ho Hev). Qed.
Lemma event_knows s ps s' : orderly s → event s ps s' → knows_more (known s) (known s').
Proof. intros Ho Hev. by apply grows_knows, (event_carried _ _ _ Ho Hev). Qed.

Lemma proper_anywhere k ms ps : all_proper k ms ps → all_proper k statics ps.
Proof. apply all_proper_weaken. intros m _. apply statics_all. Qed.

Lemma belongs_attempts s c : belongs s c → routed (known s) (routing c) ∧ attempts_at (known s) c.
Proof. intros (_ & H2 & [H3 _]). split; [done|exact H3]. Qed.

(** What an event publishes is to the rule, and of the right kind. *)
Lemma event_proper s ps s' : orderly s → event s ps s' → all_proper (known s) statics ps.
Proof.
  intros Ho Hev. pose proof Ho as [[_ Hnum] H2 H3 H4 H5].
  assert (∀ ph c rs, serving s = (ph, c) :: rs → routed (known s) (routing c) ∧ attempts_at (known s) c) as Hhead.
  { intros ph c rs E. apply belongs_attempts. by destruct (head_belongs _ _ _ _ Ho E). }
  destruct Hev; try (match goal with E : serving s = (_, _) :: _ |- _ => destruct (Hhead _ _ _ E) as [Hr Ha] end);
    try (by constructor).
  - eapply proper_anywhere, request_filter_proper. intros ro Hro. apply (belongs_route s (pinned c)); [|done].
    by destruct (head_belongs _ _ _ _ Ho ltac:(eassumption)) as [[? _] _].
  - by eapply proper_anywhere, admit_proper.
  - destruct (next_belongs _ _ _ _ _ Ho ltac:(eassumption)) as ((_ & Hr & _) & Hg & _).
    eapply proper_anywhere, on_admission_proper; [done|]. pose proof (keeps_resume now p w (heap (Service.world s))) as Hk.
    assert (∀ h', keeps_names (heap (Service.world s)) h' → named (ctl (Service.world s)) h'
      ∧ ∀ n, route = Some n → Limiter.name (cell h' n) ∈ route_ids (known s)) as Hx.
    { intros h' K. split; [by eapply named_keeps|]. intros n E. destruct (Hg n E) as [Hlt Hin]. destruct K as [_ K]. by rewrite K. }
    by destruct (admit_resume _ _ _ _); apply Hx.
  - by eapply proper_anywhere, upstream_peer_proper.
  - eapply proper_anywhere. unfold fail_to_connect_published.
    apply (failed_proper (known s) ms read method "connect" c _ true); [done|done|decided].
  - eapply proper_anywhere. unfold error_while_proxy_published. by apply failed_proper; [..|decided].
  - by eapply proper_anywhere, upstream_response_proper.
  - by eapply proper_anywhere, response_cache_proper.
  - by eapply proper_anywhere, origin_body_proper.
  - by eapply proper_anywhere, body_proper.
  - eapply proper_anywhere, logging_proper; [done..|]. unfold offered_published. destruct (exporter s); [apply spans_proper|constructor].
  - eapply (proper_anywhere _ [UPSTREAM_HEALTHY]). unfold all_proper, health_published.
    assert (address b ∈ backend_names (known s)).
    { cbn [known backend_names]. unfold addresses, places. rewrite <-list_fmap_compose. apply list_elem_of_fmap. by exists b. }
    each_proper.
  - eapply (proper_anywhere _ [UPSTREAM_ADDRESSES]). unfold all_proper, resolved_published. subst b'.
    destruct (refresh_same lookup b) as (_ & Ead & _). rewrite Ead.
    assert (address b ∈ backend_names (known s)).
    { cbn [known backend_names]. unfold addresses, places. rewrite <-list_fmap_compose. apply list_elem_of_fmap. by exists b. }
    each_proper.
  - eapply proper_anywhere, evicted_proper.
  - eapply proper_anywhere, response_proper.
  - unfold all_proper, begin_drain_published. each_proper.
  - match goal with E : Policy.reload _ _ _ = _ |- _ => apply reload_inv in E as (cfg & sn & _ & _ & _ & _ & R1 & _ & R2 & _) end.
    unfold apply_config in R2. cbn [reloader_of admission limiters] in R2.
    match type of R2 with apply_limits ?gm ?gq ?gt ?pr ?rs _ _ = _ =>
      pose proof (named_apply_limits gm gq gt pr rs _ _ H3) as Hn; rewrite R2 in Hn end. destruct Hn as [N1 N2].
    by eapply proper_anywhere, reload_proper.
  - eapply proper_anywhere, exporter_proper.
Qed.

Lemma start_orderly dns path cfg h s : start dns path cfg h = Ok s → orderly s.
Proof.
  intros Hs. destruct (start_in_order _ _ _ _ _ Hs) as (HI & t & l & Hr & E). unfold start in Hs.
  apply bind_ok in Hs as (x & _ & Hs). apply bind_ok in Hs as ([t' l'] & Hr' & [= <-]). apply map_err_ok in Hr'.
  split; [done|by left| |constructor|constructor]. cbn [Service.world]. unfold run in Hr'.
  apply bind_ok in Hr' as (sn & _ & Hr'). pose proof (named_startup cfg h) as Hn. destruct (startup cfg h) as [k h'].
  apply bind_ok in Hr' as (pool & _ & Hr'). apply map_err_ok in Hr'. unfold new_harmost in Hr'.
  apply bind_ok in Hr' as (tr & _ & [= _ <-]). apply Hn.
Qed.
End Kept.

(** ** What holds of the registry *)

Section Registry.
Context {Sem : Type} `{S : !Semaphore Sem} {M : Matching}.
Context {Meta : Type} (serialize : Meta → option BinaryMeta) (deserialize : BinaryMeta → option Meta)
  (has_field : Meta → string → bool) (field_text : Meta → string → option string).
Context (P : Platform) (F : Files).
Context (VERSION : string) (features : list string) (percent_decode : string → option string).
Context {Reg : Type} `{PR : Prometheus Reg} `{!PrometheusLaws Reg}.
Implicit Types (s : Service Sem M) (t : Telemetry Reg).

Abbreviation event := (Service.event serialize deserialize has_field field_text P F VERSION features percent_decode).
Abbreviation observed := (observed serialize deserialize has_field field_text P F VERSION features percent_decode).

Lemma all_typed k ms ps : all_proper k ms ps → Forall well_typed ps.
Proof. intros H. eapply Forall_impl; [exact H|]. intros p. apply proper_typed. Qed.

Lemma start_proper s : orderly s → all_proper (known s) statics (start_published s).
Proof. intros Ho. eapply proper_anywhere, startup_proper; [by destruct Ho|done]. Qed.

Lemma starts s : orderly s → ∃ t0 t, preregister no_telemetry = Some t0 ∧ publish_all (start_published s) t0 = Some t ∧ live t
  ∧ ∀ m ls, shows t m ls = after_all (start_published s) (m, ls) (if decide ((m, ls) = seed) then Some 0%Z else initial m ls).
Proof.
  intros Ho. destruct preregister_ok as (t0 & E0 & L0 & S0).
  destruct (publish_all_live (start_published s) t0 L0) as (t & E & L & Hs); [by eapply all_typed, start_proper|].
  exists t0, t. split_and!; [done|done|done|]. intros m ls. by rewrite Hs, S0.
Qed.

Lemma observed_kept s t : observed s t → orderly s ∧ live t.
Proof.
  induction 1 as [dns path cfg h s t0 t _ _ _ Hs E0 E|s t ps s' t' _ [Ho Hl] Hev E].
  - pose proof (start_orderly _ _ _ _ _ Hs) as Ho. split; [done|]. destruct (starts s Ho) as (t0' & t' & E0' & E' & L & _). congruence.
  - pose proof (event_proper _ _ _ _ _ _ _ _ _ _ _ _ Ho Hev) as Hp. split; [by eapply event_orderly|].
    destruct (publish_all_live ps t Hl) as (t1 & E1 & L1 & _); [by eapply all_typed|]. congruence.
Qed.

(** What an event leaves showing. *)
Lemma observed_event_shows s t ps s' t' : observed s t → event s ps s' → publish_all ps t = Some t' →
  ∀ m ls, shows t' m ls = after_all ps (m, ls) (shows t m ls).
Proof.
  intros Hob Hev E. destruct (observed_kept _ _ Hob) as [Ho Hl].
  destruct (publish_all_live ps t Hl) as (t1 & E1 & _ & Hs); [by eapply all_typed, event_proper|]. congruence.
Qed.

Lemma observed_next s t ps s' : observed s t → event s ps s' → ∃ t', observed s' t'.
Proof.
  intros Hob Hev. destruct (observed_kept _ _ Hob) as [Ho Hl].
  destruct (publish_all_live ps t Hl) as (t' & E & _); [by eapply all_typed, event_proper|]. exists t'. by eapply observed_event.
Qed.

Lemma observed_first dns path cfg h s :
  validate (Sem := Sem) P cfg = Ok tt → typed cfg → next h = 0%nat → start dns path cfg h = Ok s → ∃ t, observed s t.
Proof.
  intros HV Ht Hz Hs. destruct (starts s (start_orderly _ _ _ _ _ Hs)) as (t0 & t & E0 & E & _). exists t. by eapply observed_start.
Qed.

(** C23: Metrics never bring the process down.  Every family is registered under
    a valid name that no other has, and everything published, at the start and
    by every event of a running service whatever its requests say, is to a
    family of the right kind with a value for each of its labels: no
    registration, [with_label_values] or update can panic. *)
Theorem metrics_never_panic :
  (∀ dns path cfg h s, start dns path cfg h = Ok s →
     ∃ t0 t, preregister (Reg := Reg) no_telemetry = Some t0 ∧ publish_all (start_published s) t0 = Some t)
  ∧ (∀ s t ps s', observed s t → event s ps s' → ∃ t', publish_all ps t = Some t').
Proof.
  split.
  - intros dns path cfg h s Hs. destruct (starts s (start_orderly _ _ _ _ _ Hs)) as (t0 & t & E0 & E & _). by exists t0, t.
  - intros s t ps s' Hob Hev. destruct (observed_kept _ _ Hob) as [Ho Hl].
    destruct (publish_all_live ps t Hl) as (t' & E & _); [by eapply all_typed, event_proper|]. by exists t'.
Qed.

Lemma seed_within k : within (allowed k seed.1) seed.2.
Proof. unfold within. repeat (constructor; [by left || decided|]). constructor. Qed.

Lemma initial_within k m ls : is_Some (initial m ls) → within (allowed k m) ls.
Proof.
  unfold initial. case_bool_decide as E; [|by intros []]. destruct E as [E ->]. intros _. destruct m; try discriminate E; constructor.
Qed.

Lemma observed_within s t m ls : observed s t → is_Some (shows t m ls) → within (allowed (known s) m) ls.
Proof.
  intros Hob. pose proof Hob as Hob'. revert m ls.
  assert (∀ k ps v m ls, all_proper k statics ps → (is_Some v → within (allowed k m) ls) →
    is_Some (after_all ps (m, ls) v) → within (allowed k m) ls) as Hps.
  { intros k ps v m ls Hp Hv [H|(p & Ep & Hin)%list_elem_of_fmap]%after_all_shown; [by apply Hv|].
    apply (proj1 (Forall_forall _ _) Hp) in Hin as [Hw _]. by rewrite <-Ep in Hw. }
  induction Hob as [dns path cfg h s t0 t _ _ _ Hs E0 E|s t ps s' t' Hob IH Hev E]; intros m ls Hsh.
  - pose proof (start_orderly _ _ _ _ _ Hs) as Ho. destruct (starts s Ho) as (t0' & t' & E0' & E' & _ & Hsw).
    assert (t' = t) as -> by congruence. rewrite Hsw in Hsh. revert Hsh. apply Hps; [by apply start_proper|].
    case_decide as Es; [|apply initial_within]. intros _. injection Es as -> ->. apply seed_within.
  - destruct (observed_kept _ _ Hob) as [Ho _]. rewrite (observed_event_shows _ _ _ _ _ Hob Hev E) in Hsh.
    assert (knows_more (known s) (known s')) as Hk by (by eapply event_knows).
    eapply allowed_mono; [exact Hk|]. revert Hsh. apply Hps; [by eapply event_proper|]. by apply IH.
Qed.

(** C24: The number of series is bounded by the configuration.  Whatever arrives,
    every series the registry shows is labelled with ids of routes and addresses
    of backends that a loaded configuration named, names of limiters and words
    of the source, each where its family allows it; so a family never has more
    series than the product of what its labels may say. *)
Theorem labels_are_bounded s t m :
  observed s t →
  (∀ ls v, shows t m ls = Some v → within (allowed (known s) m) ls)
  ∧ ∀ shown, NoDup shown → (∀ ls, ls ∈ shown → is_Some (shows t m ls)) →
      (length shown ≤ most_series (allowed (known s) m))%nat.
Proof.
  intros Hob. split; [intros ls v E; eapply observed_within; [done|by rewrite E]|].
  intros shown Hnd Hin. rewrite <-products_length. apply submseteq_length, NoDup_submseteq; [done|].
  intros ls Hls. by apply products_within, (observed_within s t), Hin.
Qed.
End Registry.

(** ** A service and its registry *)

Module Watch.
Import CountingSemaphore.

Abbreviation watched := (observed (Sem := counter) (M := sample_matching) (Meta := unit) (Reg := Ledger.ledger) (λ _, None) (λ _, None)
  (λ _ _, false) (λ _ _, None) sample_platform sample_files "0.1.0" [] Some).

Lemma watched_routed : ∃ t, watched Sample.routed t.
Proof.
  destruct (observed_first (Reg := Ledger.ledger) (Meta := unit) (λ _, None) (λ _, None) (λ _ _, false) (λ _ _, None) sample_platform sample_files
    "0.1.0" [] Some local_dns "harmost.yaml" sample_config empty_heap Sample.started) as [t0 H0];
    [exact sample_validates|exact sample_config_typed|reflexivity|exact Sample.starts_ok|].
  destruct (observed_next _ _ _ _ _ _ _ _ _ _ _ _ _ H0 Sample.is_accepted) as [t1 H1].
  destruct (observed_next _ _ _ _ _ _ _ _ _ _ _ _ _ H1 Sample.is_understood) as [t2 H2].
  exact (observed_next _ _ _ _ _ _ _ _ _ _ _ _ _ H2 Sample.is_routed).
Qed.

Lemma watched_holding : ∃ t, watched Sample.holding t.
Proof. destruct watched_routed as [t H]. exact (observed_next _ _ _ _ _ _ _ _ _ _ _ _ _ H Sample.is_held). Qed.

Lemma watched_trying : ∃ t, watched Sample.trying t.
Proof. destruct watched_holding as [t H]. exact (observed_next _ _ _ _ _ _ _ _ _ _ _ _ _ H Sample.is_trying). Qed.
End Watch.

Lemma metrics_never_panic_witness :
  ∃ t t', Watch.watched Sample.holding t
    ∧ publish_all (upstream_peer_published 10 "/products/7" Sample.held.1 (Service.world Sample.holding)) t = Some t'.
Proof.
  destruct Watch.watched_holding as [t H]. exists t.
  destruct (proj2 (metrics_never_panic (Reg := Ledger.ledger) (Meta := unit) (λ _, None) (λ _, None) (λ _ _, false) (λ _ _, None)
    sample_platform sample_files "0.1.0" [] Some) _ _ _ _ H Sample.is_trying) as [t' E].
  exists t'. split; [exact H|exact E].
Defined.

Lemma labels_are_bounded_witness :
  ∃ t, Watch.watched Sample.trying t ∧ most_series (allowed (known Sample.trying) REQUESTS) = 24%nat
    ∧ ∀ shown, NoDup shown → (∀ ls, ls ∈ shown → is_Some (shows t REQUESTS ls)) → (length shown ≤ 24)%nat.
Proof.
  destruct Watch.watched_trying as [t H]. exists t. split; [exact H|].
  assert (most_series (allowed (known Sample.trying) REQUESTS) = 24%nat) as E by (vm_compute; reflexivity). split; [exact E|].
  destruct (labels_are_bounded _ _ _ _ _ _ _ _ _ Sample.trying t REQUESTS H) as [_ Hb]. rewrite E in Hb. exact Hb.
Defined.
