(* ===== verification/Gauges.v ===== *)
(** * Gauges tell the truth

    What a gauge of a running service shows is what it is a gauge of: the
    upgrades open, the spooled bytes, the limits, the configuration in force, and
    each backend's health, load, latency, ejection and addresses.  Whatever
    changes one of these publishes it, and nothing else writes it. *)

From S2P Require Import Prelude Words Text Units Schema Net.
From S2P Require Import Classifier Semaphores Limiter Admission Store StoreLimits BodySpool Retries Breakers Upstream UpstreamTheorems.
From S2P Require Import Validation ValidationTheorems Forwarded Policy PolicyTheorems Otlp.
From S2P Require Import AccessLog Spans Export Trace Metrics Drain AdminEndpoint AdminTheorems Filters FilterTheorems.
From S2P Require Import Proxy ProxyTheorems PoolFacts Names Labels Published Effects Lifecycle Service Observed.
Local Open Scope string_scope.
Local Open Scope list_scope.
Local Open Scope N_scope.

(** ** Publications to other families *)

Definition only_cells (ms : list Cell) (ps : list Publication) : Prop := Forall (λ p, (target p).1 ∈ ms) ps.

Lemma proper_cells k ms ps : all_proper k ms ps → only_cells ms ps.
Proof. intros H. eapply Forall_impl; [exact H|]. by intros p (_ & _ & Hin). Qed.

Lemma foreign ms ps m ls v : only_cells ms ps → m ∉ ms → after_all ps (m, ls) v = v.
Proof.
  intros H Hm. apply after_all_other. eapply Forall_impl; [exact H|]. intros p Hp E. apply Hm.
  cbn beta in Hp. by rewrite E in Hp.
Qed.

Lemma after_all_cons p ps t v : after_all (p :: ps) t v = after_all ps t (after p t v).
Proof. done. Qed.

Lemma only_cells_weaken ms ms' ps : ms ⊆ ms' → only_cells ms ps → only_cells ms' ps.
Proof. intros Hs H. eapply Forall_impl; [exact H|]. intros p. apply Hs. Qed.

Lemma only_cells_app ms ps qs : only_cells ms ps → only_cells ms qs → only_cells ms (ps ++ qs).
Proof. intros. by apply Forall_app. Qed.

Lemma only_cells_join {A} ms (f : A → list Publication) l : (∀ a, a ∈ l → only_cells ms (f a)) → only_cells ms (mjoin (f <$> l)).
Proof.
  induction l as [|a l IH]; intros H; [constructor|]. apply only_cells_app; [apply H; by left|]. apply IH. intros b Hb. apply H. by right.
Qed.

(** The publications written out, one at a time. *)
Ltac each_cell := unfold only_cells; repeat (constructor; [decided|]); constructor.

Section Cells.
Context {Sem : Type} `{S : !Semaphore Sem} {M : Matching}.
Implicit Types (c : Ctx (M := M)) (l : Live (Sem := Sem) (M := M)).

Lemma limiter_only name (x : Limiter Sem) : only_cells limiter_cells (publish_limiter name x).
Proof. each_cell. Qed.
Lemma occupancy_only name (x : Limiter Sem) : only_cells limiter_cells (publish_occupancy name x).
Proof. each_cell. Qed.
Lemma tier_only p k (h : Heap Sem) : only_cells limiter_cells (publish_tier_state p k h).
Proof. unfold publish_tier_state. destruct (tier_limiter k p); [apply limiter_only|constructor]. Qed.

Lemma release_only c l : only_cells upstream_cells (release_published c l).
Proof. unfold release_published. destruct (origin_slot _); [|constructor]. destruct (upstream (attempt c)); [each_cell|constructor]. Qed.

Lemma on_admission_only progress route k c : only_cells admission_cells (on_admission_published (Sem := Sem) progress route k c).
Proof.
  assert (limiter_cells ⊆ admission_cells) as Hs by (unfold admission_cells; set_solver).
  unfold on_admission_published. destruct progress as [o h|]; [|constructor]. repeat apply only_cells_app.
  - eapply only_cells_weaken, limiter_only. exact Hs.
  - destruct route; [|constructor]. eapply only_cells_weaken, limiter_only. exact Hs.
  - eapply only_cells_weaken, tier_only. exact Hs.
  - destruct o; each_cell.
Qed.

Lemma spans_only spans x : only_cells [SPANS] (offered_published spans x).
Proof. destruct x; [|constructor]. eapply proper_cells, (spans_proper (mkKnown [] [])). Qed.

(** What the end of a request publishes, in five parts. *)
Lemma logging_split record x c l :
  only_cells [SPANS] record →
  ∃ front back, logging_published record x c l =
    front ++ [spool_bytes (match spool (holds c) with Some s => (release_all s (AdminEndpoint.spool l)).2 | None => AdminEndpoint.spool l end)]
    ++ cache_gauges (AdminEndpoint.store l)
    ++ match upgrade_permit (holds c) with Some u => [upgrades_active (Limiter.release u (upgrades l))] | None => [] end
    ++ back ++ release_published c (drop_permit c l).2
  ∧ only_cells [CACHE; ORIGIN_LATENCY; SPANS] front ∧ only_cells limiter_cells back.
Proof.
  intros Hr. unfold logging_published. destruct (drop_permit c l) as [c1 l1]. destruct (route_of c l1) as [route [k h]].
  cbn [snd].
  exists ([Inc CACHE [route_label (routing c); cache_status (phase x) (routing c) (shed (holds c))] 1] ++ origin_latency x c ++ record).
  exists (publish_occupancy "global" (cell h (global k))
    ++ match route with Some n => publish_occupancy (Limiter.name (cell h n)) (cell h n) | None => [] end
    ++ publish_tier_state (priority (routing c)) k h).
  split_and!.
  - by rewrite <-!app_assoc.
  - repeat apply only_cells_app; [each_cell| |eapply only_cells_weaken; [|exact Hr]; set_solver].
    unfold origin_latency. destruct (origin_finished_ms _); [each_cell|]. destruct (origin_started _); [each_cell|constructor].
  - repeat apply only_cells_app; [apply occupancy_only|destruct route; [apply occupancy_only|constructor]|apply tier_only].
Qed.
End Cells.

(** ** The gauges without labels *)

(** A spool never moves its budget's limit. *)
Lemma offer_limit chunk eos sp b : BodySpool.limit (offer chunk eos sp b).2 = BodySpool.limit b.
Proof.
  unfold offer. destruct (gave_up sp); [done|]. cbv zeta. destruct (0 <? _); [|done]. destruct (_ <? _); [done|].
  unfold ensure_reserved, BodySpool.reserve. destruct (_ <=? reserved sp); [done|]. cbv zeta.
  destruct (checked_add _ _); [|done]. by destruct (_ <=? BodySpool.limit b).
Qed.

Section Gauges.
Context {Sem : Type} `{S : !Semaphore Sem} {M : Matching}.
Implicit Types (c : Ctx (M := M)) (l : Live (Sem := Sem) (M := M)).

(** What each should show; and the counter of evictions. *)
Definition gauge l (m : Cell) : option Z :=
  match m with
  | UPGRADES_ACTIVE => Some (as_i64 (in_use (upgrades l)))
  | SPOOL_BYTES => Some (as_i64 (used (AdminEndpoint.spool l)))
  | SPOOL_MAX_BYTES => Some (to_i64 (BodySpool.limit (AdminEndpoint.spool l)))
  | CACHE_MAX_BYTES => Some (to_i64 (max_bytes (AdminEndpoint.store l)))
  | DRAINING => Some (flag (draining (AdminEndpoint.drain l)))
  | CONFIG_GENERATION => Some (to_i64 (p_generation M (AdminEndpoint.policy l)))
  | CONFIG_FINGERPRINT => Some (to_i64 (p_fingerprint M (AdminEndpoint.policy l)))
  | CACHE_EVICTED => Some (Z.of_N (evicted (AdminEndpoint.store l) mod two64))
  | _ => None
  end.
Definition gauge_cells : list Cell :=
  [UPGRADES_ACTIVE; SPOOL_BYTES; SPOOL_MAX_BYTES; CACHE_MAX_BYTES; DRAINING; CONFIG_GENERATION; CONFIG_FINGERPRINT; CACHE_EVICTED].

Lemma gauge_cell l m v : gauge l m = Some v → m ∈ gauge_cells.
Proof. destruct m; try discriminate; intros _; decided. Qed.

(** From showing the truth of [l], the publications lead to that of [l']. *)
Definition follows l (ps : list Publication) l' : Prop :=
  ∀ m v, gauge l m = Some v → ∃ v', gauge l' m = Some v' ∧ after_all ps (m, []) (Some v) = Some v'.

Lemma follows_app l1 ps l2 qs l3 : follows l1 ps l2 → follows l2 qs l3 → follows l1 (ps ++ qs) l3.
Proof.
  intros H1 H2 m v Hv. destruct (H1 m v Hv) as (v1 & G1 & E1). destruct (H2 m v1 G1) as (v2 & G2 & E2).
  exists v2. by rewrite after_all_app, E1.
Qed.

(** Nothing of it changed, and nothing of it was published. *)
Lemma follows_quiet ms l ps l' :
  only_cells ms ps → forallb (λ m, bool_decide (m ∉ gauge_cells)) ms = true → (∀ m, gauge l' m = gauge l m) → follows l ps l'.
Proof.
  intros Hc Hms Hg m v Hv. exists v. split; [by rewrite Hg|]. apply (foreign ms); [done|]. intros Hin.
  apply list_elem_of_In in Hin. apply (proj1 (forallb_forall _ _) Hms) in Hin. apply bool_decide_eq_true in Hin.
  by apply Hin, (gauge_cell l m v).
Qed.

Lemma follows_none l l' : (∀ m, gauge l' m = gauge l m) → follows l [] l'.
Proof. intros H. by apply (follows_quiet []); [constructor|..]. Qed.

(** One gauge changed, and was published. *)
Lemma follows_put m v l l' : gauge l' m = Some v → (∀ m', m' ≠ m → gauge l' m' = gauge l m') → follows l [Put m [] v] l'.
Proof.
  intros Hm Ho m' v' Hv. unfold after_all, after. cbn [foldl target]. destruct (decide (m' = m)) as [->|Hne].
  - exists v. by rewrite decide_True.
  - exists v'. rewrite decide_False by congruence. by rewrite Ho.
Qed.

(** What the gauges read stayed. *)
Lemma gauges_same l l' :
  in_use (upgrades l') = in_use (upgrades l) → AdminEndpoint.spool l' = AdminEndpoint.spool l →
  max_bytes (AdminEndpoint.store l') = max_bytes (AdminEndpoint.store l) → evicted (AdminEndpoint.store l') = evicted (AdminEndpoint.store l) →
  AdminEndpoint.drain l' = AdminEndpoint.drain l → AdminEndpoint.policy l' = AdminEndpoint.policy l → ∀ m, gauge l' m = gauge l m.
Proof. intros E1 E2 E3 E4 E5 E6 m. destruct m; cbn [gauge]; by rewrite ?E1, ?E2, ?E3, ?E4, ?E5, ?E6. Qed.

Lemma gauges_calm l l' :
  calm l l' → AdminEndpoint.spool l' = AdminEndpoint.spool l → in_use (upgrades l') = in_use (upgrades l) → ∀ m, gauge l' m = gauge l m.
Proof. intros [E1 E2 E3] E4 E5. apply gauges_same; congruence. Qed.

Lemma gauges_origin l l' : origin_only l l' → ∀ m, gauge l' m = gauge l m.
Proof. intros (H1 & _ & H3 & H4). apply gauges_calm; [done|done|by rewrite H4]. Qed.

Lemma admit_follows now ph c l :
  match proxy_upstream_filter now ph c l with
  | Proceed _ l' | Answered _ _ l' | AwaitAdmission _ _ l' => follows l (proxy_upstream_filter_published now ph c l) l'
  | AwaitUpgrade _ _ _ _ => True
  end.
Proof.
  pose proof (admit_effect now ph c l) as Hx. revert Hx. unfold proxy_upstream_filter, proxy_upstream_filter_published. cbv zeta.
  fold (route_of c l).
  destruct (match ph with PhaseLockTimeout => true | _ => false end && _); [intros _; by apply follows_none|].
  destruct (bool_decide (class (routing c) = Upgrade)).
  { intros Hx. destruct (acquire_start 1 (upgrades l)) as [w x|why x|t w x] eqn:Ea; [| |done].
    - apply (follows_app l [Inc UPGRADES _ _] l); [by eapply (follows_quiet [UPGRADES]); [each_cell|..]|].
      apply follows_put; [done|]. intros m Hm. by destruct m.
    - unfold acquire_start in Ea. eapply (follows_quiet [UPGRADES]); [each_cell|done|].
      cbn [settled_effect] in Hx. destruct Hx as (H1 & _ & H3 & _). apply gauges_calm; [done|done|]. cbn [upgrades with_upgrades].
      destruct (try_acquire_many _ _); [done|]. destruct (_ =? 0); [by injection Ea as _ <-|].
      destruct (_ <=? _); [by injection Ea as _ <-|by destruct (acquire_many _ _)]. }
  destruct (bool_decide _); [intros _; by eapply (follows_quiet [ADMISSION]); [each_cell|..]|].
  destruct (route_of c l) as [route [k h]]. intros Hx.
  destruct (admit_request _ _ _ _ _ _ _) as [[ps| |why] h'|q h'];
    (eapply (follows_quiet admission_cells); [apply on_admission_only|done|]); cbn [settled_effect] in Hx; destruct Hx as (H1 & _ & H3 & _);
    by apply gauges_calm.
Qed.

Lemma resume_follows now p w c route l :
  match admission_resumed now p w c l with
  | Proceed _ l' | Answered _ _ l' | AwaitAdmission _ _ l' =>
      follows l (on_admission_published (admit_resume now p w (heap l)) route (ctl l) c) l'
  | AwaitUpgrade _ _ _ _ => True
  end.
Proof.
  pose proof (resume_effect now p w c l) as Hx. pose proof (resume_upgrades now p w c l) as Hu. revert Hx Hu.
  unfold admission_resumed. destruct (on_admission (admit_resume now p w (heap l)) (ctl l) c l); [..|done]; intros (H1 & _ & H3 & _) Hu;
    (eapply (follows_quiet admission_cells); [apply on_admission_only|done|]); apply gauges_calm; by rewrite ?Hu.
Qed.

Lemma outcome_only ms ok kd c l : only_cells outcome_cells (record_origin_outcome_published ms ok kd c l).
Proof.
  unfold record_origin_outcome_published. destruct (outcome_recorded _); [constructor|].
  destruct (origin_slot _); [|constructor]. destruct (upstream _); [|constructor]. cbv zeta. repeat apply only_cells_app.
  - destruct (negb ok); each_cell.
  - destruct (_ && _); each_cell.
  - each_cell.
Qed.

Lemma retry_only ms read method c l : only_cells retry_cells (decide_retry_published ms read method c l).
Proof. unfold decide_retry_published. destruct (negb _); [constructor|]. destruct (decide_retry _ _ _ _). each_cell. Qed.

Lemma failed_only ms read method kd c l (again : bool) :
  only_cells failed_cells
    (record_origin_outcome_published ms false kd c l
     ++ if again then let '(c, l) := record_origin_outcome ms false c l in decide_retry_published ms read method c l else []).
Proof.
  apply only_cells_app; [eapply only_cells_weaken, outcome_only; unfold failed_cells; set_solver|].
  destruct again; [|constructor]. destruct (record_origin_outcome ms false c l). eapply only_cells_weaken, retry_only. unfold failed_cells. set_solver.
Qed.

Lemma peer_only ms path c l : only_cells peer_cells (upstream_peer_published ms path c l).
Proof.
  assert (upstream_cells ⊆ peer_cells) as Hs by (unfold peer_cells; set_solver).
  unfold upstream_peer_published. destruct (select_at path ms (upstreams l)) as [[sel|] pool]; [|constructor]. cbv zeta.
  destruct (socket_for _ _) as [[so|] b]; [|constructor]. repeat apply only_cells_app.
  - eapply only_cells_weaken, release_only. exact Hs.
  - each_cell.
  - each_cell.
Qed.

Lemma response_only now ms status c l : only_cells response_cells (upstream_response_filter_published now ms status c l).
Proof.
  unfold upstream_response_filter_published. cbv zeta.
  destruct (origin_slot (attempt c)) as [g|]; [destruct (origin_started (attempt c)); [destruct (upstream (attempt c))|]|];
    (apply only_cells_app; [first [each_cell|constructor]|]);
    (eapply only_cells_weaken, outcome_only; unfold response_cells; set_solver).
Qed.

Lemma body_follows up body eos c l r c' l' :
  response_body_filter up body eos c l = (r, c', l') → follows l (response_body_filter_published up body eos c l) l'.
Proof.
  unfold response_body_filter, response_body_filter_published. destruct (spool (holds c)) as [sp|]; [|intros [= _ _ <-]; by apply follows_none].
  destruct up; [intros [= _ _ <-]; by apply follows_none|].
  assert (BodySpool.limit (offer body eos sp (AdminEndpoint.spool l)).2 = BodySpool.limit (AdminEndpoint.spool l)) as Hl by apply offer_limit.
  destruct (offer body eos sp (AdminEndpoint.spool l)) as [[out sp'] b]. cbn [snd] in Hl. intros [= _ _ <-].
  apply (follows_app l _ l).
  - apply (follows_quiet [SPOOL]); [destruct (_ && _); each_cell|done|done].
  - apply follows_put; [done|]. intros m Hm. destruct m; try done. cbn [gauge]. cbn [AdminEndpoint.spool with_budget]. by rewrite Hl.
Qed.

Lemma logging_follows x exporting record c l line spans c' l' :
  only_cells [SPANS] record → logging exporting x c l = (line, spans, c', l') → follows l (logging_published record x c l) l'.
Proof.
  intros Hr E. pose proof (logging_effect exporting x c l) as Hx. rewrite E in Hx. destruct Hx as ([E1 E2 E3] & _ & E4 & E5 & _).
  destruct (logging_split record x c l Hr) as (front & back & -> & Hf & Hb).
  set (b := match spool (holds c) with Some s => _ | None => _ end) in *.
  assert (BodySpool.limit b = BodySpool.limit (AdminEndpoint.spool l)) as Hl.
  { subst b. destruct (spool (holds c)) as [sp|]; [|done]. unfold release_all. by destruct (_ <? _). }
  apply (follows_app l front l); [by apply (follows_quiet [CACHE; ORIGIN_LATENCY; SPANS])|].
  set (l1 := with_budget b l). apply (follows_app l [spool_bytes b] l1).
  { apply follows_put; [done|]. intros m Hm. destruct m; try done. cbn [gauge]. cbn [AdminEndpoint.spool l1 with_budget]. by rewrite Hl. }
  apply (follows_app l1 (cache_gauges (AdminEndpoint.store l)) l1).
  { by eapply (follows_quiet [CACHE_BYTES; CACHE_ENTRIES; CACHE_TAGS]); [each_cell|..]. }
  apply (follows_app l1 _ l').
  - destruct (upgrade_permit (holds c)) as [u|].
    + apply follows_put; [cbn [gauge]; by rewrite E5|]. intros m Hm.
      destruct m; try done; cbn [gauge]; rewrite ?E1, ?E2, ?E3, ?E4; done.
    + apply follows_none, gauges_same; try done; by rewrite ?E1, ?E2, ?E3, ?E4, ?E5.
  - apply (follows_quiet (limiter_cells ++ upstream_cells)); [|done|done].
    apply only_cells_app; [eapply only_cells_weaken; [|exact Hb]; set_solver|].
    eapply only_cells_weaken, release_only. set_solver.
Qed.
End Gauges.

(** ** Every event publishes what it changed *)

Section Truth.
Context {Sem : Type} `{S : !Semaphore Sem} {M : Matching}.
Context {Meta : Type} (serialize : Meta → option BinaryMeta) (deserialize : BinaryMeta → option Meta)
  (has_field : Meta → string → bool) (field_text : Meta → string → option string).
Context (P : Platform) (F : Files).
Context (VERSION : string) (features : list string) (percent_decode : string → option string).
Implicit Types (s : Service Sem M).

Abbreviation event := (Service.event serialize deserialize has_field field_text P F VERSION features percent_decode).

Lemma gauges_pool p (l : Live (Sem := Sem) (M := M)) m : gauge (with_pool p l) m = gauge l m.
Proof. by destruct m. Qed.

(** The evictions of a step are counted. *)
Lemma evicted_follows (l : Live (Sem := Sem) (M := M)) st :
  max_bytes st = max_bytes (AdminEndpoint.store l) →
  follows l (evicted_published (AdminEndpoint.store l) st) (with_store st l).
Proof.
  intros Hm m v Hv. destruct (decide (m = CACHE_EVICTED)) as [->|Hne].
  - exists (Z.of_N (evicted st mod two64)). split; [done|]. injection Hv as <-. unfold evicted_published, wrapping_sub.
    set (a := evicted (AdminEndpoint.store l)). set (n := (evicted st + _) mod two64).
    assert (∀ k a, after_all (replicate k (Inc CACHE_EVICTED [] 1)) (CACHE_EVICTED, []) (Some (Z.of_N (a mod two64)))
      = Some (Z.of_N ((a + N.of_nat k) mod two64))) as Hk.
    { induction k as [|k IH]; intros x; [by rewrite N.add_0_r|].
      change (replicate (Datatypes.S k) ?y) with (y :: replicate k y). rewrite after_all_cons.
      unfold after. rewrite decide_True by done. unfold counted. cbn [default Datatypes.id].
      replace ((Z.of_N (x mod two64) + Z.of_N 1) mod Z.of_N two64)%Z with (Z.of_N ((x + 1) mod two64)).
      2: { rewrite <-N2Z.inj_add, <-N2Z.inj_mod. f_equal. by rewrite N.Div0.add_mod_idemp_l. }
      rewrite IH. do 3 f_equal. lia. }
    rewrite Hk, N2Nat.id. do 2 f_equal. subst n. rewrite N.Div0.add_mod_idemp_r.
    assert (a mod two64 < two64) by (apply N.mod_lt; done).
    assert (a = two64 * (a / two64) + a mod two64) as Ha by (apply N.div_mod; done).
    replace (a + (evicted st + (two64 - a mod two64))) with (evicted st + (a / two64 + 1) * two64) by lia.
    apply N.Div0.mod_add.
  - exists v. split; [rewrite <-Hv; destruct m; try done; cbn [gauge]; cbn [AdminEndpoint.store with_store]; by rewrite Hm|].
    apply (foreign [CACHE_EVICTED]); [|set_solver]. unfold evicted_published, only_cells. apply Forall_replicate. decided.
Qed.

Lemma event_follows s ps s' :
  orderly s → event s ps s' → follows (Service.world s) ps (Service.world s').
Proof.
  intros Ho Hev. pose proof Ho as [[_ Hnum] _ _ _ _].
  assert (∀ ops st, max_bytes (purges ops st) = max_bytes st ∧ evicted (purges ops st) = evicted st) as Hpurges.
  { intros ops. induction ops as [|op ops IH]; intros st; [done|].
    change (purges (op :: ops) st) with (purges ops (run_purge op st)). destruct (IH (run_purge op st)) as [-> ->].
    split; [|apply purge_evicted]. by apply (run_purge_stable (λ st', max_bytes st' = max_bytes st)). }
  destruct Hev.
  - by apply follows_none.
  - by apply follows_none.
  - by apply follows_none.
  - unfold request_filter_published. destruct (request_filter _ _) as [r' refused'].
    apply (follows_quiet [REQUESTS; UPGRADES; REUSE_ELIGIBLE]); [|done|done].
    destruct refused'; [|destruct (cache_active r')]; each_cell.
  - pose proof (admit_follows now ph c (Service.world s)) as Hx.
    match goal with E : placed ?a _ _ _ _ = _ |- _ => by destruct a; [injection E as <-..|discriminate E] end.
  - pose proof (resume_follows now p w c route (Service.world s)) as Hx.
    match goal with E : placed ?a _ _ _ _ = _ |- _ => by destruct a; [injection E as <-..|discriminate E] end.
  - destruct (abandon_effect p (Service.world s)) as (H1 & _ & H3 & _ & H5). apply follows_none, gauges_calm; [done|done|].
    cbn [Service.world with_world]. by rewrite H5.
  - pose proof (peer_effect now ms wall path fresh c (Service.world s) Hnum) as Hx.
    match goal with E : upstream_peer _ _ _ _ _ _ _ = _ |- _ => rewrite E in Hx end.
    eapply (follows_quiet peer_cells); [apply peer_only|done|]. apply gauges_origin, Hx.
  - pose proof (connect_effect ms method c (Service.world s)) as Hx.
    match goal with E : fail_to_connect _ _ _ _ = _ |- _ => rewrite E in Hx end.
    eapply (follows_quiet failed_cells); [exact (failed_only ms read method "connect" c (Service.world s) true)|done|]. apply gauges_origin, Hx.
  - pose proof (error_effect ms method dr reused truncated c (Service.world s)) as Hx.
    match goal with E : error_while_proxy _ _ _ _ _ _ _ = _ |- _ => rewrite E in Hx end.
    eapply (follows_quiet failed_cells); [apply failed_only|done|]. apply gauges_origin, Hx.
  - pose proof (response_effect now ms status c (Service.world s)) as Hx.
    match goal with E : upstream_response_filter _ _ _ _ _ = _ |- _ => rewrite E in Hx end.
    eapply (follows_quiet response_cells); [apply response_only|done|]. apply gauges_origin, Hx.
  - unfold response_cache_filter_published. eapply (follows_quiet [BYPASS_REASON]); [|done|done]. destruct (sharing _ _); [constructor..|each_cell].
  - pose proof (origin_body_effect now eos c (Service.world s)) as Hx.
    match goal with E : upstream_response_body_filter _ _ _ _ = _ |- _ => rewrite E in Hx end. destruct Hx as (H1 & _ & _ & H4 & H5 & _).
    eapply (follows_quiet upstream_cells); [|done|apply gauges_calm; [done|done|cbn [Service.world with_world]; by rewrite H5]].
    unfold upstream_response_body_filter_published. destruct (check_origin_deadline _ _ _); [|constructor]. destruct eos; [apply release_only|constructor].
  - by eapply body_follows.
  - eapply logging_follows; [apply spans_only|eassumption].
  - eapply (follows_quiet [UPSTREAM_HEALTHY]); [each_cell|done|]. intros m. apply gauges_pool.
  - eapply (follows_quiet [UPSTREAM_ADDRESSES]); [each_cell|done|]. intros m. apply gauges_pool.
  - apply (evicted_follows (Service.world s)). apply (steps_max serialize deserialize has_field field_text (cache_of s) [e] w').
    econstructor; [eassumption|constructor].
  - match goal with E : response _ _ _ _ _ _ _ = _ |- _ => apply response_world in E as [ops ->] end.
    eapply (follows_quiet purge_cells); [eapply proper_cells, (response_proper (mkKnown [] []))|done|].
    destruct (Hpurges ops (AdminEndpoint.store (Service.world s))) as [E1 E2]. by apply gauges_same.
  - apply follows_put; [done|]. intros m Hm. by destruct m.
  - match goal with E : Policy.reload _ _ _ = _ |- _ => apply reload_inv in E as (cfg & sn & _ & _ & Hb & R0 & R1 & R2 & R3 & Rs) end.
    destruct (resolved_configs _ _ _ _ Hb) as (_ & Hg & _).
    unfold reload_published. set (tail := [Put CONFIG_GENERATION _ _; _]). rewrite app_assoc.
    match goal with |- follows _ (?f ++ tail) _ => set (front := f) end.
    set (st := default (AdminEndpoint.store (Service.world s)) (Policy.store M s')).
    assert (max_bytes st = max_bytes (AdminEndpoint.store (Service.world s)) ∧ evicted st = evicted (AdminEndpoint.store (Service.world s))) as [E1 E2].
    { subst st. rewrite Rs. cbn [reloader_of Policy.store]. destruct (changed _ _ _); [|done]. exact (Hpurges [Everything] _). }
    apply (follows_app _ front (with_store st (Service.world s))).
    + apply (follows_quiet (CACHE_PURGED :: limiter_cells)); [|done|by apply gauges_same].
      apply only_cells_app.
      * apply only_cells_join. intros t _. each_cell.
      * match goal with |- only_cells _ (if ?b then _ else _) => destruct b; [|constructor] end.
        match goal with |- only_cells _ (match ?o with _ => _ end) => destruct o; [|constructor] end.
        cbv zeta. destruct (_ <? _); [each_cell|constructor].
    + intros m v Hv. destruct m; try discriminate Hv; cbn [gauge Service.world with_reload with_reloaded AdminEndpoint.policy AdminEndpoint.store AdminEndpoint.spool upgrades AdminEndpoint.drain] in *;
        (eexists; split; [reflexivity|]); try (rewrite <-Hv; reflexivity).
      subst tail. rewrite R1, Hg, R2, R0. reflexivity.
  - by apply follows_none.
  - eapply (follows_quiet [SPANS]); [eapply proper_cells, (exporter_proper (mkKnown [] []))|done|done].
Qed.
End Truth.

(** ** From the start *)

Section Start.
Context {Sem : Type} `{S : !Semaphore Sem} {laws : SemaphoreLaws Sem S} {M : Matching}.
Context (P : Platform).
Implicit Types (s : Service Sem M).

Lemma to_i64_usize n : to_i64 (to_usize n) = to_i64 n.
Proof.
  unfold to_i64, to_usize, clamp. f_equal. assert (I64_MAX <= USIZE_MAX) by (vm_compute; discriminate).
  rewrite <-N.min_assoc. f_equal.
Qed.

(** What a service starts with. *)
Lemma start_world dns path cfg h s :
  start dns path cfg h = Ok s →
  ∃ trust, run dns cfg h = Ok (trust, Service.world s) ∧ p_config M (AdminEndpoint.policy (Service.world s)) = cfg
  ∧ p_generation M (AdminEndpoint.policy (Service.world s)) = 1 ∧ start_pool dns cfg = Ok (upstreams (Service.world s))
  ∧ AdminEndpoint.store (Service.world s) = new_store (Config.cache cfg)
  ∧ AdminEndpoint.spool (Service.world s) = BodySpool.new_budget (as_usize (Schema.Spool.max_memory (Config.spool cfg)))
  ∧ AdminEndpoint.drain (Service.world s) = new_drain ∧ serving s = [] ∧ waiting s = [].
Proof.
  unfold start. intros Hs. apply bind_ok in Hs as (x & _ & Hs). apply bind_ok in Hs as ([trust l] & Hr & [= <-]). apply map_err_ok in Hr.
  exists trust. cbn [Service.world serving waiting]. split; [done|]. unfold run in Hr. apply bind_ok in Hr as (sn & Hb & Hr). apply map_err_ok in Hb.
  destruct (startup cfg h) as [k h']. apply bind_ok in Hr as (pool & Hp & Hr). apply map_err_ok in Hp, Hr.
  unfold new_harmost in Hr. apply bind_ok in Hr as (tr & _ & [= _ <-]). destruct (resolved_configs _ _ _ _ Hb) as (Hc & Hg & _).
  cbn [AdminEndpoint.policy upstreams AdminEndpoint.store AdminEndpoint.spool AdminEndpoint.drain]. by rewrite Hc.
Qed.

Definition backend_cells : list Cell := [UPSTREAM_HEALTHY; UPSTREAM_EJECTED; UPSTREAM_IN_FLIGHT; UPSTREAM_LATENCY_EWMA; UPSTREAM_ADDRESSES].

Lemma start_parts s :
  let l := Service.world s in
  ∃ front, start_published s = front ++ config_started (AdminEndpoint.policy l)
    ++ mjoin (backend_started (upstreams l) <$> backends (upstreams l)) ++ mjoin (resolved_published <$> backends (upstreams l))
  ∧ only_cells limiter_cells front.
Proof.
  eexists. split; [unfold start_published, startup_published; reflexivity|]. apply only_cells_join. intros t _. each_cell.
Qed.

Lemma start_gauges dns path cfg h s m v :
  validate (Sem := Sem) P cfg = Ok tt → typed cfg → next h = 0%nat → start dns path cfg h = Ok s →
  gauge (Service.world s) m = Some v → after_all (start_published s) (m, []) (initial m []) = Some v.
Proof.
  intros HV Ht Hz Hs. destruct (start_world _ _ _ _ _ Hs) as (trust & Hr & Hc & Hg & _ & Hst & Hsp & Hd & _).
  destruct (started_ok P _ _ _ _ _ HV Ht Hz Hr) as ([_ _ _ _ _ _ H7 H8 _] & _). cbn [Lifecycle.world running parked] in H7, H8.
  assert (in_use (upgrades (Service.world s)) = 0) as Hu.
  { pose proof (upgrades_exact _ _ H7 H8) as E. unfold in_use, saturating_sub. cbn in E. lia. }
  destruct (start_parts s) as (front & -> & Hf). set (pool := upstreams (Service.world s)).
  intros Hv. rewrite !after_all_app. pose proof (gauge_cell _ _ _ Hv) as Hin.
  rewrite (foreign limiter_cells front); [|done|].
  2: { intros Hx. revert Hin. unfold limiter_cells in Hx. rewrite !elem_of_cons, elem_of_nil in Hx. destruct Hx as [->|[->|[->|[]]]]; unfold gauge_cells; intros Hin; by repeat (apply elem_of_cons in Hin as [Hin|Hin]; [discriminate|]); apply elem_of_nil in Hin. }
  assert (m ∉ backend_cells) as Hnb.
  { unfold gauge_cells in Hin. repeat (apply elem_of_cons in Hin as [->|Hin]; [decided|]). by apply elem_of_nil in Hin. }
  assert (∀ A B w, only_cells backend_cells A → only_cells backend_cells B → after_all B (m, []) (after_all A (m, []) w) = w) as Hrest
    by (intros A B w HA HB; by rewrite (foreign backend_cells B), (foreign backend_cells A)).
  rewrite Hrest; [|apply only_cells_join; intros b _; each_cell..].
  destruct m; try discriminate Hv; injection Hv as <-; cbn [gauge config_started]; unfold after_all, after, initial; cbn;
    rewrite ?Hu, ?Hst, ?Hsp, ?Hd, ?Hg, ?Hc; try reflexivity.
  - f_equal. symmetry. apply to_i64_usize.
  - f_equal. symmetry. apply to_i64_usize.
Qed.
End Start.

(** ** Backend by backend *)

Section Backends.
Implicit Types (p : UpstreamPool) (v : Z).

(** What the gauges of the backend at [i] should show. *)
Definition backend_gauge p (i : nat) (m : Cell) : option Z :=
  match m with
  | UPSTREAM_HEALTHY => (λ x, flag (up x)) <$> shape p !! i
  | UPSTREAM_IN_FLIGHT => (λ x, to_i64 (load x)) <$> shape p !! i
  | UPSTREAM_LATENCY_EWMA => (λ x, to_i64 (pace x)) <$> shape p !! i
  | UPSTREAM_EJECTED => (λ x, flag (bool_decide (broken x = Open))) <$> shape p !! i
  | UPSTREAM_ADDRESSES => (λ b, to_i64 (N.of_nat (length (sockets b)))) <$> backends p !! i
  | _ => None
  end.

Lemma backend_cell p i m v : backend_gauge p i m = Some v → m ∈ backend_cells.
Proof. destruct m; try discriminate; intros _; decided. Qed.

(** From showing the truth of [p], the publications lead to that of [p']. *)
Definition tracks p (ps : list Publication) p' : Prop :=
  ∀ i a m v, places p !! i = Some (i, a) → backend_gauge p i m = Some v →
  ∃ v', backend_gauge p' i m = Some v' ∧ after_all ps (m, [a]) (Some v) = Some v'.

Lemma tracks_app p1 ps p2 qs p3 : places p2 = places p1 → tracks p1 ps p2 → tracks p2 qs p3 → tracks p1 (ps ++ qs) p3.
Proof.
  intros E H1 H2 i a m v Hi Hv. destruct (H1 i a m v Hi Hv) as (v1 & G1 & E1).
  destruct (H2 i a m v1 ltac:(by rewrite E) G1) as (v2 & G2 & E2). exists v2. by rewrite after_all_app, E1.
Qed.

(** What the gauges read of two pools is the same. *)
Definition looks_same p p' : Prop := shape p' = shape p ∧ sockets <$> backends p' = sockets <$> backends p.

Lemma looks_same_gauge p p' i m : looks_same p p' → backend_gauge p' i m = backend_gauge p i m.
Proof.
  intros [E1 E2]. destruct m; cbn [backend_gauge]; rewrite ?E1; try done.
  apply (f_equal (λ l : list (list SocketAddr), l !! i)) in E2. rewrite !list_lookup_fmap in E2.
  destruct (backends p' !! i), (backends p !! i); simpl in *; congruence.
Qed.

Lemma tracks_quiet ms p ps p' :
  only_cells ms ps → forallb (λ m, bool_decide (m ∉ backend_cells)) ms = true → looks_same p p' → tracks p ps p'.
Proof.
  intros Hc Hms Hg i a m v _ Hv. exists v. split; [by rewrite (looks_same_gauge p)|]. apply (foreign ms); [done|]. intros Hin.
  apply list_elem_of_In in Hin. apply (proj1 (forallb_forall _ _) Hms) in Hin. apply bool_decide_eq_true in Hin.
  by apply Hin, (backend_cell p i m v).
Qed.

Lemma tracks_none p p' : looks_same p p' → tracks p [] p'.
Proof. intros H. by apply (tracks_quiet []); [constructor|..]. Qed.

(** Publications to the gauges of one backend, after which they show [p']. *)
Lemma tracks_one p ps p' j a :
  NoDup (addresses p) → places p !! j = Some (j, a) →
  Forall (λ q, (target q).1 ∉ backend_cells ∨ (target q).2 = [a]) ps →
  (∀ i m, i ≠ j → backend_gauge p' i m = backend_gauge p i m) →
  (∀ m v, backend_gauge p j m = Some v → ∃ v', backend_gauge p' j m = Some v' ∧ after_all ps (m, [a]) (Some v) = Some v') →
  tracks p ps p'.
Proof.
  intros Hnd Hj Hps Ho Hown i b m v Hi Hv. destruct (decide (i = j)) as [->|Hne].
  - assert (b = a) as -> by congruence. by apply Hown.
  - exists v. split; [by rewrite Ho|]. apply after_all_other. eapply Forall_impl; [exact Hps|].
    intros q [Hq|Hq] E; rewrite E in Hq; cbn [fst snd] in Hq; [by apply Hq, (backend_cell p i m v)|].
    injection Hq as ->. apply Hne. apply (NoDup_lookup (addresses p) i j a Hnd); unfold addresses; by rewrite list_lookup_fmap, ?Hi, ?Hj.
Qed.

Lemma gauge_elsewhere i j f p m : i ≠ j → backend_gauge (update j f p) i m = backend_gauge p i m.
Proof. intros H. destruct m; cbn [backend_gauge]; rewrite ?shape_elsewhere by done; done. Qed.

(** Load and latency. *)
Lemma tracks_state p j a f :
  NoDup (addresses p) → places p !! j = Some (j, a) → (∀ x, healthy (f x) = healthy x) →
  tracks p (publish_backend_state j a (update j f p)) (update j f p).
Proof.
  intros Hnd Hj Hf. apply (tracks_one p _ _ j a); [done|done|repeat (constructor; [by right|]); constructor| |].
  - intros i m. apply gauge_elsewhere.
  - intros m v Hv. pose proof (shape_here j f p) as Es. unfold publish_backend_state, flights, latency, breaker_state.
    rewrite !states_update, !decide_True by done.
    destruct m; try discriminate Hv; cbn [backend_gauge] in *; unfold after_all, after; cbn [foldl target].
    + rewrite Es. unfold shape in Hv. rewrite list_lookup_fmap in Hv. destruct (states p !! j) as [x|]; [|done]. simpl in *.
      injection Hv as <-. exists (flag (healthy (f x))). by rewrite Hf.
    + by exists v.
    + rewrite Es. unfold shape in Hv. rewrite list_lookup_fmap in Hv. destruct (states p !! j) as [x|]; [|done]. simpl in *.
      rewrite !decide_True by done. by eexists.
    + rewrite Es. unfold shape in Hv. rewrite list_lookup_fmap in Hv. destruct (states p !! j) as [x|]; [|done]. simpl in *.
      rewrite !decide_True by done. by eexists.
    + rewrite Es. unfold shape in Hv. rewrite list_lookup_fmap in Hv. destruct (states p !! j) as [x|]; [|done]. simpl in *.
      rewrite !decide_True by done. by eexists.
Qed.
End Backends.

Section Tracking.
Context {Sem : Type} `{S : !Semaphore Sem} {M : Matching}.
Implicit Types (c : Ctx (M := M)) (l : Live (Sem := Sem) (M := M)).

Lemma release_tracks c l :
  NoDup (addresses (upstreams l)) → linked (places (upstreams l)) c →
  tracks (upstreams l) (release_published c l) (upstreams (release_origin_slot c l).2).
Proof.
  intros Hnd [_ Hl]. unfold release_published, release_origin_slot. destruct (origin_slot (attempt c)) as [g|]; [|by apply tracks_none].
  destruct (Hl g eq_refl) as (a & -> & Hp). by apply tracks_state.
Qed.

Lemma outcome_tracks ms ok kd c l :
  NoDup (addresses (upstreams l)) → linked (places (upstreams l)) c →
  tracks (upstreams l) (record_origin_outcome_published ms ok kd c l) (upstreams (record_origin_outcome ms ok c l).2).
Proof.
  intros Hnd [_ Hl]. unfold record_origin_outcome_published, record_origin_outcome.
  destruct (outcome_recorded _); [by apply tracks_none|]. destruct (origin_slot (attempt c)) as [g|]; [|by apply tracks_none].
  destruct (Hl g eq_refl) as (a & -> & Hp). cbv zeta. cbn [snd upstreams with_pool].
  apply (tracks_app _ _ (upstreams l)); [done|destruct (negb ok); [by apply (tracks_quiet [UPSTREAM_FAILURES]); [each_cell|..]|by apply tracks_none]|].
  apply (tracks_app _ _ (upstreams l)); [done|destruct (_ && _); [by apply (tracks_quiet [UPSTREAM_TRIPS]); [each_cell|..]|by apply tracks_none]|].
  apply (tracks_one _ _ _ (backend_id g) a); [done|done|constructor; [by right|constructor]| |].
  - intros i m. apply gauge_elsewhere.
  - intros m v Hv. unfold record_outcome. set (f := λ s : BackendState, _). pose proof (shape_here (backend_id g) f (upstreams l)) as Es.
    unfold breaker_state. rewrite states_update, decide_True by done.
    destruct m; try discriminate Hv; cbn [backend_gauge] in *; unfold after_all, after; cbn [foldl target]; rewrite ?Es;
      try (unfold shape in Hv; rewrite list_lookup_fmap in Hv; destruct (states (upstreams l) !! backend_id g) as [x|]; [|done]; simpl in *).
    + by exists v.
    + by exists v.
    + rewrite decide_True by done. by eexists.
    + by exists v.
    + by exists v.
Qed.

Lemma retry_tracks p ms read method c l : tracks p (decide_retry_published ms read method c l) p.
Proof. by eapply (tracks_quiet retry_cells); [apply retry_only|..]. Qed.

(** Both error hooks. *)
Lemma failed_tracks ms read method kd c l (again : bool) :
  NoDup (addresses (upstreams l)) → linked (places (upstreams l)) c →
  tracks (upstreams l)
    (record_origin_outcome_published ms false kd c l
     ++ if again then let '(c, l) := record_origin_outcome ms false c l in decide_retry_published ms read method c l else [])
    (upstreams (record_origin_outcome ms false c l).2).
Proof.
  intros Hnd Hl. eapply tracks_app; [|by apply outcome_tracks|].
  - pose proof (outcome_effect ms false c l) as H. destruct (record_origin_outcome ms false c l). destruct H as (_ & H & _).
    by apply backends_places.
  - destruct again; [|by apply tracks_none]. destruct (record_origin_outcome ms false c l). apply retry_tracks.
Qed.

Lemma response_tracks now ms status c l :
  NoDup (addresses (upstreams l)) → linked (places (upstreams l)) c →
  tracks (upstreams l) (upstream_response_filter_published now ms status c l) (upstreams (upstream_response_filter now ms status c l).2).
Proof.
  intros Hnd Hl. pose proof (response_effect now ms status c l) as Hx. destruct (upstream_response_filter now ms status c l) as [[r c'] l'].
  destruct Hx as (_ & Hx & _). cbn [snd]. rewrite Hx. unfold upstream_response_filter_published, heard. cbv zeta.
  destruct (origin_slot (attempt c)) as [g|] eqn:Eg; [|by apply (outcome_tracks ms)].
  destruct (origin_started (attempt c)) as [st|]; [|by apply (outcome_tracks ms)].
  destruct (proj2 Hl g Eg) as (a & Ea & Hp). rewrite Ea.
  set (l1 := with_pool _ l). eapply (tracks_app _ _ (upstreams l1)); [done|by apply tracks_state|].
  by apply (outcome_tracks ms _ _ c l1).
Qed.

Lemma peer_tracks now ms wall path fresh c l :
  numbered (upstreams l) → NoDup (addresses (upstreams l)) → linked (places (upstreams l)) c →
  tracks (upstreams l) (upstream_peer_published ms path c l) (upstreams (upstream_peer now ms wall path fresh c l).2).
Proof.
  intros Hn Hnd Hl. unfold upstream_peer_published, upstream_peer. pose proof (select_quiet path ms (upstreams l)) as Hq.
  destruct (select_at path ms (upstreams l)) as [[sel|] pool] eqn:Es.
  2: { destruct Hq as (E1 & E2 & _). apply tracks_none. cbn [snd upstreams with_pool]. split; [done|by rewrite E1]. }
  cbv zeta. set (key := if bool_decide _ then _ else _).
  pose proof (chosen_quiet path key ms (upstreams l) sel pool Hn Es) as (Hp & Hs & Hid & Hb & Hk).
  destruct (socket_for key (backend sel)) as [[so|] b]; cbn [snd] in *; [|by apply tracks_none; split].
  set (la := with_pool (set_backend b pool) l). set (lb := with_retry _ _).
  assert (places (upstreams la) = places (upstreams l)) as Hpa by exact Hp.
  assert (upstreams (release_origin_slot c lb).2 = upstreams (release_origin_slot c la).2) as Eu.
  { unfold release_origin_slot. by destruct (origin_slot (attempt c)). }
  pose proof (release_effect c la) as Hrel. pose proof (release_tracks c la) as Hrt.
  destruct (release_origin_slot c lb) as [c2 l2]. cbn [snd] in Eu.
  destruct (release_origin_slot c la) as [c3 l3]. cbn [snd] in *. destruct Hrel as (_&_&_&_&_& Hrel & _).
  assert (places (upstreams l3) = places (upstreams l)) as Hp3 by (by rewrite (backends_places _ _ Hrel)).
  apply (tracks_app _ [] (upstreams la)); [done|by apply tracks_none; split|].
  apply (tracks_app _ _ (upstreams l3)); [by rewrite Hpa| |].
  { apply Hrt; unfold addresses; by rewrite Hpa. }
  rewrite Eu. unfold enter_selected, enter_attempt. cbn [snd fst]. rewrite <-Hid.
  eapply tracks_app; [| |by eapply (tracks_quiet [ORIGIN_REQUESTS]); [each_cell|..]]; [done|].
  apply tracks_state; [unfold addresses; by rewrite Hp3|by rewrite Hp3|done].
Qed.

Lemma origin_body_tracks now eos c l :
  NoDup (addresses (upstreams l)) → linked (places (upstreams l)) c →
  tracks (upstreams l) (upstream_response_body_filter_published now eos c l) (upstreams (upstream_response_body_filter now eos c l).2).
Proof.
  intros Hnd Hl. unfold upstream_response_body_filter_published, upstream_response_body_filter.
  destruct (check_origin_deadline _ _ _) as [[]|]; [|by apply tracks_none]. destruct eos; [|by apply tracks_none].
  cbv zeta. set (c1 := with_attempt _ c). set (c2 := match permit _ with Some _ => _ | None => _ end).
  assert (origin_slot (attempt c2) = origin_slot (attempt c)) as G by (subst c2; by destruct (permit _)).
  pose proof (drop_permit_effect c2 l) as H. pose proof (drop_permit_effect c l) as K. destruct (drop_permit c2 l) as [c3 l3].
  destruct H as (_ & _ & _ & _ & _ & H6 & _ & H8 & _).
  destruct (drop_permit c l) as [c4 l4]. destruct K as (_ & _ & _ & _ & _ & K6 & _). cbn [snd].
  assert (upstreams (release_origin_slot c3 l3).2 = upstreams (release_origin_slot c l4).2) as Eu.
  { unfold release_origin_slot. rewrite H8, G. destruct (origin_slot (attempt c)); cbn [snd upstreams with_pool]; by rewrite H6, K6. }
  destruct (release_origin_slot c3 l3) as [c5 l5]. cbn [snd] in *. rewrite Eu, <-K6. apply release_tracks; by rewrite K6.
Qed.

Lemma logging_tracks record exporting x c l :
  only_cells [SPANS] record → NoDup (addresses (upstreams l)) → linked (places (upstreams l)) c →
  let '(_, _, _, l') := logging exporting x c l in tracks (upstreams l) (logging_published record x c l) (upstreams l').
Proof.
  intros Hr Hnd Hl. pose proof (logging_effect exporting x c l) as Hx. destruct (logging exporting x c l) as [[[line spans] c'] l'].
  destruct Hx as (_ & _ & _ & _ & ->). destruct (logging_split record x c l Hr) as (front & back & -> & Hf & Hb).
  apply (tracks_app _ _ (upstreams l)); [done|by apply (tracks_quiet [CACHE; ORIGIN_LATENCY; SPANS])|].
  apply (tracks_app _ _ (upstreams l)); [done|by apply (tracks_quiet [SPOOL_BYTES]); [each_cell|..]|].
  apply (tracks_app _ _ (upstreams l)); [done|by apply (tracks_quiet [CACHE_BYTES; CACHE_ENTRIES; CACHE_TAGS]); [each_cell|..]|].
  apply (tracks_app _ _ (upstreams l)); [done|by apply (tracks_quiet [UPGRADES_ACTIVE]); [destruct (upgrade_permit _); each_cell|..]|].
  apply (tracks_app _ _ (upstreams l)); [done|by apply (tracks_quiet limiter_cells)|].
  pose proof (drop_permit_effect c l) as K. destruct (drop_permit c l) as [c4 l4]. destruct K as (_ & _ & _ & _ & _ & K6 & _). cbn [snd].
  replace (upstreams (release_origin_slot c l).2) with (upstreams (release_origin_slot c l4).2).
  2: { unfold release_origin_slot. destruct (origin_slot (attempt c)); cbn [snd upstreams with_pool]; by rewrite K6. }
  rewrite <-K6. apply release_tracks; by rewrite K6.
Qed.

(** The health checker and the resolver. *)
Lemma health_tracks b verdict k p flip k' p' :
  NoDup (addresses p) → places p !! id b = Some (id b, address b) →
  Upstream.record (id b) verdict k p = Some (flip, k', p') → tracks p (health_published b p') p'.
Proof.
  intros Hnd Hp E. apply (tracks_one p _ _ (id b) (address b)); [done|done|constructor; [by right|constructor]| |].
  - intros i m Hne. destruct (record_pool _ _ _ _ _ _ _ E) as [R|R]; rewrite R; [done|]. by apply gauge_elsewhere.
  - intros m v Hv. unfold health_published, is_healthy.
    assert (∀ m', m' ≠ UPSTREAM_HEALTHY → backend_gauge p' (id b) m' = backend_gauge p (id b) m') as Hother.
    { intros m' Hm. destruct (record_pool _ _ _ _ _ _ _ E) as [R|R]; rewrite R; [done|].
      destruct m'; try done; cbn [backend_gauge]; unfold set_healthy; rewrite ?shape_here; unfold shape; rewrite ?list_lookup_fmap; by destruct (states p !! id b). }
    destruct (decide (m = UPSTREAM_HEALTHY)) as [->|Hm].
    + assert (is_Some (states p' !! id b)) as [x Hx].
      { cbn [backend_gauge] in Hv. unfold shape in Hv. rewrite list_lookup_fmap in Hv. destruct (states p !! id b) as [y|] eqn:Ey; [|done].
        destruct (record_pool _ _ _ _ _ _ _ E) as [R|R]; rewrite R; [by eexists|]. unfold set_healthy. rewrite states_update, decide_True, Ey by done. by eexists. }
      exists (flag (healthy x)). cbn [backend_gauge]. unfold shape. rewrite list_lookup_fmap, Hx.
      unfold after_all, after. cbn [foldl target]. by rewrite decide_True.
    + exists v. rewrite Hother by done. split; [done|]. unfold after_all, after. cbn [foldl target]. rewrite decide_False; [done|congruence].
Qed.

Lemma resolved_tracks b lookup p :
  numbered p → NoDup (addresses p) → b ∈ backends p →
  tracks p (resolved_published (refresh lookup b).2) (set_backend (refresh lookup b).2 p).
Proof.
  intros Hn Hnd Hb. pose proof (numbered_elem p b Hn Hb) as Hi. destruct (refresh_same lookup b) as (R1 & R2 & _).
  assert (places p !! id b = Some (id b, address b)) as Hp by (unfold places; by rewrite list_lookup_fmap, Hi).
  set (b' := (refresh lookup b).2) in *.
  apply (tracks_one p _ _ (id b) (address b)); [done|done|constructor; [right; cbn [target snd]; by rewrite R2|constructor]| |].
  - intros i m Hne. destruct m; try done. cbn [backend_gauge set_backend backends]. rewrite R1. by rewrite list_lookup_insert_ne.
  - intros m v Hv. unfold resolved_published, after_all, after. cbn [foldl target]. rewrite R2.
    destruct (decide (m = UPSTREAM_ADDRESSES)) as [->|Hm].
    + rewrite decide_True by done. cbn [backend_gauge set_backend backends]. rewrite R1, list_lookup_insert_eq.
      2: { by eapply lookup_lt_Some. }
      by eexists.
    + exists v. rewrite decide_False by congruence. by destruct m.
Qed.
End Tracking.

(** ** Whatever happens *)

Section Follow.
Context {Sem : Type} `{S : !Semaphore Sem} {laws : SemaphoreLaws Sem S} {M : Matching}.
Context {Meta : Type} (serialize : Meta → option BinaryMeta) (deserialize : BinaryMeta → option Meta)
  (has_field : Meta → string → bool) (field_text : Meta → string → option string).
Context (P : Platform) (F : Files).
Context (VERSION : string) (features : list string) (percent_decode : string → option string).
Context {Reg : Type} `{PR : Prometheus Reg} `{!PrometheusLaws Reg}.
Implicit Types (s : Service Sem M) (t : Telemetry Reg).

Abbreviation event := (Service.event serialize deserialize has_field field_text P F VERSION features percent_decode).
Abbreviation observed := (Observed.observed serialize deserialize has_field field_text P F VERSION features percent_decode).

Lemma event_tracks s ps s' :
  orderly s → NoDup (addresses (upstreams (Service.world s))) → event s ps s' →
  tracks (upstreams (Service.world s)) ps (upstreams (Service.world s')).
Proof.
  intros Ho Hnd Hev. pose proof Ho as [[_ Hnum] _ _ _ _].
  assert (∀ ph c rs, serving s = (ph, c) :: rs → linked (places (upstreams (Service.world s))) c) as Hhead.
  { intros ph c rs E. by destruct (head_belongs _ _ _ _ Ho E) as [(_ & _ & ?) _]. }
  destruct Hev; try (match goal with E : serving s = (_, _) :: _ |- _ => pose proof (Hhead _ _ _ E) as Hl end);
    try (by apply tracks_none).
  - unfold request_filter_published. destruct (request_filter _ _) as [r' refused'].
    apply (tracks_quiet [REQUESTS; UPGRADES; REUSE_ELIGIBLE]); [|done|done].
    destruct refused'; [|destruct (cache_active r')]; each_cell.
  - pose proof (admit_effect now ph c (Service.world s)) as Hx.
    assert (only_cells (UPGRADES :: UPGRADES_ACTIVE :: admission_cells) (proxy_upstream_filter_published now ph c (Service.world s))) as Hc.
    { eapply (proper_cells (known s)), admit_proper; [|by destruct Ho]. by destruct (head_belongs _ _ _ _ Ho ltac:(eassumption)) as [(_ & ? & _) _]. }
    match goal with E : placed ?a _ _ _ _ = _ |- _ => destruct a; [injection E as <-..|discriminate E] end;
      destruct Hx as (_ & _ & _ & Hu & _); (apply (tracks_quiet _ _ _ _ Hc); [done|]); cbn [Service.world with_world]; by rewrite Hu.
  - pose proof (resume_effect now p w c (Service.world s)) as Hx.
    match goal with E : placed ?a _ _ _ _ = _ |- _ => destruct a; [injection E as <-..|discriminate E] end;
      destruct Hx as (_ & _ & _ & Hu & _); (eapply (tracks_quiet admission_cells); [apply on_admission_only|done|]); cbn [Service.world with_world]; by rewrite Hu.
  - pose proof (peer_tracks now ms wall path fresh c (Service.world s) Hnum Hnd Hl) as Hx.
    match goal with E : upstream_peer _ _ _ _ _ _ _ = _ |- _ => by rewrite E in Hx end.
  - pose proof (failed_tracks ms read method "connect" c (Service.world s) true Hnd Hl) as Hx.
    pose proof (connect_effect ms method c (Service.world s)) as Hy.
    match goal with E : fail_to_connect _ _ _ _ = _ |- _ => rewrite E in Hy end. destruct Hy as (_ & Hy & _).
    cbn [Service.world with_world]. by rewrite Hy.
  - pose proof (failed_tracks ms read method "proxy" c (Service.world s) (dr (reused && negb truncated)) Hnd Hl) as Hx.
    pose proof (error_effect ms method dr reused truncated c (Service.world s)) as Hy.
    match goal with E : error_while_proxy _ _ _ _ _ _ _ = _ |- _ => rewrite E in Hy end. destruct Hy as (_ & Hy & _).
    cbn [Service.world with_world]. by rewrite Hy.
  - pose proof (response_tracks now ms status c (Service.world s) Hnd Hl) as Hx.
    match goal with E : upstream_response_filter _ _ _ _ _ = _ |- _ => by rewrite E in Hx end.
  - unfold response_cache_filter_published. eapply (tracks_quiet [BYPASS_REASON]); [|done|done]. destruct (sharing _ _); [constructor..|each_cell].
  - pose proof (origin_body_tracks now eos c (Service.world s) Hnd Hl) as Hx.
    match goal with E : upstream_response_body_filter _ _ _ _ = _ |- _ => by rewrite E in Hx end.
  - pose proof (body_effect up body eos c (Service.world s)) as Hx.
    match goal with E : response_body_filter _ _ _ _ _ = _ |- _ => rewrite E in Hx end. destruct Hx as (_ & _ & _ & Hu & _).
    eapply (tracks_quiet body_cells); [|done|cbn [Service.world with_world]; by rewrite Hu].
    eapply (proper_cells (known s)), body_proper. by destruct (head_belongs _ _ _ _ Ho ltac:(eassumption)) as [(_ & ? & _) _].
  - match goal with E : logging ?e _ _ _ = (_, ?spans, _, _) |- _ =>
      pose proof (logging_tracks (offered_published spans (exporter s)) e x c (Service.world s) (spans_only _ _) Hnd Hl) as Hx; by rewrite E in Hx end.
  - eapply health_tracks; [done| |eassumption]. pose proof (numbered_elem _ b Hnum ltac:(eassumption)) as Hi.
    unfold places. by rewrite list_lookup_fmap, Hi.
  - subst b'. by apply resolved_tracks.
  - eapply (tracks_quiet [CACHE_EVICTED]); [eapply proper_cells, (evicted_proper (mkKnown [] []))|done|done].
  - match goal with E : response _ _ _ _ _ _ _ = _ |- _ => apply response_world in E as [ops ->] end.
    eapply (tracks_quiet purge_cells); [eapply proper_cells, (response_proper (mkKnown [] []))|done|done].
  - eapply (tracks_quiet [DRAINING]); [each_cell|done|done].
  - match goal with E : Policy.reload _ _ _ = _ |- _ => apply reload_inv in E as (cfg & sn & _ & _ & _ & _ & _ & _ & R2 & _) end.
    unfold apply_config in R2. cbn [reloader_of admission limiters] in R2.
    match type of R2 with apply_limits ?gm ?gq ?gt ?pr ?rs _ _ = _ =>
      pose proof (named_apply_limits gm gq gt pr rs _ _ (kept_named _ Ho)) as Hn; rewrite R2 in Hn end. destruct Hn as [_ N2].
    eapply (tracks_quiet reload_cells); [eapply (proper_cells (known s)), reload_proper; exact N2|done|done].
  - eapply (tracks_quiet [SPANS]); [eapply proper_cells, (exporter_proper (mkKnown [] []))|done|done].
Qed.

(** One block of publications per backend. *)
Lemma blocks_show (bs : list Backend) (f : Backend → list Publication) i b m v w :
  NoDup (address <$> bs) → bs !! i = Some b → (∀ b', Forall (λ q, (target q).2 = [address b']) (f b')) →
  (∀ w, after_all (f b) (m, [address b]) w = Some v) → after_all (mjoin (f <$> bs)) (m, [address b]) w = Some v.
Proof.
  intros Hnd Hi Hf Hb. revert i w Hnd Hi. induction bs as [|b0 bs IH]; intros i w Hnd Hi; [done|].
  rewrite fmap_cons in Hnd. apply NoDup_cons in Hnd as [Hn0 Hnd]. change (mjoin (f <$> b0 :: bs)) with (f b0 ++ mjoin (f <$> bs)). rewrite after_all_app.
  destruct i as [|i]; [|by apply (IH i)]. injection Hi as ->. rewrite Hb. apply after_all_other. apply Forall_forall.
  intros q (qs & Hq & (b' & -> & Hb')%list_elem_of_fmap)%list_elem_of_join E.
  apply (proj1 (Forall_forall _ _) (Hf b')) in Hq. rewrite E in Hq. injection Hq as Hq. apply Hn0. rewrite Hq. by apply list_elem_of_fmap_2.
Qed.

Lemma start_backends dns path cfg h s i a m v :
  start dns path cfg h = Ok s → NoDup (addresses (upstreams (Service.world s))) →
  places (upstreams (Service.world s)) !! i = Some (i, a) → backend_gauge (upstreams (Service.world s)) i m = Some v →
  after_all (start_published s) (m, [a]) (initial m [a]) = Some v.
Proof.
  intros Hs Hnd Hi Hv. destruct (start_world _ _ _ _ _ Hs) as (_ & _ & _ & _ & Hp & _). set (pool := upstreams (Service.world s)) in *.
  assert (∀ x, shape pool !! i = Some x → but_up x = (0, 0, Closed, 0)) as Hrest.
  { intros x Hx. unfold start_pool in Hp. apply bind_ok in Hp as (p0 & Hp0 & [= Hp]). destruct (new_places _ _ _ _ _ Hp0) as (_ & _ & Hv0).
    destruct (assume_healthy_places p0) as (_ & _ & Hb).
    assert (but_up <$> shape pool !! i = but_up <$> shape p0 !! i) as E.
    { rewrite <-!list_lookup_fmap. f_equal. destruct (Config.health cfg); [by rewrite <-Hp|]. by rewrite <-Hb, Hp. }
    rewrite Hx in E. destruct (shape p0 !! i) as [y|] eqn:Ey; [|done]. simpl in E. apply (inj Some) in E. rewrite E, (Hv0 _ _ Ey). done. }
  assert (∃ b, backends pool !! i = Some b ∧ id b = i ∧ address b = a) as (b & Hb & Hid & Ha).
  { unfold places in Hi. rewrite list_lookup_fmap in Hi. destruct (backends pool !! i) as [b|]; [|done]. exists b. injection Hi as ? ?. done. }
  assert (NoDup (address <$> backends pool)) as Hnd'.
  { unfold addresses, places in Hnd. by rewrite <-list_fmap_compose in Hnd. }
  destruct (start_parts s) as (front & -> & Hf). fold pool. rewrite !after_all_app. set (w := after_all (config_started _) _ _). clearbody w.
  subst a. pose proof (backend_cell _ _ _ _ Hv) as Hm. destruct (decide (m = UPSTREAM_ADDRESSES)) as [->|Hne].
  - apply (blocks_show _ resolved_published i); [done|done|intros b'; by repeat constructor|].
    intros w'. cbn [backend_gauge] in Hv. rewrite Hb in Hv. injection Hv as <-. unfold resolved_published, after_all, after. cbn [foldl target].
    by rewrite decide_True.
  - assert (∀ w, after_all (mjoin (resolved_published <$> backends pool)) (m, [address b]) w = w) as Hres.
    { intros w'. apply (foreign [UPSTREAM_ADDRESSES]); [apply only_cells_join; intros b' _; each_cell|set_solver]. }
    rewrite Hres. apply (blocks_show _ _ i); [done|done|intros b'; by repeat constructor|].
    intros w'. unfold backend_started, is_healthy. rewrite Hid. unfold after_all, after. cbn [foldl target].
    destruct (shape pool !! i) as [x|] eqn:Ex; [|by destruct m; cbn [backend_gauge] in Hv; rewrite ?Ex in Hv].
    specialize (Hrest x eq_refl). unfold but_up in Hrest. injection Hrest as E1 E2 E3 _. pose proof Ex as Ex'.
    unfold shape in Ex'. rewrite list_lookup_fmap in Ex'. destruct (states pool !! i) as [y|]; [|done]. injection Ex' as <-.
    destruct m; try discriminate Hv; cbn [backend_gauge] in Hv; rewrite ?Ex in Hv; simpl in Hv, E1, E2, E3; try done; injection Hv as <-;
      rewrite ?E1, ?E2, ?E3; by repeat first [rewrite decide_True by done|rewrite decide_False by congruence].
Qed.

Lemma observed_gauge s t m v : observed s t → gauge (Service.world s) m = Some v → shows t m [] = Some v.
Proof.
  intros Hob. revert m v. induction Hob as [dns path cfg h s t0 t HV Ht Hz Hs E0 E|s t ps s' t' Hob IH Hev E]; intros m v Hv.
  - destruct (starts s (start_orderly _ _ _ _ _ Hs)) as (t0' & t' & E0' & E' & _ & Hsw). assert (t' = t) as -> by congruence.
    rewrite Hsw, decide_False by (unfold seed; congruence). by eapply start_gauges.
  - destruct (observed_kept _ _ _ _ _ _ _ _ _ _ _ Hob) as [Ho _].
    rewrite (observed_event_shows _ _ _ _ _ _ _ _ _ _ _ _ _ _ Hob Hev E).
    assert (is_Some (gauge (Service.world s) m)) as [v0 Hv0] by (destruct m; try discriminate Hv; by eexists).
    destruct (event_follows _ _ _ _ _ _ _ _ _ _ _ _ Ho Hev m v0 Hv0) as (v1 & G1 & E1). rewrite (IH _ _ Hv0), E1. congruence.
Qed.

(** C20: The gauges of the process tell the truth, in every state a running
    service and its registry can be in together: the upgrades counted as active
    are those the limiter has given out, the spooled bytes and both byte limits
    are the budgets', the evictions counted are the store's, [draining] is
    whether the service drains, and the generation and fingerprint are those of
    the configuration in force. *)
Theorem gauges_tell_the_truth s t :
  observed s t →
  let l := Service.world s in
  shows t UPGRADES_ACTIVE [] = Some (as_i64 (in_use (upgrades l)))
  ∧ shows t SPOOL_BYTES [] = Some (as_i64 (used (AdminEndpoint.spool l)))
  ∧ shows t SPOOL_MAX_BYTES [] = Some (to_i64 (BodySpool.limit (AdminEndpoint.spool l)))
  ∧ shows t CACHE_MAX_BYTES [] = Some (to_i64 (max_bytes (AdminEndpoint.store l)))
  ∧ shows t CACHE_EVICTED [] = Some (Z.of_N (evicted (AdminEndpoint.store l) mod two64))
  ∧ shows t DRAINING [] = Some (flag (draining (AdminEndpoint.drain l)))
  ∧ shows t CONFIG_GENERATION [] = Some (to_i64 (p_generation M (AdminEndpoint.policy l)))
  ∧ shows t CONFIG_FINGERPRINT [] = Some (to_i64 (p_fingerprint M (AdminEndpoint.policy l))).
Proof. intros Hob. cbv zeta. split_and!; by apply (observed_gauge s). Qed.

(** Each backend has its state. *)
Lemma started_states dns cfg p i :
  start_pool dns cfg = Ok p → is_Some (places p !! i) → is_Some (shape p !! i).
Proof.
  intros Hp Hi. unfold start_pool in Hp. apply bind_ok in Hp as (p0 & Hp0 & [= Hp]).
  destruct (assume_healthy_places p0) as (E1 & _ & E2).
  assert (places p = places p0 ∧ (is_Some (shape p0 !! i) → is_Some (shape p !! i))) as [Ep Es].
  { destruct (Config.health cfg); subst p; [done|]. split; [done|]. intros [x Hx].
    apply (f_equal (λ l : list (N * N * BreakerState * N), l !! i)) in E2. rewrite !list_lookup_fmap, Hx in E2.
    by destruct (shape (assume_healthy p0) !! i). }
  apply Es. rewrite Ep in Hi. unfold Upstream.new in Hp0. apply bind_ok in Hp0 as (bs & _ & [= <-]).
  unfold places in Hi. unfold shape. cbn [backends states] in *. rewrite list_lookup_fmap in Hi. rewrite !list_lookup_fmap.
  destruct (bs !! i); [by eexists|by destruct Hi].
Qed.

Lemma observed_backend s t i a m :
  observed s t → NoDup (addresses (upstreams (Service.world s))) → places (upstreams (Service.world s)) !! i = Some (i, a) → m ∈ backend_cells →
  ∃ v, backend_gauge (upstreams (Service.world s)) i m = Some v ∧ shows t m [a] = Some v.
Proof.
  intros Hob. revert i a m. induction Hob as [dns path cfg h s t0 t HV Ht Hz Hs E0 E|s t ps s' t' Hob IH Hev E]; intros i a m Hnd Hi Hm.
  - destruct (starts s (start_orderly _ _ _ _ _ Hs)) as (t0' & t' & E0' & E' & _ & Hsw). assert (t' = t) as -> by congruence.
    destruct (start_world _ _ _ _ _ Hs) as (_ & _ & _ & _ & Hp & _).
    destruct (started_states dns cfg _ i Hp ltac:(by eexists)) as [x Hx].
    assert (is_Some (backend_gauge (upstreams (Service.world s)) i m)) as [v Hv].
    { unfold backend_cells in Hm. rewrite !elem_of_cons, elem_of_nil in Hm.
      destruct Hm as [->|[->|[->|[->|[->|[]]]]]]; cbn [backend_gauge]; rewrite ?Hx; try by eexists.
      unfold places in Hi. rewrite list_lookup_fmap in Hi. destruct (backends _ !! i); [by eexists|done]. }
    exists v. split; [done|]. rewrite Hsw, decide_False by (unfold seed; congruence). by eapply start_backends.
  - destruct (observed_kept _ _ _ _ _ _ _ _ _ _ _ Hob) as [Ho _].
    pose proof (keeps_places _ _ (proj2 (event_carried _ _ _ _ _ _ _ _ _ _ _ _ Ho Hev))) as Hpl.
    assert (NoDup (addresses (upstreams (Service.world s)))) as Hnd0 by (unfold addresses in *; by rewrite <-Hpl).
    rewrite Hpl in Hi. destruct (IH i a m Hnd0 Hi Hm) as (v & Hv & Hs).
    destruct (event_tracks _ _ _ Ho Hnd0 Hev i a m v Hi Hv) as (v1 & G1 & E1). exists v1. split; [done|].
    by rewrite (observed_event_shows _ _ _ _ _ _ _ _ _ _ _ _ _ _ Hob Hev E), Hs, E1.
Qed.

(** What a backend's gauge shows, read in its state. *)
Ltac read_gauge H :=
  let v := fresh "v" in let Hv := fresh "Hv" in
  destruct (H ltac:(decided)) as (v & Hv & ->); rewrite <-Hv; cbn [backend_gauge] in *; unfold shape in *;
  rewrite ?list_lookup_fmap in *; try (destruct (states _ !! _); [|discriminate Hv]).

(** C21: So do the gauges of each backend, if no two backends have one address:
    its requests in flight, its latency, whether its breaker has it ejected,
    whether it is healthy and how many addresses its name has are what the pool
    has of it, whatever was tried, retried, probed or resolved. *)
Theorem backend_gauges_tell_the_truth s t b :
  observed s t → NoDup (addresses (upstreams (Service.world s))) → b ∈ backends (upstreams (Service.world s)) →
  let p := upstreams (Service.world s) in
  shows t UPSTREAM_IN_FLIGHT [address b] = Some (to_i64 (flights p (id b)))
  ∧ shows t UPSTREAM_LATENCY_EWMA [address b] = Some (to_i64 (latency p (id b)))
  ∧ shows t UPSTREAM_EJECTED [address b] = Some (flag (bool_decide (breaker_state p (id b) = Open)))
  ∧ shows t UPSTREAM_HEALTHY [address b] = Some (flag (is_healthy p (id b)))
  ∧ shows t UPSTREAM_ADDRESSES [address b] = Some (to_i64 (N.of_nat (length (sockets b)))).
Proof.
  intros Hob Hnd Hb. cbv zeta. destruct (observed_kept _ _ _ _ _ _ _ _ _ _ _ Hob) as [[[_ Hn] _ _ _ _] _].
  pose proof (numbered_elem _ _ Hn Hb) as Hi.
  assert (places (upstreams (Service.world s)) !! id b = Some (id b, address b)) as Hp by (unfold places; by rewrite list_lookup_fmap, Hi).
  assert (∀ m, m ∈ backend_cells → ∃ v, backend_gauge (upstreams (Service.world s)) (id b) m = Some v ∧ shows t m [address b] = Some v) as H
    by (intros m; by apply observed_backend).
  unfold flights, latency, breaker_state, is_healthy. split_and!.
  - by read_gauge (H UPSTREAM_IN_FLIGHT).
  - by read_gauge (H UPSTREAM_LATENCY_EWMA).
  - by read_gauge (H UPSTREAM_EJECTED).
  - by read_gauge (H UPSTREAM_HEALTHY).
  - read_gauge (H UPSTREAM_ADDRESSES). by rewrite Hi.
Qed.
End Follow.

Lemma gauges_tell_the_truth_witness :
  ∃ t, Watch.watched Sample.trying t ∧ shows t UPGRADES_ACTIVE [] = Some 0%Z ∧ shows t DRAINING [] = Some 0%Z
    ∧ shows t SPOOL_MAX_BYTES [] = Some 268435456%Z.
Proof.
  destruct Watch.watched_trying as [t H]. exists t. split; [exact H|].
  destruct (gauges_tell_the_truth _ _ _ _ _ _ _ _ _ Sample.trying t H) as (H1 & _ & H2 & _ & _ & H3 & _).
  split; [rewrite H1; vm_compute; reflexivity|]. split; [rewrite H3; vm_compute; reflexivity|rewrite H2; vm_compute; reflexivity].
Defined.

Lemma backend_gauges_tell_the_truth_witness :
  ∃ t, Watch.watched Sample.trying t ∧ shows t UPSTREAM_IN_FLIGHT ["127.0.0.1:3000"] = Some 1%Z
    ∧ shows t UPSTREAM_IN_FLIGHT ["[::1]:3001"] = Some 0%Z.
Proof.
  destruct Watch.watched_trying as [t H]. exists t. split; [exact H|].
  assert (NoDup (addresses (upstreams (Service.world Sample.trying)))) as Hnd by decided.
  split.
  - destruct (backends (upstreams (Service.world Sample.trying)) !! 0%nat) as [b|] eqn:E; [|vm_compute in E; discriminate E].
    destruct (backend_gauges_tell_the_truth _ _ _ _ _ _ _ _ _ Sample.trying t b H Hnd (list_elem_of_lookup_2 _ _ _ E)) as [H1 _].
    vm_compute in E. injection E as <-. exact H1.
  - destruct (backends (upstreams (Service.world Sample.trying)) !! 1%nat) as [b|] eqn:E; [|vm_compute in E; discriminate E].
    destruct (backend_gauges_tell_the_truth _ _ _ _ _ _ _ _ _ Sample.trying t b H Hnd (list_elem_of_lookup_2 _ _ _ E)) as [H1 _].
    vm_compute in E. injection E as <-. exact H1.
Defined.
