(* ===== verification/Balance.v ===== *)
(** * Every request that is counted in is counted out

    [REQUESTS] counts a request when it is routed, [CACHE] when it ends; what is
    between is what the service is serving.  So per route the two differ by the
    requests under way, whatever became of them. *)

From S2P Require Import Prelude Words Text Units Schema Net.
From S2P Require Import Classifier Semaphores Limiter Admission Store BodySpool Retries Breakers Upstream UpstreamTheorems.
From S2P Require Import Validation ValidationTheorems Forwarded Policy PolicyTheorems Otlp.
From S2P Require Import AccessLog Spans Export Trace Metrics Drain AdminEndpoint AdminTheorems Filters FilterTheorems.
From S2P Require Import Proxy ProxyTheorems PoolFacts Names Labels Published Effects Lifecycle Service Observed Gauges.
Local Open Scope string_scope.
Local Open Scope list_scope.
Local Open Scope N_scope.

(** ** Counting *)

Section Counting.
Local Open Scope Z_scope.

Definition W64 : Z := Z.of_N two64.

(** What publications add to the counters [m] of route [r]. *)
Definition bump (m : Cell) (r : string) (p : Publication) : Z :=
  match p with
  | Inc m' (r' :: _) k => if decide (m' = m ∧ r' = r) then Z.of_N k else 0
  | _ => 0
  end.
Definition bumps (m : Cell) (r : string) (ps : list Publication) : Z := foldr (λ p n, bump m r p + n) 0 ps.

(** All a family with two labels shows of route [r]. *)
Definition tally (f : string → option Z) (words : list string) : Z := foldr (λ w n, default 0 (f w) + n) 0 words.

Lemma bumps_cons m r p ps : bumps m r (p :: ps) = bump m r p + bumps m r ps.
Proof. done. Qed.

Lemma bumps_other m r ms ps : only_cells ms ps → m ∉ ms → bumps m r ps = 0.
Proof.
  intros H Hm. induction H as [|p ps Hp _ IH]; [done|]. cbn [bumps foldr]. change (foldr _ 0 ps) with (bumps m r ps). rewrite IH.
  destruct p as [m' ls k|m' ls v|m' ls d]; cbn [bump target fst] in *; try lia. destruct ls as [|r' ls]; [lia|].
  rewrite decide_False; [lia|]. intros [-> _]. by apply Hm.
Qed.

Lemma tally_ext f g words : (∀ w, w ∈ words → f w = g w) → tally f words = tally g words.
Proof.
  induction words as [|w words IH]; intros H; [done|]. cbn [tally foldr]. rewrite (H w) by by left. f_equal. apply IH. intros w' Hw. apply H. by right.
Qed.

(** One of the words' counters moves. *)
Lemma tally_one f g words w k :
  NoDup words → w ∈ words → g w = Some (counted (f w) k) → (∀ w', w' ≠ w → g w' = f w') →
  (tally g words mod W64 = (tally f words + Z.of_N k) mod W64).
Proof.
  intros Hnd Hin Hw Ho. induction Hnd as [|w0 words Hn0 Hnd IH]; [by apply elem_of_nil in Hin|].
  cbn [tally foldr]. change (foldr _ 0 words) with (tally g words) at 1. change (foldr (λ w n, default 0 (f w) + n) 0 words) with (tally f words).
  apply elem_of_cons in Hin as [->|Hin].
  - rewrite Hw. cbn [default Datatypes.id]. rewrite (tally_ext g f words) by (intros w' Hw'; apply Ho; by intros ->).
    unfold counted. fold W64. rewrite Zplus_mod_idemp_l. f_equal. lia.
  - rewrite (Ho w0) by (by intros ->). rewrite <-Zplus_mod_idemp_r, IH by done. rewrite Zplus_mod_idemp_r. f_equal. lia.
Qed.

Lemma mod_step a b x : a mod W64 = b mod W64 → (a + x) mod W64 = (b + x) mod W64.
Proof. intros H. by rewrite <-(Zplus_mod_idemp_l a), H, Zplus_mod_idemp_l. Qed.

(** What publications make of the tally. *)
Lemma tally_after k ms m rs words r ps f :
  allowed k m = [rs; words] → kind (desc m) = Counter → NoDup words → all_proper k ms ps →
  tally (λ w, after_all ps (m, [r; w]) (f w)) words mod W64 = (tally f words + bumps m r ps) mod W64.
Proof.
  intros Ha Hk Hnd Hps. revert f. induction Hps as [|p ps Hp _ IH]; intros f; [by cbn [bumps foldr]; rewrite Z.add_0_r|].
  cbn [bumps foldr]. change (foldr _ 0 ps) with (bumps m r ps).
  rewrite (tally_ext _ (λ w, after_all ps (m, [r; w]) (after p (m, [r; w]) (f w)))) by done.
  rewrite IH, (mod_step _ (tally f words + bump m r p)); [f_equal; lia|].
  destruct Hp as (Hw & Hkind & _).
  assert ((∀ w, target p ≠ (m, [r; w])) → bump m r p = 0 → tally (λ w, after p (m, [r; w]) (f w)) words mod W64 = (tally f words + bump m r p) mod W64) as Hno.
  { intros Hne ->. rewrite Z.add_0_r. f_equal. apply tally_ext. intros w _. unfold after. by rewrite decide_False. }
  destruct p as [m' ls n|m' ls v|m' ls d]; cbn [target fst snd] in *.
  2-3: apply Hno; [intros w [= -> ->]; by rewrite Hk in Hkind|done].
  destruct (decide (m' = m)) as [->|Hm]; [|apply Hno; [congruence|destruct ls; [done|]; cbn [bump]; rewrite decide_False; tauto]].
  rewrite Ha in Hw. apply Forall2_cons_inv_r in Hw as (r' & ls' & _ & Hw & ->).
  apply Forall2_cons_inv_r in Hw as (w & ls'' & Hin & Hls & ->). apply Forall2_nil_inv_r in Hls as ->.
  destruct (decide (r' = r)) as [->|Hr]; [|apply Hno; [congruence|cbn [bump]; rewrite decide_False; tauto]].
  cbn [bump]. rewrite decide_True by done. apply (tally_one _ _ _ w); [done|done| |]; unfold after; cbn [target].
  - by rewrite decide_True.
  - intros w' Hw'. by rewrite decide_False by congruence.
Qed.
End Counting.

(** ** Requests under way *)

Section Flow.
Context {Sem : Type} `{S : !Semaphore Sem} {M : Matching}.
Context {Meta : Type} (serialize : Meta → option BinaryMeta) (deserialize : BinaryMeta → option Meta)
  (has_field : Meta → string → bool) (field_text : Meta → string → option string).
Context (P : Platform) (F : Files).
Context (VERSION : string) (features : list string) (percent_decode : string → option string).
Implicit Types (s : Service Sem M) (c : Ctx (M := M)).

Abbreviation event := (Service.event serialize deserialize has_field field_text P F VERSION features percent_decode).

Definition label c : string := route_label (routing c).
Definition at_route (r : string) c : Z := if String.eqb (label c) r then 1%Z else 0%Z.
Definition count_at (r : string) (cs : list (Ctx (M := M))) : Z := foldr (λ c n, (at_route r c + n)%Z) 0%Z cs.

(** The requests routed to [r], being served or waiting to be. *)
Definition under_way (r : string) s : Z := (count_at r ((serving s).*2) + count_at r ((waiting s).*2))%Z.

(** A request that was not routed yet has no route. *)
Definition early (ph : Phase) : bool := match ph with Begun | Heard => true | _ => false end.
Definition unrouted s : Prop := Forall (λ r, early r.1 = true → route_id (routing r.2) = None) (serving s).

Lemma count_at_perm r cs cs' : cs ≡ₚ cs' → count_at r cs = count_at r cs'.
Proof. induction 1; simpl; lia. Qed.

Lemma at_unrouted r c : r ≠ "-" → route_id (routing c) = None → at_route r c = 0%Z.
Proof. intros Hr E. unfold at_route, label, route_label. rewrite E. change (default "-" None) with "-". by rewrite (proj2 (String.eqb_neq "-" r)) by congruence. Qed.

Lemma count_at_cons r c cs : count_at r (c :: cs) = (at_route r c + count_at r cs)%Z.
Proof. done. Qed.

(** What goes in and out with an event. *)
Definition flows r s ps s' : Prop :=
  unrouted s' ∧ (under_way r s' + bumps CACHE r ps = under_way r s + bumps REQUESTS r ps)%Z.

Definition quiet_cells (ms : list Cell) : bool := forallb (λ m, bool_decide (m ≠ CACHE ∧ m ≠ REQUESTS)) ms.

Lemma bumps_quiet r ms ps : only_cells ms ps → quiet_cells ms = true → bumps CACHE r ps = 0%Z ∧ bumps REQUESTS r ps = 0%Z.
Proof.
  intros Hc Hq. assert (∀ m, m ∈ ms → m ≠ CACHE ∧ m ≠ REQUESTS) as H.
  { intros m Hm. apply list_elem_of_In in Hm. apply (proj1 (forallb_forall _ _) Hq) in Hm. by apply bool_decide_eq_true in Hm. }
  split; apply (bumps_other _ _ ms); try done; intros Hin; destruct (H _ Hin); congruence.
Qed.

(** The requests are the same, with the routing each had. *)
Lemma flows_same r ms s ps s' :
  only_cells ms ps → quiet_cells ms = true → unrouted s' → under_way r s' = under_way r s → flows r s ps s'.
Proof. intros Hc Hq Hu E. split; [done|]. destruct (bumps_quiet r ms ps Hc Hq) as [-> ->]. lia. Qed.

Lemma flows_head r ms s ps s' ph c rs ph' c' :
  only_cells ms ps → quiet_cells ms = true → unrouted s → serving s = (ph, c) :: rs → serving s' = (ph', c') :: rs →
  waiting s' = waiting s → routing c' = routing c → (early ph' = true → early ph = true) → flows r s ps s'.
Proof.
  intros Hc Hq Hu E E' Ew Er Hp. unfold unrouted in Hu. rewrite E in Hu. apply Forall_cons in Hu as [Hh Hu].
  apply (flows_same r ms); [done|done| |].
  - unfold unrouted. rewrite E'. constructor; [|done]. cbn [fst snd] in *. rewrite Er. intros He. by apply Hh, Hp.
  - unfold under_way. rewrite E, E', Ew, !fmap_cons, !count_at_cons. cbn [snd]. unfold at_route, label. by rewrite Er.
Qed.

Lemma placed_flows r ms a route c s rs ws ps s' :
  only_cells ms ps → quiet_cells ms = true → Forall (λ r, early r.1 = true → route_id (routing r.2) = None) rs →
  (under_way r s = at_route r c + count_at r (rs.*2) + count_at r (ws.*2))%Z →
  settled_effect c (Service.world s) a → Service.placed a route s rs ws = Some s' → flows r s ps s'.
Proof.
  intros Hc Hq Hrs Hw Ha E. apply (flows_same r ms); [done|done|..].
  - destruct a; simpl in E; try discriminate E; injection E as <-; unfold unrouted; cbn [serving with_world with_requests];
      try done; by constructor.
  - rewrite Hw. destruct a as [c' l'|resp c' l'|p c' l'|]; simpl in E; try discriminate E; injection E as <-; destruct Ha as (_ & _ & _ & _ & [_ Er] & _);
      unfold under_way; cbn [serving waiting with_world with_requests]; rewrite ?fmap_cons, ?count_at_cons; cbn [snd];
      replace (at_route r c') with (at_route r c) by (unfold at_route, label; by rewrite Er); lia.
Qed.

Lemma request_in r req (p : PolicySnapshot M) :
  bumps REQUESTS r (request_filter_published (A := NextJs) p req) = (if String.eqb (route_label (request_filter (A := NextJs) p req).1) r then 1 else 0)%Z
  ∧ bumps CACHE r (request_filter_published (A := NextJs) p req) = 0%Z.
Proof.
  unfold request_filter_published. destruct (request_filter p req) as [ro refused]. cbn [fst].
  assert (∀ m (b1 b2 : bool), m = REQUESTS ∨ m = CACHE →
    bumps m r (if b1 then [Inc UPGRADES [route_label ro; "disabled"] 1] else if b2 then [Inc REUSE_ELIGIBLE [route_label ro] 1] else []) = 0%Z) as H.
  { intros m b1 b2 Hm. apply (bumps_other _ _ [UPGRADES; REUSE_ELIGIBLE]); [destruct b1; [each_cell|destruct b2; [each_cell|constructor]]|].
    destruct Hm as [->| ->]; decided. }
  split.
  - rewrite bumps_cons, H by by left. cbn [bump].
    destruct (String.eqb_spec (route_label ro) r); [rewrite decide_True|rewrite decide_False]; tauto || lia.
  - rewrite bumps_cons, H by by right. cbn [bump]. rewrite decide_False; [lia|]. by intros [? _].
Qed.

Lemma logging_out r record x c l :
  only_cells [SPANS] record →
  bumps CACHE r (logging_published record x c l) = at_route r c ∧ bumps REQUESTS r (logging_published record x c l) = 0%Z.
Proof.
  intros Hr. unfold logging_published. destruct (drop_permit c l) as [c1 l1]. destruct (route_of c l1) as [route [k h]].
  set (rest := origin_latency x c ++ _).
  assert (only_cells ([ORIGIN_LATENCY; SPANS; SPOOL_BYTES; CACHE_BYTES; CACHE_ENTRIES; CACHE_TAGS; UPGRADES_ACTIVE] ++ limiter_cells ++ upstream_cells) rest) as Hc.
  { subst rest. repeat apply only_cells_app.
    - unfold origin_latency. destruct (origin_finished_ms _); [each_cell|]. destruct (origin_started _); [each_cell|constructor].
    - eapply only_cells_weaken; [|exact Hr]. set_solver.
    - each_cell.
    - each_cell.
    - destruct (upgrade_permit _); [each_cell|constructor].
    - eapply only_cells_weaken; [|apply occupancy_only]. set_solver.
    - destruct route; [|constructor]. eapply only_cells_weaken; [|apply occupancy_only]. set_solver.
    - eapply only_cells_weaken; [|apply tier_only]. set_solver.
    - eapply only_cells_weaken; [|apply release_only]. set_solver. }
  destruct (bumps_quiet r _ _ Hc eq_refl) as [H1 H2]. cbn [app]. split; rewrite bumps_cons, ?H1, ?H2; cbn [bump].
  - unfold at_route, label.
    destruct (String.eqb_spec (route_label (routing c)) r); [rewrite decide_True|rewrite decide_False]; tauto || lia.
  - rewrite decide_False; [lia|]. by intros [? _].
Qed.

(** What the handlers that concern one request publish is to other families. *)
Lemma event_flows r s ps s' :
  orderly s → unrouted s → r ≠ "-" → event s ps s' → flows r s ps s'.
Proof.
  intros Ho Hu Hr Hev. pose proof Ho as [[_ Hnum] _ _ _ _].
  assert (∀ ph c rs, serving s = (ph, c) :: rs → (early ph = true → route_id (routing c) = None)
    ∧ Forall (λ r, early r.1 = true → route_id (routing r.2) = None) rs
    ∧ under_way r s = (at_route r c + count_at r (rs.*2) + count_at r ((waiting s).*2))%Z) as Hhead.
  { intros ph c rs E. pose proof Hu as Hu'. unfold unrouted in Hu'. rewrite E in Hu'. apply Forall_cons in Hu' as [? ?]. split; [done|]. split; [done|].
    unfold under_way. by rewrite E, fmap_cons, count_at_cons. }
  assert (∀ p route c ws, waiting s = (p, route, c) :: ws →
    under_way r s = (at_route r c + count_at r ((serving s).*2) + count_at r (ws.*2))%Z) as Hnext.
  { intros p route c ws E. unfold under_way. rewrite E, fmap_cons, count_at_cons. cbn [snd]. lia. }
  destruct Hev;
    try (match goal with E : serving s = (_, _) :: _ |- _ => destruct (Hhead _ _ _ E) as (Hc & Hrs & Hw) end).
  - apply (flows_same r []); [constructor|done| |].
    + unfold unrouted. cbn [serving with_requests]. match goal with H : serving s ≡ₚ _ |- _ => by rewrite <-H end.
    + unfold under_way. cbn [serving waiting with_requests]. f_equal; apply count_at_perm; symmetry; by apply fmap_Permutation.
  - apply (flows_same r []); [constructor|done|by constructor|].
    unfold under_way. cbn [serving waiting with_requests]. rewrite fmap_cons, count_at_cons, at_unrouted by done. lia.
  - by apply (flows_head r [] s [] _ Begun c rs Heard (with_early (early_request_filter (pinned c) (trust s) peer is_tls req t sp) c)); [constructor|..].
  - destruct (request_in r req (pinned c)) as [B1 B2]. match goal with E : request_filter _ _ = _ |- _ => rewrite E in B1 end.
    split.
    + unfold unrouted. cbn [serving with_requests]. constructor; [|done]. by destruct refused.
    + rewrite B1, B2, Hw. unfold under_way. cbn [serving waiting with_requests]. rewrite fmap_cons, count_at_cons, (at_unrouted r c) by auto.
      cbn [snd fst]. unfold at_route, label. cbn [routing with_routing].
      lia.
  - eapply (placed_flows r (UPGRADES :: UPGRADES_ACTIVE :: admission_cells)); [|done|exact Hrs|exact Hw|apply admit_effect|eassumption].
    destruct (head_belongs _ _ _ _ Ho ltac:(eassumption)) as [(_ & ? & _) _].
    eapply (proper_cells (known s)), admit_proper; [done|by destruct Ho].
  - eapply (placed_flows r admission_cells _ _ _ _ (serving s) ws); [apply on_admission_only|done|exact Hu|by eapply Hnext|apply resume_effect|eassumption].
  - apply (flows_same r []); [constructor|done|by constructor|].
    rewrite (Hnext _ _ _ _ ltac:(eassumption)). unfold under_way. cbn [serving waiting with_world with_requests]. rewrite fmap_cons, count_at_cons. cbn [snd]. lia.
  - pose proof (peer_effect now ms wall path fresh c (Service.world s) Hnum) as Hx.
    match goal with E : upstream_peer _ _ _ _ _ _ _ = _ |- _ => rewrite E in Hx end. destruct Hx as (_ & _ & _ & [_ Er] & _).
    by eapply (flows_head r peer_cells); [apply peer_only|..].
  - pose proof (connect_effect ms method c (Service.world s)) as Hx.
    match goal with E : fail_to_connect _ _ _ _ = _ |- _ => rewrite E in Hx end. destruct Hx as (_ & _ & [_ Er] & _).
    by eapply (flows_head r failed_cells); [exact (failed_only ms read method "connect" c (Service.world s) true)|..].
  - pose proof (error_effect ms method dr reused truncated c (Service.world s)) as Hx.
    match goal with E : error_while_proxy _ _ _ _ _ _ _ = _ |- _ => rewrite E in Hx end. destruct Hx as (_ & _ & [_ Er] & _).
    by eapply (flows_head r failed_cells); [apply failed_only|..].
  - pose proof (response_effect now ms status c (Service.world s)) as Hx.
    match goal with E : upstream_response_filter _ _ _ _ _ = _ |- _ => rewrite E in Hx end. destruct Hx as (_ & _ & _ & [_ Er] & _).
    by eapply (flows_head r response_cells); [apply response_only|..].
  - apply (flows_same r [BYPASS_REASON]); [|done|done|done]. unfold response_cache_filter_published. destruct (sharing _ _); [constructor..|each_cell].
  - pose proof (origin_body_effect now eos c (Service.world s)) as Hx.
    match goal with E : upstream_response_body_filter _ _ _ _ = _ |- _ => rewrite E in Hx end. destruct Hx as (_ & _ & _ & _ & _ & _ & [_ Er] & _).
    eapply (flows_head r upstream_cells); try done.
    unfold upstream_response_body_filter_published. destruct (check_origin_deadline _ _ _); [|constructor]. destruct eos; [apply release_only|constructor].
  - pose proof (body_effect up body eos c (Service.world s)) as Hx.
    match goal with E : response_body_filter _ _ _ _ _ = _ |- _ => rewrite E in Hx end. destruct Hx as (_ & _ & _ & _ & [_ Er] & _).
    eapply (flows_head r body_cells); try done. destruct (head_belongs _ _ _ _ Ho ltac:(eassumption)) as [(_ & ? & _) _].
    by eapply (proper_cells (known s)), body_proper.
  - match goal with |- flows _ _ (logging_published ?rec _ _ _) _ => destruct (logging_out r rec x c (Service.world s) (spans_only _ _)) as [B1 B2] end.
    split; [done|]. rewrite B1, B2, Hw. unfold under_way. cbn [serving waiting with_world with_requests with_exporter]. lia.
  - by apply (flows_same r [UPSTREAM_HEALTHY]); [each_cell|..].
  - by apply (flows_same r [UPSTREAM_ADDRESSES]); [each_cell|..].
  - by apply (flows_same r [CACHE_EVICTED]); [eapply proper_cells, (evicted_proper (mkKnown [] []))|..].
  - by apply (flows_same r purge_cells); [eapply proper_cells, (response_proper (mkKnown [] []))|..].
  - by apply (flows_same r [DRAINING]); [each_cell|..].
  - match goal with E : Policy.reload _ _ _ = _ |- _ => apply reload_inv in E as (cfg & sn & _ & _ & _ & _ & _ & _ & R2 & _) end.
    unfold apply_config in R2. cbn [reloader_of admission limiters] in R2.
    match type of R2 with apply_limits ?gm ?gq ?gt ?pr ?rs _ _ = _ =>
      pose proof (named_apply_limits gm gq gt pr rs _ _ (kept_named _ Ho)) as Hn; rewrite R2 in Hn end. destruct Hn as [_ N2].
    by apply (flows_same r reload_cells); [eapply (proper_cells (known s)), reload_proper; exact N2|..].
  - by apply (flows_same r []); [constructor|..].
  - by apply (flows_same r [SPANS]); [eapply proper_cells, (exporter_proper (mkKnown [] []))|..].
Qed.
End Flow.

(** ** The two counters *)

Section Balanced.
Context {Sem : Type} `{S : !Semaphore Sem} {M : Matching}.
Context {Meta : Type} (serialize : Meta → option BinaryMeta) (deserialize : BinaryMeta → option Meta)
  (has_field : Meta → string → bool) (field_text : Meta → string → option string).
Context (P : Platform) (F : Files).
Context (VERSION : string) (features : list string) (percent_decode : string → option string).
Context {Reg : Type} `{PR : Prometheus Reg} `{!PrometheusLaws Reg}.
Implicit Types (s : Service Sem M) (t : Telemetry Reg).

Abbreviation observed := (Observed.observed serialize deserialize has_field field_text P F VERSION features percent_decode).

Definition counted_in t (r : string) : Z := tally (λ w, shows t REQUESTS [r; w]) class_words.
Definition counted_out t (r : string) : Z := tally (λ w, shows t CACHE [r; w]) cache_words.

(** C22: Every request counted in is counted out, once.  For each route, what the
    request counters show over all classes is what the cache-status counters
    show over all statuses, plus the requests of that route being served or
    waiting for admission: each routed request, however it ends (answered,
    refused, shed, failed, gone), is counted once with one cache status.  (The
    counters are 64-bit and wrap.) *)
Theorem requests_are_counted_out s t r :
  observed s t → r ≠ "-" →
  (counted_in t r mod W64 = (counted_out t r + under_way r s) mod W64)%Z.
Proof.
  intros Hob Hr. assert (unrouted s ∧ (counted_in t r mod W64 = (counted_out t r + under_way r s) mod W64)%Z) as [_ H]; [|exact H].
  induction Hob as [dns path cfg h s t0 t HV Ht Hz Hs E0 E|s t ps s' t' Hob [Hu IH] Hev E].
  - destruct (starts s (start_orderly _ _ _ _ _ Hs)) as (t0' & t' & E0' & E' & _ & Hsw). assert (t' = t) as -> by congruence.
    destruct (start_world _ _ _ _ _ Hs) as (_ & _ & _ & _ & _ & _ & _ & _ & Es & Ew).
    split; [unfold unrouted; by rewrite Es|].
    assert (∀ m, m = REQUESTS ∨ m = CACHE → ∀ w, default 0%Z (shows t m [r; w]) = 0%Z) as Hz'.
    { intros m Hm w. rewrite Hsw. pose proof (start_proper s (start_orderly _ _ _ _ _ Hs)) as Hp.
      rewrite decide_False by (unfold seed; destruct Hm as [->| ->]; congruence).
      rewrite (foreign startup_cells); [destruct Hm as [->| ->]; done| |destruct Hm as [->| ->]; decided].
      eapply (proper_cells (known s)), startup_proper; [by destruct (start_orderly _ _ _ _ _ Hs)|done]. }
    unfold counted_in, counted_out, tally, under_way. rewrite Es, Ew. cbn. by rewrite !Hz' by tauto.
  - destruct (observed_kept _ _ _ _ _ _ _ _ _ _ _ Hob) as [Ho _].
    destruct (event_flows _ _ _ _ _ _ _ _ _ r s ps s' Ho Hu Hr Hev) as [Hu' Hf]. split; [done|].
    pose proof (event_proper _ _ _ _ _ _ _ _ _ _ _ _ Ho Hev) as Hp.
    pose proof (observed_event_shows _ _ _ _ _ _ _ _ _ _ _ _ _ _ Hob Hev E) as Hsw.
    unfold counted_in, counted_out in *.
    rewrite (tally_ext _ (λ w, after_all ps (REQUESTS, [r; w]) (shows t REQUESTS [r; w]))) by (intros; apply Hsw).
    rewrite (tally_ext (λ w, shows t' CACHE [r; w]) (λ w, after_all ps (CACHE, [r; w]) (shows t CACHE [r; w]))) by (intros; apply Hsw).
    rewrite (tally_after (known s) statics REQUESTS (route_values (known s))); [|done|done|decided|done].
    rewrite (mod_step _ _ _ IH).
    rewrite (mod_step (tally (λ w, after_all ps (CACHE, [r; w]) (shows t CACHE [r; w])) cache_words) (tally (λ w, shows t CACHE [r; w]) cache_words + bumps CACHE r ps)%Z).
    2: { by apply (tally_after (known s) statics CACHE (route_values (known s))); [..|decided|]. }
    f_equal. lia.
Qed.
End Balanced.

Lemma requests_are_counted_out_witness :
  ∃ t, Watch.watched Sample.routed t ∧ under_way "products" Sample.routed = 1%Z
    ∧ (counted_in t "products" mod W64 = (counted_out t "products" + 1) mod W64)%Z.
Proof.
  destruct Watch.watched_routed as [t H]. exists t. split; [exact H|].
  assert (under_way "products" Sample.routed = 1%Z) as E by (vm_compute; reflexivity). split; [exact E|].
  rewrite <-E. apply (requests_are_counted_out _ _ _ _ _ _ _ _ _ Sample.routed t "products" H). discriminate.
Defined.
