(* ===== verification/Attempts.v ===== *)
(** * Attempts on the origin ([src/src/proxy/mod.rs])

    What the filters around an attempt promise together: the breaker of the
    backend hears exactly one outcome per attempt, a request is sent again only
    when that is safe and within its bounds, and in observe mode a request goes
    through as if the proxy were not there. *)

From S2P Require Import Prelude Words Text Units Schema Net.
From S2P Require Import Classifier Semaphores Limiter Admission Store BodySpool Window Retries Breakers Upstream Validation Forwarded Policy.
From S2P Require Import ValidationTheorems PolicyTheorems AccessLog Spans Trace AdminEndpoint Filters FilterTheorems Proxy Lifecycle.
Local Open Scope string_scope.
Local Open Scope list_scope.
Local Open Scope N_scope.

Section Attempts.
Context {Sem : Type} `{S : !Semaphore Sem} {M : Matching}.
Implicit Types (l : Live (Sem := Sem) (M := M)) (c : Ctx (M := M)).

(** ** One outcome *)

(** What Pingora reports of an attempt; each handler may run any number of
    times. *)
Inductive OriginEvent :=
| ConnectFailed (ms : N) (method : Method)
| ProxyFailed (ms : N) (method : Method) (decide_reuse : bool → bool) (reused truncated : bool)
| GotHeaders (now ms status : N).

Definition on_event (e : OriginEvent) (cl : Ctx (M := M) * Live (Sem := Sem) (M := M)) :
    Ctx (M := M) * Live (Sem := Sem) (M := M) :=
  match e with
  | ConnectFailed ms method => let '(_, c, l) := fail_to_connect ms method cl.1 cl.2 in (c, l)
  | ProxyFailed ms method dr reused truncated =>
      let '(_, c, l) := error_while_proxy ms method dr reused truncated cl.1 cl.2 in (c, l)
  | GotHeaders now ms status => let '(_, c, l) := upstream_response_filter now ms status cl.1 cl.2 in (c, l)
  end.

Definition at_ms (e : OriginEvent) : N :=
  match e with ConnectFailed ms _ | ProxyFailed ms _ _ _ _ | GotHeaders _ ms _ => ms end.
(** The origin served the attempt unless it failed or answered 5xx. *)
Definition served (e : OriginEvent) : bool :=
  match e with GotHeaders _ _ status => negb (is_server_error status) | _ => false end.

Definition breakers (p : UpstreamPool) : list Breaker := breaker <$> states p.

Lemma breakers_update id f p :
  (∀ s, breaker (f s) = breaker s) → breakers (update id f p) = breakers p.
Proof.
  intros Hf. unfold breakers, update. simpl. apply list_eq. intros i. rewrite !list_lookup_fmap.
  destruct (decide (i = id)) as [->|Hne].
  - rewrite list_lookup_alter_eq. destruct (states p !! id); [|done]. simpl. by rewrite Hf.
  - by rewrite list_lookup_alter_ne.
Qed.

(** What two pools with the same breakers become. *)
Lemma breakers_outcome ms id probe ok p p' :
  breakers p = breakers p' →
  breakers (Upstream.record_outcome ms id probe ok p) = breakers (Upstream.record_outcome ms id probe ok p').
Proof.
  intros E. unfold breakers, Upstream.record_outcome, update in *. simpl. apply list_eq. intros i.
  assert (∀ j, (breaker <$> states p !! j) = (breaker <$> states p' !! j)) as E'.
  { intros j. rewrite <-!list_lookup_fmap. by rewrite E. }
  rewrite !list_lookup_fmap. destruct (decide (i = id)) as [->|Hne].
  - rewrite !list_lookup_alter_eq. specialize (E' id).
    destruct (states p !! id), (states p' !! id); simpl in *; try done. injection E' as E'. by rewrite E'.
  - by rewrite !list_lookup_alter_ne.
Qed.

Lemma decide_pool ms method c l : upstreams (decide_retry ms method c l).2 = upstreams l.
Proof.
  unfold decide_retry. destruct (negb _); [done|]. destruct (eligible _ _); [|done]. by destruct (charge _ _ _).
Qed.

(** The pool before the outcome is recorded: the headers' latency is in it. *)
Lemma event_shape e c l :
  ∃ l0, breakers (upstreams l0) = breakers (upstreams l) ∧
    (on_event e (c, l)).1 = (record_origin_outcome (at_ms e) (served e) c l0).1 ∧
    upstreams (on_event e (c, l)).2 = upstreams (record_origin_outcome (at_ms e) (served e) c l0).2.
Proof.
  destruct e as [ms method|ms method dr reused truncated|now ms status]; simpl.
  - exists l. unfold fail_to_connect. destruct (record_origin_outcome _ _ _ _) as [c1 l1].
    pose proof (decide_pool ms method c1 l1). by destruct (decide_retry _ _ _ _).
  - exists l. unfold error_while_proxy. destruct (record_origin_outcome _ _ _ _) as [c1 l1].
    destruct (dr _); [|done]. pose proof (decide_pool ms method c1 l1). by destruct (decide_retry _ _ _ _).
  - unfold upstream_response_filter. cbv zeta. set (l0 := match origin_slot (attempt c) with Some _ => _ | None => l end).
    exists l0. split; [|by destruct (record_origin_outcome _ _ _ _)].
    unfold l0. destruct (origin_slot _); [|done]. destruct (origin_started _); [|done]. by apply breakers_update.
Qed.

(** Once an outcome is recorded, no event changes a breaker. *)
Lemma recorded_is_final es c l :
  outcome_recorded (attempt c) = true →
  breakers (upstreams (foldl (λ cl e, on_event e cl) (c, l) es).2) = breakers (upstreams l).
Proof.
  revert c l. induction es as [|e es IH]; intros c l H; [done|]. cbn [foldl].
  destruct (event_shape e c l) as (l0 & Hl0 & E1 & E2). destruct (on_event e (c, l)) as [c' l'].
  unfold record_origin_outcome in E1, E2. rewrite H in E1, E2. cbn [fst snd] in *. subst c'.
  rewrite IH by done. by rewrite E2.
Qed.

(** C17: The breaker of a backend hears of every attempt once.  After an attempt
    has started, whatever Pingora then reports of it and however often (a failed
    connection, an error on the way, the response's headers), every breaker of
    the pool is where the first report alone would have put it: the attempt's
    own backend is charged with that outcome, under the attempt's probe token if
    it was a probe, and no other breaker moves. *)
Theorem attempt_has_one_outcome now ms wall path fresh c0 l0 peer c l g e es :
  upstream_peer now ms wall path fresh c0 l0 = (Ok peer, c, l) →
  origin_slot (attempt c) = Some g →
  breakers (upstreams (foldl (λ cl e, on_event e cl) (c, l) (e :: es)).2) =
    breakers (Upstream.record_outcome (at_ms e) (backend_id g) (probe_token g) (served e) (upstreams l)).
Proof.
  intros Hp Hg. assert (outcome_recorded (attempt c) = false) as Hf.
  { revert Hp. unfold upstream_peer. destruct (select_at _ _ _) as [[sel|] pool]; [|done].
    destruct (socket_for _ _) as [[socket|] b]; [|done]. cbv zeta.
    destruct (release_origin_slot c0 _) as [c2 l2]. destruct (enter_selected _ _) as [g' pool']. by intros [= _ <- _]. }
  cbn [foldl]. destruct (event_shape e c l) as (l1 & Hl1 & E1 & E2). destruct (on_event e (c, l)) as [c' l'].
  unfold record_origin_outcome in E1, E2. rewrite Hf, Hg in E1, E2. cbn [fst snd] in *.
  rewrite recorded_is_final by (by subst c'). rewrite E2. by apply breakers_outcome.
Qed.

(** ** Retries *)

(** The two filters that can grant one. *)
Definition retry_granted (method : Method) (c : Ctx (M := M)) (l : Live (Sem := Sem) (M := M)) c' l' : Prop :=
  (∃ ms, fail_to_connect ms method c l = (true, c', l'))
  ∨ ∃ ms dr reused truncated, error_while_proxy ms method dr reused truncated c l = (true, c', l').

Lemma outcome_attempts ms ok c l :
  let '(c', l') := record_origin_outcome ms ok c l in
  attempts (attempt c') = attempts (attempt c) ∧ routing c' = routing c ∧ retry l' = retry l.
Proof. unfold record_origin_outcome. destruct (outcome_recorded _); [done|]. by destruct (origin_slot _). Qed.

Lemma charge_settings ms n b : Retries.settings (charge ms n b).2 = Retries.settings b.
Proof.
  unfold charge. destruct (negb _); [done|]. destruct (_ <=? _); [done|]. destruct (flag _ _) as [spent w].
  by destruct (_ <? _).
Qed.

Lemma decide_allowed ms method c l d l' :
  decide_retry ms method c l = (d, l') → allowed d = true →
  Retries.enabled (retry l) = true ∧ eligible method (class (routing c)) = true
  ∧ attempts (attempt c) < max_attempts (retry l) ∧ Retries.settings (retry l') = Retries.settings (retry l).
Proof.
  unfold decide_retry, allowed. intros E Hd%bool_decide_eq_true. subst d.
  destruct (Retries.enabled (retry l)) eqn:Ee; [|done]. simpl in E. destruct (eligible _ _); [|done].
  pose proof (charge_settings ms (attempts (attempt c)) (retry l)) as Hs.
  destruct (charge _ _ _) as [d b] eqn:Ec. injection E as -> <-.
  unfold charge in Ec. rewrite Ee in Ec. simpl in Ec.
  destruct (N.leb_spec (max_attempts (retry l)) (attempts (attempt c))); [done|done].
Qed.

Lemma granted_spec method c l c' l' :
  retry_granted method c l c' l' →
  (Retries.enabled (retry l) = true ∧ eligible method (class (routing c)) = true
   ∧ attempts (attempt c) < max_attempts (retry l))
  ∧ attempts (attempt c') = attempts (attempt c) ∧ Retries.settings (retry l') = Retries.settings (retry l).
Proof.
  intros [(ms & E)|(ms & dr & reused & truncated & E)]; revert E;
    [unfold fail_to_connect|unfold error_while_proxy];
    pose proof (outcome_attempts ms false c l) as H;
    destruct (record_origin_outcome _ _ _ _) as [c1 l1]; destruct H as (Ha & Hr & Hb);
    [|destruct (dr _); [|done]];
    destruct (decide_retry _ _ _ _) as [d l2] eqn:Ed; intros [= Hd <- <-];
    destruct (decide_allowed _ _ _ _ _ _ Ed Hd) as (H1 & H2 & H3 & H4);
    rewrite Ha, Hr, Hb in *; done.
Qed.

(** A request and its attempts: the first, those a filter granted, and between
    them whatever happens to the process and to the rest of the context. *)
Inductive tries : N → Ctx (M := M) → Live (Sem := Sem) (M := M) → Prop :=
| tries_first now ms wall path fresh c l peer c' l' :
    attempts (attempt c) = 0 →
    upstream_peer now ms wall path fresh c l = (Ok peer, c', l') → tries 1 c' l'
| tries_meanwhile n c l c' l' :
    tries n c l → attempts (attempt c') = attempts (attempt c) → Retries.settings (retry l') = Retries.settings (retry l) →
    tries n c' l'
| tries_again n now ms wall path fresh method c l c1 l1 peer c' l' :
    tries n c l → retry_granted method c l c1 l1 →
    upstream_peer now ms wall path fresh c1 l1 = (Ok peer, c', l') → tries (n + 1) c' l'.

Lemma peer_counts now ms wall path fresh c l peer c' l' :
  upstream_peer now ms wall path fresh c l = (Ok peer, c', l') →
  attempts (attempt c') = clamp U32_MAX (attempts (attempt c) + 1) ∧ Retries.settings (retry l') = Retries.settings (retry l).
Proof.
  unfold upstream_peer. destruct (select_at _ _ _) as [[sel|] pool]; [|done].
  destruct (socket_for _ _) as [[socket|] b]; [|done]. cbv zeta. set (l1 := with_retry _ _).
  assert (attempts (attempt (release_origin_slot c l1).1) = attempts (attempt c)
    ∧ Retries.settings (retry (release_origin_slot c l1).2) = Retries.settings (retry l)) as H.
  { assert (Retries.settings (retry l1) = Retries.settings (retry l)) as Hs.
    { unfold l1, record_attempt. simpl. by destruct (Retries.enabled (retry l)). }
    unfold release_origin_slot. destruct (origin_slot (attempt c)); by split. }
  destruct (release_origin_slot c l1) as [c2 l2]. cbn [fst snd] in H. destruct H as [H1 H2].
  destruct (enter_selected _ _) as [g' pool']. intros [= _ <- <-]. simpl. by rewrite H1.
Qed.

(** C18: A request is sent again only when that is safe, and not for ever.  A
    filter that grants a retry does so with retries on, for a safe method and
    not for a mutation, a stream or an upgrade; and a request makes no more
    attempts than the budget's [max_attempts], or one. *)
Theorem attempts_are_bounded n c l :
  max_attempts (retry l) <= U32_MAX → tries n c l →
  n <= N.max 1 (max_attempts (retry l)) ∧
  ∀ method c' l', retry_granted method c l c' l' →
    n < max_attempts (retry l) ∧ Retries.enabled (retry l) = true
    ∧ method ∈ [GET; HEAD; OPTIONS; TRACE] ∧ class (routing c) ∉ [Mutation; Streaming; Upgrade].
Proof.
  intros Hmax Ht.
  assert (attempts (attempt c) = N.min n U32_MAX ∧ n <= N.max 1 (max_attempts (retry l))) as [Ha Hn].
  { induction Ht as [now ms wall path fresh c l peer c' l' H0 Hp|n c l c' l' _ IH Ha Hs
      |n now ms wall path fresh method c l c1 l1 peer c' l' _ IH Hg Hp].
    - apply peer_counts in Hp as [-> _]. rewrite H0. split; [done|lia].
    - injection Hs as _ Hm _ _. rewrite Hm in *. destruct (IH Hmax) as [IH1 IH2]. by rewrite Ha.
    - apply peer_counts in Hp as [Hc Hs]. apply granted_spec in Hg as ((_ & _ & Hlt) & Ha & Hs').
      rewrite Hs' in Hs. injection Hs as _ Hm _ _. rewrite Hm in *. destruct (IH Hmax) as [IH1 IH2].
      rewrite Hc, Ha, IH1. unfold clamp. lia. }
  split; [done|]. intros method c' l' ((He & Hel & Hlt) & _)%granted_spec. split_and!; [lia|done|..];
    unfold eligible in Hel; apply andb_true_iff in Hel as [Hm Hc].
  - destruct method; done || set_solver.
  - destruct (class (routing c)); done || set_solver.
Qed.

(** ** Observe mode *)

(** Observe mode observes.  A request that is not an upgrade is neither
    looked up nor stored, joins no other request's fetch, waits for no permit
    and holds none, has no body held back, and reaches the origin with the
    process in the state it was in. *)
Theorem observe_mode_is_transparent {A} `{FrameworkAdapter A} now ph req c l :
  Config.mode (cfg_of c) = Observe →
  let r := (request_filter (A := A) (pinned c) req).1 in
  class r ≠ Upgrade → ph ≠ PhaseLockTimeout →
  cache_active r = false ∧ may_coalesce r = false ∧ spool_enabled r = false
  ∧ request_cache_filter (pinned c) r = None
  ∧ proxy_upstream_filter now ph (with_routing r c) l = Proceed (with_routing r c) l.
Proof.
  intros Hm. cbv zeta. pose proof (observing_is_inert (A := A) (pinned c) req Hm) as Hi.
  destruct (request_filter (A := A) (pinned c) req) as [r out]. cbn [fst]. intros Hc Hph.
  destruct Hi as (H1 & H2 & H3 & H4). split_and!; [done..|].
  unfold proxy_upstream_filter. cbv zeta.
  assert ((match ph with PhaseLockTimeout => true | _ => false end) = false) as -> by (by destruct ph).
  cbn [andb]. rewrite bool_decide_false by done. rewrite bool_decide_true by done. done.
Qed.
End Attempts.

(** ** Witnesses *)

Import CountingSemaphore.

Lemma fetching_ok : ∃ peer, fetching = (Ok peer, fetching.1.2, fetching.2).
Proof.
  assert (is_ok fetching.1.1 = true) as E by (vm_compute; reflexivity).
  destruct fetching.1.1 as [peer|] eqn:Ep; [|discriminate E]. exists peer. rewrite <-Ep. apply triple_eta.
Qed.

(** A 503 whose body then breaks off, and is reported twice more. *)
Lemma attempt_has_one_outcome_witness :
  let events := [GotHeaders 20 20 503; ProxyFailed 30 GET (λ _, false) true false; ConnectFailed 40 GET] in
  breakers (upstreams (foldl (λ cl e, on_event e cl) (fetching.1.2, fetching.2) events).2)
    = breakers (Upstream.record_outcome 20 0 None false (upstreams fetching.2)).
Proof.
  cbv zeta. destruct fetching_ok as [peer E].
  exact (attempt_has_one_outcome 10 10 10 "/products/7" [3] admitted.1 admitted.2 peer fetching.1.2 fetching.2
    (mkGuard 0 None) (GotHeaders 20 20 503) [ProxyFailed 30 GET (λ _, false) true false; ConnectFailed 40 GET]
    E ltac:(vm_compute; reflexivity)).
Defined.

(** The connection fails, and the request goes to the other backend. *)
Definition failed : bool * Ctx * Live := fail_to_connect 15 GET fetching.1.2 fetching.2.
Definition again : result PeerError Peer * Ctx * Live :=
  upstream_peer 20 20 20 "/products/7" [4] failed.1.2 failed.2.

Lemma attempts_are_bounded_witness :
  tries 2 again.1.2 again.2 ∧ 2 <= N.max 1 2 ∧
  ¬ ∃ c' l', retry_granted GET again.1.2 again.2 c' l'.
Proof.
  assert (tries 2 again.1.2 again.2) as Ht.
  { destruct fetching_ok as [peer E].
    assert (is_ok again.1.1 = true) as Ea by (vm_compute; reflexivity).
    destruct again.1.1 as [peer'|] eqn:Ep; [|discriminate Ea].
    apply (tries_again 1 20 20 20 "/products/7" [4] GET fetching.1.2 fetching.2 failed.1.2 failed.2 peer').
    - eapply (tries_first 10 10 10 "/products/7" [3]); [|exact E]. vm_compute. reflexivity.
    - left. exists 15. assert (failed.1.1 = true) as Ef by (vm_compute; reflexivity).
      pose proof (triple_eta failed) as E2. rewrite Ef in E2. exact E2.
    - rewrite <-Ep. transitivity again; [by unfold again|apply triple_eta]. }
  assert (max_attempts (retry again.2) = 2) as Hm by (vm_compute; reflexivity).
  destruct (attempts_are_bounded 2 again.1.2 again.2 ltac:(rewrite Hm; discriminate) Ht) as [Hn Hg].
  rewrite Hm in *. split; [exact Ht|]. split; [exact Hn|].
  intros (c' & l' & H). destruct (Hg _ _ _ H) as [Hlt _]. vm_compute in Hlt. discriminate Hlt.
Defined.

Definition observe_config : Config.Config :=
  let c := sample_config in
  Config.mk (Config.version c) Observe (Config.server c) (Config.origin c) (Config.capacity c) (Config.health c)
    (Config.cache c) (Config.coalesce c) (Config.timeouts c) (Config.overload c) (Config.spool c) (Config.upgrade c)
    (Config.deployment c) (Config.routes c) (Config.telemetry c) (Config.debug_headers c).
Definition observed : Ctx :=
  mkCtx (mkSnapshot sample_matching (p_routes _ sample_snapshot) observe_config 1 0) 0 0 (facts arrived) (trace arrived)
    no_routing no_holdings no_attempt.

Lemma observe_mode_is_transparent_witness :
  let r := (request_filter (A := NextJs) (pinned observed) page_request).1 in
  route_id r = Some "products" ∧ proxy_upstream_filter 5 PhaseMiss (with_routing r observed) cold
    = Proceed (with_routing r observed) cold.
Proof.
  split; [vm_compute; reflexivity|].
  apply (observe_mode_is_transparent (A := NextJs) 5 PhaseMiss page_request observed cold);
    [reflexivity|vm_compute; discriminate|discriminate].
Defined.
