(* ===== verification/Boot.v ===== *)
(** * Starting the process ([main], [run] and [tls_settings] of [src/src/main.rs])

    What the command line makes happen and with which exit code; and how [run]
    goes from a file to a serving process: the steps that can refuse, in their
    order, Pingora's configuration, the background services and the listeners.
    Pingora itself (binding, the handover of sockets, its TLS settings) is a
    parameter.  [boot_refuses_only]: a configuration that validation accepted is
    never refused at start-up for anything validation could have known. *)

From S2P Require Import Prelude Words Text Units Schema Net Otlp.
From S2P Require Import Semaphores Limiter Admission Store BodySpool Retries Upstream UpstreamTheorems.
From S2P Require Import Validation ValidationTheorems Forwarded Policy PolicyTheorems Cli CheckCommand.
From S2P Require Import Export Drain AdminEndpoint Proxy Lifecycle Service.
Local Open Scope string_scope.
Local Open Scope list_scope.
Local Open Scope N_scope.

(** ** Pingora *)

(** The fields of [ServerConf] that [run] sets; the others are Pingora's. *)
Record ServerConf := mkConf {
  pid_file : string;
  upgrade_sock : string;
  conf_daemon : bool;
  max_retries : N;
  graceful_shutdown_timeout_seconds : option N;
  grace_period_seconds : option N }.
Record Opt := mkOpt { opt_upgrade : bool; opt_daemon : bool; opt_test : bool; nocapture : bool; conf : option string }.

(** What [run] asks of Pingora and of the build: the operating system, whether
    [bootstrap] returns or ends the process with a code, whether the proxy
    service has its application logic, and loading a certificate and key. *)
Record Pingora := mkPingora {
  linux : bool;
  bootstrap : Opt → ServerConf → option N;
  app_logic : bool;
  intermediate : string → string → result string unit }.

Definition server_conf (flags : RunFlags) (cfg : Config.Config) : ServerConf :=
  let g := Server.graceful (Config.server cfg) in
  mkConf (Graceful.pid_file g) (Graceful.upgrade_socket g) (daemon flags) (proxy_max_attempts (Origin.retry (Config.origin cfg)))
    (Some (pingora_seconds (as_duration (Graceful.shutdown_timeout g)))) (Some 0).
Definition server_opt (flags : RunFlags) : Opt := mkOpt (upgrade flags) (daemon flags) (test flags) false None.

(** ** What is registered *)

(** The services added to the server that listen nowhere. *)
Inductive Task :=
| DrainTask
| OtlpTask
| ResolverTask (every : Duration)
| HealthTask (path : string) (every : Duration)
| ReloadTask (path : string).

Record TlsSettings := mkSettings { certificate : string; private_key : string; offers_h2 : bool }.
Inductive Listener :=
| Cleartext (address : string) (h2c : bool)
| Terminating (address : string) (settings : TlsSettings)
| Scraping (address : string)
| Administering (address : string).

Definition tasks (path : string) (cfg : Config.Config) : list Task :=
  let every := as_duration (Origin.resolve_interval (Config.origin cfg)) in
  [DrainTask]
  ++ match Tracing.otlp (Telemetry.tracing (Config.telemetry cfg)) with Some _ => [OtlpTask] | None => [] end
  ++ (if every =? 0 then [] else [ResolverTask every])
  ++ match Config.health cfg with
     | Some hc => [HealthTask (Schema.Health.path hc) (as_duration (Schema.Health.interval hc))]
     | None => []
     end
  ++ [ReloadTask path].

Inductive TlsError := CouldNotLoad (cert key why : string) | NoTlsFeature.
Definition tls_settings (P : Platform) (W : Pingora) (t : ServerTls.ServerTls) : result TlsError TlsSettings :=
  if tls_feature P then
    map_err (CouldNotLoad (ServerTls.cert t) (ServerTls.key t)) (intermediate W (ServerTls.cert t) (ServerTls.key t));;
    Ok (mkSettings (ServerTls.cert t) (ServerTls.key t) (ServerTls.h2 t))
  else Err NoTlsFeature.

Definition listeners (cfg : Config.Config) (tls : option TlsSettings) : list Listener :=
  let s := Config.server cfg in let t := Config.telemetry cfg in
  [Cleartext (Server.listen s) (Server.h2c s)]
  ++ match Server.tls s, tls with Some c, Some settings => [Terminating (ServerTls.listen c) settings] | _, _ => [] end
  ++ match Telemetry.prometheus t with Some p => [Scraping (Prometheus.listen p)] | None => [] end
  ++ match Telemetry.admin t with Some a => [Administering (Schema.Admin.listen a)] | None => [] end.

(** What every exported batch says of the process. *)
Definition resource_attributes (version : string) (cfg : Config.Config) : list (string * string) :=
  [("service.name", default "harmost" (Tracing.service_name (Telemetry.tracing (Config.telemetry cfg))));
   ("service.version", version)]
  ++ match Deployment.id (Config.deployment cfg) with Some id => [("deployment.id", id)] | None => [] end.

(** ** [run] *)

Inductive BootError :=
| Unloadable (e : LoadError)
| BadExporter (e : EndpointError)
| BadPolicy (e : MatcherError)
| UpgradeUnsupported
| Ended (code : N)
| BadUpstreams (e : ResolveError)
| BadTrust (e : CidrError)
| NoAppLogic
| BadTls (e : TlsError).

(** The process's exit code if it does not get to serve. *)
Definition boot_exit (e : BootError) : N := match e with Ended code => code | _ => 1 end.

Section Boot.
Context {Sem : Type} `{S : !Semaphore Sem} {M : Matching}.
Context (P : Platform) (F : Files) (W : Pingora) (VERSION : string).

Record Booted := mkBooted {
  service : Service Sem M;
  configured : ServerConf;
  background : list Task;
  bound : list Listener;
  exports_as : list (string * string);
  held_back : Duration }.

(** The order is the source's; nothing is listening before the end of it.  What
    it publishes on the way is [Published.startup_published]; [held_back] is what
    the watcher of signals is given ([Drain.prepare]). *)
Definition boot (dns : Lookup) (path : string) (flags : RunFlags) (h : Heap Sem) : result BootError Booted :=
  cfg ← map_err Unloadable (Policy.load (Sem := Sem) P F path);
  exporter ← match Tracing.otlp (Telemetry.tracing (Config.telemetry cfg)) with
             | Some o => x ← map_err BadExporter (new_exporter o); Ok (Some x)
             | None => Ok None
             end;
  p ← map_err BadPolicy (Policy.build M cfg 1);
  let '(k, h) := startup cfg h in
  let conf := server_conf flags cfg in
  refuse_if (upgrade flags && negb (linux W)) UpgradeUnsupported;;
  match bootstrap W (server_opt flags) conf with Some code => Err (Ended code) | None => Ok tt end;;
  pool ← map_err BadUpstreams (start_pool dns cfg);
  '(trust, l) ← map_err BadTrust (new_harmost p k h pool);
  refuse_if (Server.h2c (Config.server cfg) && negb (app_logic W)) NoAppLogic;;
  tls ← match Server.tls (Config.server cfg) with
        | Some t => s ← map_err BadTls (tls_settings P W t); Ok (Some s)
        | None => Ok None
        end;
  Ok (mkBooted
        (mkService l trust
           ((λ a, mkAdmin path (Purge.token (CacheDefaults.purge (Config.cache cfg))) (Schema.Admin.require_healthy_upstream a))
              <$> Telemetry.admin (Config.telemetry cfg))
           ∅ ∅ ∅ (new_checker (upstreams l) <$> Config.health cfg) exporter 1 [] [] [AdminEndpoint.policy l])
        conf (tasks path cfg) (listeners cfg tls) (resource_attributes VERSION cfg)
        (as_duration (Graceful.drain_period (Server.graceful (Config.server cfg))))).

(** ** [main] *)

(** What the first argument selects. *)
Inductive Invocation :=
| ShowVersion (text : string)
| ShowUsage
| Init (outcome : InitOutcome)
| Check (outcome : result PathError (result CheckFailure (list Notice)))
| Start (command : RunCommand)
| UnknownCommand (name : string).

Definition version_line : string :=
  "harmost " +:+ VERSION +:+ " (config schema v" +:+ print_uint SCHEMA_VERSION +:+ ", features: "
  +:+ (if tls_feature P then "tls" else "none") +:+ ")".

Definition main (env : option string) (is_file : string → bool) (D : Disk) (args : list string) : Invocation :=
  match args with
  | [] => ShowUsage
  | cmd :: _ =>
      if String.eqb cmd "version" then ShowVersion version_line
      else if String.eqb cmd "init" then
        if has_flag args "--help" || has_flag args "-h" then ShowUsage
        else Init (init (Sem := Sem) M P F D args)
      else if String.eqb cmd "check" then
        Check (path ← resolve_config_path env is_file args; Ok (check (Sem := Sem) M P F path))
      else if String.eqb cmd "run" then Start (run_command env is_file args)
      else if String.eqb cmd "help" || String.eqb cmd "--help" || String.eqb cmd "-h" then ShowUsage
      else UnknownCommand cmd
  end.

(** The exit code; [None] while the process serves. *)
Definition invocation_exit (booting : string → RunFlags → result BootError Booted) (i : Invocation) : option N :=
  match i with
  | ShowVersion _ | ShowUsage => Some 0
  | Init outcome => Some (exit_code outcome)
  | Check (Ok (Ok _)) => Some 0
  | Check (Ok (Err _)) => Some 1
  | Check (Err _) | UnknownCommand _ => Some 2
  | Start (RunRefused _) | Start (RunUnknown _) => Some 2
  | Start (Run path flags) => match booting path flags with Ok _ => None | Err e => Some (boot_exit e) end
  end.

(** ** What can refuse to start *)

(** The addresses are looked up one after another: a refusal names one of them. *)
Lemma new_backends_err dns n addrs e :
  new_backends dns n addrs = Err e → ∃ a, a ∈ addrs ∧ Upstream.resolve dns a = Err e.
Proof.
  revert n. induction addrs as [|a addrs IH]; intros n; [done|]. cbn [new_backends].
  intros [H|(b & _ & H)]%bind_err.
  - exists a. split; [left|]. apply bind_err in H as [H|(x & _ & H)]; [exact H|done].
  - apply bind_err in H as [H|(bs & _ & H)]; [|done]. destruct (IH _ H) as (a' & Ha & E). exists a'. split; [by right|done].
Qed.

Lemma start_pool_err dns cfg e :
  start_pool dns cfg = Err e → ∃ a, a ∈ Origin.upstreams (Config.origin cfg) ∧ Upstream.resolve dns a = Err e.
Proof.
  unfold start_pool, Upstream.new. intros [H|(x & _ & H)]%bind_err; [|done].
  apply bind_err in H as [H|(x & _ & H)]; [|done]. by eapply new_backends_err.
Qed.

(** What [run] does before it answers, seen from an accepted file. *)
Lemma exporter_accepted cfg :
  validate (Sem := Sem) P cfg = Ok tt →
  ∃ x, ∀ E (f : EndpointError → E),
    match Tracing.otlp (Telemetry.tracing (Config.telemetry cfg)) with
    | Some o => x ← map_err f (new_exporter o); Ok (Some x)
    | None => Ok None
    end = Ok x.
Proof.
  intros H%validate_accepted%acc_tracing. unfold validate_tracing in H.
  destruct (Tracing.otlp _) as [o|]; [|by eexists].
  apply check_then in H as [_ H]. apply check_then in H as [_ H].
  cbn in H. apply bind_ok in H as (ep & H & _). apply map_err_ok in H. unfold new_exporter. rewrite H. by eexists.
Qed.

Lemma trust_accepted cfg p k h pool :
  validate (Sem := Sem) P cfg = Ok tt → p_config M p = cfg → is_ok (new_harmost p k h pool) = true.
Proof.
  intros H <-. destruct (trust_policy_compiles P _ H) as [(t & Ht & _) _]. unfold new_harmost. by rewrite Ht.
Qed.

Lemma tls_accepted cfg t e :
  validate (Sem := Sem) P cfg = Ok tt → Server.tls (Config.server cfg) = Some t → tls_settings P W t = Err e →
  ∃ why, intermediate W (ServerTls.cert t) (ServerTls.key t) = Err why
         ∧ e = CouldNotLoad (ServerTls.cert t) (ServerTls.key t) why.
Proof.
  intros H%validate_accepted%acc_server_tls Et. unfold validate_server_tls in H. rewrite Et in H. cbn in H.
  apply check_then in H as [H _]. apply refuse_if_ok in H. unfold tls_settings.
  destruct (tls_feature P); [|done]. intros [E|(x & _ & E)]%bind_err; [|done].
  destruct (intermediate W _ _) as [x|why]; [done|]. injection E as <-. by exists why.
Qed.

Lemma tls_apart cfg t :
  validate (Sem := Sem) P cfg = Ok tt → Server.tls (Config.server cfg) = Some t →
  ServerTls.listen t ≠ Server.listen (Config.server cfg).
Proof.
  intros H%validate_accepted%acc_server_tls Et. unfold validate_server_tls in H. rewrite Et in H. cbn in H.
  apply check_then in H as [_ H]. apply check_then in H as [_ H]. apply check_then in H as [H _].
  apply refuse_if_ok in H. by case_bool_decide.
Qed.

(** Why an accepted file may still be refused. *)
Definition excused (dns : Lookup) (flags : RunFlags) (cfg : Config.Config) (e : BootError) : Prop :=
  match e with
  | UpgradeUnsupported => upgrade flags = true ∧ linux W = false
  | Ended code => bootstrap W (server_opt flags) (server_conf flags cfg) = Some code
  | BadPolicy why => Policy.build M cfg 1 = Err why
  | BadUpstreams why => ∃ a, a ∈ Origin.upstreams (Config.origin cfg) ∧ Upstream.resolve dns a = Err why
  | NoAppLogic => Server.h2c (Config.server cfg) = true ∧ app_logic W = false
  | BadTls (CouldNotLoad cert key why) =>
      intermediate W cert key = Err why
      ∧ ∃ t, Server.tls (Config.server cfg) = Some t ∧ ServerTls.cert t = cert ∧ ServerTls.key t = key
  | Unloadable _ | BadExporter _ | BadTrust _ | BadTls NoTlsFeature => False
  end.

(** The listeners a file asks for: its address, over h2c if it says so; the TLS
    one, with the certificate it names; the scrape endpoint and the operator's. *)
Definition asked (cfg : Config.Config) (x : Listener) : Prop :=
  match x with
  | Cleartext address h2c => address = Server.listen (Config.server cfg) ∧ h2c = Server.h2c (Config.server cfg)
  | Terminating address settings =>
      ∃ t, Server.tls (Config.server cfg) = Some t ∧ address = ServerTls.listen t
           ∧ settings = mkSettings (ServerTls.cert t) (ServerTls.key t) (ServerTls.h2 t)
  | Scraping address => ∃ p, Telemetry.prometheus (Config.telemetry cfg) = Some p ∧ address = Prometheus.listen p
  | Administering address => ∃ a, Telemetry.admin (Config.telemetry cfg) = Some a ∧ address = Schema.Admin.listen a
  end.

(** What is listening once the process serves: exactly what was asked for, and
    the address that speaks TLS is not the cleartext one. *)
Definition listens_as_asked (cfg : Config.Config) (b : Booted) : Prop :=
  (∀ x, x ∈ bound b ↔ asked cfg x)
  ∧ ∀ t, Server.tls (Config.server cfg) = Some t → ServerTls.listen t ≠ Server.listen (Config.server cfg).

Lemma tls_settings_ok t s :
  tls_settings P W t = Ok s → s = mkSettings (ServerTls.cert t) (ServerTls.key t) (ServerTls.h2 t).
Proof. unfold tls_settings. destruct (tls_feature P); [|done]. by intros (? & _ & [= <-])%bind_ok. Qed.

Lemma listener_if {A} (o : option A) (f : A → Listener) x :
  x ∈ match o with Some a => [f a] | None => [] end ↔ ∃ a, o = Some a ∧ x = f a.
Proof.
  destruct o as [a|]; [rewrite list_elem_of_singleton|rewrite elem_of_nil]; split; try done.
  - intros ->. by exists a.
  - by intros (b & [= ->] & ->).
  - by intros (b & ? & _).
Qed.

Lemma listening cfg tls b :
  validate (Sem := Sem) P cfg = Ok tt → bound b = listeners cfg tls →
  (∀ t, Server.tls (Config.server cfg) = Some t →
        tls = Some (mkSettings (ServerTls.cert t) (ServerTls.key t) (ServerTls.h2 t))) →
  listens_as_asked cfg b.
Proof.
  intros HV Hb Ht. split; [|intros t Et; by apply tls_apart]. intros x. rewrite Hb. unfold listeners.
  rewrite !elem_of_app, list_elem_of_singleton, !listener_if. split.
  - intros [->|[Hx|[(p & E & ->)|(a & E & ->)]]]; [done| |by exists p|by exists a].
    destruct (Server.tls (Config.server cfg)) as [t|] eqn:Et; [|by apply elem_of_nil in Hx]. rewrite (Ht t eq_refl) in Hx.
    apply list_elem_of_singleton in Hx as ->. by exists t.
  - destruct x as [a h|a s|a|a]; cbn [asked].
    + intros [-> ->]. by left.
    + intros (t & Et & -> & ->). right. left. rewrite Et, (Ht t Et). by apply list_elem_of_singleton.
    + intros (p & E & ->). right. right. left. by exists p.
    + intros (p & E & ->). right. right. right. by exists p.
Qed.

(** C11: A file that loads is never refused at start-up for anything validation
    could have known.  Either the process serves: then its state is the one
    [start] gives, and what is bound is exactly the listeners the file asks for:
    the cleartext one, the TLS one with its certificate, the scrape endpoint and
    the operator's, the TLS address apart from the cleartext one.  Or the refusal is one of these: [--upgrade] off Linux,
    Pingora ending the process, a pattern that does not compile, the name of
    a configured upstream that does not resolve, a proxy service without
    application logic although h2c was asked for, or a certificate that cannot
    be loaded any more.  It is never the exporter's endpoint, the trusted
    proxies, or TLS in a build without it. *)
Theorem boot_refuses_only dns path flags h cfg :
  Policy.load (Sem := Sem) P F path = Ok cfg →
  match boot dns path flags h with
  | Ok b => start dns path cfg h = Ok (service b) ∧ configured b = server_conf flags cfg ∧ listens_as_asked cfg b
  | Err e => excused dns flags cfg e
  end.
Proof.
  intros Hl. pose proof (load_ok _ _ _ _ Hl) as [HV _]. unfold boot, start, run. rewrite Hl.
  destruct (exporter_accepted cfg HV) as [x Hx]. cbn [map_err mbind result_bind]. rewrite !Hx. cbn [mbind result_bind].
  destruct (Policy.build M cfg 1) as [p|e] eqn:Ep; [|exact Ep].
  destruct (resolved_configs _ _ _ _ Ep) as [Ec _]. cbn [map_err mbind result_bind].
  destruct (startup cfg h) as [k h']. unfold refuse_if at 1.
  destruct (upgrade flags && negb (linux W)) eqn:Eu; [apply andb_prop in Eu as [? ?%negb_true_iff]; by split|].
  cbn [mbind result_bind]. destruct (bootstrap W _ _) as [code|] eqn:Eb; [exact Eb|]. cbn [mbind result_bind].
  destruct (start_pool dns cfg) as [pool|e] eqn:Eq; [|by apply start_pool_err]. cbn [map_err mbind result_bind].
  pose proof (trust_accepted cfg p k h' pool HV Ec) as Ht.
  destruct (new_harmost p k h' pool) as [[trust l]|e]; [clear Ht|done]. cbn [map_err mbind result_bind]. unfold refuse_if.
  destruct (Server.h2c _ && negb (app_logic W)) eqn:El; [apply andb_prop in El as [? ?%negb_true_iff]; by split|].
  cbn [mbind result_bind]. pose proof (tls_accepted cfg) as Hw.
  destruct (Server.tls (Config.server cfg)) as [t|] eqn:Es.
  - destruct (tls_settings P W t) as [s|e] eqn:Et; cbn [map_err mbind result_bind].
    + split; [done|]. split; [done|]. apply (listening cfg (Some s)); [done..|]. intros t' [= <-]%(eq_trans (eq_sym Es)).
      by rewrite (tls_settings_ok _ _ Et).
    + destruct (Hw t e HV eq_refl Et) as (why & Hi & ->). split; [exact Hi|]. by exists t.
  - split; [done|]. split; [done|]. apply (listening cfg None); [done..|]. intros t' E. by rewrite Es in E.
Qed.
End Boot.
Arguments Booted Sem M : clear implicits.

Import CountingSemaphore.

(** Off Linux, with everything else as it should be. *)
Definition sample_pingora : Pingora := mkPingora false (λ _ _, None) true (λ _ _, Ok tt).
Abbreviation boots flags :=
  (boot (Sem := counter) (M := sample_matching) sample_platform sample_files sample_pingora "0.1.0" local_dns "next.yaml" flags empty_heap).

Lemma boot_refuses_only_witness :
  boots (mkFlags true false false) = Err UpgradeUnsupported
  ∧ match boots (mkFlags false true false) with
    | Ok b => start (M := sample_matching) local_dns "next.yaml" next_config empty_heap = Ok (service b)
    | Err _ => False
    end.
Proof.
  assert (load_next = Ok next_config) as En by (vm_compute; reflexivity).
  split; [by vm_compute|].
  assert (is_ok (boots (mkFlags false true false)) = true) as Hok by (vm_compute; reflexivity).
  pose proof (boot_refuses_only (M := sample_matching) sample_platform sample_files sample_pingora "0.1.0" local_dns "next.yaml" (mkFlags false true false) empty_heap
                next_config En) as H.
  destruct (boots (mkFlags false true false)) as [b|e]; [exact (proj1 H)|discriminate Hok].
Defined.
