(* ===== verification/FuzzTargets.v ===== *)
(** * The fuzz targets ([src/fuzz/fuzz_targets/])

    Each target takes an input and asserts what must hold of it; here it is the
    conjunction of its assertions, over the definitions the other files give of
    the code it calls.  [no_fuzz_input_fails]: six of the seven hold of every
    input there is, and the seventh of exactly those its author had in mind.
    Header names and values are what the [http] crate accepts, the name as it
    stores it; the hasher behind [fingerprint] is any function of the key. *)

From S2P Require Import Prelude Words Text Units Schema Orders Net Classifier CacheKey CachePolicy.
From S2P Require Import Semaphores Limiter Validation ValidationTheorems Forwarded Policy.
Local Open Scope string_scope.
Local Open Scope list_scope.
Local Open Scope N_scope.

(** [HeaderMap::append] and [insert]. *)
Definition append_header (name value : string) (h : HeaderMap) : HeaderMap :=
  λ n, if bool_decide (n = name) then h n ++ [value] else h n.
Definition insert_value (name value : string) (h : HeaderMap) : HeaderMap :=
  λ n, if bool_decide (n = name) then [value] else h n.
Definition no_headers : HeaderMap := λ _, [].

(** ** [cache_control.rs] *)

Definition cache_control_target (data : string) : bool :=
  let parsed := parse_CacheControl data in
  match s_maxage parsed, max_age parsed with
  | Some shared, _ => bool_decide (shared_ttl parsed = Some (from_secs shared))
  | None, Some private_age => bool_decide (shared_ttl parsed = Some (from_secs private_age))
  | None, None => bool_decide (shared_ttl parsed = None)
  end
  && no_store (parse_CacheControl ("no-store," +:+ data))
  && no_store (parse_CacheControl (data +:+ ",no-store")).

(** ** [query.rs] *)

Inductive Mode := ModeNone | ModeInclude | ModeExclude.

Definition query_target (raw : string) (mode : Mode) (keys : list string) : bool :=
  let policy := match mode with
                | ModeNone => None
                | ModeInclude => Some (QueryPolicy.mk Include keys)
                | ModeExclude => Some (QueryPolicy.mk Exclude keys)
                end in
  let out := canonical_query raw policy in
  bool_decide (canonical_query out policy = out)
  && forallb (λ pair,
       let key := default EmptyString (head (split_on "=" pair)) in
       match mode with
       | ModeNone => true
       | ModeInclude => existsb (λ k, bool_decide (k = key)) keys
       | ModeExclude => negb (existsb (λ k, bool_decide (k = key)) keys)
       end)
     (filter (λ p, is_empty p = false) (split_on "&" out)).

(** ** [vary.rs] *)

Definition vary_target (vary : string) (key_headers : list string) : bool :=
  match unsupported_vary vary key_headers with
  | None =>
      forallb (λ token,
        let token := to_ascii_lowercase (trim token) in
        is_empty token
        || (negb (bool_decide (token = "*"))
            && (bool_decide (token = "accept-encoding") || existsb (λ k, eq_ignore_ascii_case k token) key_headers)))
        (split_on "," vary)
  | Some _ => true
  end
  && match unsupported_vary (vary +:+ ", x-not-in-any-key") key_headers with Some _ => true | None => false end.

(** ** [cookies.rs] *)

Section Http.
(** [HeaderValue::from_str], [HeaderName::from_bytes] and [Method::from_bytes]. *)
Context (value_ok : string → bool) (header_name : string → option string) (method_of : string → option Method).

(** [split(|byte| *byte == b'=')]'s first part, by position. *)
Fixpoint before_equals (s : string) : string :=
  match s with
  | EmptyString => EmptyString
  | String a s' => if bool_decide (a = "="%char) then EmptyString else String a (before_equals s')
  end.

Definition cookies_target (cookie_headers : list string) (wanted : string) : bool :=
  let accepted := filter (λ raw, value_ok raw = true) cookie_headers in
  let headers := foldl (λ h raw, append_header "cookie" raw h) no_headers accepted in
  let req := mkRequest GET "shop.example.com" "/p" None headers in
  let found := has_cookie_named req wanted in
  let reference := existsb (λ raw,
      existsb (λ pair, bool_decide (trim_ascii (before_equals pair) = wanted)) (split_on ";" raw)) accepted in
  bool_decide (found = reference).

(** ** [cache_key.rs] *)

Record KeyRequest := mkKeyRequest {
  in_scheme : string; in_host : string; in_method : string; in_path : string; in_query : option string;
  in_headers : list (string * string); in_deployment : option string }.

Definition read_headers (l : list (string * string)) : list (string * string) :=
  omap (λ nv, name ← header_name nv.1; if value_ok nv.2 then Some (name, nv.2) else None) l.

Definition build_key (req : KeyRequest) : option CacheKey :=
  method ← method_of (in_method req);
  let accepted := read_headers (in_headers req) in
  let headers := foldl (λ h nv, append_header nv.1 nv.2 h) no_headers accepted in
  Some (CacheKey.build (mkBuilder (in_scheme req) None accepted.*1 (in_deployment req))
          (mkRequest method (in_host req) (in_path req) (in_query req) headers)).

Definition cache_key_target (fingerprint : CacheKey → N) (left right : KeyRequest) : bool :=
  match build_key left, build_key right with
  | Some a, Some b =>
      bool_decide (canonical_string a = canonical_string a)
      && bool_decide (fingerprint a = fingerprint a)
      && bool_decide (bool_decide (a = b) = bool_decide (canonical_string a = canonical_string b))
      && (if bool_decide (a = b) then bool_decide (fingerprint a = fingerprint b) else true)
  | _, _ => true
  end.

(** ** [forwarded.rs] *)

Record ForwardedInput := mkForwardedInput {
  x_forwarded_for : string; x_forwarded_proto : string; in_forwarded : string;
  use_rfc7239 : bool; in_peer_trusted : bool; tls_listener : bool }.

Definition facts_eqb (a b : ClientFacts) : bool :=
  bool_decide (fact_client_ip a = fact_client_ip b) && bool_decide (fact_scheme a = fact_scheme b)
  && eqb (peer_trusted a) (peer_trusted b).

(** An [expect] or [unwrap] that fails is a failed target. *)
Definition forwarded_target (i : ForwardedInput) : bool :=
  let source := if use_rfc7239 i then Forwarded else XForwarded in
  match Forwarded.build (TrustedProxies.mk ["10.0.0.0/8"] source source),
        parse_ip (if in_peer_trusted i then "10.0.0.4" else "203.0.113.7") with
  | Ok policy, Some peer =>
      let headers := foldl (λ h nv, if value_ok nv.2 then insert_value nv.1 nv.2 h else h) no_headers
        [("x-forwarded-for", x_forwarded_for i); ("x-forwarded-proto", x_forwarded_proto i); ("forwarded", in_forwarded i)] in
      let listener := if tls_listener i then Https else Http in
      let facts := Forwarded.resolve policy (Some peer) headers listener in
      (bool_decide (fact_scheme facts = "http") || bool_decide (fact_scheme facts = "https"))
      && (if in_peer_trusted i then true
          else negb (peer_trusted facts) && bool_decide (fact_client_ip facts = Some peer)
               && bool_decide (fact_scheme facts = scheme_as_str listener))
      && facts_eqb facts (Forwarded.resolve policy (Some peer) headers listener)
  | _, _ => false
  end.
End Http.

(** ** [config.rs] *)

Definition config_target {Sem} `{S : !Semaphore Sem} (P : Platform) (F : Files) (data : string) : bool :=
  match from_str F data with
  | Err _ => true
  | Ok config =>
      let verdict := validate (Sem := Sem) P config in
      eqb (is_ok verdict) (is_ok (validate (Sem := Sem) P config))
      && (if is_ok verdict
          then forallb (λ route,
                 match Route.cache route with
                 | Some cache =>
                     if RouteCache.override_origin cache
                     then match (t ← RouteCache.ttl cache; Ttl.max t) with Some _ => true | None => false end
                     else true
                 | None => true
                 end) (Config.routes config)
          else true)
  end.

(** ** Why they hold *)

(** What a refusal put in front of a header survives the rest of it. *)
Lemma apply_directive_keeps cc part : no_store cc = true → no_store (apply_directive cc part) = true.
Proof.
  intros H. unfold apply_directive. destruct (directive part) as [n v], cc as [ns nc pr pu ma sm sw si].
  cbn [no_store] in H. subst ns. cbv zeta. by repeat case_bool_decide.
Qed.

Lemma directives_keep parts cc : no_store cc = true → no_store (foldl apply_directive cc parts) = true.
Proof. revert cc. induction parts as [|p parts IH]; intros cc H; [done|]. by apply IH, apply_directive_keeps. Qed.

Lemma cache_control_ok data : cache_control_target data = true.
Proof.
  unfold cache_control_target. apply andb_true_iff. split; [apply andb_true_iff; split|].
  - unfold shared_ttl. destruct (s_maxage _) as [s|], (max_age _) as [m|]; by apply bool_decide_eq_true_2.
  - unfold parse_CacheControl. change ("no-store," +:+ data) with ("no-store" +:+ str1 "," +:+ data).
    rewrite split_on_app_sep, foldl_app. apply directives_keep. by vm_compute.
  - unfold parse_CacheControl. change (data +:+ ",no-store") with (data +:+ str1 "," +:+ "no-store").
    rewrite split_on_app_sep, foldl_app. change (split_on "," "no-store") with ["no-store"]. cbn [foldl].
    unfold apply_directive. change (directive "no-store") with ("no-store", @None string). by destruct (foldl _ _ _).
Qed.

Lemma canonical_order_idem ps : canonical_order (canonical_order ps) = canonical_order ps.
Proof.
  apply canonical_order_eq. destruct (decide (NoDup ps.*1)) as [H|H].
  - right. split; [by rewrite canonical_order_perm|by rewrite canonical_order_perm].
  - left. unfold canonical_order. by rewrite bool_decide_eq_false_2.
Qed.

Lemma canonical_query_idem raw policy : canonical_query (canonical_query raw policy) policy = canonical_query raw policy.
Proof.
  rewrite (canonical_query_unfold (canonical_query raw policy)), canonical_query_unfold. f_equal. f_equal.
  unfold kept at 1. rewrite <-canonical_query_unfold, parse_canonical_query, filter_all.
  - apply canonical_order_idem.
  - apply Forall_forall. intros kv. rewrite canonical_order_perm. by intros [? _]%list_elem_of_filter.
Qed.

Lemma split_key pair : default EmptyString (head (split_on "=" pair)) = (parse_pair pair).1.
Proof.
  unfold parse_pair. destruct (split_once "=" pair) as [[k v]|] eqn:E.
  - apply split_once_some in E as [-> Hk]. by rewrite split_on_app.
  - apply split_once_none in E. by rewrite split_on_clean.
Qed.

Lemma existsb_key (keys : list string) (k : string) : existsb (λ k', bool_decide (k' = k)) keys = bool_decide (k ∈ keys).
Proof.
  apply eq_bool_prop_intro. rewrite !Is_true_true, existsb_exists, bool_decide_eq_true. split.
  - intros (x & Hx & ->%bool_decide_eq_true). by apply list_elem_of_In.
  - intros H. exists k. split; [by apply list_elem_of_In|by apply bool_decide_eq_true].
Qed.

Lemma query_ok raw mode keys : query_target raw mode keys = true.
Proof.
  unfold query_target. cbv zeta. set (policy := match mode with ModeNone => None | _ => _ end).
  apply andb_true_iff. split; [apply bool_decide_eq_true, canonical_query_idem|].
  apply forallb_forall. intros pair Hp. apply list_elem_of_In in Hp.
  assert (keeps policy (parse_pair pair) = true) as Hk.
  { assert (parse_pair pair ∈ parse_query (canonical_query raw policy)) as Hin by (by apply list_elem_of_fmap_2).
    rewrite parse_canonical_query, canonical_order_perm in Hin. by apply list_elem_of_filter in Hin as [? _]. }
  rewrite split_key, existsb_key. by destruct mode.
Qed.

Lemma vary_ok vary ks :
  vary_target vary ks = true ↔ is_Some (unsupported_vary vary ks) ∨ "x-not-in-any-key" ∉ to_ascii_lowercase <$> ks.
Proof.
  unfold vary_target. rewrite andb_true_iff.
  assert (match unsupported_vary (vary +:+ ", x-not-in-any-key") ks with Some _ => true | None => false end = true
          ↔ is_Some (unsupported_vary vary ks) ∨ "x-not-in-any-key" ∉ to_ascii_lowercase <$> ks) as ->.
  { unfold unsupported_vary. change (vary +:+ ", x-not-in-any-key") with (vary +:+ str1 "," +:+ " x-not-in-any-key").
    rewrite split_on_app_sep. change (split_on "," " x-not-in-any-key") with [" x-not-in-any-key"].
    assert (∀ o : option string, match o with Some _ => true | None => false end = true ↔ o ≠ None) as -> by (by intros []).
    rewrite unsupported_vary_go_none, Forall_app, Forall_singleton, <-unsupported_vary_go_none.
    assert (token_keyed ks " x-not-in-any-key" ↔ "x-not-in-any-key" ∈ to_ascii_lowercase <$> ks) as ->.
    { unfold token_keyed. change (to_ascii_lowercase (trim " x-not-in-any-key")) with "x-not-in-any-key". naive_solver. }
    destruct (unsupported_vary_go (split_on "," vary) ks); [naive_solver|].
    destruct (decide ("x-not-in-any-key" ∈ to_ascii_lowercase <$> ks)); naive_solver. }
  split; [by intros [_ ?]|]. intros H. split; [|done].
  destruct (unsupported_vary vary ks) as [?|] eqn:E; [done|]. clear H. unfold unsupported_vary in E.
  apply forallb_forall. intros token Ht%list_elem_of_In. cbv zeta.
  revert E Ht. generalize (split_on "," vary). intros ts. induction ts as [|t ts IH]; [by intros _ ?%elem_of_nil|].
  cbn [unsupported_vary_go]. cbv zeta. intros E [->|Ht]%elem_of_cons.
  - revert E. repeat case_match; try done. intros _. cbn. by apply negb_false_iff.
  - apply IH; [|done]. revert E. by repeat case_match.
Qed.

Section Targets.
Context (value_ok : string → bool) (header_name : string → option string) (method_of : string → option Method).

Lemma appended (l : list string) name h : foldl (λ h raw, append_header name raw h) h l name = h name ++ l.
Proof.
  revert h. induction l as [|v l IH]; intros h; simpl; [by rewrite app_nil_r|].
  rewrite IH. unfold append_header. by rewrite bool_decide_eq_true_2, <-app_assoc.
Qed.

Lemma before_equals_key pair : before_equals pair = cookie_key pair.
Proof.
  unfold cookie_key. induction pair as [|a s IH]; [done|]. cbn [before_equals split_once].
  case_bool_decide; [by rewrite decide_True|]. rewrite decide_False, IH by done. by destruct (split_once "=" s) as [[]|].
Qed.

Lemma existsb_ext {A} (f g : A → bool) l : (∀ x, f x = g x) → existsb f l = existsb g l.
Proof. intros H. induction l as [|x l IH]; simpl; [done|]. by rewrite H, IH. Qed.

Lemma cookies_ok cookie_headers wanted : cookies_target value_ok cookie_headers wanted = true.
Proof.
  unfold cookies_target. apply bool_decide_eq_true. unfold has_cookie_named, get_all. cbn [headers].
  rewrite appended. apply existsb_ext. intros raw. apply existsb_ext. intros pair. by rewrite before_equals_key.
Qed.

Lemma cache_key_ok fingerprint left right : cache_key_target value_ok header_name method_of fingerprint left right = true.
Proof.
  unfold cache_key_target. destruct (build_key value_ok header_name method_of left) as [a|], (build_key value_ok header_name method_of right) as [b|]; try done.
  rewrite (bool_decide_eq_true_2 (canonical_string a = canonical_string a)), (bool_decide_eq_true_2 (fingerprint a = fingerprint a)) by done.
  cbn [andb].
  destruct (decide (a = b)) as [->|H].
  - rewrite (bool_decide_eq_true_2 (b = b)), (bool_decide_eq_true_2 (canonical_string b = canonical_string b)) by done.
    by rewrite (bool_decide_eq_true_2 (fingerprint b = fingerprint b)).
  - rewrite !(bool_decide_eq_false_2 (a = b)) by done.
    rewrite (bool_decide_eq_false_2 (canonical_string a = canonical_string b)); [done|].
    by intros ?%canonical_string_inj.
Qed.

Lemma forwarded_ok i : forwarded_target value_ok i = true.
Proof.
  unfold forwarded_target. set (source := if use_rfc7239 i then _ else _).
  assert (Forwarded.build (TrustedProxies.mk ["10.0.0.0/8"] source source)
          = Ok (mkTrust [mkCidr (V4 167772160) 8] source source)) as -> by (unfold Forwarded.build; by vm_compute).
  assert (parse_ip (if in_peer_trusted i then "10.0.0.4" else "203.0.113.7")
          = Some (V4 (if in_peer_trusted i then 167772164 else 3405803783))) as -> by (destruct (in_peer_trusted i); by vm_compute).
  set (policy := mkTrust _ source source). set (peer := V4 _). cbv zeta. set (h := foldl _ _ _).
  set (listener := if tls_listener i then Https else Http).
  destruct (headers_need_a_trusted_peer policy (Some peer) h listener) as (Hs & Ht & Hu).
  set (facts := Forwarded.resolve policy (Some peer) h listener) in *. apply andb_true_iff. split; [apply andb_true_iff; split|].
  - destruct Hs as [->| ->]; by vm_compute.
  - destruct (in_peer_trusted i) eqn:E; [done|]. assert (peer_trusted facts = false) as Hf by (rewrite Ht; by vm_compute).
    rewrite Hf, (Hu Hf). cbn [negb andb fact_client_ip fact_scheme]. by rewrite !bool_decide_eq_true_2.
  - unfold facts_eqb. rewrite !bool_decide_eq_true_2 by done. by destruct (peer_trusted facts).
Qed.
End Targets.

Lemma config_ok {Sem} `{S : !Semaphore Sem} (P : Platform) (F : Files) data : config_target (Sem := Sem) P F data = true.
Proof.
  unfold config_target. destruct (from_str F data) as [config|e]; [|done]. cbv zeta. rewrite eqb_reflx. cbn [andb].
  destruct (validate (Sem := Sem) P config) as [[]|e] eqn:HV; [|done]. cbn [is_ok]. apply forallb_forall. intros r Hr%list_elem_of_In.
  destruct (Route.cache r) as [rc|] eqn:Ec; [|done]. destruct (RouteCache.override_origin rc) eqn:Eo; [|done].
  pose proof (route_cache_ok _ _ _ _ (validate_accepted _ _ HV) Hr Ec) as Hc. unfold check_route_cache in Hc.
  rewrite Ec in Hc. cbn in Hc. 
  rewrite Eo in Hc. apply check_then in Hc as [_ Hc]. apply check_then in Hc as [Hc _]. checks Hc. apply refuse_if_ok in Hc.
  apply bool_decide_eq_false in Hc. by destruct (t ← RouteCache.ttl rc; Ttl.max t).
Qed.

(** C38: No fuzz input fails.  What each target asserts holds of every input:
    refusals in [Cache-Control] are never lost and the shared lifetime follows
    [s-maxage]; a canonical query is its own canonical form and the filter keeps
    what it says; the cookie detector agrees with the naive reading; keys render
    alike exactly when they are equal; an untrusted peer moves nothing; an
    accepted configuration bounds every override.  Only [vary.rs] asserts more
    than is so: it fails on exactly the inputs whose key carries the header it
    takes to be in no key, unless the response was already refused. *)
Theorem no_fuzz_input_fails {Sem} `{S : !Semaphore Sem} (P : Platform) (F : Files) value_ok header_name method_of fingerprint :
  (∀ data, cache_control_target data = true) ∧
  (∀ raw mode keys, query_target raw mode keys = true) ∧
  (∀ cookie_headers wanted, cookies_target value_ok cookie_headers wanted = true) ∧
  (∀ left right, cache_key_target value_ok header_name method_of fingerprint left right = true) ∧
  (∀ i, forwarded_target value_ok i = true) ∧
  (∀ data, config_target (Sem := Sem) P F data = true) ∧
  ∀ vary ks, vary_target vary ks = true ↔
    is_Some (unsupported_vary vary ks) ∨ "x-not-in-any-key" ∉ to_ascii_lowercase <$> ks.
Proof.
  split; [exact cache_control_ok|]. split; [exact query_ok|]. split; [apply cookies_ok|]. split; [apply cache_key_ok|].
  split; [apply forwarded_ok|]. split; [apply config_ok|exact vary_ok].
Qed.

(** The input on which [vary.rs] fails with nothing wrong in the proxy. *)
Example vary_target_false_alarm : vary_target "accept-encoding" ["x-not-in-any-key"] = false.
Proof. vm_compute. reflexivity. Qed.
