(* ===== verification/Sha1.v ===== *)
(** * The WebSocket accept key ([src/bench/slow-origin/src/main.rs])

    [sha1], [base64] and [websocket_accept] of the benchmark's origin, beside
    what they are copies of: FIPS 180-4 stated as relations (the padding, the
    message schedule, the rounds), and a base64 reader.  Bytes are numbers below
    256; words are numbers below [2^32], with Rust's operations written out. *)

From S2P Require Import Prelude Words Text.
Local Open Scope string_scope.
Local Open Scope list_scope.
Local Open Scope N_scope.

Abbreviation octets := (list N).
Definition of_text (s : string) : octets := code <$> list_ascii_of_string s.
Definition is_octet (b : N) : Prop := b < 256.

(** ** Words of 32 bits *)

Definition two32 : N := 4294967296.
Definition wadd (a b : N) : N := (a + b) mod two32.
Definition rotate_left (x n : N) : N := N.lor (N.shiftl x n mod two32) (N.shiftr x (32 - n)).
Definition not32 (x : N) : N := N.lxor x (two32 - 1).

(** [to_be_bytes] of [k] bytes, and [from_be_bytes]. *)
Fixpoint be_bytes (k : nat) (n : N) : octets :=
  match k with O => [] | S k => N.shiftr n (8 * N.of_nat k) mod 256 :: be_bytes k n end.
Definition from_be (bs : octets) : N := foldl (λ n b, N.lor (N.shiftl n 8) b) 0 bs.

(** [slice::chunks]: the length is enough fuel for a positive [n]. *)
Fixpoint chunks_go {A} (fuel n : nat) (l : list A) : list (list A) :=
  match fuel, l with
  | S fuel, _ :: _ => take n l :: chunks_go fuel n (drop n l)
  | _, _ => []
  end.
Definition chunks {A} (n : nat) (l : list A) : list (list A) := chunks_go (length l) n l.

(** ** [sha1] *)

Definition initial : list N := [0x67452301; 0xEFCDAB89; 0x98BADCFE; 0x10325476; 0xC3D2E1F0].

(** [while padded.len() % 64 != 56 { padded.push(0) }]. *)
Fixpoint pad_zeros (fuel : nat) (padded : octets) : octets :=
  match fuel with
  | O => padded
  | S fuel => if bool_decide (length padded mod 64 = 56)%nat then padded else pad_zeros fuel (padded ++ [0])
  end.
Definition pad (message : octets) : octets :=
  let bit_len := wrapping_mul (N.of_nat (length message)) 8 in
  pad_zeros 64 (message ++ [0x80]) ++ be_bytes 8 bit_len.

Definition schedule (block : octets) : list N :=
  let w := foldl (λ w iw, <[iw.1 := from_be iw.2]> w) (replicate 80 0) (imap pair (chunks 4 block)) in
  foldl (λ w i,
      <[i := rotate_left (N.lxor (N.lxor (N.lxor (nth (i - 3) w 0) (nth (i - 8) w 0)) (nth (i - 14) w 0)) (nth (i - 16) w 0)) 1]> w)
    w (seq 16 64).

Definition Five := (N * N * N * N * N)%type.

Definition round (s : Five) (iw : nat * N) : Five :=
  let '(a, b, c, d, e) := s in
  let i := iw.1 in
  let '(f, k) :=
    if (i <? 20)%nat then (N.lor (N.land b c) (N.land (not32 b) d), 0x5A827999)
    else if (i <? 40)%nat then (N.lxor (N.lxor b c) d, 0x6ED9EBA1)
    else if (i <? 60)%nat then (N.lor (N.lor (N.land b c) (N.land b d)) (N.land c d), 0x8F1BBCDC)
    else (N.lxor (N.lxor b c) d, 0xCA62C1D6) in
  let temp := wadd (wadd (wadd (wadd (rotate_left a 5) f) e) k) iw.2 in
  (temp, a, rotate_left b 30, c, d).

Definition five (h : list N) : Five := (nth 0 h 0, nth 1 h 0, nth 2 h 0, nth 3 h 0, nth 4 h 0).

Definition compress (h : list N) (block : octets) : list N :=
  let '(a, b, c, d, e) := foldl round (five h) (imap pair (schedule block)) in
  [wadd (nth 0 h 0) a; wadd (nth 1 h 0) b; wadd (nth 2 h 0) c; wadd (nth 3 h 0) d; wadd (nth 4 h 0) e].

Definition sha1 (message : octets) : octets :=
  foldl compress initial (chunks 64 (pad message)) ≫= be_bytes 4.

(** ** [base64] *)

Definition ALPHABET : octets := of_text "ABCDEFGHIJKLMNOPQRSTUVWXYZabcdefghijklmnopqrstuvwxyz0123456789+/".

Definition encode_chunk (chunk : octets) : octets :=
  let n := N.lor (N.lor (N.shiftl (nth 0 chunk 0) 16) (N.shiftl (nth 1 chunk 0) 8)) (nth 2 chunk 0) in
  (λ i, if (i <=? length chunk)%nat
        then nth (N.to_nat (N.land (N.shiftr n (18 - N.of_nat i * 6)) 63)) ALPHABET 0
        else 61) <$> seq 0 4.
Definition base64 (bs : octets) : octets := chunks 3 bs ≫= encode_chunk.

(** ** [websocket_accept] *)

Definition GUID : string := "258EAFA5-E914-47DA-95CA-C5AB0DC85B11".
Definition websocket_accept (key : string) : string :=
  string_of_list_ascii (chr <$> base64 (sha1 (of_text (key +:+ GUID)))).

(** ** FIPS 180-4 *)

(** Section 5.1.1: one bit, the fewest zeros that leave room for the length, and
    the length in bits; in bytes, since the message is. *)
Definition padded (m p : octets) : Prop :=
  ∃ z, (8 * N.of_nat (length m) + 8 + 8 * N.of_nat z) mod 512 = 448 ∧ (z < 64)%nat
       ∧ p = m ++ 0x80 :: replicate z 0 ++ be_bytes 8 (8 * N.of_nat (length m)).

(** Section 5.2.1: the 32-bit words of a block, most significant byte first. *)
Definition word (block : octets) (t : nat) : N :=
  nth (4 * t) block 0 * 16777216 + nth (4 * t + 1) block 0 * 65536 + nth (4 * t + 2) block 0 * 256 + nth (4 * t + 3) block 0.

(** Section 4.1.1 and 4.2.1. *)
Definition Ch (x y z : N) : N := N.lxor (N.land x y) (N.land (not32 x) z).
Definition Parity (x y z : N) : N := N.lxor (N.lxor x y) z.
Definition Maj (x y z : N) : N := N.lxor (N.lxor (N.land x y) (N.land x z)) (N.land y z).
Definition F (t : nat) : N → N → N → N :=
  if (t <? 20)%nat then Ch else if (t <? 40)%nat then Parity else if (t <? 60)%nat then Maj else Parity.
Definition K (t : nat) : N :=
  if (t <? 20)%nat then 0x5A827999 else if (t <? 40)%nat then 0x6ED9EBA1 else if (t <? 60)%nat then 0x8F1BBCDC else 0xCA62C1D6.

(** Section 6.1.2: the schedule, the rounds, the next hash value. *)
Definition message_schedule (block : octets) (W : nat → N) : Prop :=
  (∀ t, (t < 16)%nat → W t = word block t) ∧
  ∀ t, (16 ≤ t < 80)%nat →
    W t = rotate_left (N.lxor (N.lxor (N.lxor (W (t - 3)%nat) (W (t - 8)%nat)) (W (t - 14)%nat)) (W (t - 16)%nat)) 1.

Fixpoint rounds (W : nat → N) (h : Five) (t : nat) : Five :=
  match t with
  | O => h
  | S t =>
      let '(a, b, c, d, e) := rounds W h t in
      (wadd (wadd (wadd (wadd (rotate_left a 5) (F t b c d)) e) (K t)) (W t), a, rotate_left b 30, c, d)
  end.

Definition next_hash (h : Five) (block : octets) (h' : Five) : Prop :=
  ∃ W, message_schedule block W ∧
    let '(h0, h1, h2, h3, h4) := h in let '(a, b, c, d, e) := rounds W h 80 in
    h' = (wadd h0 a, wadd h1 b, wadd h2 c, wadd h3 d, wadd h4 e).

Inductive hashed : Five → octets → Five → Prop :=
| hashed_nil h : hashed h [] h
| hashed_block h block rest h1 h2 :
    length block = 64%nat → next_hash h block h1 → hashed h1 rest h2 → hashed h (block ++ rest) h2.

Definition digest (h : Five) : octets :=
  let '(a, b, c, d, e) := h in
  [a; b; c; d; e] ≫= λ w, [w / 16777216 mod 256; w / 65536 mod 256; w / 256 mod 256; w mod 256].

(** What the standard says the hash of a message is. *)
Definition fips_sha1 (m d : octets) : Prop :=
  ∃ p h, padded m p ∧ hashed (five initial) p h ∧ d = digest h.

(** ** The loops *)

Lemma chunks_go_fuel {A} f1 f2 n (l : list A) :
  (0 < n)%nat → (length l ≤ f1)%nat → (length l ≤ f2)%nat → chunks_go f1 n l = chunks_go f2 n l.
Proof.
  intros Hn. revert f2 l. induction f1 as [|f1 IH]; intros f2 l H1 H2; [by destruct l, f2; simpl in *; [..|lia]|].
  destruct l as [|x l]; [by destruct f2|]. destruct f2 as [|f2]; [simpl in H2; lia|]. cbn [chunks_go]. f_equal.
  apply IH; rewrite length_drop; simpl in *; lia.
Qed.

Lemma chunks_app {A} n (a b : list A) : (0 < n)%nat → length a = n → chunks n (a ++ b) = a :: chunks n b.
Proof.
  intros Hn Ha. unfold chunks. destruct (a ++ b) as [|x l] eqn:E; [destruct a; simpl in *; [lia|done]|].
  cbn [length chunks_go]. rewrite <-E, take_app_length', drop_app_length' by done. f_equal.
  apply chunks_go_fuel; [done| |done]. apply (f_equal length) in E. rewrite length_app in E. simpl in E. lia.
Qed.

(** A message is padded to whole blocks, in fewer than 64 rounds of the loop. *)
Definition missing (n : nat) : nat := (if n mod 64 <=? 56 then 56 - n mod 64 else 120 - n mod 64)%nat.

(** The quotient and remainder of [n] by 64, for [lia]. *)
Ltac by_64 n := pose proof (Nat.div_mod_eq n 64); pose proof (Nat.mod_upper_bound n 64 ltac:(lia)).

Lemma missing_0 n : (n mod 64 = 56)%nat ↔ missing n = 0%nat.
Proof. unfold missing. by_64 n. destruct (Nat.leb_spec (n mod 64) 56); lia. Qed.
Lemma missing_S n : (n mod 64 ≠ 56)%nat → missing n = S (missing (S n)).
Proof. unfold missing. by_64 n. by_64 (S n). destruct (Nat.leb_spec (n mod 64) 56), (Nat.leb_spec (S n mod 64) 56); lia. Qed.
Lemma missing_fits n : ((n + missing n) mod 64 = 56)%nat ∧ (missing n < 64)%nat.
Proof. unfold missing. by_64 n. by_64 (n + missing n)%nat. unfold missing in *. destruct (Nat.leb_spec (n mod 64) 56); lia. Qed.

Lemma bits_of_bytes n z :
  (8 * N.of_nat n + 8 + 8 * N.of_nat z) mod 512 = 448 ↔ ((S n + z) mod 64 = 56)%nat.
Proof.
  replace (8 * N.of_nat n + 8 + 8 * N.of_nat z) with (8 * N.of_nat (S n + z)) by lia.
  change 512 with (8 * N.of_nat 64). rewrite N.Div0.mul_mod_distr_l, <-Nat2N.inj_mod. lia.
Qed.

Lemma pad_zeros_spec fuel l : (missing (length l) < fuel)%nat → pad_zeros fuel l = l ++ replicate (missing (length l)) 0.
Proof.
  revert l. induction fuel as [|fuel IH]; intros l Hf; [lia|]. cbn [pad_zeros].
  case_bool_decide as E; [by rewrite (proj1 (missing_0 _) E), app_nil_r|].
  assert (length (l ++ [0]) = S (length l)) as Hl by (rewrite length_app; simpl; lia).
  apply missing_S in E. rewrite IH, Hl, <-app_assoc by (rewrite Hl; lia). by rewrite E.
Qed.

Lemma pad_padded m : 8 * N.of_nat (length m) <= U64_MAX → padded m (pad m).
Proof.
  intros Hm. destruct (missing_fits (S (length m))) as [Hz Hl]. exists (missing (S (length m))).
  split; [by apply bits_of_bytes|]. split; [done|]. unfold pad.
  rewrite pad_zeros_spec; rewrite length_app; change (length [0x80]) with 1%nat; rewrite Nat.add_1_r; [|done].
  rewrite <-!app_assoc. cbn [app]. do 4 f_equal.
  unfold wrapping_mul. rewrite N.mod_small by (rewrite two64_eq; lia). lia.
Qed.

Lemma padded_unique m p q : padded m p → padded m q → p = q.
Proof.
  intros (z & Hz%bits_of_bytes & Lz & ->) (y & Hy%bits_of_bytes & Ly & ->). replace y with z; [done|].
  by_64 (S (length m) + z)%nat. by_64 (S (length m) + y)%nat. lia.
Qed.

Lemma padded_whole m p : padded m p → ∃ n, length p = (64 * n)%nat.
Proof.
  intros (z & Hz%bits_of_bytes & _ & ->). rewrite length_app. cbn [length]. rewrite length_app, length_replicate.
  change (length (be_bytes 8 _)) with 8%nat. by_64 (S (length m) + z)%nat.
  exists (S ((S (length m) + z) / 64)). lia.
Qed.

(** ** The words *)

Lemma shiftl_lor n b k : b < 2 ^ k → N.lor (N.shiftl n k) b = n * 2 ^ k + b.
Proof.
  intros Hb. assert (N.land (N.shiftl n k) b = 0) as Hd.
  { apply N.bits_inj_0. intros i. rewrite N.land_spec. destruct (N.lt_ge_cases i k) as [Hi|Hi].
    - by rewrite N.shiftl_spec_low.
    - destruct (decide (b = 0)) as [->|Hz]; [by rewrite N.bits_0, andb_false_r|].
      rewrite (N.bits_above_log2 b), andb_false_r; [done|]. apply N.lt_le_trans with k; [|done]. by apply N.log2_lt_pow2; [lia|]. }
  rewrite <-N.lxor_lor, <-N.add_nocarry_lxor by done. by rewrite N.shiftl_mul_pow2.
Qed.

Lemma from_be_word a b c d : is_octet a → is_octet b → is_octet c → is_octet d →
  from_be [a; b; c; d] = a * 16777216 + b * 65536 + c * 256 + d.
Proof.
  unfold is_octet, from_be. intros Ha Hb Hc Hd. cbn [foldl].
  rewrite !shiftl_lor by (change (2 ^ 8) with 256; lia). change (2 ^ 8) with 256. lia.
Qed.

(** Writing a list into an array, from index [k] on. *)
Lemma fill_array {A} (f : A → N) (l : list A) k w :
  (k + length l ≤ length w)%nat →
  foldl (λ w iw, <[iw.1 := f iw.2]> w) w (imap (λ i x, ((k + i)%nat, x)) l)
  = take k w ++ (f <$> l) ++ drop (k + length l) w.
Proof.
  revert k w. induction l as [|x l IH]; intros k w Hk; simpl in *.
  - by rewrite Nat.add_0_r, take_drop.
  - rewrite Nat.add_0_r. rewrite (imap_ext _ (λ i y, ((S k + i)%nat, y))) by (intros i y _; simpl; f_equal; lia).
    rewrite IH by (rewrite length_insert; lia). rewrite drop_insert_lt by lia.
    replace (S k + length l)%nat with (k + S (length l))%nat by lia.
    rewrite (take_S_r _ _ (f x)) by (apply list_lookup_insert_eq; lia).
    rewrite take_insert_ge by lia. by rewrite <-app_assoc.
Qed.

Lemma chunks_cover {A} n k (l : list A) : (0 < n)%nat → length l = (n * k)%nat →
  length (chunks n l) = k ∧ ∀ i, (i < k)%nat → chunks n l !! i = Some (take n (drop (n * i) l)).
Proof.
  intros Hn. revert l. induction k as [|k IH]; intros l Hl.
  - rewrite Nat.mul_0_r in Hl. destruct l; [|done]. split; [done|lia].
  - assert (l = take n l ++ drop n l) as E by (by rewrite take_drop).
    assert (length (take n l) = n) as Ht by (rewrite length_take; lia).
    destruct (IH (drop n l)) as [H1 H2]; [rewrite length_drop; lia|].
    rewrite E, chunks_app by done. split; [by simpl; rewrite H1|]. intros [|i] Hi.
    + rewrite Nat.mul_0_r, drop_0, take_app_length' by done. done.
    + cbn [lookup list_lookup]. rewrite H2 by lia. rewrite drop_drop, <-E. f_equal. f_equal. f_equal. lia.
Qed.

Lemma four {A} (d : A) l i : (4 * i + 4 ≤ length l)%nat →
  take 4 (drop (4 * i) l) = [nth (4 * i) l d; nth (4 * i + 1) l d; nth (4 * i + 2) l d; nth (4 * i + 3) l d].
Proof.
  intros H. assert (∀ k, nth (4 * i + k) l d = nth k (drop (4 * i) l) d) as E.
  { intros k. by rewrite !nth_lookup, lookup_drop. }
  rewrite <-(Nat.add_0_r (4 * i)) at 2. rewrite !E.
  assert (4 ≤ length (drop (4 * i) l))%nat as Hd by (rewrite length_drop; lia).
  destruct (drop (4 * i) l) as [|a [|b [|c [|e r]]]]; simpl in Hd; [lia..|done].
Qed.

(** The schedule of the code is the standard's. *)
Definition extend (w : list N) (i : nat) : list N :=
  <[i := rotate_left (N.lxor (N.lxor (N.lxor (nth (i - 3) w 0) (nth (i - 8) w 0)) (nth (i - 14) w 0)) (nth (i - 16) w 0)) 1]> w.

Lemma extended w n : length w = 80%nat → (n ≤ 64)%nat →
  let v := foldl extend w (seq 16 n) in
  length v = 80%nat ∧ (∀ t, (t < 16)%nat → nth t v 0 = nth t w 0) ∧
  ∀ t, (16 ≤ t < 16 + n)%nat →
    nth t v 0 = rotate_left (N.lxor (N.lxor (N.lxor (nth (t - 3) v 0) (nth (t - 8) v 0)) (nth (t - 14) v 0)) (nth (t - 16) v 0)) 1.
Proof.
  intros Hw. induction n as [|n IH]; intros Hn; cbv zeta; [split; [done|split; [done|lia]]|].
  destruct (IH ltac:(lia)) as (Hl & H1 & H2). rewrite seq_S, foldl_app. cbn [foldl].
  set (v := foldl extend w (seq 16 n)) in *. unfold extend.
  assert (∀ x t, (t < 16 + n)%nat → nth t (<[(16 + n)%nat := x]> v) 0 = nth t v 0) as Hlt.
  { intros x t Ht. rewrite !nth_lookup, list_lookup_insert_ne by lia. done. }
  split; [by rewrite length_insert|]. split; [intros t Ht; rewrite Hlt by lia; by apply H1|].
  intros t Ht. rewrite !(Hlt _ (t - _)%nat) by lia. destruct (decide (t = 16 + n)%nat) as [->|Hne].
  - rewrite (nth_lookup (<[_ := _]> v)), list_lookup_insert_eq by lia. done.
  - rewrite Hlt by lia. apply H2. lia.
Qed.

Lemma schedule_ok block : length block = 64%nat → Forall is_octet block →
  message_schedule block (λ t, nth t (schedule block) 0) ∧ length (schedule block) = 80%nat.
Proof.
  intros Hl Ho. unfold schedule. cbv zeta. change (imap pair (chunks 4 block)) with (imap (λ i x, ((0 + i)%nat, x)) (chunks 4 block)).
  destruct (chunks_cover 4 16 block) as [Hc Hi]; [lia|done|].
  rewrite fill_array by (rewrite Hc, length_replicate; lia). cbn [take app]. rewrite take_0. cbn [app].
  set (w := (from_be <$> chunks 4 block) ++ _).
  assert (length w = 80%nat) as Hw by (unfold w; rewrite length_app, length_fmap, length_drop, length_replicate, Hc; lia).
  destruct (extended w 64 Hw (le_n _)) as (H1 & H2 & H3). fold extend. split; [split; [|by intros t Ht; apply H3; lia]|done].
  intros t Ht. rewrite H2 by done. unfold w. rewrite nth_lookup, lookup_app_l by (rewrite length_fmap, Hc; lia).
  rewrite list_lookup_fmap, Hi by done. rewrite (four 0) by lia. cbn [fmap option_fmap option_map default].
  assert (∀ k, (k < 64)%nat → is_octet (nth k block 0)) as Hk.
  { intros k Hk. apply (proj1 (Forall_forall _ _) Ho). rewrite nth_lookup. destruct (lookup_lt_is_Some_2 block k) as [x Hx]; [lia|].
    rewrite Hx. by eapply list_elem_of_lookup_2. }
  rewrite from_be_word by (apply Hk; lia). done.
Qed.

(** ** The rounds *)

(** What [not32] needs of its argument; the other words may be anything. *)
Definition small (s : Five) : Prop := let '(a, b, _, _, _) := s in a < two32 ∧ b < two32.

Lemma wadd_small a b : wadd a b < two32.
Proof. by apply N.mod_lt. Qed.

Lemma choose_xor b c d : b < two32 → N.lor (N.land b c) (N.land (not32 b) d) = Ch b c d.
Proof.
  intros Hb. unfold Ch, not32. apply N.bits_inj. intros i. rewrite N.lxor_spec, N.lor_spec, !N.land_spec, N.lxor_spec.
  destruct (N.lt_ge_cases i 32) as [Hi|Hi].
  - change (two32 - 1) with (N.ones 32). rewrite N.ones_spec_low by done. by destruct (N.testbit b i), (N.testbit c i), (N.testbit d i).
  - assert (N.testbit b i = false) as ->; [|by rewrite andb_false_l, orb_false_l, xorb_false_l].
    destruct (decide (b = 0)) as [->|Hz]; [apply N.bits_0|]. apply N.bits_above_log2.
    apply N.lt_le_trans with 32; [|done]. apply N.log2_lt_pow2; [lia|exact Hb].
Qed.

Lemma majority_xor b c d : N.lor (N.lor (N.land b c) (N.land b d)) (N.land c d) = Maj b c d.
Proof.
  unfold Maj. apply N.bits_inj. intros i. rewrite !N.lxor_spec, !N.lor_spec, !N.land_spec.
  by destruct (N.testbit b i), (N.testbit c i), (N.testbit d i).
Qed.

Lemma round_ok W h t : small (rounds W h t) → rounds W h (S t) = round (rounds W h t) (t, W t) ∧ small (rounds W h (S t)).
Proof.
  intros Hs. cbn [rounds]. unfold round. destruct (rounds W h t) as [[[[a b] c] d] e]. destruct Hs as [Ha Hb].
  split; [|split; [apply wadd_small|exact Ha]]. cbn [fst snd]. unfold F, K.
  destruct (t <? 20)%nat; [by rewrite choose_xor|]. destruct (t <? 40)%nat; [done|].
  destruct (t <? 60)%nat; [by rewrite majority_xor|done].
Qed.

Lemma rounds_ok W h n : small h → rounds W h n = foldl round h ((λ t, (t, W t)) <$> seq 0 n) ∧ small (rounds W h n).
Proof.
  intros Hh. induction n as [|n [IH1 IH2]]; [done|]. destruct (round_ok W h n IH2) as [E Hs]. split; [|done].
  by rewrite E, seq_S, fmap_app, foldl_app, <-IH1.
Qed.

(** The rounds only read the first eighty words. *)
Lemma rounds_ext W V h n : (∀ t, (t < n)%nat → W t = V t) → rounds W h n = rounds V h n.
Proof.
  intros H. induction n as [|n IH]; [done|]. cbn [rounds]. rewrite IH by (intros t Ht; apply H; lia).
  destruct (rounds V h n) as [[[[a b] c] d] e]. by rewrite H by lia.
Qed.

Lemma schedule_unique block W V : message_schedule block W → message_schedule block V → ∀ t, (t < 80)%nat → W t = V t.
Proof.
  intros [W1 W2] [V1 V2]. induction t as [t IH] using lt_wf_ind. intros Ht. destruct (decide (t < 16)%nat) as [Hlt|Hge].
  - by rewrite W1, V1.
  - rewrite W2, V2 by lia. by rewrite !IH by lia.
Qed.

Lemma indexed w : imap pair w = (λ t, (t, nth t w 0)) <$> seq 0 (length w).
Proof.
  apply list_eq. intros i. rewrite list_lookup_imap, list_lookup_fmap. destruct (decide (i < length w)%nat) as [Hi|Hi].
  - rewrite lookup_seq_lt by done. destruct (lookup_lt_is_Some_2 w i Hi) as [x Hx]. rewrite Hx. cbn. by rewrite (nth_lookup_Some _ _ _ _ Hx).
  - rewrite lookup_ge_None_2, lookup_seq_ge by lia. done.
Qed.

Lemma compress_ok h block h' :
  length h = 5%nat → small (five h) → length block = 64%nat → Forall is_octet block →
  next_hash (five h) block h' ↔ h' = five (compress h block).
Proof.
  intros Hh Hs Hl Ho. destruct (schedule_ok block Hl Ho) as [Hm Hw].
  assert (rounds (λ t, nth t (schedule block) 0) (five h) 80 = foldl round (five h) (imap pair (schedule block))) as Er.
  { rewrite indexed, Hw. by apply rounds_ok. }
  unfold compress. rewrite <-Er. clear Er. unfold next_hash. cbn [five] in *. split.
  - intros (W & HW & E). rewrite (rounds_ext W _ _ 80 (schedule_unique _ _ _ HW Hm)) in E.
    destruct (rounds _ _ 80) as [[[[a b] c] d] e]. exact E.
  - intros ->. exists (λ t, nth t (schedule block) 0). split; [exact Hm|].
    by destruct (rounds _ _ 80) as [[[[a b] c] d] e].
Qed.

Lemma compress_shape h block : length (compress h block) = 5%nat ∧ small (five (compress h block)).
Proof.
  unfold compress. destruct (foldl round _ _) as [[[[a b] c] d] e]. split; [done|]. split; apply wadd_small.
Qed.

Lemma hashed_ok h p h' :
  hashed h p h' → ∀ l, h = five l → length l = 5%nat → small (five l) → Forall is_octet p →
  h' = five (foldl compress l (chunks 64 p)).
Proof.
  induction 1 as [h|h block rest h1 h2 Hl Hn _ IH]; intros l -> Hl5 Hs Ho; [done|].
  apply Forall_app in Ho as [Hb Hr]. rewrite chunks_app by (done || lia). cbn [foldl].
  apply compress_ok in Hn as ->; [|done..]. destruct (compress_shape l block) as [H1 H2]. by apply IH.
Qed.

Lemma hashed_exists n p l :
  length p = (64 * n)%nat → length l = 5%nat → small (five l) → Forall is_octet p →
  hashed (five l) p (five (foldl compress l (chunks 64 p))).
Proof.
  revert p l. induction n as [|n IH]; intros p l Hp Hl Hs Ho; [destruct p; [constructor|done]|].
  assert (∃ block rest, p = block ++ rest ∧ length block = 64%nat) as (block & rest & -> & Hb).
  { exists (take 64 p), (drop 64 p). rewrite take_drop, length_take. split; [done|lia]. }
  apply Forall_app in Ho as [Ho1 Ho2]. rewrite chunks_app by (done || lia). cbn [foldl].
  destruct (compress_shape l block) as [H1 H2].
  eapply hashed_block; [done|by apply compress_ok|]. apply IH; [|done..]. rewrite length_app in Hp. lia.
Qed.

Lemma digest_five l : length l = 5%nat → digest (five l) = l ≫= be_bytes 4.
Proof.
  destruct l as [|a [|b [|c [|d [|e [|]]]]]]; simpl; try done. intros _.
  unfold digest. cbn [mbind list_bind]. rewrite !N.shiftr_div_pow2. by rewrite !N.div_1_r.
Qed.

Lemma be_bytes_octets k n : Forall is_octet (be_bytes k n).
Proof. induction k as [|k IH]; constructor; [by apply N.mod_lt|done]. Qed.

Lemma padded_octets m p : padded m p → Forall is_octet m → Forall is_octet p.
Proof.
  intros (z & _ & _ & ->) Hm. apply Forall_app. split; [done|]. constructor; [done|]. apply Forall_app.
  split; [by apply Forall_replicate|apply be_bytes_octets].
Qed.

(** The benchmark's hash is the standard's, on every message whose length in
    bits fits the 64 bits it is written in. *)
Theorem sha1_is_fips m d :
  Forall is_octet m → 8 * N.of_nat (length m) <= U64_MAX → fips_sha1 m d ↔ d = sha1 m.
Proof.
  intros Hm Hl. pose proof (pad_padded m Hl) as Hp. unfold sha1.
  assert (length (foldl compress initial (chunks 64 (pad m))) = 5%nat) as H5.
  { generalize (chunks 64 (pad m)). intros bs. assert (length initial = 5%nat) as H by done. revert H. generalize initial.
    induction bs as [|b bs IH]; intros l H; [done|]. apply IH, compress_shape. }
  rewrite <-digest_five by done. split.
  - intros (p & h & Hq & Hh & ->). rewrite (padded_unique _ _ _ Hq Hp) in Hh. f_equal.
    eapply hashed_ok; [exact Hh|done|done|by split|by eapply padded_octets].
  - intros ->. destruct (padded_whole _ _ Hp) as [n Hn]. exists (pad m), (five (foldl compress initial (chunks 64 (pad m)))).
    split; [done|]. split; [|done]. eapply hashed_exists; [exact Hn|done|by split|by eapply padded_octets].
Qed.

(** ** Base64 read back *)

Definition value (c : N) : option N := (λ ix, N.of_nat ix.1) <$> list_find (λ x, x = c) ALPHABET.

(** RFC 4648, section 4: every group but the last is four letters, three bytes;
    only the last may end in padding, and then its unused bits are zero. *)
Definition read_full (g : octets) : option octets :=
  match g with
  | [a; b; c; d] =>
      i ← value a; j ← value b; k ← value c; l ← value d;
      let n := i * 262144 + j * 4096 + k * 64 + l in Some [n / 65536; n / 256 mod 256; n mod 256]
  | _ => None
  end.
Definition read_last (g : octets) : option octets :=
  match g with
  | [a; b; c; d] =>
      if bool_decide (d = 61) then
        i ← value a; j ← value b;
        if bool_decide (c = 61) then
          let n := i * 262144 + j * 4096 in if n mod 65536 =? 0 then Some [n / 65536] else None
        else
          k ← value c;
          let n := i * 262144 + j * 4096 + k * 64 in
          if n mod 256 =? 0 then Some [n / 65536; n / 256 mod 256] else None
      else read_full g
  | _ => None
  end.
Fixpoint read_groups (gs : list octets) : option octets :=
  match gs with
  | [] => Some []
  | [g] => read_last g
  | g :: gs => bs ← read_full g; rest ← read_groups gs; Some (bs ++ rest)
  end.
Definition read_base64 (s : octets) : option octets := read_groups (chunks 4 s).

Lemma value_nth i : i < 64 → value (nth (N.to_nat i) ALPHABET 0) = Some i ∧ nth (N.to_nat i) ALPHABET 0 ≠ 61.
Proof.
  intros Hi. assert (forallb (λ k, bool_decide (value (nth k ALPHABET 0) = Some (N.of_nat k) ∧ nth k ALPHABET 0 ≠ 61)) (seq 0 64) = true) as H
    by (by vm_compute).
  assert (In (N.to_nat i) (seq 0 64)) as Hin by (apply in_seq; lia).
  rewrite forallb_forall in H. specialize (H (N.to_nat i) Hin). clear Hin.
  apply bool_decide_eq_true in H. by rewrite N2Nat.id in H.
Qed.

Lemma sextet n k : N.land (N.shiftr n k) 63 = n / 2 ^ k mod 64.
Proof. change 63 with (N.ones 6). by rewrite N.land_ones, N.shiftr_div_pow2. Qed.

(** 24 bits are four sextets. *)
Lemma sextets n : n < 16777216 →
  n = n / 262144 mod 64 * 262144 + n / 4096 mod 64 * 4096 + n / 64 mod 64 * 64 + n mod 64.
Proof.
  intros Hn. assert (n / 262144 < 64) as H1 by (apply N.Div0.div_lt_upper_bound; lia). rewrite (N.mod_small _ _ H1).
  pose proof (N.div_mod n 64 ltac:(done)) as E1. pose proof (N.div_mod (n / 64) 64 ltac:(done)) as E2.
  pose proof (N.div_mod (n / 64 / 64) 64 ltac:(done)) as E3. rewrite !N.Div0.div_div in *.
  change (64 * 64) with 4096 in *. change (4096 * 64) with 262144 in *. lia.
Qed.

Lemma three_bytes a b c : is_octet a → is_octet b → is_octet c →
  N.lor (N.lor (N.shiftl a 16) (N.shiftl b 8)) c = a * 65536 + b * 256 + c.
Proof.
  unfold is_octet. intros Ha Hb Hc. rewrite (shiftl_lor a) by (rewrite N.shiftl_mul_pow2; change (2 ^ 16) with 65536; change (2 ^ 8) with 256; lia).
  rewrite N.shiftl_mul_pow2. replace (a * 2 ^ 16 + b * 2 ^ 8) with (N.shiftl (a * 256 + b) 8)
    by (rewrite N.shiftl_mul_pow2; change (2 ^ 16) with 65536; change (2 ^ 8) with 256; lia).
  rewrite shiftl_lor by (change (2 ^ 8) with 256; lia). change (2 ^ 8) with 256. lia.
Qed.

Lemma bytes_of a b c : is_octet a → is_octet b → is_octet c →
  let n := a * 65536 + b * 256 + c in n < 16777216 ∧ n / 65536 = a ∧ n / 256 mod 256 = b ∧ n mod 256 = c.
Proof.
  unfold is_octet. intros Ha Hb Hc. cbv zeta. split; [lia|].
  assert ((a * 65536 + b * 256 + c) / 256 = a * 256 + b) as E.
  { symmetry. apply (N.div_unique _ _ _ c); lia. }
  split; [|split].
  - symmetry. apply (N.div_unique _ _ _ (b * 256 + c)); lia.
  - rewrite E. symmetry. apply (N.mod_unique _ _ a); lia.
  - symmetry. apply (N.mod_unique _ _ (a * 256 + b)); lia.
Qed.

Definition letter (n k : N) : N := nth (N.to_nat (n / 2 ^ k mod 64)) ALPHABET 0.

Lemma letter_value n k : value (letter n k) = Some (n / 2 ^ k mod 64) ∧ letter n k ≠ 61.
Proof. apply value_nth. by apply N.mod_lt. Qed.

(** A group of one to three bytes, by its letters. *)
Lemma encode_letters a b c : is_octet a → is_octet b → is_octet c →
  let n := a * 65536 + b * 256 + c in
  encode_chunk [a; b; c] = [letter n 18; letter n 12; letter n 6; letter n 0]
  ∧ (c = 0 → encode_chunk [a; b] = [letter n 18; letter n 12; letter n 6; 61])
  ∧ (b = 0 → c = 0 → encode_chunk [a] = [letter n 18; letter n 12; 61; 61]).
Proof.
  intros Ha Hb Hc n. unfold encode_chunk. cbn [nth length seq fmap list_fmap Nat.leb].
  split; [|split; [intros ->|intros -> ->]]; rewrite three_bytes by done; fold n; by rewrite !sextet.
Qed.

(** Four sextets and the bytes they make. *)
Lemma sextets_apart i j k l : i < 64 → j < 64 → k < 64 → l < 64 →
  let n := i * 262144 + j * 4096 + k * 64 + l in
  n < 16777216 ∧ n / 2 ^ 18 mod 64 = i ∧ n / 2 ^ 12 mod 64 = j ∧ n / 2 ^ 6 mod 64 = k ∧ n / 2 ^ 0 mod 64 = l.
Proof.
  intros Hi Hj Hk Hl n. split; [unfold n; lia|]. change (2 ^ 18) with 262144. change (2 ^ 12) with 4096. change (2 ^ 6) with 64.
  rewrite N.div_1_r. split_and!; symmetry.
  - replace (n / 262144) with i by (apply (N.div_unique _ _ _ (j * 4096 + k * 64 + l)); unfold n; lia). by rewrite N.mod_small.
  - replace (n / 4096) with (i * 64 + j) by (apply (N.div_unique _ _ _ (k * 64 + l)); unfold n; lia).
    by apply (N.mod_unique _ _ i); lia.
  - replace (n / 64) with (i * 4096 + j * 64 + k) by (apply (N.div_unique _ _ _ l); unfold n; lia).
    apply (N.mod_unique _ _ (i * 64 + j)); lia.
  - apply (N.mod_unique _ _ (i * 4096 + j * 64 + k)); unfold n; lia.
Qed.

Lemma bytes_apart n : n < 16777216 →
  let a := n / 65536 in let b := n / 256 mod 256 in let c := n mod 256 in
  is_octet a ∧ is_octet b ∧ is_octet c ∧ a * 65536 + b * 256 + c = n.
Proof.
  intros Hn. unfold is_octet. pose proof (N.div_mod n 256 ltac:(done)) as E1. pose proof (N.div_mod (n / 256) 256 ltac:(done)) as E2.
  rewrite N.Div0.div_div in E2. change (256 * 256) with 65536 in E2.
  split_and!; [apply N.Div0.div_lt_upper_bound; lia|by apply N.mod_lt..|lia].
Qed.

Lemma value_inv c i : value c = Some i → i < 64 ∧ c = nth (N.to_nat i) ALPHABET 0.
Proof.
  unfold value. intros ((k & x) & H & ->)%fmap_Some. apply list_find_Some in H as (Hk & -> & _). cbn [fst]. rewrite Nat2N.id.
  split; [|symmetry; by apply nth_lookup_Some]. apply lookup_lt_Some in Hk. change (length ALPHABET) with 64%nat in Hk. lia.
Qed.

(** What is read is what encodes to the group. *)
Lemma read_full_iff g bs : read_full g = Some bs ↔ length bs = 3%nat ∧ Forall is_octet bs ∧ g = encode_chunk bs.
Proof.
  split.
  - intros H. destruct g as [|a [|b [|c [|d [|]]]]]; try done. cbn [read_full] in H.
    apply bind_Some in H as (i & [Hi ->]%value_inv & H). apply bind_Some in H as (j & [Hj ->]%value_inv & H).
    apply bind_Some in H as (k & [Hk ->]%value_inv & H). apply bind_Some in H as (l & [Hl ->]%value_inv & H).
    destruct (sextets_apart i j k l Hi Hj Hk Hl) as (Hn & E1 & E2 & E3 & E4). set (n := _ + l) in *. injection H as <-.
    destruct (bytes_apart n Hn) as (Ha & Hb & Hc & En). split; [done|]. split; [by repeat constructor|].
    destruct (encode_letters _ _ _ Ha Hb Hc) as (-> & _). rewrite En. unfold letter. by rewrite E1, E2, E3, E4.
  - intros (Hl & Ho & ->). destruct bs as [|a [|b [|c [|]]]]; try done. rewrite !Forall_cons in Ho. destruct Ho as (Ha & Hb & Hc & _).
    destruct (encode_letters a b c Ha Hb Hc) as (-> & _). destruct (bytes_of a b c Ha Hb Hc) as (Hn & E1 & E2 & E3).
    set (n := a * 65536 + b * 256 + c) in *. cbn [read_full]. rewrite !(proj1 (letter_value n _)). cbn [mbind option_bind].
    change (2 ^ 18) with 262144. change (2 ^ 12) with 4096. change (2 ^ 6) with 64. change (2 ^ 0) with 1. rewrite N.div_1_r.
    rewrite <-(sextets n Hn). by rewrite E1, E2, E3.
Qed.

(** A group that is not full, by the bits it leaves unused. *)
Lemma last_one i j : i < 64 → j < 64 →
  let n := i * 262144 + j * 4096 in
  n mod 65536 = 0 → is_octet (n / 65536) ∧ [nth (N.to_nat i) ALPHABET 0; nth (N.to_nat j) ALPHABET 0; 61; 61] = encode_chunk [n / 65536].
Proof.
  intros Hi Hj n Hz. destruct (sextets_apart i j 0 0 Hi Hj) as (Hn & E1 & E2 & _); [done..|].
  rewrite N.mul_0_l, !N.add_0_r in *. fold n in Hn, E1, E2. destruct (bytes_apart n Hn) as (Ha & Hb & Hc & En).
  split; [done|]. assert (n / 256 mod 256 = 0 ∧ n mod 256 = 0) as [Z1 Z2].
  { pose proof (N.div_mod n 65536 ltac:(done)) as E. rewrite Hz in E. clearbody n.
    revert E En. generalize (n / 65536), (n / 256 mod 256), (n mod 256). lia. }
  destruct (encode_letters _ _ _ Ha Hb Hc) as (_ & _ & E). rewrite E, En by done. unfold letter. by rewrite E1, E2.
Qed.

Lemma last_two i j k : i < 64 → j < 64 → k < 64 →
  let n := i * 262144 + j * 4096 + k * 64 in
  n mod 256 = 0 → is_octet (n / 65536) ∧ is_octet (n / 256 mod 256)
  ∧ [nth (N.to_nat i) ALPHABET 0; nth (N.to_nat j) ALPHABET 0; nth (N.to_nat k) ALPHABET 0; 61]
    = encode_chunk [n / 65536; n / 256 mod 256].
Proof.
  intros Hi Hj Hk n Hz. destruct (sextets_apart i j k 0 Hi Hj Hk) as (Hn & E1 & E2 & E3 & _); [done|].
  rewrite !N.add_0_r in *. fold n in Hn, E1, E2, E3. destruct (bytes_apart n Hn) as (Ha & Hb & Hc & En).
  split; [done|]. split; [done|]. destruct (encode_letters _ _ _ Ha Hb Hc) as (_ & E & _). rewrite E, En by done.
  unfold letter. by rewrite E1, E2, E3.
Qed.

Lemma read_one a : is_octet a → read_last (encode_chunk [a]) = Some [a].
Proof.
  intros Ha. assert (is_octet 0) as H0 by done. destruct (encode_letters a 0 0 Ha H0 H0) as (_ & _ & ->); [|done..].
  destruct (bytes_of a 0 0 Ha H0 H0) as (Hn & E1 & _). set (n := a * 65536 + 0 * 256 + 0) in *.
  cbn [read_last]. rewrite !(proj1 (letter_value n _)). cbn [mbind option_bind]. rewrite bool_decide_eq_true_2 by done.
  change (2 ^ 18) with 262144. change (2 ^ 12) with 4096. pose proof (sextets n Hn) as Es.
  assert (n / 64 mod 64 = 0 ∧ n mod 64 = 0) as [Z1 Z2].
  { split.
    - replace (n / 64) with (0 + (a * 16) * 64) by (apply N.div_unique with 0; unfold n; lia). by rewrite N.Div0.mod_add.
    - replace n with (0 + (a * 1024) * 64) by (unfold n; lia). by rewrite N.Div0.mod_add. }
  rewrite Z1, Z2 in Es. replace (n / 262144 mod 64 * 262144 + n / 4096 mod 64 * 4096) with n by lia.
  replace (n mod 65536) with 0; [by rewrite E1|]. symmetry. replace n with (0 + a * 65536) by (unfold n; lia). by rewrite N.Div0.mod_add.
Qed.

Lemma read_two a b : is_octet a → is_octet b → read_last (encode_chunk [a; b]) = Some [a; b].
Proof.
  intros Ha Hb. assert (is_octet 0) as H0 by done. destruct (encode_letters a b 0 Ha Hb H0) as (_ & -> & _); [|done].
  destruct (bytes_of a b 0 Ha Hb H0) as (Hn & E1 & E2 & E3). set (n := a * 65536 + b * 256 + 0) in *.
  cbn [read_last]. rewrite !(proj1 (letter_value n _)), (bool_decide_eq_false_2 (letter n 6 = 61)) by apply letter_value.
  cbn [mbind option_bind]. rewrite (bool_decide_eq_true_2 (61 = 61)) by done.
  change (2 ^ 18) with 262144. change (2 ^ 12) with 4096. change (2 ^ 6) with 64. pose proof (sextets n Hn) as Es.
  assert (n mod 64 = 0) as Z.
  { replace n with (0 + (a * 1024 + b * 4) * 64) by (unfold n; lia). by rewrite N.Div0.mod_add. }
  rewrite Z, N.add_0_r in Es. rewrite <-Es, E3. by rewrite E1, E2.
Qed.

Lemma read_last_iff g bs :
  read_last g = Some bs ↔ bs ≠ [] ∧ (length bs ≤ 3)%nat ∧ Forall is_octet bs ∧ g = encode_chunk bs.
Proof.
  split.
  - intros H. destruct g as [|a [|b [|c [|d [|]]]]]; try done. cbn [read_last] in H. case_bool_decide as Hd.
    2: { apply read_full_iff in H as (Hl & Ho & E). split; [by destruct bs|]. split; [lia|done]. }
    apply bind_Some in H as (i & [Hi ->]%value_inv & H). apply bind_Some in H as (j & [Hj ->]%value_inv & H). subst d.
    case_bool_decide as Hc.
    + destruct (N.eqb_spec ((i * 262144 + j * 4096) mod 65536) 0) as [Hz|]; [|done]. injection H as <-. subst c.
      destruct (last_one i j Hi Hj Hz) as [Ha E]. split_and!; [done|simpl; lia|by repeat constructor|done].
    + apply bind_Some in H as (k & [Hk ->]%value_inv & H).
      destruct (N.eqb_spec ((i * 262144 + j * 4096 + k * 64) mod 256) 0) as [Hz|]; [|done]. injection H as <-.
      destruct (last_two i j k Hi Hj Hk Hz) as (Ha & Hb & E). split_and!; [done|simpl; lia|by repeat constructor|done].
  - intros (Hne & Hl & Ho & ->). destruct bs as [|a [|b [|c [|]]]]; [done| | | |simpl in Hl; lia]; rewrite !Forall_cons in Ho.
    + apply read_one, Ho.
    + apply read_two; apply Ho.
    + assert (read_full (encode_chunk [a; b; c]) = Some [a; b; c]) as E by (by apply read_full_iff; rewrite !Forall_cons).
      destruct Ho as (Ha & Hb & Hc & _). destruct (encode_letters a b c Ha Hb Hc) as (El & _). rewrite El in *. cbn [read_last].
      by rewrite bool_decide_eq_false_2 by apply letter_value.
Qed.

Lemma encode_length g : length (encode_chunk g) = 4%nat.
Proof. done. Qed.

(** The groups of an encoding. *)
Lemma chunks_short {A} n (l : list A) : l ≠ [] → (length l ≤ n)%nat → chunks n l = [l].
Proof.
  intros Hne Hl. destruct l as [|x l]; [done|]. unfold chunks. cbn [length chunks_go]. rewrite take_ge, drop_ge by done.
  by destruct (length l).
Qed.

Lemma chunks_step {A} n (l : list A) : (0 < n)%nat → (n < length l)%nat → chunks n l = take n l :: chunks n (drop n l).
Proof. intros Hn Hl. rewrite <-(take_drop n l) at 1. apply chunks_app; [done|]. rewrite length_take. lia. Qed.

Lemma base64_long bs : (3 < length bs)%nat → base64 bs = encode_chunk (take 3 bs) ++ base64 (drop 3 bs).
Proof. intros Hl. unfold base64. rewrite chunks_step by lia. done. Qed.

Lemma base64_short bs : bs ≠ [] → (length bs ≤ 3)%nat → base64 bs = encode_chunk bs.
Proof. intros Hne Hl. unfold base64. rewrite chunks_short by done. cbn [mbind list_bind]. by rewrite app_nil_r. Qed.

Lemma base64_nonempty bs : bs ≠ [] → chunks 4 (base64 bs) ≠ [].
Proof.
  intros Hne. destruct (Nat.le_gt_cases (length bs) 3) as [H|H].
  - rewrite base64_short by done. done.
  - rewrite base64_long, chunks_app by (done || lia). done.
Qed.

Lemma read_groups_cons g gs : gs ≠ [] →
  read_groups (g :: gs) = (bs ← read_full g; rest ← read_groups gs; Some (bs ++ rest)).
Proof. by destruct gs. Qed.

(** The reader accepts, for each list of bytes, its encoding and no other text. *)
Lemma read_base64_iff s bs : read_base64 s = Some bs ↔ Forall is_octet bs ∧ s = base64 bs.
Proof.
  split.
  - unfold read_base64. revert bs. induction s as [s IH] using (induction_ltof1 _ length). unfold ltof in IH. intros bs.
    destruct (decide (s = [])) as [->|Hne]; [by intros [= <-]|]. destruct (Nat.le_gt_cases (length s) 4) as [Hl|Hl].
    + rewrite chunks_short by done. intros (Hb & Hl' & Ho & ->)%read_last_iff. by rewrite base64_short.
    + rewrite chunks_step by lia. assert (drop 4 s ≠ []) as Hd by (intros E%(f_equal length); rewrite length_drop in E; simpl in E; lia).
      rewrite read_groups_cons.
      2: { destruct (drop 4 s) as [|x l]; [done|]. unfold chunks. done. }
      intros (g & (Hg & Ho & Eg)%read_full_iff & (rest & Hr & [= <-])%bind_Some)%bind_Some.
      apply IH in Hr as [Hor Er]; [|rewrite length_drop; lia].
      assert (rest ≠ []) as Hne' by (by intros ->). split; [by apply Forall_app|].
      rewrite base64_long by (rewrite length_app; destruct rest; simpl; [done|lia]).
      rewrite take_app_length', drop_app_length', <-Er, <-Eg by done. by rewrite take_drop.
  - intros [Ho ->]. revert Ho. induction bs as [bs IH] using (induction_ltof1 _ length). unfold ltof in IH. intros Ho.
    destruct (decide (bs = [])) as [->|Hne]; [done|]. unfold read_base64. destruct (Nat.le_gt_cases (length bs) 3) as [Hl|Hl].
    + rewrite base64_short, chunks_short by done. by apply read_last_iff.
    + rewrite base64_long, chunks_app by (done || lia).
      assert (drop 3 bs ≠ []) as Hd by (intros E%(f_equal length); rewrite length_drop in E; simpl in E; lia).
      rewrite read_groups_cons by (by apply base64_nonempty).
      rewrite (proj2 (read_full_iff _ (take 3 bs))).
      2: { split; [rewrite length_take; lia|]. split; [by apply Forall_take|done]. }
      cbn [mbind option_bind]. fold (read_base64 (base64 (drop 3 bs))). rewrite IH; [|rewrite length_drop; lia|by apply Forall_drop].
      cbn. by rewrite take_drop.
Qed.

Lemma base64_octets bs : Forall is_octet (base64 bs).
Proof.
  unfold base64. generalize (chunks 3 bs). intros gs. induction gs as [|g gs IH]; [constructor|]. cbn [mbind list_bind].
  apply Forall_app. split; [|exact IH]. apply Forall_fmap, Forall_forall. intros i _. unfold compose. destruct (_ <=? _)%nat; [|done].
  match goal with |- is_octet (nth ?k _ _) => destruct (nth_in_or_default k ALPHABET 0) as [H|H]; [|by rewrite H] end.
  apply list_elem_of_In in H. revert H. apply (proj1 (Forall_forall is_octet ALPHABET)). by repeat constructor.
Qed.

Lemma text_octets s : Forall is_octet (of_text s).
Proof. apply Forall_fmap, Forall_forall. intros a _. apply N_ascii_bounded. Qed.

Lemma of_text_inj s t : of_text s = of_text t → s = t.
Proof.
  intros H. rewrite <-(string_of_list_ascii_of_string s), <-(string_of_list_ascii_of_string t). f_equal.
  apply (f_equal (fmap chr)) in H. unfold of_text in H. rewrite <-!list_fmap_compose in H.
  rewrite !(list_fmap_ext (chr ∘ code) id), !list_fmap_id in H; [done|..]; intros i a _; apply ascii_N_embedding.
Qed.

Example rfc_6455_example : websocket_accept "dGhlIHNhbXBsZSBub25jZQ==" = "s3pPLMBiTxaQ9kYGzzhZRbK+xOo=".
Proof. vm_compute. reflexivity. Qed.

(** C40: The accept key is RFC 6455's, for every key a request can carry: it is
    the one text that a strict reader of base64 (full groups of four letters but
    for the last, padding only there and its unused bits zero) reads as the SHA-1
    of FIPS 180-4 of the client's key followed by the fixed identifier. *)
Theorem accept_key_is_the_standards key :
  len key <= 1152921504606846976 →
  ∃ digest, fips_sha1 (of_text (key +:+ GUID)) digest
            ∧ ∀ answer, read_base64 (of_text answer) = Some digest ↔ answer = websocket_accept key.
Proof.
  intros Hk. exists (sha1 (of_text (key +:+ GUID))). split.
  - apply sha1_is_fips; [apply text_octets| |done]. unfold of_text. rewrite length_fmap.
    assert (∀ s, length (list_ascii_of_string s) = String.length s) as -> by (induction s; simpl; congruence).
    rewrite str_length_app. change (String.length GUID) with 36%nat. unfold len, U64_MAX in *. lia.
  - intros answer. rewrite read_base64_iff.
    assert (of_text (websocket_accept key) = base64 (sha1 (of_text (key +:+ GUID)))) as E.
    { unfold websocket_accept, of_text at 1. rewrite list_ascii_of_string_of_list_ascii, <-list_fmap_compose.
      rewrite (list_fmap_ext _ id), list_fmap_id; [done|].
      intros i b Hb. apply (N_ascii_embedding b). eapply (proj1 (Forall_forall _ _) (base64_octets _)), list_elem_of_lookup_2, Hb. }
    rewrite <-E. split; [|intros ->; split; [|done]].
    + intros [_ H]. by apply of_text_inj.
    + unfold sha1. apply Forall_bind, Forall_forall. intros w _. apply be_bytes_octets.
Qed.

Lemma accept_key_is_the_standards_witness :
  ∃ digest, fips_sha1 (of_text ("dGhlIHNhbXBsZSBub25jZQ==" +:+ GUID)) digest
            ∧ read_base64 (of_text "s3pPLMBiTxaQ9kYGzzhZRbK+xOo=") = Some digest.
Proof.
  destruct (accept_key_is_the_standards "dGhlIHNhbXBsZSBub25jZQ==") as (d & H & Hr); [by vm_compute|].
  exists d. split; [exact H|]. apply Hr. symmetry. exact rfc_6455_example.
Defined.
