(* ===== verification/SlowOrigin.v ===== *)
(** * The benchmark's origin ([src/bench/slow-origin/src/main.rs])

    A slow origin that reports its own peak concurrency: the benchmarks' ground
    truth.  What it answers to each path, as the text written; the WebSocket
    echo; and the counters, as a step relation over the connections being
    served, one step per write of a counter (a poll's five loads are one step:
    they change nothing).  A request is the text read, decoded lossily.  Sleeping, flushing and failed writes leave the counters alone and
    have no steps; [past] is history.  An allocation may fail
    ([allocates]): the task, or with it the process, dies there.  Integers are a
    release build's. *)

From S2P Require Import Prelude Words Text Units Schema Sha1.
From S2P Require Json.
From S2P Require Collector.
Local Open Scope string_scope.
Local Open Scope list_scope.
Local Open Scope N_scope.

#[local] Arguments String.append _ _ : simpl nomatch.

Definition nl : string := Collector.crlf.
Definition text (lines : list string) : string := foldr (λ l s, l +:+ nl +:+ s) EmptyString lines.
(** [str::repeat] of one letter. *)
Definition letters (n : N) : string := N.iter n (λ s, "x" +:+ s) EmptyString.

(** [format!("{:x}")]. *)
Fixpoint hex_go (fuel : nat) (n : N) (acc : string) : string :=
  match fuel with
  | O => acc
  | S fuel =>
      let d := n mod 16 in
      let acc := String (chr (if d <? 10 then 48 + d else 87 + d)) acc in
      if n / 16 =? 0 then acc else hex_go fuel (n / 16) acc
  end.
Definition print_hex (n : N) : string := hex_go (S (N.size_nat n)) n EmptyString.

(** ** Reading a request *)

(** [split_whitespace().nth(1).unwrap_or("/")]. *)
Definition request_path (head : string) : string :=
  let p := Collector.second_word head in if is_empty p then "/" else p.

(** [split(['?', '#']).next()]. *)
Fixpoint before_query (s : string) : string :=
  match s with
  | EmptyString => EmptyString
  | String a s' => if bool_decide (a = "?"%char) || bool_decide (a = "#"%char) then EmptyString else String a (before_query s')
  end.
(** [rsplit('/').next()]. *)
Definition last_segment (s : string) : string := List.last (split_on "/" s) EmptyString.

Definition tail_number (path : string) : option N := parse_u64 (last_segment (before_query path)).

(** [str::lines]: a final line end starts no line; the [\r] of a [\r\n] goes. *)
Definition lines (s : string) : list string :=
  let ls := split_on (chr 10) s in
  let final := List.last ls EmptyString in
  ((λ l, default l (strip_suffix (str1 (chr 13)) l)) <$> removelast ls)
  ++ (if is_empty final then [] else [final]).

Fixpoint first_value (name : string) (ls : list string) : option string :=
  match ls with
  | [] => None
  | l :: ls =>
      if is_empty (trim l) then None
      else match split_once ":" l with
           | Some (key, value) => if eq_ignore_ascii_case (trim key) name then Some (trim value) else first_value name ls
           | None => first_value name ls
           end
  end.
Definition header_value (head name : string) : option string := first_value name (drop 1 (lines head)).

(** The command line: a port and a render time, each with its default. *)
Definition arguments (args : list string) : N * N :=
  (default 3000 (head args ≫= parse_u16), default 200 (args !! 1%nat ≫= parse_u64)).
(** Names this process in session ids. *)
Definition instance_name (port pid nanos : N) : string := print_uint port +:+ "-" +:+ print_uint pid +:+ "-" +:+ print_uint nanos.

(** ** What is counted *)

Record Stats := mkStats {
  in_flight : N; peak : N; total : N; sockets_open : N; sockets_total : N; failing : bool }.
Definition no_stats : Stats := mkStats 0 0 0 0 0 false.

Definition with_in_flight (n : N) (s : Stats) : Stats :=
  mkStats n (peak s) (total s) (sockets_open s) (sockets_total s) (failing s).
Definition with_peak (n : N) (s : Stats) : Stats :=
  mkStats (in_flight s) n (total s) (sockets_open s) (sockets_total s) (failing s).
Definition with_total (n : N) (s : Stats) : Stats :=
  mkStats (in_flight s) (peak s) n (sockets_open s) (sockets_total s) (failing s).
Definition with_sockets (o t : N) (s : Stats) : Stats :=
  mkStats (in_flight s) (peak s) (total s) o t (failing s).
Definition with_failing (b : bool) (s : Stats) : Stats :=
  mkStats (in_flight s) (peak s) (total s) (sockets_open s) (sockets_total s) b.

Definition enter (s : Stats) : Stats := with_in_flight (wrapping_add (in_flight s) 1) s.
Definition leave (s : Stats) : Stats := with_in_flight (wrapping_sub (in_flight s) 1) s.

(** ** The control endpoints *)

Definition control_text (body : string) : string :=
  text ["HTTP/1.1 200 OK"; "Content-Type: application/json"; "Cache-Control: no-store";
        "Content-Length: " +:+ print_uint (len body); "Connection: close"; EmptyString] +:+ body.

Definition field (name : string) (n : N) : string := Json.lit ("'" +:+ name +:+ "':") +:+ print_uint n.
Definition stats_body (s : Stats) : string :=
  "{" +:+ field "in_flight" (in_flight s) +:+ "," +:+ field "peak" (peak s) +:+ "," +:+ field "total" (total s)
  +:+ "," +:+ field "sockets_open" (sockets_open s) +:+ "," +:+ field "sockets_total" (sockets_total s) +:+ "}".

(** What [/__reset] stores, having loaded [seen] in flight. *)
Definition reset (seen : N) (s : Stats) : Stats := with_sockets (sockets_open s) 0 (with_total 0 (with_peak seen s)).

(** The whole handler, with nothing between its loads and its stores. *)
Definition control_response (path : string) (s : Stats) : option (string * Stats) :=
  if String.eqb path "/healthz" then Some (control_text "ok", s)
  else if String.eqb path "/__stats" then Some (control_text (stats_body s), s)
  else if String.eqb path "/__reset" then Some (control_text "reset", reset (in_flight s) s)
  else if String.eqb path "/__fail" then Some (control_text "failing", with_failing true s)
  else if String.eqb path "/__heal" then Some (control_text "healed", with_failing false s)
  else None.

(** ** The responses *)

Inductive Kind := Stream | Truncated | BadChunk | EchoHeaders | Rendered | Validated | Plain.
Definition kind_of (path : string) : Kind :=
  if starts_with "/stream" path || starts_with "/bigstream" path then Stream
  else if starts_with "/truncated" path then Truncated
  else if starts_with "/badchunk" path then BadChunk
  else if starts_with "/echo-headers" path then EchoHeaders
  else if starts_with "/rendered" path then Rendered
  else if starts_with "/validated" path then Validated
  else Plain.

Definition HTML : string := "Content-Type: text/html".
Definition UNCACHEABLE : string := "Cache-Control: private, no-cache, no-store, max-age=0, must-revalidate".
Definition CACHEABLE : string := "Cache-Control: public, max-age=60".
Definition origin_total (seq : N) : string := "X-Origin-Total: " +:+ print_uint seq.
Definition content_length (n : N) : string := "Content-Length: " +:+ print_uint n.

(** A body is allocated, or the task dies. *)
Section Responses.
Context (allocates : N → bool).
Definition allocated (n : N) (s : string) : option string := if allocates n then Some s else None.

Definition stream_head (seq : N) : string :=
  text ["HTTP/1.1 200 OK"; HTML; "Transfer-Encoding: chunked"; UNCACHEABLE; origin_total seq; "Connection: close"; EmptyString].
Definition stream_chunks (path : string) : N := default 4 (parse_u64 (last_segment path)).
Definition stream_piece (path : string) (i : N) : string :=
  if starts_with "/bigstream" path then "<div>" +:+ letters 262144 +:+ "</div>" else "<div>chunk " +:+ print_uint i +:+ "</div>".
Definition framed (piece : string) : string := print_hex (len piece) +:+ nl +:+ piece +:+ nl.

(** The chunks from the [i]-th on, [n] of them: one that cannot be written ends
    them; what is written, and after how many render delays. *)
Fixpoint stream_body (path : string) (written : N → bool) (n : nat) (i : N) : list string :=
  match n with
  | O => []
  | S n => if written i then framed (stream_piece path i) :: stream_body path written n (i + 1) else []
  end.
Definition stream (path : string) (seq : N) (head_written : bool) (written : N → bool) : list string :=
  if head_written
  then stream_head seq :: stream_body path written (N.to_nat (stream_chunks path)) 0 ++ ["0" +:+ nl +:+ nl]
  else [].
(** The delay before the [i]-th chunk. *)
Definition stream_delay (render_ms i : N) : N := if 0 <? i then render_ms else 0.

Definition truncated (path : string) (seq : N) : option (list string) :=
  let promised := default 4096 (tail_number path) in
  body ← allocated (promised / 2) (letters (promised / 2));
  Some [text ["HTTP/1.1 200 OK"; HTML; content_length promised; CACHEABLE; origin_total seq; EmptyString]; body].

Definition bad_chunk : list string :=
  [text ["HTTP/1.1 200 OK"; HTML; "Transfer-Encoding: chunked"; CACHEABLE; EmptyString]; text ["10"; "0123456789abcdef"]].

Definition echoed (head : string) (key_name : string * string) : string :=
  Json.lit ("'" +:+ key_name.1 +:+ "':'") +:+ default EmptyString (header_value head key_name.2) +:+ Json.lit "'".
Definition echo_body (head : string) : string :=
  "{" +:+ join "," (echoed head <$>
    [("x_forwarded_for", "x-forwarded-for"); ("x_forwarded_proto", "x-forwarded-proto"); ("forwarded", "forwarded");
     ("host", "host"); ("traceparent", "traceparent"); ("tracestate", "tracestate")]) +:+ "}".
Definition echo_headers (head : string) (seq : N) : list string :=
  let body := echo_body head in
  [text ["HTTP/1.1 200 OK"; "Content-Type: application/json"; content_length (len body); "Cache-Control: private, no-store";
         origin_total seq; "Connection: close"; EmptyString] +:+ body].

Definition page (kind path : string) (filler : string) : string := "<html><body>" +:+ kind +:+ " " +:+ path +:+ filler +:+ "</body></html>".
(** [mib * 1024 * 1024] bytes. *)
Definition mebibytes (path : string) : N := wrapping_mul (wrapping_mul (default 1 (tail_number path)) 1024) 1024.
Definition filled (path : string) : option string := allocated (mebibytes path) (page "rendered" path (letters (mebibytes path))).

Definition rendered (seq : N) (body : string) : list string :=
  [text ["HTTP/1.1 200 OK"; HTML; content_length (len body); UNCACHEABLE; origin_total seq; "Connection: close"; EmptyString]; body].

Definition etag (path : string) : string := Json.lit "'v-" +:+ print_uint (default 1 (tail_number path)) +:+ Json.lit "'".
Definition validated (head path : string) (seq : N) : list string :=
  let tag := etag path in
  let matched := match header_value head "if-none-match" with
                 | Some value => existsb (λ t, bool_decide (trim t = tag)) (split_on "," value)
                 | None => false
                 end in
  if matched
  then [text ["HTTP/1.1 304 Not Modified"; "ETag: " +:+ tag; CACHEABLE; origin_total seq; "Connection: close"; EmptyString]]
  else
    let body := page "validated" path EmptyString in
    [text ["HTTP/1.1 200 OK"; HTML; content_length (len body); "ETag: " +:+ tag; "Last-Modified: Wed, 21 Oct 2015 07:28:00 GMT";
           CACHEABLE; "Accept-Ranges: bytes"; origin_total seq; "Connection: close"; EmptyString] +:+ body].

Definition tag_char (a : ascii) : bool := is_ascii_alphabetic a || is_digit a || bool_decide (a = "-"%char).
Definition cache_tags (path : string) : string :=
  default EmptyString
    (rest ← strip_prefix "/tagged/" path;
     tag ← head (split_on "/" rest);
     if negb (is_empty tag) && all_chars tag_char tag then Some ("X-Harmost-Cache-Tags: " +:+ tag +:+ nl) else None).
Definition set_cookie (instance path : string) (seq : N) : string :=
  if starts_with "/private" path
  then "Set-Cookie: session=user-" +:+ instance +:+ "-" +:+ print_uint seq +:+ "; Path=/" +:+ nl else EmptyString.
Definition plain_body (path : string) : option string :=
  if starts_with "/big" path then filled path else Some (page "rendered" path EmptyString).
Definition plain (instance path body : string) (now seq peak : N) (failing : bool) (total : N) : string :=
  text ["HTTP/1.1 " +:+ (if failing then "502 Bad Gateway" else "200 OK"); HTML; content_length (len body); UNCACHEABLE;
        "X-Origin-Concurrency: " +:+ print_uint now; "X-Origin-Peak: " +:+ print_uint peak; origin_total total]
  +:+ cache_tags path +:+ set_cookie instance path seq +:+ text ["Connection: close"; EmptyString] +:+ body.

(** The kinds whose writes all come before they are counted out; which writes of
    a stream fail is up to the reader. *)
Definition respond (kind : Kind) (head path : string) (seq : N) (head_written : bool) (written : N → bool) :
    option (list string) :=
  match kind with
  | Stream => Some (stream path seq head_written written)
  | Truncated => truncated path seq
  | BadChunk => Some bad_chunk
  | EchoHeaders => Some (echo_headers head seq)
  | Validated => Some (validated head path seq)
  | Rendered | Plain => None
  end.
End Responses.

(** ** WebSockets *)

Definition BAD_REQUEST : string := text ["HTTP/1.1 400 Bad Request"; "Content-Length: 0"; "Connection: close"; EmptyString].

(** The handshake: refused without a key. *)
Definition handshake (head : string) : result string string :=
  key ← ok_or (header_value head "sec-websocket-key") BAD_REQUEST;
  Ok (text ["HTTP/1.1 101 Switching Protocols"; "Upgrade: websocket"; "Connection: Upgrade";
            "Sec-WebSocket-Accept: " +:+ websocket_accept key; EmptyString]).

(** What one read of the socket leads to: bytes written, and whether to go on. *)
Definition on_frame (frame : octets) : octets * bool :=
  match frame with
  | b0 :: b1 :: rest =>
      if N.land b0 15 =? 8 then ([0x88; 0x00], false)
      else
        let masked := negb (N.land b1 128 =? 0) in
        let length := N.to_nat (N.land b1 127) in
        if negb masked || (List.length frame <? 2 + 4 + length)%nat then ([], false)
        else
          let mask := take 4 rest in
          let payload := imap (λ i byte, N.lxor byte (nth (i mod 4) mask 0)) (take length (drop 4 rest)) in
          (0x81 :: N.of_nat (List.length payload) mod 256 :: payload, true)
  | _ => ([], false)
  end.

(** ** The process *)

(** A connection, by what it does next.  [epoch] is the number of resets there
    had been when its count reached the peak. *)
Inductive Conn :=
| Arrived (head : string)
| Resetting (seen : N)
| ClearingTotal
| ClearingSockets
| SocketOpened
| Entered (head path : string) (now : N)
| Told (head path : string) (now epoch : N)
| Rendering (head path : string) (now epoch seq : N)
| Peeked (path body : string) (now epoch seq shown shown_at : N)
| Judged (path body : string) (now epoch seq shown shown_at : N) (bad : bool)
| Answered (now epoch shown shown_at : N)
| Transmitting
| Socket
| Dead.

(** What the counters are judged by, newest first: a render counted in as the
    [n]th in flight, a count told to the peak, a reset that stored what it had
    [found] in flight when [now] were. *)
Inductive Happening := CountedIn (n : N) | ToldPeak (n : N) | WasReset (found now : N).
Abbreviation Past := (list Happening).

Definition resets (p : Past) : N := sum_N ((λ e, match e with WasReset _ _ => 1 | _ => 0 end) <$> p).
Definition counted_in (p : Past) : list N := omap (λ e, match e with CountedIn n => Some n | _ => None end) p.
Definition told (p : Past) : list N := omap (λ e, match e with ToldPeak n => Some n | _ => None end) p.
Definition most (l : list N) : N := foldr N.max 0 l.
Definition highest (p : Past) : N := most (counted_in p).

(** What happened since the last reset, and before it. *)
Fixpoint since (p : Past) : Past :=
  match p with [] | WasReset _ _ :: _ => [] | e :: p => e :: since p end.
Fixpoint before_reset (p : Past) : Past :=
  match p with [] => [] | WasReset _ _ :: p => p | _ :: p => before_reset p end.
Fixpoint last_reset (p : Past) : option (N * N) :=
  match p with [] => None | WasReset found now :: _ => Some (found, now) | _ :: p => last_reset p end.
Definition found (p : Past) : N := from_option fst 0 (last_reset p).

(** The renders that had been counted in and had yet to tell. *)
Definition untold (p : Past) : N := N.of_nat (length (counted_in p)) - N.of_nat (length (told p)).
(** The highest count in flight at or since the last reset. *)
Definition top (p : Past) : N := N.max (from_option snd 0 (last_reset p)) (highest (since p)).

Record Origin := mkOrigin { stats : Stats; conns : list Conn; past : Past }.
Definition started : Origin := mkOrigin no_stats [] [].

Section Steps.
Context (allocates : N → bool) (instance : string).

(** One connection's next atomic operation: the counters and the history
    before and after, what it becomes ([None] when it is over), and what is written. *)
Inductive moves : Conn → Stats → Past → option Conn → Stats → Past → list string → Prop :=
| control_answered head s p out s' :
    control_response (request_path head) s = Some (out, s') → request_path head ≠ "/__reset" →
    moves (Arrived head) s p None s' p [out]
| reset_loads head s p :
    request_path head = "/__reset" → moves (Arrived head) s p (Some (Resetting (in_flight s))) s p []
| reset_stores seen s p :
    moves (Resetting seen) s p (Some ClearingTotal) (with_peak seen s) (WasReset seen (in_flight s) :: p) []
| reset_clears_total s p :
    moves ClearingTotal s p (Some ClearingSockets) (with_total 0 s) p []
| reset_clears_sockets s p :
    moves ClearingSockets s p None (with_sockets (sockets_open s) 0 s) p [control_text "reset"]
| socket_refused head s p out :
    control_response (request_path head) s = None → starts_with "/ws" (request_path head) = true →
    handshake head = Err out → moves (Arrived head) s p None s p [out]
| socket_unwritten head s p out :
    control_response (request_path head) s = None → starts_with "/ws" (request_path head) = true →
    handshake head = Ok out → moves (Arrived head) s p None s p []
| socket_opened head s p out :
    control_response (request_path head) s = None → starts_with "/ws" (request_path head) = true →
    handshake head = Ok out →
    moves (Arrived head) s p (Some SocketOpened) (with_sockets (wrapping_add (sockets_open s) 1) (sockets_total s) s) p [out]
| socket_counted s p :
    moves SocketOpened s p (Some Socket) (with_sockets (sockets_open s) (wrapping_add (sockets_total s) 1) s) p []
| socket_echoed frame out s p :
    on_frame frame = (out, true) → moves Socket s p (Some Socket) s p [string_of_list_ascii (chr <$> out)]
| socket_closed s p :
    moves Socket s p None (with_sockets (wrapping_sub (sockets_open s) 1) (sockets_total s) s) p []
| render_entered head s p :
    control_response (request_path head) s = None → starts_with "/ws" (request_path head) = false →
    moves (Arrived head) s p (Some (Entered head (request_path head) (in_flight (enter s)))) (enter s)
      (CountedIn (in_flight (enter s)) :: p) []
| peak_told head path now s p :
    moves (Entered head path now) s p (Some (Told head path now (resets p))) (with_peak (N.max (peak s) now) s) (ToldPeak now :: p) []
| render_counted head path now epoch s p :
    let seq := wrapping_add (total s) 1 in
    moves (Told head path now epoch) s p (Some (Rendering head path now epoch seq)) (with_total seq s) p []
| responded head path now epoch seq s p hw wr out :
    respond allocates (kind_of path) head path seq hw wr = Some out →
    moves (Rendering head path now epoch seq) s p None (leave s) p out
| truncation_dies head path now epoch seq s p :
    kind_of path = Truncated → truncated allocates path seq = None →
    moves (Rendering head path now epoch seq) s p (Some Dead) s p []
| rendered_out head path now epoch seq s p body :
    kind_of path = Rendered → filled allocates path = Some body →
    moves (Rendering head path now epoch seq) s p (Some Transmitting) (leave s) p (rendered seq body)
| rendering_dies head path now epoch seq s p :
    kind_of path = Rendered → filled allocates path = None →
    moves (Rendering head path now epoch seq) s p (Some Dead) s p []
| transmitted s p : moves Transmitting s p None s p []
| peak_shown head path now epoch seq s p body :
    kind_of path = Plain → plain_body allocates path = Some body →
    moves (Rendering head path now epoch seq) s p (Some (Peeked path body now epoch seq (peak s) (resets p))) s p []
| plain_dies head path now epoch seq s p :
    kind_of path = Plain → plain_body allocates path = None →
    moves (Rendering head path now epoch seq) s p (Some Dead) s p []
| judged path body now epoch seq shown shown_at s p :
    moves (Peeked path body now epoch seq shown shown_at) s p
      (Some (Judged path body now epoch seq shown shown_at (failing s))) s p []
| answered path body now epoch seq shown shown_at bad s p :
    moves (Judged path body now epoch seq shown shown_at bad) s p (Some (Answered now epoch shown shown_at)) s p
      [plain instance path body now seq shown bad (total s)]
| counted_out now epoch shown shown_at s p :
    moves (Answered now epoch shown shown_at) s p None (leave s) p [].

Inductive step : Origin → Origin → Prop :=
| accepted head w : step w (mkOrigin (stats w) (conns w ++ [Arrived head]) (past w))
| moved before c after next s p s' p' out :
    moves c s p next s' p' out →
    step (mkOrigin s (before ++ c :: after) p) (mkOrigin s' (before ++ option_list next ++ after) p').

Inductive reachable : Origin → Prop :=
| reachable_started : reachable started
| reachable_step w w' : reachable w → step w w' → reachable w'.
End Steps.

(** ** What the counters say *)

Definition one (b : bool) : N := if b then 1 else 0.
(** Renders that are counted in and not out: those being served, and those whose
    task died. *)
Definition under_way (c : Conn) : bool :=
  match c with
  | Entered _ _ _ | Told _ _ _ _ | Rendering _ _ _ _ _ | Peeked _ _ _ _ _ _ _ | Judged _ _ _ _ _ _ _ _ | Answered _ _ _ _ => true
  | _ => false
  end.
Definition died (c : Conn) : bool := match c with Dead => true | _ => false end.
Definition socket (c : Conn) : bool := match c with SocketOpened | Socket => true | _ => false end.
Definition counted (c : Conn) : bool := under_way c || died c.
Definition count (f : Conn → bool) (l : list Conn) : N := sum_N ((λ c, one (f c)) <$> l).

(** What each connection knows is no more than there was; unless a reset came
    between, the peak it told is still there. *)
Definition good (r pk h : N) (c : Conn) : Prop :=
  match c with
  | Resetting seen => seen <= h
  | Entered _ _ now => now <= h
  | Told _ _ now epoch | Rendering _ _ now epoch _ => epoch <= r ∧ (epoch = r → now <= pk)
  | Peeked _ _ now epoch _ shown shown_at | Judged _ _ now epoch _ shown shown_at _ | Answered now epoch shown shown_at =>
      epoch = shown_at → now <= shown
  | Arrived _ | ClearingTotal | ClearingSockets | SocketOpened | Transmitting | Socket | Dead => True
  end.

(** What the renders that have yet to tell were counted as. *)
Definition entered (l : list Conn) : list N := omap (λ c, match c with Entered _ _ now => Some now | _ => None end) l.

(** The peak is the reading of the last reset and what was told since; each
    render tells once what it was counted in as. *)
Definition peak_holds (p : Past) (pk : N) (l : list Conn) : Prop :=
  pk = N.max (found p) (most (told (since p)))
  ∧ counted_in p ≡ₚ told p ++ entered l
  ∧ told (before_reset p) ⊆+ counted_in (before_reset p).

Record Inv (w : Origin) : Prop := mkInv {
  flight_exact : in_flight (stats w) = count counted (conns w) mod two64;
  sockets_exact : sockets_open (stats w) = count socket (conns w) mod two64;
  flight_seen : N.min (count counted (conns w)) U64_MAX <= highest (past w);
  peak_seen : peak (stats w) <= highest (past w);
  all_good : Forall (good (resets (past w)) (peak (stats w)) (highest (past w))) (conns w);
  peak_exact : peak_holds (past w) (peak (stats w)) (conns w) }.

Lemma count_app f l k : count f (l ++ k) = count f l + count f k.
Proof. unfold count. by rewrite fmap_app, sum_N_app. Qed.
Lemma count_one f c : count f [c] = one (f c).
Proof. unfold count. simpl. lia. Qed.

Lemma control_keeps path s out s' :
  control_response path s = Some (out, s') → path ≠ "/__reset" →
  in_flight s' = in_flight s ∧ peak s' = peak s ∧ sockets_open s' = sockets_open s.
Proof.
  unfold control_response. intros H Hn. repeat case_match; simplify_eq; try done.
  by apply String.eqb_eq in H2.
Qed.

(** A counter that wraps counts modulo its width. *)
Lemma wrap_up n : wrapping_add (n mod two64) 1 = (n + 1) mod two64.
Proof. unfold wrapping_add. by rewrite N.Div0.add_mod_idemp_l. Qed.
Lemma wrap_down n : 1 <= n → wrapping_sub (n mod two64) 1 = (n - 1) mod two64.
Proof.
  intros Hn. unfold wrapping_sub. change (1 mod two64) with 1. rewrite N.Div0.add_mod_idemp_l.
  replace (n + (two64 - 1)) with (n - 1 + 1 * two64) by (rewrite two64_eq; lia). by rewrite N.Div0.mod_add.
Qed.

Section Proofs.
Context (allocates : N → bool) (instance : string).
Abbreviation moves := (moves allocates instance).

(** A step counts a render in, counts one out, or neither. *)
Lemma moves_flight c s p next s' p' out :
  moves c s p next s' p' out →
  (in_flight s' = in_flight s ∧ count counted (option_list next) = one (counted c) ∧ highest p' = highest p)
  ∨ (in_flight s' = wrapping_add (in_flight s) 1 ∧ count counted (option_list next) = 1 ∧ counted c = false
     ∧ highest p' = N.max (in_flight s') (highest p))
  ∨ (in_flight s' = wrapping_sub (in_flight s) 1 ∧ count counted (option_list next) = 0 ∧ counted c = true
     ∧ highest p' = highest p).
Proof.
  destruct 1; try (left; split; [reflexivity|split; reflexivity]); try (right; left; by split_and!); try (right; right; by split_and!).
  left. split; [by eapply control_keeps|done].
Qed.

Lemma moves_sockets c s p next s' p' out :
  moves c s p next s' p' out →
  (sockets_open s' = sockets_open s ∧ count socket (option_list next) = one (socket c))
  ∨ (sockets_open s' = wrapping_add (sockets_open s) 1 ∧ count socket (option_list next) = 1 ∧ socket c = false)
  ∨ (sockets_open s' = wrapping_sub (sockets_open s) 1 ∧ count socket (option_list next) = 0 ∧ socket c = true).
Proof.
  destruct 1; try (left; split; reflexivity); try (right; left; by split_and!); try (right; right; by split_and!).
  left. split; [by eapply control_keeps|done].
Qed.

(** What a step adds to the past. *)
Lemma moves_past c s p next s' p' out :
  moves c s p next s' p' out →
  (p' = p ∧ peak s' = peak s ∧ entered [c] = entered (option_list next))
  ∨ (∃ n, p' = CountedIn n :: p ∧ peak s' = peak s ∧ entered [c] = [] ∧ entered (option_list next) = [n])
  ∨ (∃ n, p' = ToldPeak n :: p ∧ peak s' = N.max (peak s) n ∧ entered [c] = [n] ∧ entered (option_list next) = [])
  ∨ (∃ seen, p' = WasReset seen (in_flight s) :: p ∧ peak s' = seen ∧ entered [c] = [] ∧ entered (option_list next) = []).
Proof.
  destruct 1; try (left; by split_and!).
  - left. split_and!; [done|by eapply control_keeps|done].
  - right; right; right. by eexists.
  - right; left. by eexists.
  - right; right; left. by eexists.
Qed.

Lemma entered_app l k : entered (l ++ k) = entered l ++ entered k.
Proof. apply omap_app. Qed.

Lemma peak_holds_moves c s p next s' p' out before after :
  moves c s p next s' p' out → peak_holds p (peak s) (before ++ [c] ++ after) →
  peak_holds p' (peak s') (before ++ option_list next ++ after).
Proof.
  unfold peak_holds. intros Hm (Hp & Ht & Hb). rewrite !entered_app in *.
  destruct (moves_past _ _ _ _ _ _ _ Hm) as [(-> & -> & <-)|[(n & -> & -> & Ec & ->)|[(n & -> & -> & Ec & ->)|(seen & -> & -> & Ec & ->)]]];
    [done|rewrite Ec in Ht..].
  - split_and!; [exact Hp| |exact Hb]. change (counted_in (CountedIn n :: p)) with (n :: counted_in p).
    change (told (CountedIn n :: p)) with (told p). rewrite Ht. solve_Permutation.
  - split_and!; [| |exact Hb].
    + change (most (told (since (ToldPeak n :: p)))) with (N.max n (most (told (since p)))).
      change (found (ToldPeak n :: p)) with (found p). lia.
    + change (counted_in (ToldPeak n :: p)) with (counted_in p). change (told (ToldPeak n :: p)) with (n :: told p).
      rewrite Ht. solve_Permutation.
  - split_and!; [by rewrite N.max_0_r|exact Ht|]. change (told p ⊆+ counted_in p).
    rewrite Ht. by apply submseteq_inserts_r.
Qed.

Lemma moves_history c s p next s' p' out :
  moves c s p next s' p' out → in_flight s <= highest p → peak s <= highest p → good (resets p) (peak s) (highest p) c →
  (resets p' = resets p ∧ peak s <= peak s' ∨ resets p' = resets p + 1) ∧ highest p <= highest p' ∧ peak s' <= highest p'
  ∧ Forall (good (resets p') (peak s') (highest p')) (option_list next).
Proof.
  intros Hm Hf Hp Hg.
  assert (∀ n, resets (CountedIn n :: p) = resets p ∧ highest (CountedIn n :: p) = N.max n (highest p)) as Hin by done.
  assert (∀ n, resets (ToldPeak n :: p) = resets p ∧ highest (ToldPeak n :: p) = highest p) as Htold by done.
  assert (∀ a b, resets (WasReset a b :: p) = resets p + 1 ∧ highest (WasReset a b :: p) = highest p) as Hreset
    by (intros a b; split; [exact (N.add_comm 1 _)|done]).
  destruct Hm; try (destruct (Hin (in_flight (enter s))) as [-> ->]); try (destruct (Htold now) as [-> ->]);
    try (destruct (Hreset seen (in_flight s)) as [-> ->]); cbn [good option_list option_rect] in *;
    cbn [peak with_peak with_total with_in_flight with_sockets enter leave reset in_flight] in *.
  { destruct (control_keeps _ _ _ _ ltac:(eassumption) ltac:(assumption)) as (_ & -> & _). split_and!; [by left|done|done|done]. }
  all: split; [first [by left|by right|left; split; [done|lia]]|]; split; [lia|]; split; [lia|].
  all: first [apply Forall_nil; exact I|apply Forall_singleton; cbn [good]; first [exact I|lia|tauto|intuition lia]].
Qed.

Lemma good_mono r pk h r' pk' h' c :
  (r' = r ∧ pk <= pk' ∨ r' = r + 1) → h <= h' → good r pk h c → good r' pk' h' c.
Proof. intros H Hh. destruct c; simpl; try tauto; try lia; intuition lia. Qed.

Lemma inv_started : Inv started.
Proof. split; [done|done|done|done|constructor|by split_and!]. Qed.

Lemma flight_bound w : Inv w → in_flight (stats w) <= highest (past w).
Proof.
  intros [H1 _ H3 _ _ _]. rewrite H1. etrans; [|exact H3]. rewrite two64_eq. apply N.min_glb.
  - apply N.Div0.mod_le.
  - pose proof (N.mod_lt (count counted (conns w)) (U64_MAX + 1)). lia.
Qed.

Lemma step_inv w w' : Inv w → step allocates instance w w' → Inv w'.
Proof.
  intros HI Hs. pose proof (flight_bound w HI) as Hf. destruct HI as [H1 H2 H3 H4 H5 H6].
  destruct Hs as [hd w|before c after next s p s' p' out Hm]; cbn [stats conns past] in *.
  { split; cbn [stats conns past]; rewrite ?count_app, ?count_one; simpl; rewrite ?N.add_0_r; try done.
    - apply Forall_app. by split; [|repeat constructor].
    - unfold peak_holds in *. rewrite entered_app. change (entered [Arrived hd]) with (@nil N). by rewrite app_nil_r. }
  apply Forall_app in H5 as [G1 G2]. apply Forall_cons in G2 as [Gc G2].
  destruct (moves_history _ _ _ _ _ _ _ Hm Hf H4 Gc) as (Hr & Hh & Hp & Gn).
  change (c :: after) with ([c] ++ after) in *. rewrite !count_app, count_one in H1, H2, H3.
  split; cbn [stats conns past]; rewrite ?count_app.
  - destruct (moves_flight _ _ _ _ _ _ _ Hm) as [(-> & -> & _)|[(-> & -> & E & _)|(-> & -> & E & _)]]; [done|..];
      rewrite E in H1; cbn [one] in H1; rewrite H1; [rewrite wrap_up|rewrite wrap_down by lia]; f_equal; lia.
  - destruct (moves_sockets _ _ _ _ _ _ _ Hm) as [(-> & ->)|[(-> & -> & E)|(-> & -> & E)]]; [done|..];
      rewrite E in H2; cbn [one] in H2; rewrite H2; [rewrite wrap_up|rewrite wrap_down by lia]; f_equal; lia.
  - destruct (moves_flight _ _ _ _ _ _ _ Hm) as [(_ & -> & ->)|[(E0 & -> & E & E')|(_ & -> & E & ->)]]; [done|..];
      rewrite E in H1, H3; cbn [one] in H1, H3; [|lia].
    rewrite H1, wrap_up in E0. destruct (N.le_gt_cases (count counted before + (0 + count counted after) + 1) U64_MAX) as [Hl|Hl]; [|lia].
    rewrite N.mod_small in E0 by (rewrite two64_eq; lia). lia.
  - exact Hp.
  - apply Forall_app. split; [eapply Forall_impl; [exact G1|]; intros x; by apply good_mono|].
    apply Forall_app. split; [done|]. eapply Forall_impl; [exact G2|]. intros x. by apply good_mono.
  - by eapply peak_holds_moves.
Qed.

Lemma counts_inv w : reachable allocates instance w → Inv w.
Proof. induction 1 as [|w w' _ IH Hs]; [apply inv_started|by eapply step_inv]. Qed.

Lemma none_entered l : (∀ head path now, Entered head path now ∉ l) → entered l = [].
Proof.
  induction l as [|c l IH]; intros H; [done|]. unfold entered in *. cbn [omap list_omap].
  rewrite IH by (intros hd p n Hin; apply (H hd p n); by right).
  destruct c as [| | | | |hd p n| | | | | | | |]; try done. exfalso. apply (H hd p n). by left.
Qed.

Lemma count_counted l : count counted l = count under_way l + count died l.
Proof. induction l as [|c l IH]; [done|]. unfold count in *. cbn [fmap list_fmap sum_N foldr] in *. unfold sum_N in IH. rewrite IH. destruct c; simpl; lia. Qed.

(** Once everyone has told, what was told since the last reset is what was
    counted in since, if that was so when it came. *)
Lemma past_split p :
  (counted_in p = counted_in (since p) ++ counted_in (before_reset p)) ∧ told p = told (since p) ++ told (before_reset p).
Proof.
  induction p as [|[n|n|a b] p [IH1 IH2]]; [done|..]; [| |done].
  - change (n :: counted_in p = n :: (counted_in (since p) ++ counted_in (before_reset p)) ∧ told p = told (since p) ++ told (before_reset p)).
    by rewrite <-IH1.
  - change (counted_in p = counted_in (since p) ++ counted_in (before_reset p) ∧ n :: told p = n :: (told (since p) ++ told (before_reset p))).
    by rewrite <-IH2.
Qed.

#[local] Instance most_perm : Proper (Permutation ==> eq) most.
Proof. induction 1; simpl; lia. Qed.

Lemma told_is_counted p pk l :
  peak_holds p pk l → entered l = [] → untold (before_reset p) = 0 →
  most (told (since p)) = highest (since p).
Proof.
  intros (_ & Ht & Hb) He Hu. rewrite He, app_nil_r in Ht. destruct (past_split p) as [E1 E2]. rewrite E1, E2 in Ht.
  assert (told (before_reset p) ≡ₚ counted_in (before_reset p)) as Hbt.
  { apply submseteq_length_Permutation; [exact Hb|]. unfold untold in Hu. lia. }
  rewrite Hbt in Ht. apply (inj (.++ _)) in Ht. unfold highest. by rewrite Ht.
Qed.

(** C39: The benchmark's ground truth is true.  However connections interleave,
    between any two atomic operations: the origin's count in flight is the number
    of renders counted in and not out, plus those whose task died while it was
    counted; the sockets are those open; the highest count there ever was is no
    less than what is in flight, and the peak no more than it.  The peak is
    exactly the highest of what the last reset found in flight and of what
    renders told since (without a reset, of all they told).  Once none is
    between being counted in and telling, and if none was when that reset came,
    these are the counts of the renders counted in since; and if besides the
    reset stored what was in flight as it stored it, the peak is the highest
    count in flight at or since that reset.  An answer never reports a peak below
    its own concurrency unless a reset came between the two.  Health probes,
    polls and sockets are not in these numbers at all. *)
Theorem counters_tell_the_truth w :
  reachable allocates instance w →
  in_flight (stats w) = (count under_way (conns w) + count died (conns w)) mod two64
  ∧ sockets_open (stats w) = count socket (conns w) mod two64
  ∧ N.min (count under_way (conns w) + count died (conns w)) U64_MAX <= highest (past w)
  ∧ peak (stats w) <= highest (past w)
  ∧ peak (stats w) = N.max (found (past w)) (most (told (since (past w))))
  ∧ ((∀ head path now, Entered head path now ∉ conns w) → untold (before_reset (past w)) = 0 →
     peak (stats w) = N.max (found (past w)) (highest (since (past w)))
     ∧ ((∀ a now, last_reset (past w) = Some (a, now) → a = now) → peak (stats w) = top (past w)))
  ∧ ∀ path body now epoch seq shown shown_at bad,
      Judged path body now epoch seq shown shown_at bad ∈ conns w → epoch = shown_at → now <= shown.
Proof.
  intros [H1 H2 H3 H4 H5 H6]%counts_inv. rewrite count_counted in H1, H3. pose proof H6 as (Hp & _).
  split_and!; try done.
  - intros Hn Hu. apply told_is_counted in H6; [|by apply none_entered|done]. rewrite H6 in Hp.
    split; [exact Hp|]. intros Hl. rewrite Hp. unfold found, top.
    destruct (last_reset (past w)) as [[a now]|]; [|done]. cbn [from_option fst snd]. by rewrite (Hl _ _ eq_refl).
  - intros path body now epoch seq shown shown_at bad Hin. by apply (proj1 (Forall_forall _ _) H5) in Hin.
Qed.

(** With memory for every body nothing stays counted. *)
Lemma nothing_stays_counted w :
  (∀ n, allocates n = true) → reachable allocates instance w → count died (conns w) = 0.
Proof.
  intros Ha. induction 1 as [|w w' _ IH Hs]; [done|]. destruct Hs as [hd w|before c after next s p s' p' out Hm]; cbn [conns] in *.
  - rewrite count_app, IH. done.
  - change (c :: after) with ([c] ++ after) in IH. rewrite !count_app in *.
    assert (count died (option_list next) = 0) as E; [|lia].
    destruct Hm; try reflexivity; exfalso.
    + unfold truncated, allocated in *. rewrite Ha in *. done.
    + unfold filled, allocated in *. rewrite Ha in *. done.
    + unfold plain_body, filled, allocated in *. rewrite Ha in *. by destruct (starts_with "/big" path).
Qed.
End Proofs.

(** ** The echo *)

(** A frame as a client sends it: final, masked, with a short payload. *)
Definition client_frame (opcode : N) (mask payload : octets) : octets :=
  128 + opcode :: 128 + N.of_nat (length payload) :: mask ++ imap (λ i b, N.lxor b (nth (i mod 4) mask 0)) payload.

Lemma frame_bytes n : n < 128 → N.land (128 + n) 15 = n mod 16 ∧ N.land (128 + n) 128 = 128 ∧ N.land (128 + n) 127 = n.
Proof.
  intros Hn. assert (forallb (λ k, bool_decide (N.land (128 + N.of_nat k) 15 = N.of_nat k mod 16
      ∧ N.land (128 + N.of_nat k) 128 = 128 ∧ N.land (128 + N.of_nat k) 127 = N.of_nat k)) (seq 0 128) = true) as H by (by vm_compute).
  assert (In (N.to_nat n) (seq 0 128)) as Hin by (apply in_seq; lia).
  rewrite forallb_forall in H. specialize (H _ Hin). apply bool_decide_eq_true in H. by rewrite N2Nat.id in H.
Qed.

(** Every frame but a close comes back unmasked, and nothing else is written. *)
Theorem frames_are_echoed opcode mask payload :
  opcode < 16 → opcode ≠ 8 → length mask = 4%nat → (length payload < 128)%nat →
  on_frame (client_frame opcode mask payload) = (0x81 :: N.of_nat (length payload) :: payload, true).
Proof.
  intros Ho Hc Hm Hp. unfold client_frame, on_frame.
  destruct (frame_bytes opcode ltac:(lia)) as (E1 & _ & _). rewrite E1, N.mod_small by done.
  rewrite (proj2 (N.eqb_neq _ _) Hc). destruct (frame_bytes (N.of_nat (length payload)) ltac:(lia)) as (_ & E2 & E3).
  rewrite E2, E3, Nat2N.id. cbn [N.eqb negb orb].
  replace (_ <? _)%nat with false by (symmetry; apply Nat.ltb_ge; cbn [length]; rewrite length_app, length_imap; lia).
  rewrite take_app_length', drop_app_length' by done. rewrite take_ge by (rewrite length_imap; lia).
  assert (imap (λ i b, N.lxor b (nth (i mod 4) mask 0)) (imap (λ i b, N.lxor b (nth (i mod 4) mask 0)) payload) = payload) as ->.
  { apply list_eq. intros i. rewrite !list_lookup_imap. destruct (payload !! i) as [b|]; [|done]. cbn.
    by rewrite N.lxor_assoc, N.lxor_nilpotent, N.lxor_0_r. }
  by rewrite N.mod_small by lia.
Qed.

(** ** Examples *)

(** [/big/4] and [/stream/8] with a query: the first keeps its number, the second
    does not. *)
Example tail_number_ignores_the_query : tail_number "/big/4?u=1" = Some 4.
Proof. vm_compute. reflexivity. Qed.
Example stream_chunks_read_the_query : stream_chunks "/stream/8" = 8 ∧ stream_chunks "/stream/8?u=1" = 4.
Proof. by vm_compute. Qed.

(** Two renders, the first counted out; an oversized third whose task dies. *)
Definition get (path : string) : string := "GET " +:+ path +:+ " HTTP/1.1" +:+ nl +:+ nl.

Lemma dead_renders_stay_counted :
  ∃ w, reachable (λ n, n <? 1000) "3000-1" w ∧ conns w = [Dead] ∧ in_flight (stats w) = 1.
Proof.
  eexists. split.
  { eapply reachable_step; [eapply reachable_step; [eapply reachable_step; [eapply reachable_step; [eapply reachable_step; [constructor|]|]|]|]|].
    - apply (accepted _ _ (get "/rendered/9")).
    - eapply (moved _ _ [] _ []). apply render_entered; by vm_compute.
    - eapply (moved _ _ [] _ []). apply peak_told.
    - eapply (moved _ _ [] _ []). apply render_counted.
    - eapply (moved _ _ [] _ [] (Some Dead)). apply rendering_dies; reflexivity. }
  split; by vm_compute.
Qed.

(** A render comes and goes, then a reset: the peak is what it found. *)
Definition after_reset : Origin :=
  mkOrigin (with_peak 0 (leave (with_total 1 (with_peak 1 (enter no_stats))))) [ClearingTotal] [WasReset 0 0; ToldPeak 1; CountedIn 1].

Lemma reached_after_reset : reachable (λ _, true) "3000-1" after_reset.
Proof.
  eapply reachable_step; [eapply reachable_step; [eapply reachable_step; [eapply reachable_step; [eapply reachable_step;
    [eapply reachable_step; [eapply reachable_step; [eapply reachable_step; [constructor|]|]|]|]|]|]|]|].
  - apply (accepted _ _ (get "/badchunk")).
  - apply (accepted _ _ (get "/__reset")).
  - eapply (moved _ _ [] _ [_]). apply render_entered; by vm_compute.
  - eapply (moved _ _ [] _ [_]). apply peak_told.
  - eapply (moved _ _ [] _ [_]). apply render_counted.
  - eapply (moved _ _ [] _ [_] None). apply (responded _ _ _ _ _ _ _ _ _ true (λ _, true) bad_chunk). by vm_compute.
  - eapply (moved _ _ [] _ [] (Some (Resetting 0))). apply reset_loads. by vm_compute.
  - eapply (moved _ _ [] _ [] (Some ClearingTotal)). apply reset_stores.
Qed.

Lemma counters_tell_the_truth_witness :
  in_flight (stats after_reset) = 0 ∧ highest (past after_reset) = 1 ∧ peak (stats after_reset) = 0
  ∧ peak (stats after_reset) = top (past after_reset).
Proof.
  destruct (counters_tell_the_truth (λ _, true) "3000-1" after_reset reached_after_reset) as (E & _ & _ & _ & _ & Hp & _).
  split; [rewrite E; by vm_compute|]. split; [by vm_compute|]. split; [by vm_compute|].
  apply Hp; [|by vm_compute|by intros a now [= <- <-]]. intros head path now Hin%list_elem_of_singleton. discriminate Hin.
Defined.

(** A render counted in and told between the reset's two operations is lost: the
    peak is then below what is in flight. *)
Example reset_loses_a_render :
  ∃ w, reachable (λ _, true) "3000-1" w ∧ in_flight (stats w) = 1 ∧ peak (stats w) = 0.
Proof.
  eexists. split.
  { eapply reachable_step; [eapply reachable_step; [eapply reachable_step; [eapply reachable_step; [eapply reachable_step;
      [eapply reachable_step; [constructor|]|]|]|]|]|].
    - apply (accepted _ _ (get "/__reset")).
    - apply (accepted _ _ (get "/p")).
    - eapply (moved _ _ [] _ [_] (Some (Resetting 0))). apply reset_loads. by vm_compute.
    - eapply (moved _ _ [_] _ []). apply render_entered; by vm_compute.
    - eapply (moved _ _ [_] _ []). apply peak_told.
    - eapply (moved _ _ [] _ [_] (Some ClearingTotal)). apply reset_stores. }
  split; by vm_compute.
Qed.
