(* ===== verification/SpikeStore.v ===== *)
(** * The store of the spike ([src/spike/pingora-cache/src/lib.rs])

    The throwaway store the real one ([Store]) grew out of: a byte budget over a
    first-in-first-out queue, and fills that can be followed.  Unlike the real
    one it changes its count outside the lock ([admit_object] is two steps), frees less
    than it counted when an entry is purged and does not count new metadata;
    [books_drift] says by exactly how much its count is off, and the examples
    show what that does.  [CacheMeta] is Pingora's.  Integers are a release
    build's; a fill's shared body and progress are a channel under its id. *)

From S2P Require Import Prelude Words Text.
Local Open Scope string_scope.
Local Open Scope list_scope.
Local Open Scope N_scope.

Abbreviation BinaryMeta := (string * string)%type.

Inductive Written := Partial (n : N) | Complete (n : N).
Definition written_bytes (w : Written) : N := match w with Partial n | Complete n => n end.
Definition written_done (w : Written) : bool := match w with Complete _ => true | Partial _ => false end.

Record Stored := mkStored { meta : BinaryMeta; body : string }.
Definition meta_size (m : BinaryMeta) : N := len m.1 + len m.2.
Definition stored_size (o : Stored) : N := len (body o) + meta_size (meta o).

(** The body and the watch channel a writer and its followers share. *)
Record Channel := mkChannel { content : string; written : Written }.

Record BoundedStore := mkStore {
  cached : gmap string Stored;
  order : list string;
  temp : gmap string (gmap N BinaryMeta);
  channels : gmap N Channel;
  used : N;
  max_bytes : N;
  next_id : N }.

Definition new (max_bytes : N) : BoundedStore := mkStore ∅ [] ∅ ∅ 0 max_bytes 0.

Definition with_entries (c : gmap string Stored) (o : list string) (u : N) (s : BoundedStore) : BoundedStore :=
  mkStore c o (temp s) (channels s) u (max_bytes s) (next_id s).
Definition with_used (u : N) (s : BoundedStore) : BoundedStore := with_entries (cached s) (order s) u s.
Definition with_fills (t : gmap string (gmap N BinaryMeta)) (cs : gmap N Channel) (n : N) (s : BoundedStore) : BoundedStore :=
  mkStore (cached s) (order s) t cs (used s) (max_bytes s) n.

Definition entries (s : BoundedStore) : N := N.of_nat (size (cached s)).

(** ** Admitting *)

(** [while used + size > max_bytes]: the oldest key goes, until there is room or
    no key is left. *)
Fixpoint evict (max size : N) (c : gmap string Stored) (o : list string) (u : N) : gmap string Stored * list string * N :=
  match o with
  | [] => (c, [], u)
  | victim :: o' =>
      if max <? wrapping_add u size
      then evict max size (delete victim c) o'
             (match c !! victim with Some v => wrapping_sub u (stored_size v) | None => u end)
      else (c, o, u)
  end.

Definition without (key : string) (o : list string) : list string := filter (λ k, k ≠ key) o.

(** Under the locks; [None] when the entry is too large to be stored. *)
Definition admit_locked (key : string) (obj : Stored) (s : BoundedStore) : option BoundedStore :=
  if max_bytes s <? stored_size obj then None
  else
    let '(c, o, u) := evict (max_bytes s) (stored_size obj) (cached s) (order s) (used s) in
    let '(o, u) := match c !! key with
                   | Some old => (without key o, wrapping_sub u (stored_size old))
                   | None => (o, u)
                   end in
    Some (with_entries (<[key := obj]> c) (o ++ [key]) u s).
(** After them. *)
Definition account (obj : Stored) (s : BoundedStore) : BoundedStore := with_used (wrapping_add (used s) (stored_size obj)) s.
Definition admit_object (key : string) (obj : Stored) (s : BoundedStore) : BoundedStore :=
  match admit_locked key obj s with Some s' => account obj s' | None => s end.

(** ** [Storage] *)

Section Storage.
Context {Meta : Type} (serialize : Meta → option BinaryMeta) (deserialize : BinaryMeta → option Meta).
(** [U64WriteId::try_from]. *)
Context (write_id : string → option N).

Inductive CacheError := BadMeta | WriteVanished.

(** Where a hit's body comes from. *)
Inductive Hit := Finished (body : string) | Following (id : N).

Definition lookup_entry (key : string) (s : BoundedStore) : result CacheError (option (Meta * Hit)) :=
  match cached s !! key with
  | None => Ok None
  | Some obj => m ← ok_or (deserialize (meta obj)) BadMeta; Ok (Some (m, Finished (body obj)))
  end.

(** A tagged lookup never falls back to another write, nor to the entry. *)
Definition lookup_streaming_write (key : string) (tag : option string) (s : BoundedStore) : result CacheError (option (Meta * Hit)) :=
  match tag with
  | None => lookup_entry key s
  | Some tag =>
      match id ← write_id tag; m ← (temp s !! key ≫= lookup id); Some (id, m) with
      | None => Ok None
      | Some (id, m) => m ← ok_or (deserialize m) BadMeta; Ok (Some (m, Following id))
      end
  end.

Definition get_miss_handler (key : string) (m : Meta) (s : BoundedStore) : result CacheError (N * BoundedStore) :=
  m ← ok_or (serialize m) BadMeta;
  let id := next_id s in
  Ok (id, with_fills (<[key := <[id := m]> (default ∅ (temp s !! key))]> (temp s))
            (<[id := mkChannel EmptyString (Partial 0)]> (channels s)) (wrapping_add id 1) s).

(** [HandleMiss::write_body]: the body first, then the progress. *)
Definition write_body (id : N) (data : string) (eof : bool) (s : BoundedStore) : BoundedStore :=
  match channels s !! id with
  | None => s
  | Some c =>
      let total := written_bytes (written c) + len data in
      with_fills (temp s) (<[id := mkChannel (content c +:+ data) (if eof then Complete total else Partial total)]> (channels s)) (next_id s) s
  end.

(** [HandleMiss::finish]: the size, and the state its entry is admitted into. *)
Definition finish (key : string) (id : N) (s : BoundedStore) : result CacheError (N * BoundedStore) :=
  match temp s !! key ≫= lookup id, channels s !! id with
  | Some m, Some c =>
      let s := with_fills (alter (delete id) key (temp s))
                 (<[id := mkChannel (content c) (Complete (written_bytes (written c)))]> (channels s)) (next_id s) s in
      Ok (len (content c), admit_object key (mkStored m (content c)) s)
  | _, _ => Err WriteVanished
  end.

Definition purge (key : string) (s : BoundedStore) : bool * BoundedStore :=
  match cached s !! key with
  | None => (false, s)
  | Some v => (true, with_entries (delete key (cached s)) (without key (order s)) (wrapping_sub (used s) (len (body v))) s)
  end.

Definition update_meta (key : string) (m : Meta) (s : BoundedStore) : result CacheError (bool * BoundedStore) :=
  match cached s !! key with
  | None => Ok (false, s)
  | Some obj =>
      m ← ok_or (serialize m) BadMeta;
      Ok (true, with_entries (<[key := mkStored m (body obj)]> (cached s)) (order s) (used s) s)
  end.
End Storage.

(** ** Readers *)

(** [String::get(from..to)] of bytes that are there. *)
Definition slice (from to : N) (s : string) : string := String.substring (N.to_nat from) (N.to_nat (to - from)) s.

Record CompleteHit := mkHit { hit_body : string; hit_read : N; hit_done : bool }.
Definition complete_read (h : CompleteHit) : option string * CompleteHit :=
  if hit_done h then (None, h)
  else (Some (slice (hit_read h) (len (hit_body h)) (hit_body h)), mkHit (hit_body h) (hit_read h) true).
Definition seek (start : N) (h : CompleteHit) : CompleteHit := mkHit (hit_body h) (N.min start (len (hit_body h))) false.

Inductive Read := Chunk (data : string) (read : N) | End | Wait.
(** One turn of [PartialHit::read_body]'s loop. *)
Definition partial_read (read : N) (c : Channel) : Read :=
  let available := written_bytes (written c) in
  if read <? available then Chunk (slice read available (content c)) available
  else if written_done (written c) then End else Wait.

(** ** How far the count is off *)

Definition bytes (c : gmap string Stored) : N := map_sum stored_size c.

(** Each call that changes the entries, one after another. *)
Inductive Op := Admit (key : string) (obj : Stored) | Purge (key : string) | Update (key : string) (m : BinaryMeta).
Definition apply (op : Op) (s : BoundedStore) : BoundedStore :=
  match op with
  | Admit key obj => admit_object key obj s
  | Purge key => (purge key s).2
  | Update key m => match update_meta Some key m s with Ok (_, s') => s' | Err _ => s end
  end.

(** What a call adds to the difference between the count and the bytes held. *)
Definition drift (op : Op) (s : BoundedStore) : Z :=
  match op with
  | Admit _ _ => 0
  | Purge key => match cached s !! key with Some v => Z.of_N (meta_size (meta v)) | None => 0 end
  | Update key m => match cached s !! key with Some o => Z.of_N (meta_size (meta o)) - Z.of_N (meta_size m) | None => 0 end
  end%Z.

Inductive runs (max : N) : list Op → BoundedStore → Z → Prop :=
| runs_new : runs max [] (new max) 0
| runs_op ops s d op : runs max ops s d → runs max (ops ++ [op]) (apply op s) (d + drift op s).

(** A counter that wraps, by what it stands for. *)
Definition stands_for (u : N) (z : Z) : Prop := Z.of_N u = (z mod Z.of_N two64)%Z.

Lemma stands_add u z n : stands_for u z → stands_for (wrapping_add u n) (z + Z.of_N n).
Proof.
  unfold stands_for, wrapping_add. intros H. rewrite N2Z.inj_mod, N2Z.inj_add, H. apply Zplus_mod_idemp_l.
Qed.
Lemma stands_sub u z n : stands_for u z → stands_for (wrapping_sub u n) (z - Z.of_N n).
Proof.
  unfold stands_for, wrapping_sub. intros H. assert (n mod two64 <= two64) as Hn by (apply N.lt_le_incl, N.mod_lt; done).
  rewrite N2Z.inj_mod, N2Z.inj_add, H, N2Z.inj_sub, N2Z.inj_mod by done.
  rewrite Zplus_mod_idemp_l, (Zmod_eq_full (Z.of_N n)) by done. set (q := (Z.of_N n / Z.of_N two64)%Z).
  replace (z + (Z.of_N two64 - (Z.of_N n - q * Z.of_N two64)))%Z with (z - Z.of_N n + (1 + q) * Z.of_N two64)%Z by ring.
  by apply Z_mod_plus_full.
Qed.

(** The books up to the drift: the count, and the queue against the map. *)
Record Books (d : Z) (c : gmap string Stored) (o : list string) (u : N) : Prop := mkBooks {
  count_drifted : stands_for u (Z.of_N (bytes c) + d);
  queue_nodup : NoDup o;
  queue_exact : ∀ k, k ∈ o ↔ is_Some (c !! k) }.

Lemma bytes_delete c k v : c !! k = Some v → bytes c = stored_size v + bytes (delete k c).
Proof. intros H. unfold bytes. by apply map_sum_delete. Qed.

Lemma books_removed d c o u k v :
  Books d c o u → c !! k = Some v → Books d (delete k c) (without k o) (wrapping_sub u (stored_size v)).
Proof.
  intros [H1 H2 H3] Hv. split.
  - apply (stands_sub _ _ (stored_size v)) in H1. rewrite (bytes_delete _ _ _ Hv) in H1.
    replace (Z.of_N (stored_size v + bytes (delete k c)) + d - Z.of_N (stored_size v))%Z
      with (Z.of_N (bytes (delete k c)) + d)%Z in H1 by lia. exact H1.
  - by apply NoDup_filter.
  - intros k'. unfold without. rewrite list_elem_of_filter, H3, lookup_delete_is_Some. naive_solver.
Qed.

Lemma books_evict d max size o : ∀ c u c' o' u',
  Books d c o u → evict max size c o u = (c', o', u') →
  Books d c' o' u' ∧ (o' = [] ∨ wrapping_add u' size <= max).
Proof.
  induction o as [|victim o IH]; intros c u c' o' u' HB; cbn [evict].
  { intros [= <- <- <-]. split; [done|by left]. }
  destruct (N.ltb_spec max (wrapping_add u size)) as [Hlt|Hle].
  - apply IH. destruct (proj1 (queue_exact _ _ _ _ HB victim)) as [v Hv]; [left|]. rewrite Hv.
    pose proof (books_removed _ _ _ _ _ _ HB Hv) as HB'. pose proof (queue_nodup _ _ _ _ HB) as [Hni Hnd]%NoDup_cons.
    unfold without in HB'. rewrite filter_cons_False in HB' by naive_solver.
    rewrite filter_all in HB'; [exact HB'|]. apply Forall_forall. intros k Hk ->. done.
  - intros [= <- <- <-]. split; [done|by right].
Qed.

Lemma books_admitted d key obj s s' :
  Books d (cached s) (order s) (used s) → admit_locked key obj s = Some s' →
  Books d (cached (account obj s')) (order (account obj s')) (used (account obj s')).
Proof.
  unfold admit_locked. intros HB. destruct (_ <? _); [done|].
  destruct (evict _ _ _ _ _) as [[c o] u] eqn:E. destruct (books_evict _ _ _ _ _ _ _ _ _ HB E) as [HE _].
  assert (∃ o1 u1, match c !! key with Some old => (without key o, wrapping_sub u (stored_size old)) | None => (o, u) end = (o1, u1)
            ∧ Books d (delete key c) o1 u1) as (o1 & u1 & -> & HB1).
  { destruct (c !! key) as [old|] eqn:Ek.
    - eexists _, _. split; [reflexivity|]. by apply books_removed.
    - exists o, u. split; [done|]. by rewrite delete_id. }
  intros [= <-]. unfold account. cbn [cached order used with_entries with_used].
  rewrite <-insert_delete_eq. destruct HB1 as [H1 H2 H3]. split.
  - apply (stands_add _ _ (stored_size obj)) in H1. unfold bytes. rewrite map_sum_insert by apply lookup_delete_eq.
    fold (bytes (delete key c)).
    replace (Z.of_N (stored_size obj + bytes (delete key c)) + d)%Z with (Z.of_N (bytes (delete key c)) + d + Z.of_N (stored_size obj))%Z by lia.
    exact H1.
  - apply NoDup_app. split; [done|]. split; [|by apply NoDup_singleton].
    intros k Hk ->%list_elem_of_singleton. apply H3 in Hk. rewrite lookup_delete_eq in Hk. by destruct Hk.
  - intros k. rewrite elem_of_app, list_elem_of_singleton, H3, lookup_insert_is_Some. destruct (decide (k = key)); naive_solver.
Qed.

Lemma books_apply op s d :
  Books d (cached s) (order s) (used s) →
  let s' := apply op s in Books (d + drift op s) (cached s') (order s') (used s').
Proof.
  intros HB s'. unfold s'. destruct op as [key obj|key|key m]; cbn [apply drift].
  - rewrite Z.add_0_r. unfold admit_object. destruct (admit_locked key obj s) as [s1|] eqn:E; [by eapply books_admitted|done].
  - unfold purge. destruct (cached s !! key) as [v|] eqn:Ek; cbn [snd]; [|by rewrite Z.add_0_r].
    destruct (books_removed _ _ _ _ _ _ HB Ek) as [_ H2 H3]. split; [|exact H2|exact H3]. cbn [cached used with_entries].
    destruct HB as [H1 _ _]. apply (stands_sub _ _ (len (body v))) in H1. rewrite (bytes_delete _ _ _ Ek) in H1. unfold stored_size in H1.
    match type of H1 with stands_for _ ?z => match goal with |- stands_for _ ?z' => replace z' with z by lia end end. exact H1.
  - unfold update_meta. destruct (cached s !! key) as [o|] eqn:Ek; cbn; [|by rewrite Z.add_0_r].
    destruct HB as [H1 H2 H3]. split; cbn [cached order used with_entries]; [|done|].
    + pose proof (map_sum_update stored_size _ _ _ (mkStored m (body o)) Ek) as Hu.
      fold (bytes (<[key:=mkStored m (body o)]> (cached s))) in Hu. fold (bytes (cached s)) in Hu. unfold stored_size in Hu. cbn [body meta] in Hu.
      match type of H1 with stands_for _ ?z => match goal with |- stands_for _ ?z' => replace z' with z by lia end end. exact H1.
    + intros k. rewrite H3, lookup_insert_is_Some. destruct (decide (key = k)) as [<-|]; [|naive_solver]. split; [by left|by intros _; exists o].
Qed.

Lemma books_new max : Books 0 (cached (new max)) (order (new max)) (used (new max)).
Proof. split; [done|constructor|]. intros k. split; [by intros ?%elem_of_nil|]. cbn [cached new]. rewrite lookup_empty. by intros [? ?]. Qed.

Lemma runs_books max ops s d : runs max ops s d → Books d (cached s) (order s) (used s) ∧ max_bytes s = max.
Proof.
  induction 1 as [|ops s d op _ [IH1 IH2]]; [split; [apply books_new|done]|]. split; [by apply books_apply|].
  rewrite <-IH2. destruct op as [key obj|key|key m]; cbn [apply].
  - unfold admit_object, admit_locked. destruct (_ <? _); [done|]. destruct (evict _ _ _ _ _) as [[c o] u]. by destruct (c !! key).
  - unfold purge. by destruct (cached s !! key).
  - unfold update_meta. by destruct (cached s !! key).
Qed.

(** The count is off by exactly the drift: by every byte of metadata that purges
    did not give back and updates did not count, and by nothing else, whatever
    was stored, evicted or replaced in between; the queue always lists exactly
    the entries, each once. *)
Theorem books_drift max ops s d :
  runs max ops s d →
  Z.of_N (used s) = ((Z.of_N (bytes (cached s)) + d) mod Z.of_N two64)%Z
  ∧ NoDup (order s) ∧ ∀ k, k ∈ order s ↔ is_Some (cached s !! k).
Proof. by intros [[H1 H2 H3] _]%runs_books. Qed.

(** ** The budget *)

Lemma evict_less max size o c u c' o' u' : evict max size c o u = (c', o', u') → bytes c' <= bytes c.
Proof.
  revert c u. induction o as [|victim o IH]; intros c u; cbn [evict]; [by intros [= <- <- <-]|].
  destruct (_ <? _); [|by intros [= <- <- <-]]. intros H%IH. etrans; [exact H|].
  destruct (c !! victim) as [v|] eqn:E; [rewrite (bytes_delete _ _ _ E); lia|by rewrite delete_id].
Qed.

Lemma bytes_insert c key obj : bytes (<[key := obj]> c) <= stored_size obj + bytes c.
Proof.
  destruct (c !! key) as [old|] eqn:E.
  - pose proof (map_sum_update stored_size _ _ _ obj E) as H. unfold bytes. lia.
  - unfold bytes. by rewrite map_sum_insert.
Qed.

Lemma small_count u z : stands_for u (Z.of_N z + 0) → z <= U64_MAX → u = z.
Proof. unfold stands_for. intros H Hz. rewrite Z.add_0_r, Z.mod_small in H by (rewrite two64_eq; lia). lia. Qed.

Lemma admit_fits key obj s s' :
  Books 0 (cached s) (order s) (used s) → bytes (cached s) <= max_bytes s → max_bytes s <= 9223372036854775807 →
  admit_locked key obj s = Some s' → bytes (cached s') <= max_bytes s.
Proof.
  intros HB Hb Hm. unfold admit_locked. destruct (N.ltb_spec (max_bytes s) (stored_size obj)) as [|Hsz]; [done|].
  destruct (evict _ _ _ _ _) as [[c o] u] eqn:Ev. destruct (books_evict _ _ _ _ _ _ _ _ _ HB Ev) as [[K1 _ K3] Hroom].
  apply evict_less in Ev as Hless. apply small_count in K1; [|unfold U64_MAX; lia]. intros H.
  assert (cached s' = <[key := obj]> c) as -> by (destruct (c !! key); by injection H as <-).
  pose proof (bytes_insert c key obj). destruct Hroom as [->|Hroom].
  - assert (c = ∅) as ->; [|change (bytes ∅) with 0 in *; lia]. apply map_empty. intros k. apply eq_None_not_Some. intros Hk.
    by apply K3, elem_of_nil in Hk.
  - rewrite wrapping_add_small in Hroom by (unfold U64_MAX; lia). lia.
Qed.

(** As long as nothing is purged and no metadata updated, the budget holds. *)
Definition is_admit (op : Op) : Prop := match op with Admit _ _ => True | _ => False end.

Theorem fills_stay_within_budget max ops s d :
  runs max ops s d → Forall is_admit ops → max <= 9223372036854775807 →
  used s = bytes (cached s) ∧ used s <= max.
Proof.
  intros Hr Ha Hm. assert (d = 0%Z ∧ bytes (cached s) <= max) as [-> Hb].
  { induction Hr as [|ops s d op Hr IH]; [split; [done|apply N.le_0_l]|]. apply Forall_app in Ha as [Ha Hop]. apply Forall_cons in Hop as [Hop _].
    destruct op as [key obj| |]; [|done..]. destruct (IH Ha) as [-> Hb]. split; [done|]. cbn [apply]. unfold admit_object.
    destruct (runs_books _ _ _ _ Hr) as [HB <-]. destruct (admit_locked key obj s) as [s1|] eqn:E; [|done].
    by apply (admit_fits key obj s s1). }
  destruct (runs_books _ _ _ _ Hr) as [[H1 _ _] _]. apply small_count in H1; [|unfold U64_MAX; lia]. by rewrite H1.
Qed.

(** ** Following *)

(** Whatever the leader has written so far, a follower holds a prefix of it, gets
    the bytes it does not have, and is told the end only when it has them all. *)
Definition follows (got : string) (read : N) (c : Channel) : Prop :=
  written_bytes (written c) = len (content c) ∧ read <= len (content c) ∧ got = slice 0 read (content c).

Lemma slice_all s : slice 0 (len s) s = s.
Proof.
  unfold slice. rewrite N.sub_0_r. unfold len. rewrite Nat2N.id. change (N.to_nat 0) with 0%nat.
  induction s as [|a s IH]; simpl; [done|]. by rewrite IH.
Qed.

Lemma slice_app a b s : a <= b → b <= len s → slice 0 a s +:+ slice a b s = slice 0 b s.
Proof.
  unfold slice, len. rewrite !N.sub_0_r. change (N.to_nat 0) with 0%nat. intros Hab Hb.
  replace (N.to_nat (b - a)) with (N.to_nat b - N.to_nat a)%nat by lia.
  assert (N.to_nat a ≤ N.to_nat b)%nat as Hab' by lia. assert (N.to_nat b ≤ String.length s)%nat as Hb' by lia.
  clear Hab Hb. revert Hab' Hb'. generalize (N.to_nat a) (N.to_nat b). clear a b. intros a b. revert a b.
  induction s as [|x s IH]; intros a b Hab Hb; simpl in Hb.
  - assert (a = 0 ∧ b = 0)%nat as [-> ->] by lia. done.
  - destruct b as [|b]; [assert (a = 0)%nat as -> by lia; done|]. destruct a as [|a]; [done|].
    pose proof (IH a b ltac:(lia) ltac:(lia)) as E. simpl in *. by rewrite E.
Qed.

Lemma slice_prefix n s t : n <= len s → slice 0 n (s +:+ t) = slice 0 n s.
Proof.
  unfold slice, len. rewrite N.sub_0_r. change (N.to_nat 0) with 0%nat. intros Hn.
  assert (N.to_nat n ≤ String.length s)%nat as H by lia. clear Hn. revert H. generalize (N.to_nat n). clear n. intros n. revert n.
  induction s as [|x s IH]; intros n Hn; simpl in *.
  - assert (n = 0)%nat as -> by lia. by destruct t.
  - destruct n as [|n]; [done|]. by rewrite IH by lia.
Qed.

Lemma slice_length n s : (String.length (slice 0 n s) ≤ N.to_nat n)%nat.
Proof.
  unfold slice. rewrite N.sub_0_r. change (N.to_nat 0) with 0%nat. generalize (N.to_nat n). intros k. revert k.
  induction s as [|x s IH]; intros [|k]; simpl; try lia. specialize (IH k). lia.
Qed.

Theorem follower_reads_a_prefix got read c :
  follows got read c →
  match partial_read read c with
  | Chunk data read' => data ≠ EmptyString ∧ follows (got +:+ data) read' c
  | End => got = content c ∧ written_done (written c) = true
  | Wait => got = content c
  end
  ∧ ∀ id data eof s s', channels s !! id = Some c → s' = write_body id data eof s →
      ∃ c', channels s' !! id = Some c' ∧ content c' = content c +:+ data ∧ follows got read c'.
Proof.
  intros (Hw & Hr & ->). split.
  - unfold partial_read. rewrite Hw. destruct (N.ltb_spec read (len (content c))) as [Hlt|Hge].
    + assert (slice 0 read (content c) +:+ slice read (len (content c)) (content c) = content c) as Ha
        by (rewrite slice_app by (done || lia); apply slice_all).
      split; [|split; [done|split; [done|apply slice_app; [lia|done]]]].
      intros E. rewrite E, str_app_nil_r in Ha. apply (f_equal String.length) in Ha. pose proof (slice_length read (content c)).
      unfold len in Hlt. lia.
    + assert (read = len (content c)) as -> by lia. rewrite slice_all. by destruct (written_done (written c)).
  - intros id data eof s s' Hc ->. unfold write_body. rewrite Hc. cbn [channels with_fills]. rewrite lookup_insert_eq.
    eexists. split; [reflexivity|]. cbn [content written]. split; [done|]. split; [|split].
    + cbn [content written]. rewrite len_app, <-Hw. by destruct eof.
    + cbn [content]. rewrite len_app. lia.
    + symmetry. cbn [content]. apply slice_prefix; lia.
Qed.

(** ** What the drift does *)

Definition entry (n m : nat) : Stored :=
  mkStored (String.concat EmptyString (replicate m "m"), EmptyString) (String.concat EmptyString (replicate n "b")).

(** A purged entry leaves its metadata in the count of an empty store. *)
Example purge_leaks :
  let s := (purge "/a" (admit_object "/a" (entry 10 5) (new 100))).2 in entries s = 0 ∧ used s = 5.
Proof. by vm_compute. Qed.

(** An entry whose metadata grew is given back for more than it was counted: the
    store of 100 bytes then holds 145 and counts 100. *)
Example update_overshoots :
  match update_meta Some "/a" (meta (entry 0 50)) (admit_object "/a" (entry 10 5) (new 100)) with
  | Ok (_, s) =>
      let s := admit_object "/c" (entry 50 0) (admit_object "/b" (entry 95 0) s) in used s = 100 ∧ bytes (cached s) = 145
  | Err _ => False
  end.
Proof. by vm_compute. Qed.

(** Two fills that finish together: the second looks at the count before the
    first has added to it. *)
Example interleaved_fills_overshoot :
  match admit_locked "/a" (entry 60 0) (new 100) with
  | Some s =>
      match admit_locked "/b" (entry 60 0) s with
      | Some s => let s := account (entry 60 0) (account (entry 60 0) s) in used s = 120 ∧ max_bytes s = 100
      | None => False
      end
  | None => False
  end.
Proof. by vm_compute. Qed.

(** A writer that is dropped before it finishes leaves its fill in the map, so
    its followers wait for a progress that never comes. *)
Example abandoned_fill_waits :
  match get_miss_handler Some "/a" (EmptyString, EmptyString) (new 100) with
  | Ok (id, s) =>
      let s := write_body id "abc" false s in
      (temp s !! "/a" ≫= lookup id) = Some (EmptyString, EmptyString) ∧ partial_read 3 <$> channels s !! id = Some Wait
  | Err _ => False
  end.
Proof. by vm_compute. Qed.
